(* ===== verification/_CoqProject ===== *)
-Q . S2P
Prelude.v
MqttTopic.v
MqttCounter.v
MqttPacket.v
MqttClient.v
MqttStream.v
MqttSession.v
MqttClose.v
MqttReconnect.v
Keepalive.v
GoValue.v
GoStrconv.v
SpecMerge.v
SpecNode.v
GoEqual.v
SpecApp.v
SpecMessage.v
DmTypes.v
DmDevice.v
GoFloat.v
DmExpr.v
DmObserver.v
DmContext.v
DmWait.v
ProtoWire.v
MqttPb.v
FunctionPb.v
Native.v
PubSub.v
GoStrings.v
GoEncoding.v
Reflect.v
Task.v
TaskWorkers.v
Trigger.v
Plugin.v
LogConfig.v
UtilsConf.v
Http.v
HttpServer.v
Pki.v
SysContext.v
Regex.v
Validate.v
Cache.v
GoTime.v
DmFormat.v
Tomb.v
Processor.v
DmStart.v
MockFlow.v
UtilsMisc.v
DmRun.v
Subscriber.v
GoDuration.v
DmDuration.v
Defaults.v
MockHttp.v
ProtoRandom.v
DmNet.v
