(* ===== verification/Prelude.v ===== *)
(** * baetyl-go: a verification development

    baetyl-go is the library that the modules of an edge computing platform share: an MQTT
    client that keeps its connection, the shadow of a node (what it reports, what it should
    be) with its merging and diffing, a framework for the drivers of devices, and the
    plumbing of a service: configuration, logging, certificates, HTTP, caches, tasks,
    plugins, publish and subscribe. This library translates its code into executable
    definitions, function by function, and proves what they promise. Paths below are under
    src/.

    ** How Go is modelled

    A call is a value of [outcome] (this file): a result, an error, a panic, or [NoFuel] for
    a loop whose bound was too small. Integers are [Z] with the wrap-around of their width;
    strings are lists of bytes; maps are [gmap]s, where nil matters an option of one, and a
    range over a map takes an order that is a parameter. Concurrent code is a step relation
    over a shared state, and its theorems hold for everything reachable. A library that is
    not part of the repository is a parameter or a class with the laws its documentation
    gives (yaml, JSON, JSON patch, zap, gin, the MQTT packets' encoding, tomb, the tracker
    of pings, cryptography); every theorem that needs such laws has a witness with an
    instance of them. The standard library is modelled where it is used: GoValue (dynamic
    values), GoEqual (reflect.DeepEqual), Reflect (calls), GoStrconv, GoStrings, GoEncoding
    (base64, url queries), GoTime (layouts), Regex.

    ** The parts

    MQTT (mqtt/). MqttTopic: [checkTopic] against a grammar of topics. MqttCounter: packet
    identifiers. MqttPacket: packets, options, configuration. MqttClient: the reconnecting
    client of client.go, one goroutine and any number of callers, whose accepted packets
    reach connections in order. MqttStream: one connection of stream.go, its handshake, its
    receive loop and its death. MqttSession: the client with all its connections and their
    goroutines, a refinement of MqttClient. MqttClose: when [Close] can return.
    MqttReconnect: when the client connects again, its timer, back-off and callback.
    Keepalive: [pinging] with its clock. ProtoWire and MqttPb: the generated protobuf codec
    (mqtt.pb.go); ProtoRandom: its random messages and unknown fields, with those of faas/.

    Node shadows (spec/v1/). SpecMerge: [merge], [clean], [Diff], [Patch] of node.go.
    SpecNode: the typed readers and [View]. SpecApp and SpecMessage: applications, messages,
    lazy values.

    Device drivers (dmcontext/). DmTypes: the data. DmDevice: comparison, decoding, property
    values. DmExpr: mapping expressions and their inversion, over GoFloat (float64 and the
    numbers it stands for). DmFormat: [ParseValue].
    DmObserver: from topics to devices. DmContext: handlers, reports and their filter.
    DmWait: asking a device for its properties, callers and responses together. DmStart:
    [NewContext], [Run], on top of SysContext. DmDuration: durations in JSON, over
    GoDuration (package time) and GoFloat. DmRun: observer, channels and handlers together,
    from [NewContext] on, with the loop of [Start] among the steps. DmNet: these and the
    client on the network.

    Services. SysContext (context/): the context of a service, its system configuration and
    clients. UtilsConf, Defaults, LogConfig, Http, HttpServer, Pki, Validate, UtilsMisc:
    loading, defaults, logging, requests and responses, certificates, validators, errors,
    files, locks (unix and windows) and ports. FunctionPb (faas/): the codec of function
    messages. Native (native/): ports. PubSub and Processor (pubsub/): every interleaving of
    publishers and subscribers, and the goroutine that serves one channel, over the Tomb of
    utils/tomb.go; Subscriber: the two sharing a channel. Task and Trigger (task/,
    trigger/): calls by name through a queue or at once; TaskWorkers: any number of workers
    on one queue. Plugin (plugin/). Cache (cache/): stores, shared flights, cached pages.
    MockFlow and MockHttp (mock/): flows of packets, canned responses.

    How they interact: DmStart makes a driver out of SysContext's context and client
    options, DmRun feeds DmContext's handlers from DmObserver's channels, DmWait its
    responses to callers, DmNet takes the messages from the connections of MqttSession;
    MqttSession puts MqttClient on top of streams; TaskWorkers runs Task's calls; Subscriber
    gives a channel of PubSub to a Processor; SysContext uses UtilsConf to load, LogConfig
    to log, Pki to check certificates, Http and MqttPacket for its clients; Task and Trigger
    call through Reflect; Processor ends through Tomb; MqttPb and FunctionPb share
    ProtoWire; SpecNode, SpecMessage and the Dm files share GoValue.

    ** What the theorems show

    - Refinement: the task system refines a queue of calls ([Task]), the reconnecting client
      a bounded queue of packets ([MqttClient]), the client with its connections that client
      ([MqttSession]).
    - Invariants over interleavings: subscribers get what was published ([PubSub]), plugins
      exist once ([Plugin]), messages of a device are handled in order and at most once
      ([DmRun]), packet identifiers differ.
    - Safety: packets of callers reach the wires in order, after the handshake, on one
      connection at a time ([MqttSession]); replies of devices reach the one caller that
      asked ([DmWait]); acknowledged messages were offered to the channels of the
      devices, and it is said which are lost ([DmNet]); tasks are run once, by one worker ([TaskWorkers]); a connection dies once
      ([MqttStream]) and is never silent for longer than its interval, and of a missing pong
      only after an unanswered ping or a pong nobody asked for ([Keepalive]);
      attempts to connect keep to the back-off, and go on but for calls that wait for
      themselves ([MqttReconnect]); calls of a driver are
      right for their message ([DmContext]); hostile bytes do not break the decoder
      ([MqttPb]); a subscribed handler gets what was published, in order, and nothing after
      it ended ([Subscriber]); issued certificates chain to their root ([Pki]); a cache
      answers with responses of its own key ([Cache]).
    - Equivalence with a definition written without the code: topics, regular expressions,
      flows ([MqttTopic], [Validate], [MockFlow]).
    - Round trips: both protobuf codecs, durations, dates in their layouts.
    - Functional behaviour: fields of later versions are skipped ([ProtoRandom]), merging
      overlays, views, filtering of reports, inverting expressions as far as float64 rounds
      nothing ([DmExpr]), calls of tasks by their types, typed values, defaults
      ([Defaults]), allocation of ports, contexts of services and drivers.
    - Termination, liveness, bounds and errors: merging ends, publishers return, processors
      end, a closed client can end unless it waits for itself ([MqttClose]); integers of a
      property stay in their width; closing reports how it went.

    ** Bounds

    Loops that the code bounds by data run on fuel made of that data, and each is shown to
    have enough: digits of a number (its logarithm), bytes of a buffer (its length, one byte
    at least being read in a turn), PEM blocks (the length of the text), probes of ports
    (the size of the range), packets a flow waits for (their number), levels of a merge (the
    limit in the code), calls of [ParseValue] and of [stream.die] (two, which is all there
    are). [NoFuel] is excluded by theorems, or what fuel is enough is stated ([UtilsMisc]).

    ** Not modelled

    Single calls of libraries (archives, TLS options, jsoniter), which have nothing to prove
    that the library's documentation does not say; the grpc stubs, descriptors and printing
    of generated code; the transports of HTTP and MQTT, fasthttp; structs of spec/v1 that
    nothing here reads and have no operations; what is written to logs.

    ** This file

    Outcomes of Go calls, machine integers, the parts of package [strings] the components
    share, and the automation used everywhere. *)

From Stdlib Require Import ZArith Lia Ascii String.
From stdpp Require Import base option list strings gmap fin_maps relations.

#[export] Set Default Goal Selector "!".

Declare Scope go_scope.
Delimit Scope go_scope with go.

#[global] Arguments Ascii.eqb : simpl never.
#[global] Arguments String.eqb : simpl never.

(** ** Outcomes

    A Go call returns a value, returns a non-nil error, or panics.  [NoFuel] is
    the outcome of a bounded loop whose bound was too small; the components
    prove that it never appears. *)

Definition error := string.

Inductive outcome (A : Type) : Type :=
  | Ok (a : A)
  | Err (e : error)
  | Panic (why : string)
  | NoFuel.
Arguments Ok {A} a.
Arguments Err {A} e.
Arguments Panic {A} why.
Arguments NoFuel {A}.

#[export] Instance outcome_ret : MRet outcome := fun A a => Ok a.
#[export] Instance outcome_bind : MBind outcome := fun A B f m =>
  match m with
  | Ok a => f a
  | Err e => Err e
  | Panic w => Panic w
  | NoFuel => NoFuel
  end.
#[export] Instance outcome_fmap : FMap outcome := fun A B f m =>
  match m with
  | Ok a => Ok (f a)
  | Err e => Err e
  | Panic w => Panic w
  | NoFuel => NoFuel
  end.

#[export] Instance outcome_eq_dec {A} `{EqDecision A} : EqDecision (outcome A).
Proof. solve_decision. Defined.

(** [if cond { return err }] *)
Definition guard_err (b : bool) (e : error) : outcome unit :=
  if b then Err e else Ok tt.

Definition is_ok {A} (m : outcome A) : bool :=
  match m with Ok _ => true | _ => false end.

Definition panics {A} (m : outcome A) : bool :=
  match m with Panic _ => true | _ => false end.

(** A value or an error. *)
Definition plain {A} (m : outcome A) : Prop := match m with Panic _ | NoFuel => False | _ => True end.

Lemma plain_bind {A B} (m : outcome A) (f : A -> outcome B) :
  plain m -> (forall a, m = Ok a -> plain (f a)) -> plain (m ≫= f).
Proof. destruct m; cbn; auto. Qed.

Lemma outcome_bind_ok {A B} (m : outcome A) (f : A -> outcome B) b :
  (m ≫= f) = Ok b <-> exists a, m = Ok a /\ f a = Ok b.
Proof.
  split.
  - destruct m; cbn; try discriminate. eauto.
  - by intros (a & -> & ?).
Qed.

Lemma outcome_bind_ext {A B} (m : outcome A) (f g : A -> outcome B) :
  (forall a, f a = g a) -> (m ≫= f) = (m ≫= g).
Proof. intros H. destruct m; cbn; [apply H|done..]. Qed.

(** ** Machine integers

    A w-bit Go integer is the [Z] it denotes; every operation that can leave
    the range is followed by the wrap-around of its type. *)

Section words.
Local Open Scope Z_scope.

Definition uwrap (w z : Z) : Z := z mod 2 ^ w.
Definition swrap (w z : Z) : Z := (z + 2 ^ (w - 1)) mod 2 ^ w - 2 ^ (w - 1).

Definition uint16 := uwrap 16.
Definition uint32 := uwrap 32.
Definition uint64 := uwrap 64.
Definition int16 := swrap 16.
Definition int32 := swrap 32.
Definition int64 := swrap 64.

Definition in_u (w z : Z) : Prop := 0 <= z < 2 ^ w.
Definition in_s (w z : Z) : Prop := - 2 ^ (w - 1) <= z < 2 ^ (w - 1).

#[export] Instance in_u_dec w z : Decision (in_u w z).
Proof. unfold in_u. apply _. Defined.
#[export] Instance in_s_dec w z : Decision (in_s w z).
Proof. unfold in_s. apply _. Defined.

Lemma pow2_pos w : 0 <= w -> 0 < 2 ^ w.
Proof. intros. by apply Z.pow_pos_nonneg. Qed.

Lemma pow2_half w : 0 < w -> 2 ^ w = 2 * 2 ^ (w - 1).
Proof. intros. rewrite <- Z.pow_succ_r by lia. f_equal. lia. Qed.

Lemma uwrap_range w z : 0 <= w -> in_u w (uwrap w z).
Proof. intros. apply Z.mod_pos_bound, pow2_pos. lia. Qed.

Lemma uwrap_small w z : in_u w z -> uwrap w z = z.
Proof. intros. by apply Z.mod_small. Qed.

Lemma swrap_range w z : 0 < w -> in_s w (swrap w z).
Proof.
  intros. unfold in_s, swrap.
  pose proof (Z.mod_pos_bound (z + 2 ^ (w - 1)) (2 ^ w) ltac:(apply pow2_pos; lia)).
  pose proof (pow2_half w). lia.
Qed.

Lemma swrap_small w z : 0 < w -> in_s w z -> swrap w z = z.
Proof.
  intros Hw [??]. unfold swrap. pose proof (pow2_half w Hw).
  rewrite Z.mod_small; lia.
Qed.

End words.

(** ** Bytes *)

Definition byte := ascii.
Definition b2z (b : byte) : Z := Z.of_N (N_of_ascii b).
Definition z2b (z : Z) : byte := ascii_of_N (Z.to_N (z mod 256)).

Lemma b2z_range b : (0 <= b2z b < 256)%Z.
Proof. unfold b2z. pose proof (N_ascii_bounded b). lia. Qed.

Lemma z2b_b2z b : z2b (b2z b) = b.
Proof.
  unfold z2b. rewrite Z.mod_small by apply b2z_range.
  unfold b2z. rewrite N2Z.id. apply ascii_N_embedding.
Qed.

Lemma b2z_z2b z : b2z (z2b z) = (z mod 256)%Z.
Proof.
  unfold b2z, z2b. pose proof (Z.mod_pos_bound z 256 ltac:(lia)).
  rewrite N_ascii_embedding by lia. lia.
Qed.

(** ** Package strings *)

Definition len (s : string) : Z := Z.of_nat (String.length s).

Definition HasPrefix (s p : string) : bool := String.prefix p s.

Fixpoint Contains (s sub : string) : bool :=
  String.prefix sub s ||
  match s with
  | EmptyString => false
  | String _ s' => Contains s' sub
  end.

(** [strings.Split(s, sep)] for a separator of one byte. *)
Fixpoint Split (s : string) (sep : ascii) : list string :=
  match s with
  | EmptyString => [EmptyString]
  | String c s' =>
      if Ascii.eqb c sep then EmptyString :: Split s' sep
      else match Split s' sep with
           | w :: ws => String c w :: ws
           | [] => [String c EmptyString]
           end
  end.

(** [strings.Join(ss, sep)] *)
Fixpoint Join (ss : list string) (sep : string) : string :=
  match ss with
  | [] => EmptyString
  | [s] => s
  | s :: ss' => (s +:+ sep +:+ Join ss' sep)%string
  end.

(** The characters of a string, and membership. *)
Fixpoint has_char (c : ascii) (s : string) : bool :=
  match s with
  | EmptyString => false
  | String d s' => Ascii.eqb c d || has_char c s'
  end.

Definition char_str (c : ascii) : string := String c EmptyString.

Lemma Contains_char s c : Contains s (char_str c) = has_char c s.
Proof.
  induction s as [|d s IH]; [done|].
  change (Contains (String d s) (char_str c))
    with (String.prefix (char_str c) (String d s) || Contains s (char_str c)).
  rewrite IH. unfold char_str. cbn [String.prefix has_char].
  destruct (ascii_dec c d) as [->|Hne].
  - by rewrite Ascii.eqb_refl; destruct s.
  - by rewrite (proj2 (Ascii.eqb_neq c d)).
Qed.

Lemma append_nil s : "" +:+ s = s.
Proof. done. Qed.

Lemma append_cons c s t : String c s +:+ t = String c (s +:+ t).
Proof. done. Qed.

Lemma append_nil_r s : s +:+ "" = s.
Proof. induction s; [done|]. rewrite append_cons. congruence. Qed.

Lemma append_assoc s t u : (s +:+ t) +:+ u = s +:+ t +:+ u.
Proof. induction s; [done|]. rewrite !append_cons. congruence. Qed.

Lemma has_char_app c s t : has_char c (s +:+ t) = has_char c s || has_char c t.
Proof.
  induction s as [|d s IH]; [done|]. rewrite append_cons. cbn.
  by rewrite IH, orb_assoc.
Qed.

Lemma length_string_app s t :
  String.length (s +:+ t) = String.length s + String.length t.
Proof. induction s; [done|]. rewrite append_cons. cbn. congruence. Qed.

Lemma HasPrefix_spec s p : HasPrefix s p = true <-> exists t, s = p +:+ t.
Proof.
  unfold HasPrefix. revert s. induction p as [|c p IH]; intros s.
  - split; [|by destruct s]. intros _. by exists s.
  - destruct s as [|d s]; [split; [done|by intros [? ?]]|]. cbn [String.prefix].
    destruct (ascii_dec c d) as [->|Hne].
    + rewrite IH. split; intros [t Ht]; exists t; rewrite ?append_cons in *; congruence.
    + split; [done|]. intros [t Ht]. rewrite append_cons in Ht. congruence.
Qed.

Lemma Split_not_nil s sep : Split s sep <> [].
Proof.
  destruct s as [|c s]; cbn; [done|].
  destruct (Ascii.eqb c sep); [done|]. by destruct (Split s sep).
Qed.

Lemma Join_cons s ss sep :
  ss <> [] -> Join (s :: ss) sep = s +:+ sep +:+ Join ss sep.
Proof. by destruct ss. Qed.

Lemma Split_no_sep s sep : Forall (fun w => has_char sep w = false) (Split s sep).
Proof.
  induction s as [|c s IH]; cbn; [by repeat constructor|].
  destruct (Ascii.eqb c sep) eqn:E; [by constructor|].
  destruct (Split s sep) as [|w ws]; inversion_clear IH; constructor; cbn; auto.
  all: rewrite Ascii.eqb_sym, E; auto.
Qed.

(** Splitting and joining are inverse to each other. *)
Lemma Join_Split s sep : Join (Split s sep) (char_str sep) = s.
Proof.
  induction s as [|c s IH]; cbn; [done|].
  pose proof (Split_not_nil s sep) as Hne.
  destruct (Ascii.eqb c sep) eqn:E.
  - apply Ascii.eqb_eq in E as ->. rewrite Join_cons by done. by rewrite IH.
  - destruct (Split s sep) as [|w [|w' ws]]; [done| |]; cbn in *.
    + by rewrite IH.
    + rewrite append_cons. by rewrite IH.
Qed.

Lemma Split_app w s sep :
  has_char sep w = false ->
  Split (w +:+ char_str sep +:+ s) sep = w :: Split s sep.
Proof.
  induction w as [|c w IH].
  - unfold char_str. rewrite append_nil, append_cons. cbn.
    by rewrite Ascii.eqb_refl.
  - cbn [has_char]. intros [Hc Hw]%orb_false_iff. rewrite append_cons.
    cbn [Split]. by rewrite Ascii.eqb_sym, Hc, (IH Hw).
Qed.

Lemma Split_single w sep : has_char sep w = false -> Split w sep = [w].
Proof.
  induction w as [|c w IH]; cbn; [done|].
  intros [Hc Hw]%orb_false_iff. by rewrite Ascii.eqb_sym, Hc, (IH Hw).
Qed.

Lemma Split_Join ss sep :
  ss <> [] -> Forall (fun w => has_char sep w = false) ss ->
  Split (Join ss (char_str sep)) sep = ss.
Proof.
  intros Hne HF. induction HF as [|w ws Hw HF IH]; [done|].
  destruct ws as [|w' ws].
  - by apply Split_single.
  - rewrite Join_cons by done. by rewrite Split_app, IH by done.
Qed.

(** ** Step relations *)

(** An invariant of the steps holds in every state reachable from a state where
    it holds. *)
Lemma rtc_preserves {S} (step : S -> S -> Prop) (P : S -> Prop) :
  (forall s t, step s t -> P s -> P t) ->
  forall s t, rtc step s t -> P s -> P t.
Proof. intros Hstep s t. induction 1; eauto. Qed.

(** ** Automation *)

Create HintDb go discriminated.
Create Rewrite HintDb go_rw.
#[export] Hint Resolve uwrap_range swrap_range b2z_range Split_not_nil : go.
#[export] Hint Rewrite length_string_app has_char_app Contains_char append_nil append_cons : go_rw.

(** Case analysis on every condition the goal or a hypothesis tests. *)
Ltac go_cases :=
  repeat first
    [ progress simplify_eq/=
    | case_match
    | progress case_decide ].

Ltac go_auto := go_cases; auto with go; try done; try lia; eauto with go.

(** Turn boolean tests into propositions. *)
Ltac boolify :=
  repeat match goal with
  | H : _ && _ = true |- _ => apply andb_true_iff in H as [? ?]
  | H : _ || _ = false |- _ => apply orb_false_iff in H as [? ?]
  | H : negb _ = true |- _ => apply negb_true_iff in H
  | H : negb _ = false |- _ => apply negb_false_iff in H
  | H : (_ =? _)%Z = true |- _ => apply Z.eqb_eq in H
  | H : (_ =? _)%Z = false |- _ => apply Z.eqb_neq in H
  | H : (_ <? _)%Z = true |- _ => apply Z.ltb_lt in H
  | H : (_ <? _)%Z = false |- _ => apply Z.ltb_ge in H
  | H : (_ <=? _)%Z = true |- _ => apply Z.leb_le in H
  | H : (_ <=? _)%Z = false |- _ => apply Z.leb_gt in H
  | H : bool_decide _ = true |- _ => apply bool_decide_eq_true in H
  | H : bool_decide _ = false |- _ => apply bool_decide_eq_false in H
  | H : String.eqb _ _ = true |- _ => apply String.eqb_eq in H
  | H : String.eqb _ _ = false |- _ => apply String.eqb_neq in H
  end.
