(* ===== verification/MqttTopic.v ===== *)
(** * mqtt/topic.go: topic validation

    [checkTopic] is the transcription of the function of that name; [levels]
    and [valid_topic] are the grammar of MQTT topics and filters it is meant to
    recognise, written without reference to the code. *)

From Stdlib Require Import ZArith Lia Ascii String.
From stdpp Require Import base option list strings gmap fin_maps.
From S2P Require Import Prelude.

Local Open Scope string_scope.

Definition maxTopicLevels : nat := 9.
Definition maxTopicLength : Z := 255.
Definition TopicWildcard : string := "+".

(** The loop of [checkTopic] over the levels that follow a system level. *)
Fixpoint check_segments (segments : list string) (index levels : nat)
    (wildcard : bool) : bool :=
  match segments with
  | [] => true
  | segment :: rest =>
      if (1 <? len segment)%Z
         && (Contains segment "+" || Contains segment "#") then false
      else if negb wildcard && (String.eqb segment "#" || String.eqb segment "+")
      then false
      else if String.eqb segment "#" && negb (index =? levels - 1)%nat then false
      else check_segments rest (S index) levels wildcard
  end.

(** [func checkTopic(topic string, wildcard bool, sysTopics map[string]struct{}) bool] *)
Definition checkTopic (topic : string) (wildcard : bool) (sysTopics : gset string)
    : bool :=
  if String.eqb topic "" then false
  else if (maxTopicLength <? len topic)%Z || Contains topic (char_str zero)
  then false
  else
    let segments := Split topic "/" in
    let first := default "" (head segments) in
    let tail_ok (segments : list string) :=
      let levels := length segments in
      if (maxTopicLevels <? levels)%nat then false
      else check_segments segments 0 levels wildcard in
    if HasPrefix first "$" then
      if (length segments <? 2)%nat then false
      else if decide (size sysTopics = 0) then
        if Contains first "+" || Contains first "#" then false
        else tail_ok (tail segments)
      else if decide (first ∈ sysTopics) then tail_ok (tail segments)
      else false
    else tail_ok segments.

(** [func ProcessTopic(topic string, vars interface{}) (string, error)]: the topic is a
    template of text/template, which is a parameter. *)
Definition ProcessTopic {tmpl vars_t} (Parse : string -> outcome tmpl)
    (Execute : tmpl -> vars_t -> outcome string) (topic : string) (vars : vars_t) : outcome string :=
  t ← Parse topic; Execute t vars.

(** [func CheckTopic(topic string, wildcard bool) bool] *)
Definition CheckTopic (topic : string) (wildcard : bool) : bool :=
  checkTopic topic wildcard ∅.

(** [type TopicChecker struct { sysTopics map[string]struct{} }] *)
Record TopicChecker := { sysTopics : gset string }.

(** [func NewTopicChecker(sysTopics []string) *TopicChecker] *)
Definition NewTopicChecker (ts : list string) : TopicChecker :=
  {| sysTopics := foldl (fun s t => s ∪ {[t]}) ∅ ts |}.

(** [func (tc *TopicChecker) CheckTopic(topic string, wildcard bool) bool] *)
Definition TopicChecker_CheckTopic (tc : TopicChecker) (topic : string)
    (wildcard : bool) : bool :=
  checkTopic topic wildcard (sysTopics tc).

(** ** The grammar *)

Definition plain (level : string) : Prop :=
  has_char "+" level = false /\ has_char "#" level = false.

(** A sequence of levels: plain ones, [+] anywhere and [#] last when wildcards
    are allowed. *)
Inductive levels (wildcard : bool) : list string -> Prop :=
  | levels_plain_last l : plain l -> levels wildcard [l]
  | levels_hash : wildcard = true -> levels wildcard ["#"]
  | levels_plus_last : wildcard = true -> levels wildcard ["+"]
  | levels_plain l ls :
      plain l -> levels wildcard ls -> levels wildcard (l :: ls)
  | levels_plus ls :
      wildcard = true -> levels wildcard ls -> levels wildcard ("+" :: ls).

(** The first level when it starts with [$]: one of the configured system
    topics, or any wildcard-free name when none is configured. *)
Definition system_level (sys : gset string) (l : string) : Prop :=
  if decide (sys = ∅) then plain l else l ∈ sys.

Definition starts_with_dollar (l : string) : Prop := exists t, l = "$" +:+ t.

Inductive valid_topic (wildcard : bool) (sys : gset string) : string -> Prop :=
  | valid_plain t ls :
      t <> "" -> (len t <= 255)%Z -> has_char zero t = false ->
      t = Join ls "/" -> Forall (fun l => has_char "/" l = false) ls ->
      length ls <= 9 -> levels wildcard ls ->
      (forall l ls', ls = l :: ls' -> ~ starts_with_dollar l) ->
      valid_topic wildcard sys t
  | valid_system t l ls :
      (len t <= 255)%Z -> has_char zero t = false ->
      t = Join (l :: ls) "/" -> Forall (fun l => has_char "/" l = false) (l :: ls) ->
      starts_with_dollar l -> system_level sys l ->
      length ls <= 9 -> levels wildcard ls ->
      valid_topic wildcard sys t.

(** ** Lemmas *)

Lemma levels_not_nil w ls : levels w ls -> ls <> [].
Proof. by inversion 1. Qed.

Lemma plain_not_hash l : plain l -> l <> "#".
Proof. by intros [??] ->. Qed.

Lemma plain_not_plus l : plain l -> l <> "+".
Proof. by intros [??] ->. Qed.

(** A level that passes the first test of the loop is plain or a bare wildcard. *)
Lemma segment_shape s :
  (1 <? len s)%Z && (Contains s "+" || Contains s "#") = false <->
  plain s \/ s = "+" \/ s = "#".
Proof.
  change "+" with (char_str "+") at 1. change "#" with (char_str "#") at 1.
  rewrite !Contains_char. unfold plain, len. split.
  - destruct (has_char "+" s) eqn:Hp, (has_char "#" s) eqn:Hh; [..|auto].
    all: rewrite andb_true_r; intros Hl%Z.ltb_ge.
    all: destruct s as [|c [|d s]]; cbn in Hl, Hp, Hh; [done| |lia].
    all: rewrite orb_false_r in *.
    all: repeat match goal with
         | H : Ascii.eqb _ _ = true |- _ => apply Ascii.eqb_eq in H as <-
         end; auto.
  - intros [[-> ->]|[-> | ->]]; [by rewrite andb_false_r|done..].
Qed.

Lemma check_segments_levels w ls i n :
  ls <> [] -> n = i + length ls ->
  check_segments ls i n w = true <-> levels w ls.
Proof.
  revert i. induction ls as [|s ls IH]; intros i Hne ->; [done|].
  cbn [check_segments].
  destruct ((1 <? len s)%Z && _) eqn:Hshape.
  { split; [done|]. intros Hl. exfalso.
    assert (plain s \/ s = "+" \/ s = "#") as Hs by (inversion Hl; auto).
    apply segment_shape in Hs. congruence. }
  apply segment_shape in Hshape.
  assert (Hidx : (i =? i + length (s :: ls) - 1)%nat = bool_decide (ls = [])).
  { destruct ls as [|l' ls].
    - rewrite bool_decide_true by done. cbn. apply Nat.eqb_eq. lia.
    - rewrite bool_decide_false by done. cbn. apply Nat.eqb_neq. lia. }
  rewrite Hidx. clear Hidx.
  assert (Hrec : ls <> [] ->
    check_segments ls (S i) (i + length (s :: ls)) w = true <-> levels w ls).
  { intros Hls. apply IH; [done|cbn; lia]. }
  destruct Hshape as [Hpl|[-> | ->]].
  - rewrite (proj2 (String.eqb_neq s "#") (plain_not_hash _ Hpl)).
    rewrite (proj2 (String.eqb_neq s "+") (plain_not_plus _ Hpl)).
    rewrite andb_false_r. cbn [andb].
    destruct (decide (ls = [])) as [->|Hls].
    + split; [by constructor|done].
    + rewrite Hrec by done. split; [by constructor|].
      inversion 1; subst; try done; try by destruct Hpl.
  - destruct w; cbn [negb andb orb]; rewrite ?String.eqb_refl; rewrite ?(proj2 (String.eqb_neq "+" "#")) by done; cbn [andb orb negb].
    + destruct (decide (ls = [])) as [->|Hls].
      * split; [by constructor|done].
      * rewrite Hrec by done. split; [by constructor|].
        inversion 1; subst; try done.
    + split; [done|]. inversion 1; subst; try done.
      all: match goal with Hp : plain _ |- _ => by destruct Hp as [??] end.
  - destruct w; cbn [negb andb orb]; rewrite ?String.eqb_refl; rewrite ?(proj2 (String.eqb_neq "+" "#")) by done; cbn [andb orb negb].
    + case_bool_decide as Hls; cbn [negb].
      * subst. split; [by constructor|done].
      * split; [done|]. inversion 1; subst; try done.
        all: match goal with Hp : plain _ |- _ => by destruct Hp as [??] end.
    + split; [done|]. inversion 1; subst; try done.
      all: match goal with Hp : plain _ |- _ => by destruct Hp as [??] end.
Qed.

Lemma tail_check w ls :
  ls <> [] ->
  (if (maxTopicLevels <? length ls)%nat then false
   else check_segments ls 0 (length ls) w) = true <->
  length ls <= 9 /\ levels w ls.
Proof.
  intros Hne. pose proof (check_segments_levels w ls 0 (length ls) Hne eq_refl) as Hc.
  unfold maxTopicLevels. destruct (9 <? length ls)%nat eqn:E.
  - apply Nat.ltb_lt in E. split; [done|]. lia.
  - apply Nat.ltb_ge in E. rewrite Hc. tauto.
Qed.

Lemma HasPrefix_dollar l : HasPrefix l "$" = true <-> starts_with_dollar l.
Proof. apply HasPrefix_spec. Qed.

Lemma system_level_check sys l b :
  (if decide (size sys = 0) then
     if Contains l "+" || Contains l "#" then false else b
   else if decide (l ∈ sys) then b else false) = true <->
  system_level sys l /\ b = true.
Proof.
  unfold system_level, plain.
  change "+" with (char_str "+") at 1. change "#" with (char_str "#") at 1.
  rewrite !Contains_char.
  assert (size sys = 0 <-> sys = ∅) as Hs.
  { rewrite size_empty_iff. split; [apply leibniz_equiv|by intros ->]. }
  destruct (decide (size sys = 0)) as [H0|H0], (decide (sys = ∅)) as [H1|H1]; try tauto.
  - destruct (has_char "+" l), (has_char "#" l); cbn; intuition congruence.
  - case_decide; intuition congruence.
Qed.

Lemma Join_dollar l ls sep : starts_with_dollar l -> Join (l :: ls) sep <> "".
Proof. by intros [t ->]; destruct ls. Qed.

(** ** The recogniser and the grammar *)

(** The levels a topic is joined from are those it is split into. *)
Lemma joined_levels topic ls ls' :
  Split topic "/" = ls -> topic = Join ls' "/" -> ls' <> [] ->
  Forall (fun l => has_char "/" l = false) ls' -> ls' = ls.
Proof. intros <- -> Hne Hns. symmetry. by apply Split_Join. Qed.

(** The grammar on the levels a topic is split into. *)
Lemma valid_topic_split wildcard sys topic l ls :
  topic <> "" -> (len topic <= 255)%Z -> has_char zero topic = false ->
  Split topic "/" = l :: ls ->
  valid_topic wildcard sys topic <->
  (starts_with_dollar l /\ system_level sys l /\ length ls <= 9 /\ levels wildcard ls) \/
  (~ starts_with_dollar l /\ length (l :: ls) <= 9 /\ levels wildcard (l :: ls)).
Proof.
  intros He Hlen Hz Hsp.
  pose proof (Split_no_sep topic "/") as Hns. rewrite Hsp in Hns.
  pose proof (Join_Split topic "/") as Hjoin. unfold char_str in Hjoin. rewrite Hsp in Hjoin.
  split.
  - inversion 1 as [t ls' _ _ _ Ht Hns' Hn Hlv Hno|t l' ls' _ _ Ht Hns' Hd Hsl Hn Hlv]; subst t.
    + assert (ls' = l :: ls) as -> by eauto using joined_levels, levels_not_nil. eauto.
    + assert (l' :: ls' = l :: ls) as [= -> ->] by by eapply joined_levels. auto.
  - intros [(?&?&?&?)|(Hd&?&?)]; [by eapply valid_system|].
    eapply valid_plain; eauto. by intros ? ? [= <- <-].
Qed.

(** C29. [checkTopic] accepts exactly the topics of the grammar [valid_topic]:
    non-empty, at most 255 bytes, no NUL, at most nine levels after an optional
    system level, [+] and [#] only as whole levels, [#] only last, neither
    without [wildcard], and a system level that is configured (or wildcard-free
    when no system topic is configured) followed by at least one level. *)
Theorem checkTopic_spec topic wildcard sys :
  checkTopic topic wildcard sys = true <-> valid_topic wildcard sys topic.
Proof.
  unfold checkTopic. destruct (String.eqb topic "") eqn:He.
  { apply String.eqb_eq in He as ->. split; [done|].
    inversion 1 as [|t l ls _ _ Ht _ Hd]; [done|]. by destruct (Join_dollar l ls "/" Hd). }
  apply String.eqb_neq in He. rewrite Contains_char. unfold maxTopicLength.
  destruct ((255 <? len topic)%Z || has_char zero topic) eqn:Hb.
  { split; [done|]. inversion 1; subst; boolify; exfalso.
    all: apply orb_true_iff in Hb as [Hb%Z.ltb_lt|Hb]; [lia|congruence]. }
  boolify. destruct (Split topic "/") as [|l ls] eqn:Hsp; [by destruct (Split_not_nil topic "/")|].
  rewrite (valid_topic_split wildcard sys topic l ls) by (done || lia).
  cbn [head default from_option tail]. change (id l) with l.
  pose proof (HasPrefix_dollar l) as Hdollar. destruct (HasPrefix l "$").
  - destruct ls as [|l2 ls].
    { split; [done|]. intros [(_&_&_&Hlv)|(Hd&_)]; [by inversion Hlv|]. by destruct Hd; apply Hdollar. }
    change (length (l :: l2 :: ls) <? 2)%nat with false. cbv iota.
    rewrite system_level_check, tail_check by done. tauto.
  - rewrite tail_check by done.
    assert (~ starts_with_dollar l) by (rewrite <- Hdollar; congruence). tauto.
Qed.

Lemma levels_no_wildcard ls c :
  levels false ls -> c = "+"%char \/ c = "#"%char ->
  Forall (fun l => has_char c l = false) ls.
Proof.
  intros H Hc. remember false as w eqn:Hw.
  induction H; subst; try done; constructor; auto.
  all: match goal with Hp : plain _ |- _ => destruct Hp as [??] end.
  all: by destruct Hc as [-> | ->].
Qed.

Lemma has_char_Join c sep ls :
  has_char c sep = false -> Forall (fun l => has_char c l = false) ls ->
  has_char c (Join ls sep) = false.
Proof.
  intros Hs HF. induction HF as [|l ls Hl HF IH]; [done|].
  destruct ls; [done|]. rewrite Join_cons by done.
  by rewrite !has_char_app, Hl, Hs, IH.
Qed.

Lemma NewTopicChecker_elem ts t : t ∈ sysTopics (NewTopicChecker ts) <-> t ∈ ts.
Proof.
  cbn. enough (forall s : gset string, t ∈ foldl (fun s t => s ∪ {[t]}) s ts <->
    t ∈ s \/ t ∈ ts) as H by (rewrite H; set_solver).
  induction ts as [|t' ts IH]; intros s; cbn; [set_solver|]. rewrite IH. set_solver.
Qed.

(** A topic checker built from a list of system topics none of which holds a
    wildcard accepts, for publishing ([wildcard = false]), no topic with a [+]
    or a [#] in it: what it lets through names exactly one topic. *)
Theorem publish_topic_has_no_wildcard ts topic c :
  Forall plain ts -> c = "+"%char \/ c = "#"%char ->
  TopicChecker_CheckTopic (NewTopicChecker ts) topic false = true ->
  has_char c topic = false.
Proof.
  intros Hts Hc Hok. apply checkTopic_spec in Hok.
  assert (Hsep : has_char c "/" = false) by (by destruct Hc as [-> | ->]).
  assert (Hpl : forall l, plain l -> has_char c l = false)
    by (intros l []; by destruct Hc as [-> | ->]).
  inversion Hok as [t ls _ _ _ -> _ _ Hlv _|t l ls _ _ -> _ _ Hsys _ Hlv];
    apply has_char_Join; eauto using levels_no_wildcard.
  constructor; [|by eapply levels_no_wildcard]. apply Hpl.
  unfold system_level in Hsys. case_decide; [done|].
  eapply Forall_forall in Hts; [done|]. by apply NewTopicChecker_elem.
Qed.

Lemma publish_topic_has_no_wildcard_witness :
  TopicChecker_CheckTopic (NewTopicChecker ["$baidu"; "$link"]) "$link/svc/a" false = true
  /\ has_char "+" "$link/svc/a" = false.
Proof.
  split; [vm_compute; reflexivity|].
  apply (publish_topic_has_no_wildcard ["$baidu"; "$link"]).
  - by repeat constructor.
  - by left.
  - vm_compute. reflexivity.
Defined.

(** Rows of the table of mqtt/topic_test.go. *)
Example CheckTopic_rows :
  CheckTopic "$baidu/a/b/c/d/e/f/g/h/i" true = true /\
  CheckTopic "a/b/c/d/e/f/g/h/i/" false = false /\
  CheckTopic "$SYS" true = false /\
  CheckTopic "#/+" true = false /\
  CheckTopic "$baidu/+/#" true = true /\
  TopicChecker_CheckTopic (NewTopicChecker ["$baidu"; "$link"]) "$SYS/#" true = false.
Proof. vm_compute. tauto. Qed.
