(* ===== verification/MqttCounter.v ===== *)
(** * mqtt/counter.go: packet identifiers

    The counter hands out 16-bit packet identifiers and skips 0 on wrap-around. *)

From Stdlib Require Import ZArith Lia.
From stdpp Require Import base list.
From S2P Require Import Prelude.

Local Open Scope Z_scope.

(** [type Counter struct { next ID; mutex sync.Mutex }]: every method runs with
    the mutex held, so a method is one atomic step on [next]. *)
Record Counter := { next : Z }.

(** [func NextCounterID(id ID) ID], [ID] being [uint16] *)
Definition NextCounterID (id : Z) : Z :=
  let id := uint16 (id + 1) in
  if id =? 0 then uint16 (id + 1) else id.

(** [func NewCounterWithNext(next ID) *Counter] *)
Definition NewCounterWithNext (n : Z) : Counter := {| next := n |}.

(** [func NewCounter() *Counter] *)
Definition NewCounter : Counter := NewCounterWithNext 1.

(** [func (c *Counter) NextID() ID] *)
Definition NextID (c : Counter) : Z * Counter :=
  let id := next c in
  (id, {| next := NextCounterID id |}).

(** [func (c *Counter) GetNextID() ID] *)
Definition GetNextID (c : Counter) : Z := next c.

(** [func (c *Counter) Reset()] *)
Definition Counter_Reset (c : Counter) : Counter := {| next := 1 |}.

(** The identifiers of [n] successive calls of [NextID]. *)
Fixpoint take_ids (n : nat) (c : Counter) : list Z * Counter :=
  match n with
  | O => ([], c)
  | S n => let '(id, c) := NextID c in
           let '(ids, c) := take_ids n c in (id :: ids, c)
  end.

Definition valid_id (id : Z) : Prop := 1 <= id <= 65535.

Lemma NextCounterID_closed id : valid_id id -> NextCounterID id = id mod 65535 + 1.
Proof.
  unfold valid_id, NextCounterID, uint16, uwrap. intros Hid.
  destruct (decide (id = 65535)) as [->|]; [done|].
  change (2 ^ 16) with 65536.
  rewrite (Z.mod_small (id + 1)) by lia. rewrite (Z.mod_small id) by lia.
  destruct (Z.eqb_spec (id + 1) 0); lia.
Qed.

Lemma NextCounterID_valid id : valid_id id -> valid_id (NextCounterID id).
Proof.
  intros H. rewrite NextCounterID_closed by done. unfold valid_id.
  pose proof (Z.mod_pos_bound id 65535). lia.
Qed.

Lemma take_ids_lookup n c i :
  valid_id (next c) -> (i < n)%nat ->
  (take_ids n c).1 !! i = Some ((next c - 1 + Z.of_nat i) mod 65535 + 1).
Proof.
  revert c i. induction n as [|n IH]; intros c i Hc Hi; [lia|].
  cbn. destruct (take_ids n _) as [ids c'] eqn:E. cbn [fst].
  destruct i as [|i]; cbn [lookup list_lookup].
  - f_equal. unfold valid_id in Hc. rewrite Z.mod_small by lia. lia.
  - specialize (IH {| next := NextCounterID (next c) |} i).
    rewrite E in IH. cbn in IH.
    etransitivity; [apply IH; [by apply NextCounterID_valid|lia]|].
    rewrite NextCounterID_closed by done. do 2 f_equal.
    rewrite Z.add_simpl_r, Zplus_mod_idemp_l. f_equal. lia.
Qed.

(** C33. Starting from an identifier in 1..65535, the identifiers handed out are
    never 0 and stay in 16 bits, and two calls of [NextID] fewer than 65535
    calls apart return different identifiers: an identifier is reused only
    after all the others. *)
Theorem packet_ids_distinct n c i j x y :
  valid_id (next c) ->
  (take_ids n c).1 !! i = Some x -> (take_ids n c).1 !! j = Some y ->
  (i < j)%nat -> Z.of_nat j - Z.of_nat i < 65535 ->
  valid_id x /\ valid_id y /\ x <> y.
Proof.
  intros Hc Hi Hj Hij Hd.
  assert (Hlen : length (take_ids n c).1 = n).
  { clear. revert c. induction n as [|n IH]; intros c; [done|]. cbn.
    specialize (IH {| next := NextCounterID (next c) |}).
    destruct (take_ids n _). cbn in *. lia. }
  pose proof (lookup_lt_Some _ _ _ Hj) as Hjn. rewrite Hlen in Hjn.
  rewrite take_ids_lookup in Hi by (done || lia).
  rewrite take_ids_lookup in Hj by (done || lia).
  injection Hi as <-. injection Hj as <-. unfold valid_id.
  pose proof (Z.mod_pos_bound (next c - 1 + Z.of_nat i) 65535).
  pose proof (Z.mod_pos_bound (next c - 1 + Z.of_nat j) 65535).
  repeat split; try lia. intros Heq.
  assert (Hmod : (next c - 1 + Z.of_nat i) mod 65535 = (next c - 1 + Z.of_nat j) mod 65535)
    by lia.
  pose proof (Z.div_mod (next c - 1 + Z.of_nat i) 65535).
  pose proof (Z.div_mod (next c - 1 + Z.of_nat j) 65535). nia.
Qed.

Lemma packet_ids_distinct_witness :
  valid_id 1 /\ valid_id 4 /\ 1 <> 4.
Proof.
  apply (packet_ids_distinct 5 (NewCounterWithNext 65535) 1 4); try reflexivity; try lia.
  unfold valid_id. cbn. lia.
Defined.
