(* ===== verification/MqttPacket.v ===== *)
(** * mqtt/gomqtt.go and mqtt/options.go: packets, options and configuration

    gomqtt.go renames the packets and constants of the MQTT library; the fields
    modelled are the ones the package reads or writes.  options.go holds the
    client's options and their construction from the configuration. *)

From Stdlib Require Import ZArith Lia Ascii String.
From stdpp Require Import base option list strings.
From S2P Require Import Prelude.

Local Open Scope string_scope.
Local Open Scope Z_scope.
Local Open Scope list_scope.

(** QoS levels are bytes: [QOSAtMostOnce], [QOSAtLeastOnce], [QOSExactlyOnce]
    and the failure code of a subscription. *)
Definition QOSAtMostOnce : Z := 0.
Definition QOSAtLeastOnce : Z := 1.
Definition QOSExactlyOnce : Z := 2.
Definition QOSFailure : Z := 128.

(** Conversion [QOS(x)] of a [uint32] to the byte type of QoS levels. *)
Definition toQOS (x : Z) : Z := uwrap 8 x.

(** [ConnackCode] values, 0 being [ConnectionAccepted]. *)
Inductive ConnackCode :=
  | ConnectionAccepted
  | InvalidProtocolVersion
  | IdentifierRejected
  | ServerUnavailable
  | BadUsernameOrPassword
  | NotAuthorized.

#[export] Instance ConnackCode_eq_dec : EqDecision ConnackCode.
Proof. solve_decision. Defined.

(** An application message and a topic subscription. *)
Record PubMessage := {
  Topic : string;
  Payload : list byte;
  QOS : Z;
  Retain : bool }.

Record Subscription := { sub_Topic : string; sub_QOS : Z }.

#[export] Instance PubMessage_eq_dec : EqDecision PubMessage.
Proof. solve_decision. Defined.
#[export] Instance Subscription_eq_dec : EqDecision Subscription.
Proof. solve_decision. Defined.

(** The fields of a Connect packet the client fills in. *)
Record ConnectPacket := {
  conn_ClientID : string;
  conn_KeepAlive : Z;
  conn_CleanSession : bool;
  conn_Username : string;
  conn_Password : string;
  conn_Version : Z }.

#[export] Instance ConnectPacket_eq_dec : EqDecision ConnectPacket.
Proof. solve_decision. Defined.

(** [type Packet = packet.Generic] *)
Inductive Packet :=
  | Connect (c : ConnectPacket)
  | Connack (code : ConnackCode)
  | Publish (ID : Z) (Dup : bool) (Message : PubMessage)
  | Puback (ID : Z)
  | Subscribe (ID : Z) (subs : list Subscription)
  | Suback (ID : Z) (ReturnCodes : list Z)
  | Unsubscribe (ID : Z) (topics : list string)
  | Unsuback (ID : Z)
  | Pingreq
  | Pingresp
  | Disconnect.

#[export] Instance Packet_eq_dec : EqDecision Packet.
Proof. solve_decision. Defined.

(** [func NewConnect() *Connect]: a clean session of MQTT 3.1.1 *)
Definition NewConnect : ConnectPacket :=
  {| conn_ClientID := ""; conn_KeepAlive := 0; conn_CleanSession := true;
     conn_Username := ""; conn_Password := ""; conn_Version := 4 |}.

(** The other constructors of packets leave every field zero. *)
Definition NewPublish : Packet :=
  Publish 0 false {| Topic := ""; Payload := []; QOS := 0; Retain := false |}.
Definition NewPuback : Packet := Puback 0.
Definition NewSubscribe : Packet := Subscribe 0 [].
Definition NewSuback : Packet := Suback 0 [].
Definition NewUnsuback : Packet := Unsuback 0.
Definition NewPingreq : Packet := Pingreq.
Definition NewPingresp : Packet := Pingresp.
Definition NewUnsubscribe : Packet := Unsubscribe 0 [].
Definition NewConnack : Packet := Connack ConnectionAccepted.
Definition NewDisconnect : Packet := Disconnect.

(** What [GetTLSCommonName] sees of a connection: the kind of transport with the
    connection inside it, and of a TLS connection the state of its handshake with
    the common names of the peer's certificates. *)
Record ConnectionState := {
  HandshakeComplete : bool;
  PeerCertificates : list string }.

Inductive inner_conn := TLSConn (state : ConnectionState) | OtherConn.

Inductive Connection :=
  | NetConn (inner : inner_conn)
  | WebSocketConn (inner : inner_conn)
  | OtherTransport.

(** [func GetTLSCommonName(conn Connection) (string, bool)] *)
Definition GetTLSCommonName (conn : Connection) : string * bool :=
  let inner := match conn with
               | NetConn i | WebSocketConn i => i
               | OtherTransport => OtherConn
               end in
  match inner with
  | OtherConn => ("", false)
  | TLSConn state =>
      if negb (HandshakeComplete state) then ("", false)
      else match last (PeerCertificates state) with
           | None => ("", false)
           | Some cn => (cn, true)
           end
  end.

(** ** mqtt/observer.go

    [ObserverWrapper]: callbacks that may be nil. *)
Record ObserverWrapper := {
  ow_onPublish : option (Packet -> option error);
  ow_onPuback : option (Packet -> option error);
  ow_onError : option (error -> unit) }.

Definition NewObserverWrapper p a e : ObserverWrapper :=
  {| ow_onPublish := p; ow_onPuback := a; ow_onError := e |}.

Definition OnPublish (h : ObserverWrapper) (pkt : Packet) : option error :=
  match ow_onPublish h with None => None | Some f => f pkt end.
Definition OnPuback (h : ObserverWrapper) (pkt : Packet) : option error :=
  match ow_onPuback h with None => None | Some f => f pkt end.
Definition OnError (h : ObserverWrapper) (err : error) : unit :=
  match ow_onError h with None => tt | Some f => f err end.

(** [func MatchTopicQOS(t *Trie, topic string) (bool, uint32)], on the list [ss]
    of the QoS levels that [t.Match(topic)] returns. *)
Definition MatchTopicQOS (ss : list Z) : bool * Z :=
  let fix loop (ss : list Z) (qos : Z) : Z :=
    match ss with
    | [] => qos
    | us :: ss => if us <? qos then us else loop ss qos
    end in
  (negb (bool_decide (length ss = 0%nat)), loop ss 1).

(** ** Options *)

(** A TLS certificate configuration: [utils.Certificate]. *)
Record Certificate := {
  CA : string;
  Key : string;
  Cert : string;
  Name : string;
  InsecureSkipVerify : bool;
  ClientAuthType : Z }.

Section options.
(** [*tls.Config] and [utils.NewTLSConfigClient], which reads the files of a
    certificate through a TLS library. *)
Context {tls_Config : Type} (NewTLSConfigClient : Certificate -> outcome tls_Config).

(** [type ClientOptions struct]; durations are in nanoseconds. *)
Record ClientOptions := {
  Address : string;
  Username : string;
  Password : string;
  TLSConfig : option tls_Config;
  ClientID : string;
  CleanSession : bool;
  Timeout : Z;
  KeepAlive : Z;
  MaxReconnectInterval : Z;
  MaxMessageSize : Z;
  MaxCacheMessages : Z;
  Subscriptions : list Subscription;
  DisableAutoAck : bool }.

Definition second : Z := 1000000000.
Definition minute : Z := 60 * second.

(** [func NewClientOptions() *ClientOptions] *)
Definition NewClientOptions : ClientOptions :=
  {| Address := ""; Username := ""; Password := ""; TLSConfig := None;
     ClientID := ""; CleanSession := false;
     Timeout := 30 * second; KeepAlive := 3 * minute;
     MaxReconnectInterval := 3 * minute;
     MaxMessageSize := 4 * 1024 * 1024; MaxCacheMessages := 10;
     Subscriptions := []; DisableAutoAck := false |}.

(** [type QOSTopic struct] *)
Record QOSTopic := { qt_QOS : Z; qt_Topic : string }.

(** [type ClientConfig struct] *)
Record ClientConfig := {
  cc_Address : string;
  cc_Username : string;
  cc_Password : string;
  cc_ClientID : string;
  cc_CleanSession : bool;
  cc_Timeout : Z;
  cc_KeepAlive : Z;
  cc_MaxReconnectInterval : Z;
  cc_MaxCacheMessages : Z;
  cc_DisableAutoAck : bool;
  cc_Subscriptions : list QOSTopic;
  cc_Certificate : Certificate }.

(** [func (cc ClientConfig) ToClientOptions()], returning client options or an error *)
Definition ToClientOptions (cc : ClientConfig) : outcome ClientOptions :=
  let c := cc_Certificate cc in
  tls ← (if negb (String.eqb (Key c) "") || negb (String.eqb (Cert c) "")
         then Some <$> NewTLSConfigClient c
         else Ok None);
  Ok {| Address := cc_Address cc;
        Username := cc_Username cc;
        Password := cc_Password cc;
        TLSConfig := tls;
        ClientID := cc_ClientID cc;
        CleanSession := cc_CleanSession cc;
        Timeout := cc_Timeout cc;
        KeepAlive := cc_KeepAlive cc;
        MaxReconnectInterval := cc_MaxReconnectInterval cc;
        MaxMessageSize := 0;
        MaxCacheMessages := cc_MaxCacheMessages cc;
        Subscriptions :=
          (fun t => {| sub_Topic := qt_Topic t; sub_QOS := toQOS (qt_QOS t) |})
            <$> cc_Subscriptions cc;
        DisableAutoAck := cc_DisableAutoAck cc |}.

End options.
Arguments ClientOptions : clear implicits.
Arguments ToClientOptions {tls_Config} NewTLSConfigClient cc.

Lemma MatchTopicQOS_min ss :
  Forall (fun q => 0 <= q) ss ->
  MatchTopicQOS ss = (negb (bool_decide (ss = [])), foldr Z.min 1 ss).
Proof.
  intros Hs. unfold MatchTopicQOS. f_equal.
  - f_equal. apply bool_decide_ext. by destruct ss.
  - induction Hs as [|q ss Hq Hs IH]; [done|]. cbn.
    assert (Hle : foldr Z.min 1 ss <= 1) by (clear; induction ss; cbn; lia).
    assert (H0 : 0 <= foldr Z.min 1 ss).
    { clear -Hs. induction Hs; cbn; lia. }
    destruct (q <? 1) eqn:E; boolify; [lia|]. rewrite IH. lia.
Qed.
