(* ===== verification/MqttClient.v ===== *)
(** * mqtt/client.go: the reconnecting client

    [Client.connecting] and [stream.sending] form one goroutine that takes
    packets out of the cache channel and hands them to the current connection;
    any number of goroutines call [Publish], [Send], [SendOrDrop] and [Close].
    The interleavings are the step relation [step]; the goroutine's position in
    the two functions is [pc].  The packets accepted by [Send] and those a
    connection took are recorded beside the state, to state what the client
    promises about them. *)

From Stdlib Require Import ZArith Lia String.
From stdpp Require Import base option list strings relations.
From S2P Require Import Prelude MqttPacket MqttCounter.

Local Open Scope Z_scope.

(** [func (c *Client) Publish(qos, topic, payload, pid, retain, dup)], up to the
    call of [Send]: the packet to send and the counter afterwards. *)
Definition Client_Publish (ids : Counter) (qos : Z) (topic : string)
    (payload : list byte) (pid : Z) (retain dup : bool) : Packet * Counter :=
  let msg := {| Topic := topic; Payload := payload; QOS := qos; Retain := retain |} in
  if negb (qos =? 0) && (pid =? 0) then
    let '(id, ids) := NextID ids in (Publish id dup msg, ids)
  else (Publish pid dup msg, ids).

(** [func (c *Client) ResetClient(ops *ClientOptions)]: the options of the next connection. *)
Definition ResetClient {C} (ops new : ClientOptions C) : ClientOptions C :=
  {| Address := Address ops; Username := Username new; Password := Password new;
     TLSConfig := TLSConfig ops; ClientID := ClientID new; CleanSession := CleanSession ops;
     Timeout := Timeout ops; KeepAlive := KeepAlive ops;
     MaxReconnectInterval := MaxReconnectInterval ops; MaxMessageSize := MaxMessageSize ops;
     MaxCacheMessages := MaxCacheMessages ops; Subscriptions := Subscriptions ops;
     DisableAutoAck := DisableAutoAck ops |}.

(** The position of the goroutine: [Waiting] at the select of [connecting],
    [Connecting] inside [Client.connect]; in [sending], [Resending p] inside the
    first [send], [Selecting] at the select of its loop, [Sending p] inside the
    [send] of the loop; [Stopped] after [connecting] returned. *)
Inductive PC :=
  | Waiting
  | Connecting
  | Resending (p : Packet)
  | Selecting
  | Sending (p : Packet)
  | Stopped.

Record Client := {
  cache : list Packet;          (* chan Packet, oldest first *)
  dying : bool;                 (* c.tomb *)
  pc : PC;
  curr : option Packet;         (* the variable of connecting *)
  stream_dying : bool;          (* s.tomb of the current stream *)
  accepted : list Packet;       (* packets Send or SendOrDrop put in the cache *)
  dropped : list Packet;        (* packets SendOrDrop refused with a warning *)
  sent : list Packet }.         (* packets conn.Send returned nil for *)

Definition set_loop (c : Client) (p : PC) (k : option Packet) : Client :=
  {| cache := cache c; dying := dying c; pc := p; curr := k;
     stream_dying := stream_dying c; accepted := accepted c;
     dropped := dropped c; sent := sent c |}.
Definition set_cache (c : Client) (l : list Packet) : Client :=
  {| cache := l; dying := dying c; pc := pc c; curr := curr c;
     stream_dying := stream_dying c; accepted := accepted c;
     dropped := dropped c; sent := sent c |}.
Definition set_dying (c : Client) : Client :=
  {| cache := cache c; dying := true; pc := pc c; curr := curr c;
     stream_dying := stream_dying c; accepted := accepted c;
     dropped := dropped c; sent := sent c |}.
Definition set_stream_dying (c : Client) (b : bool) : Client :=
  {| cache := cache c; dying := dying c; pc := pc c; curr := curr c;
     stream_dying := b; accepted := accepted c;
     dropped := dropped c; sent := sent c |}.
Definition accept (c : Client) (p : Packet) : Client :=
  {| cache := cache c; dying := dying c; pc := pc c; curr := curr c;
     stream_dying := stream_dying c; accepted := accepted c ++ [p];
     dropped := dropped c; sent := sent c |}.
Definition drop_pkt (c : Client) (p : Packet) : Client :=
  {| cache := cache c; dying := dying c; pc := pc c; curr := curr c;
     stream_dying := stream_dying c; accepted := accepted c;
     dropped := dropped c ++ [p]; sent := sent c |}.
Definition deliver (c : Client) (p : Packet) : Client :=
  {| cache := cache c; dying := dying c; pc := pc c; curr := curr c;
     stream_dying := stream_dying c; accepted := accepted c;
     dropped := dropped c; sent := sent c ++ [p] |}.

(** [func NewClient(ops *ClientOptions) *Client], and [Start]. *)
Definition NewClient : Client :=
  {| cache := []; dying := false; pc := Waiting; curr := None;
     stream_dying := false; accepted := []; dropped := []; sent := [] |}.

Section steps.
(** [ops.MaxCacheMessages], the capacity of the channel. *)
Context (cap : nat).

(** [Send]: a buffered channel takes the packet when it has room; an unbuffered
    one when the goroutine is at its select. *)
Inductive send_step (c : Client) (p : Packet) : Client -> Prop :=
  | Send_cached :
      (length (cache c) < cap)%nat ->
      send_step c p (accept (set_cache c (cache c ++ [p])) p)
  | Send_rendezvous :
      cap = 0%nat -> pc c = Selecting ->
      send_step c p (accept (set_loop c (Sending p) (curr c)) p).

(** [Send] may return [ErrClientAlreadyClosed] once the tomb is dying. *)
Definition send_may_fail (c : Client) : Prop := dying c = true.

(** The steps of the goroutine running [connecting]. *)
Inductive loop_step (c : Client) : Client -> Prop :=
  | L_stop :
      pc c = Waiting -> dying c = true -> loop_step c (set_loop c Stopped (curr c))
  | L_timer :
      pc c = Waiting -> loop_step c (set_loop c Connecting (curr c))
  | L_connect_failed :
      pc c = Connecting -> loop_step c (set_loop c Waiting (curr c))
  | L_connected :
      pc c = Connecting ->
      loop_step c
        (set_stream_dying
           (set_loop c (match curr c with Some p => Resending p | None => Selecting end)
              (curr c)) false)
  | L_resent p :
      pc c = Resending p -> loop_step c (deliver (set_loop c Selecting None) p)
  | L_resend_failed p :
      pc c = Resending p -> loop_step c (set_loop c Waiting (Some p))
  | L_take p l :
      pc c = Selecting -> cache c = p :: l ->
      loop_step c (set_cache (set_loop c (Sending p) (curr c)) l)
  | L_sent p :
      pc c = Sending p -> loop_step c (deliver (set_loop c Selecting None) p)
  | L_send_failed p :
      pc c = Sending p -> loop_step c (set_loop c Waiting (Some p))
  | L_client_dying :
      pc c = Selecting -> dying c = true -> loop_step c (set_loop c Waiting None)
  | L_stream_dying :
      pc c = Selecting -> stream_dying c = true -> loop_step c (set_loop c Waiting None).

(** All the goroutines.  [SendOrDrop] drops the packet when neither the channel
    nor the tomb is ready. *)
Inductive step : Client -> Client -> Prop :=
  | step_send c p c' : send_step c p c' -> step c c'
  | step_send_or_drop c p c' : send_step c p c' -> step c c'
  | step_dropped c p :
      (cap <= length (cache c))%nat -> ~ (cap = 0%nat /\ pc c = Selecting) ->
      dying c = false -> step c (drop_pkt c p)
  | step_closed c : send_may_fail c -> step c c
  | step_close c : step c (set_dying c)
  | step_stream_dies c : step c (set_stream_dying c true)
  | step_loop c c' : loop_step c c' -> step c c'.

(** ** What the client promises *)

(** The packet the goroutine holds, taken from the cache and not yet on a
    connection. *)
Definition held (c : Client) : list Packet :=
  match pc c with
  | Waiting | Connecting | Stopped => option_list (curr c)
  | Resending p | Sending p => [p]
  | Selecting => []
  end.

Record client_inv (c : Client) : Prop := {
  inv_order : accepted c = sent c ++ held c ++ cache c;
  inv_bound : (length (cache c) <= cap)%nat;
  inv_resend : forall p, pc c = Resending p -> curr c = Some p }.

Lemma inv_new : client_inv NewClient.
Proof. split; cbn; [done|lia|done]. Qed.

Lemma send_step_inv c p c' : send_step c p c' -> client_inv c -> client_inv c'.
Proof.
  intros Hs [Ho Hb Hr]. destruct Hs as [Hlt|Hcap Hpc]; split; cbn in *.
  - rewrite Ho, !app_assoc. done.
  - rewrite length_app. cbn. lia.
  - done.
  - assert (cache c = []) as Hc by (destruct (cache c); [done|cbn in *; lia]).
    unfold held in *. cbn. rewrite Ho, Hpc, Hc, !app_nil_r. done.
  - done.
  - congruence.
Qed.

Lemma loop_step_inv c c' : loop_step c c' -> client_inv c -> client_inv c'.
Proof.
  intros Hs [Ho Hb Hr].
  assert (Hres : forall p, pc c = Resending p -> curr c = Some p) by done.
  destruct Hs; split; unfold held in *; cbn in *;
    repeat match goal with
    | H : pc c = _ |- _ => rewrite H in Ho; clear H
    | H : cache c = _ |- _ => rewrite H in *; clear H
    end; cbn in *; try congruence; try lia.
  all: try (rewrite Ho, <- ?app_assoc; done).
  all: destruct (curr c); cbn in *; congruence.
Qed.

Lemma step_inv c c' : step c c' -> client_inv c -> client_inv c'.
Proof.
  destruct 1; eauto using send_step_inv, loop_step_inv.
  all: by intros [Ho Hb Hr]; split.
Qed.

Lemma reachable_inv c : rtc step NewClient c -> client_inv c.
Proof. intros H. eapply rtc_preserves; eauto using step_inv, inv_new. Qed.

(** Packets go out on connections in the order [Send] accepted them, with no
    packet skipped and none handed over twice, whatever connections fail in
    between: those sent, the one the goroutine holds and those in the cache make
    up exactly the accepted ones. *)

(** In every reachable state the packets the connections took are a prefix of
    the packets [Send] accepted, in order and without duplicates or gaps; the
    rest is the packet the goroutine holds for the next connection, if any,
    followed by the cache, which never exceeds its capacity. *)
Theorem client_fifo c :
  rtc step NewClient c ->
  accepted c = sent c ++ held c ++ cache c /\
  (length (held c) <= 1)%nat /\ (length (cache c) <= cap)%nat.
Proof.
  intros [Ho Hb _]%reachable_inv. repeat split; [done| |done].
  unfold held. destruct (pc c); cbn; try lia; destruct (curr c); cbn; lia.
Qed.

(** ** The queue the client stands for *)

(** Packets in the order they were put in, with what happened to each recorded. *)
Record Queue := {
  items : list Packet;
  closed : bool;
  q_accepted : list Packet;
  q_dropped : list Packet;
  q_sent : list Packet }.

Definition empty_queue : Queue :=
  {| items := []; closed := false; q_accepted := []; q_dropped := []; q_sent := [] |}.

Inductive q_step (q : Queue) : Queue -> Prop :=
  (* there is room for one packet more than the capacity: the one on its way out *)
  | Q_put p : (length (items q) <= cap)%nat ->
      q_step q {| items := items q ++ [p]; closed := closed q; q_accepted := q_accepted q ++ [p];
                  q_dropped := q_dropped q; q_sent := q_sent q |}
  | Q_get p l : items q = p :: l ->
      q_step q {| items := l; closed := closed q; q_accepted := q_accepted q;
                  q_dropped := q_dropped q; q_sent := q_sent q ++ [p] |}
  (* only an open queue that holds its capacity refuses a packet *)
  | Q_refuse p : (cap <= length (items q))%nat -> closed q = false ->
      q_step q {| items := items q; closed := closed q; q_accepted := q_accepted q;
                  q_dropped := q_dropped q ++ [p]; q_sent := q_sent q |}
  | Q_close :
      q_step q {| items := items q; closed := true; q_accepted := q_accepted q;
                  q_dropped := q_dropped q; q_sent := q_sent q |}.

Definition queue_of (c : Client) : Queue :=
  {| items := held c ++ cache c; closed := dying c; q_accepted := accepted c;
     q_dropped := dropped c; q_sent := sent c |}.

Lemma held_length c : (length (held c) <= 1)%nat.
Proof. unfold held. destruct (pc c); cbn; try lia; destruct (curr c); cbn; lia. Qed.

(** Every step of the client is a step of the queue, or none. *)
Definition simulated (c c' : Client) : Prop := queue_of c' = queue_of c \/ q_step (queue_of c) (queue_of c').

Lemma send_step_simulated c p c' : send_step c p c' -> client_inv c -> simulated c c'.
Proof.
  intros Hs Hi. pose proof (held_length c) as Hl. right. destruct Hs as [Hlt|Hcap Hpc].
  - unfold queue_of. change (held (accept _ p)) with (held c). cbn. rewrite app_assoc.
    apply (Q_put (queue_of c)). cbn. rewrite length_app. lia.
  - assert (cache c = []) as Hc by (pose proof (inv_bound c Hi); destruct (cache c); [done|cbn in *; lia]).
    assert (held c = []) as Hh by (unfold held; by rewrite Hpc).
    assert (Hi0 : items (queue_of c) = []) by (cbn; by rewrite Hc, Hh).
    pose proof (Q_put (queue_of c) p) as Hq. rewrite Hi0 in Hq.
    unfold queue_of at 2. unfold held. cbn. rewrite Hc. apply Hq. cbn. lia.
Qed.

Lemma loop_step_simulated c c' : loop_step c c' -> client_inv c -> simulated c c'.
Proof.
  intros Hs Hi. pose proof (inv_resend c Hi) as Hres.
  assert (Hsent : forall p, held c = [p] -> queue_of (deliver (set_loop c Selecting None) p)
    = queue_of c \/ q_step (queue_of c) (queue_of (deliver (set_loop c Selecting None) p))).
  { intros p Hp. right. apply (Q_get (queue_of c) p (cache c)). cbn. by rewrite Hp. }
  destruct Hs as [Hpc Hd|Hpc|Hpc|Hpc|p Hpc|p Hpc|p l Hpc Hc|p Hpc|p Hpc|Hpc Hd|Hpc Hd];
    try (apply Hsent; unfold held; by rewrite Hpc); left; unfold queue_of, held; cbn; rewrite ?Hpc; try done.
  - destruct (curr c) as [p|]; done.
  - by rewrite Hc.
Qed.

Lemma step_simulated c c' : step c c' -> client_inv c -> simulated c c'.
Proof.
  destruct 1 as [c p c' Hs|c p c' Hs|c p Hf Hn Hd|c Hf|c|c|c c' Hs]; intros Hi;
    eauto using send_step_simulated, loop_step_simulated; [| | |by left].
  - right. apply (Q_refuse (queue_of c)); [|done]. cbn. rewrite length_app. lia.
  - by left.
  - right. apply (Q_close (queue_of c)).
Qed.

(** C15. The client implements a queue of one packet more than its capacity. In every
    interleaving of senders, connections that fail and Close, what it accepted, handed to a
    connection and refused is what the queue put in, took out at its front and refused:
    nothing is lost, doubled or reordered by a reconnect, and [SendOrDrop] refuses a packet
    only while the client is open and its cache is full. *)
Theorem client_refines_queue c :
  rtc step NewClient c ->
  rtc q_step empty_queue (queue_of c) /\
  accepted c = sent c ++ items (queue_of c) /\ (length (items (queue_of c)) <= S cap)%nat.
Proof.
  intros Hr. pose proof (reachable_inv c Hr) as [Ho Hb _]. pose proof (held_length c). split; [|split].
  - refine (rtc_ind_r (fun c => rtc q_step empty_queue (queue_of c)) NewClient _ _ c Hr);
      [apply rtc_refl|].
    intros c1 c2 H1 Hs IH. destruct (step_simulated c1 c2 Hs (reachable_inv c1 H1)) as [->|Hq]; [done|].
    eapply rtc_r; [exact IH|exact Hq].
  - done.
  - cbn. rewrite length_app. lia.
Qed.

(** ** Draining *)

Lemma drain_selecting c :
  pc c = Selecting -> exists c', rtc step c c' /\ pc c' = Selecting /\
    sent c' = sent c ++ cache c /\ cache c' = [] /\ accepted c' = accepted c.
Proof.
  remember (cache c) as l eqn:Hl. revert c Hl. induction l as [|p l IH]; intros c Hl Hpc.
  - exists c. rewrite app_nil_r. repeat split; [constructor|done..].
  - set (c1 := set_cache (set_loop c (Sending p) (curr c)) l).
    set (c2 := deliver (set_loop c1 Selecting None) p).
    destruct (IH c2) as (c' & Hst & Hp & Hse & Hca & Hac); [done|done|].
    exists c'. split.
    + eapply rtc_l; [eapply step_loop, (L_take _ p l); congruence|].
      eapply rtc_l; [eapply step_loop, (L_sent c1 p); done|]. done.
    + subst c2 c1. cbn in *. rewrite Hse, <- app_assoc. done.
Qed.

Lemma reach_selecting c :
  pc c <> Stopped -> client_inv c ->
  exists c', rtc step c c' /\ pc c' = Selecting /\
    sent c' = sent c ++ held c /\ cache c' = cache c /\ accepted c' = accepted c.
Proof.
  intros Hns Hinv.
  assert (Hconn : forall c, pc c = Connecting -> exists c', rtc step c c' /\
    pc c' = Selecting /\ sent c' = sent c ++ held c /\ cache c' = cache c /\
    accepted c' = accepted c).
  { clear. intros c Hpc.
    pose proof (L_connected c Hpc) as Hst. unfold held. rewrite Hpc.
    destruct (curr c) as [p|] eqn:Hcu.
    - eexists. split.
      + eapply rtc_l; [apply step_loop, Hst|].
        eapply rtc_l; [eapply step_loop, L_resent; reflexivity|]. apply rtc_refl.
      + done.
    - eexists. split; [eapply rtc_l; [apply step_loop, Hst|apply rtc_refl]|].
      cbn. by rewrite app_nil_r. }
  destruct (pc c) as [ | |p| |p|] eqn:Hpc; [..|done].
  - destruct (Hconn (set_loop c Connecting (curr c))) as (c' & Hst & H); [done|].
    exists c'. split; [eapply rtc_l; [apply step_loop, L_timer, Hpc|done]|].
    unfold held in *. rewrite Hpc. done.
  - destruct (Hconn c Hpc) as (c' & H). eauto.
  - eexists. split; [eapply rtc_l; [eapply step_loop, (L_resent _ p), Hpc|apply rtc_refl]|].
    unfold held. rewrite Hpc. done.
  - exists c. unfold held. rewrite Hpc, app_nil_r. split; [constructor|done].
  - eexists. split; [eapply rtc_l; [eapply step_loop, (L_sent _ p), Hpc|apply rtc_refl]|].
    unfold held. rewrite Hpc. done.
Qed.

(** The client never gets stuck with packets it accepted: from every
    reachable state in which the goroutine runs there is an execution that
    hands every accepted packet to a connection. *)
Theorem client_can_drain c :
  rtc step NewClient c -> pc c <> Stopped ->
  exists c', rtc step c c' /\ accepted c' = accepted c /\ sent c' = accepted c.
Proof.
  intros Hr Hns. pose proof (reachable_inv c Hr) as Hinv.
  destruct (reach_selecting c Hns Hinv) as (c1 & H1 & Hp1 & Hs1 & Hc1 & Ha1).
  destruct (drain_selecting c1 Hp1) as (c2 & H2 & Hp2 & Hs2 & Hc2 & Ha2).
  exists c2. repeat split; [by transitivity c1|congruence|].
  rewrite Hs2, Hs1, Hc1, <- app_assoc. symmetry. apply (inv_order _ Hinv).
Qed.

End steps.

(** A run with a connection that fails after the packet was taken: the packet is
    sent again on the next one. *)
Definition pkt (id : Z) : Packet :=
  Publish id false {| Topic := "t"; Payload := []; QOS := 1; Retain := false |}.

Definition running (l : list Packet) (p : PC) (k : option Packet)
    (acc snt : list Packet) : Client :=
  {| cache := l; dying := false; pc := p; curr := k; stream_dying := false;
     accepted := acc; dropped := []; sent := snt |}.

Definition after_failure : Client :=
  running [pkt 3] Waiting (Some (pkt 2)) [pkt 1; pkt 2; pkt 3] [pkt 1].

Lemma after_failure_reachable : rtc (step 2) NewClient after_failure.
Proof.
  apply rtc_l with (running [pkt 1] Waiting None [pkt 1] []).
  { eapply step_send, (Send_cached 2 NewClient (pkt 1)). cbn. lia. }
  apply rtc_l with (running [pkt 1] Connecting None [pkt 1] []).
  { apply step_loop, (L_timer (running [pkt 1] Waiting None [pkt 1] [])). reflexivity. }
  apply rtc_l with (running [pkt 1] Selecting None [pkt 1] []).
  { apply step_loop, (L_connected (running [pkt 1] Connecting None [pkt 1] [])).
    reflexivity. }
  apply rtc_l with (running [] (Sending (pkt 1)) None [pkt 1] []).
  { apply step_loop, (L_take (running [pkt 1] Selecting None [pkt 1] []) (pkt 1) []);
      reflexivity. }
  apply rtc_l with (running [] Selecting None [pkt 1] [pkt 1]).
  { apply step_loop, (L_sent (running [] (Sending (pkt 1)) None [pkt 1] []) (pkt 1)).
    reflexivity. }
  apply rtc_l with (running [pkt 2] Selecting None [pkt 1; pkt 2] [pkt 1]).
  { eapply step_send,
      (Send_cached 2 (running [] Selecting None [pkt 1] [pkt 1]) (pkt 2)). cbn. lia. }
  apply rtc_l with (running [] (Sending (pkt 2)) None [pkt 1; pkt 2] [pkt 1]).
  { apply step_loop,
      (L_take (running [pkt 2] Selecting None [pkt 1; pkt 2] [pkt 1]) (pkt 2) []);
      reflexivity. }
  apply rtc_l with (running [pkt 3] (Sending (pkt 2)) None [pkt 1; pkt 2; pkt 3] [pkt 1]).
  { eapply step_send, (Send_cached 2
      (running [] (Sending (pkt 2)) None [pkt 1; pkt 2] [pkt 1]) (pkt 3)). cbn. lia. }
  apply rtc_once, step_loop,
    (L_send_failed (running [pkt 3] (Sending (pkt 2)) None [pkt 1; pkt 2; pkt 3] [pkt 1])).
  reflexivity.
Qed.

Lemma client_fifo_witness :
  let c := after_failure in
  accepted c = sent c ++ held c ++ cache c /\
  (length (held c) <= 1)%nat /\ (length (cache c) <= 2)%nat.
Proof. apply (client_fifo 2), after_failure_reachable. Defined.

Lemma client_refines_queue_witness :
  rtc (q_step 2) empty_queue (queue_of after_failure) /\ items (queue_of after_failure) = [pkt 2; pkt 3].
Proof.
  split; [|reflexivity]. apply (client_refines_queue 2 after_failure after_failure_reachable).
Defined.

Lemma client_can_drain_witness :
  exists c', rtc (step 2) (accept (set_cache NewClient [pkt 1]) (pkt 1)) c' /\
    accepted c' = [pkt 1] /\ sent c' = [pkt 1].
Proof.
  apply (client_can_drain 2 (accept (set_cache NewClient [pkt 1]) (pkt 1))).
  - eapply rtc_l; [eapply step_send, (Send_cached _ _ (pkt 1)); cbn; lia|]. apply rtc_refl.
  - discriminate.
Defined.
