(* ===== verification/MqttStream.v ===== *)
(** * mqtt/stream.go: one connection

    The handshake of [Client.connect] and the loop of [stream.receiving], with
    [send], [die] and [close].  What the stream does to the outside (futures,
    packets, the observer, the tomb, the connection) is a trace of [action]s; the
    answers of the connection and of the observer are functions of the trace so
    far, so they may depend on everything that happened before. *)

From Stdlib Require Import ZArith Lia String.
From stdpp Require Import base option list strings relations.
From S2P Require Import Prelude MqttPacket.

Local Open Scope string_scope.
Local Open Scope Z_scope.
Local Open Scope list_scope.

Definition subscribeId : Z := 1.

Definition ErrClientExpectedConnack : error := "expected connack".
Definition ErrClientAlreadyConnecting : error := "client already connecting".
Definition ErrClientSubscriptionFailed : error := "failed subscription".
Definition ErrNotSupported : error := "packet not supported".

(** The text of a refused Connack. *)
Definition ConnackCode_String (c : ConnackCode) : error :=
  match c with
  | ConnectionAccepted => "connection accepted"
  | InvalidProtocolVersion => "connection refused: unacceptable protocol version"
  | IdentifierRejected => "connection refused: identifier rejected"
  | ServerUnavailable => "connection refused: server unavailable"
  | BadUsernameOrPassword => "connection refused: bad user name or password"
  | NotAuthorized => "connection refused: not authorized"
  end.

Inductive action :=
  | CompleteConnect | CompleteSubscribe
  | CancelConnect | CancelSubscribe
  | SendPkt (p : Packet)
  | ObsPublish (p : Packet)
  | ObsPuback (p : Packet)
  | ObsError (e : error)
  | Pong
  | KillTomb (reason : option error)
  | CloseConn.

#[export] Instance action_eq_dec : EqDecision action.
Proof. solve_decision. Defined.

(** The state of the [sync.Once] that guards [die]. *)
Inductive once := Fresh | Running | Done.

#[export] Instance once_eq_dec : EqDecision once.
Proof. solve_decision. Defined.

Record stream := {
  st_once : once;
  trace : list action }.

(** A call returns with the stream it leaves and its error, or never returns. *)
Inductive run :=
  | Returned (s : stream) (err : option error)
  | Deadlock (s : stream).

Definition emit (a : action) (s : stream) : stream :=
  {| st_once := st_once s; trace := trace s ++ [a] |}.
Definition set_once (o : once) (s : stream) : stream :=
  {| st_once := o; trace := trace s |}.

(** Sequencing: the next call starts from the stream the previous one left. *)
Definition andthen (r : run) (k : stream -> option error -> run) : run :=
  match r with
  | Returned s e => k s e
  | Deadlock s => Deadlock s
  end.

Section with_environment.
(** [conn.Send] on a packet, and the observer ([None] for a nil observer, which
    no callback reaches). *)
Context (conn_send : list action -> Packet -> option error).
Context (observed : bool).
Context (on_publish : list action -> Packet -> option error).
Context (on_puback : list action -> Packet -> option error).
Context (DisableAutoAck : bool).

(** [s.onError(msg, err)] *)
Definition onError (err : option error) (s : stream) : stream :=
  match err with
  | Some e => if observed then emit (ObsError e) s else s
  | None => s
  end.

(** [s.send(pkt, async)]: on failure the stream dies. [die] is passed in, for
    the two functions call each other. *)
Definition send_with (die : stream -> option error -> run) (s : stream)
    (pkt : Packet) : run :=
  match conn_send (trace s) pkt with
  | None => Returned (emit (SendPkt pkt) s) None
  | Some e => andthen (die s (Some e)) (fun s _ => Returned s (Some e))
  end.

(** [s.die(msg, err)]: [once.Do] runs its argument the first time; a call made
    while the argument runs, by the argument itself, waits for ever.  The
    recursion is bounded by [fuel]: two levels are all there can be, since the
    second finds the once running. *)
Fixpoint die_fuel (fuel : nat) (s : stream) (err : option error) : run :=
  match fuel with
  | O => Deadlock s
  | S fuel =>
      match st_once s with
      | Done => Returned s None
      | Running => Deadlock s
      | Fresh =>
          let s := set_once Running s in
          let s := emit CancelSubscribe (emit CancelConnect s) in
          andthen
            (match err with
             | Some _ => Returned (onError err s) None
             | None => send_with (die_fuel fuel) s Disconnect
             end)
            (fun s _ =>
               Returned (set_once Done (emit CloseConn (emit (KillTomb err) s))) None)
      end
  end.

Definition die : stream -> option error -> run := die_fuel 2.
Definition send : stream -> Packet -> run := send_with die.
#[local] Arguments die : simpl never.
#[local] Arguments send : simpl never.

(** [s.close()], up to the wait on the tomb. *)
Definition close (s : stream) : run := die s None.

(** [s.onConnack(pkt)] *)
Definition onConnack (pkt : Packet) : option error :=
  match pkt with
  | Connack code =>
      if decide (code = ConnectionAccepted) then None
      else Some (ConnackCode_String code)
  | _ => Some ErrClientExpectedConnack
  end.

(** [s.onPublish(pkt)] and [s.onPuback(pkt)] *)
Definition onPublish (s : stream) (pkt : Packet) : stream * option error :=
  if observed then (emit (ObsPublish pkt) s, on_publish (trace s) pkt) else (s, None).
Definition onPuback (s : stream) (pkt : Packet) : stream * option error :=
  if observed then (emit (ObsPuback pkt) s, on_puback (trace s) pkt) else (s, None).

(** [s.onSuback(pkt)] *)
Definition onSuback (s : stream) (id : Z) (codes : list Z) : stream * option error :=
  if negb (id =? subscribeId) then (s, None)
  else if existsb (fun code => code =? QOSFailure) codes
       then (s, Some ErrClientSubscriptionFailed)
       else (emit CompleteSubscribe s, None).

(** One packet received after the Connack: the switch of [receiving]. *)
Definition handle (s : stream) (pkt : Packet) : run :=
  match pkt with
  | Publish id _ m =>
      let '(s, uerr) := onPublish s pkt in
      match uerr with
      | Some _ => Returned s None
      | None => if negb DisableAutoAck && (QOS m =? 1) then send s (Puback id)
                else Returned s None
      end
  | Puback _ => let '(s, err) := onPuback s pkt in Returned s err
  | Suback id codes => let '(s, err) := onSuback s id codes in Returned s err
  | Pingresp => Returned (emit Pong s) None
  | Connack _ => Returned s (Some ErrClientAlreadyConnecting)
  | _ => Returned s (Some ErrNotSupported)
  end.

(** [s.receiving()] on what [conn.Receive] returns, packet by packet, until it
    fails with the error [eof]. *)
Fixpoint receiving (s : stream) (connacked : bool) (pkts : list Packet)
    (eof : error) : run :=
  match pkts with
  | [] => andthen (die s (Some eof)) (fun s _ => Returned s (Some eof))
  | pkt :: pkts =>
      if negb connacked then
        match onConnack pkt with
        | Some e => andthen (die s (Some e)) (fun s _ => Returned s (Some e))
        | None => receiving (emit CompleteConnect s) true pkts eof
        end
      else
        andthen (handle s pkt) (fun s err =>
          match err with
          | Some e => andthen (die s (Some e)) (fun s _ => Returned s (Some e))
          | None => receiving s true pkts eof
          end)
  end.

(** ** The handshake *)

(** [uint16(math.Ceil(ops.KeepAlive.Seconds()))]: the duration in nanoseconds,
    rounded up to seconds, in 16 bits. *)
Definition keepAliveSeconds (ns : Z) : Z := uint16 (- (- ns / 1000000000)).

(** What the goroutine running [connect] meets: the results of [Dial] and of the
    two waits, and whether [receiving] has already declared the stream dead when
    a wait fails. *)
Record connect_env := {
  dial : option error;
  connect_wait : option error;
  subscribe_wait : option error;
  already_dead : bool }.

Definition die_in_connect (env : connect_env) (s : stream) (e : error) : run :=
  andthen (die (if already_dead env then set_once Done s else s) (Some e))
    (fun s _ => Returned s (Some e)).

(** [func (c *Client) connect(obs Observer)]: the actions of this goroutine, and
    its error. *)
Definition connect {C} (ops : ClientOptions C) (env : connect_env) : run :=
  let s := {| st_once := Fresh; trace := [] |} in
  match dial env with
  | Some e => Returned s (Some e)
  | None =>
      let pkt := Connect {| conn_ClientID := ClientID ops;
                            conn_KeepAlive := keepAliveSeconds (KeepAlive ops);
                            conn_CleanSession := CleanSession ops;
                            conn_Username := Username ops;
                            conn_Password := Password ops;
                            conn_Version := conn_Version NewConnect |} in
      match conn_send (trace s) pkt with
      | Some e => Returned (emit CloseConn s) (Some e)
      | None =>
          let s := emit (SendPkt pkt) s in
          match connect_wait env with
          | Some e => die_in_connect env s e
          | None =>
              if bool_decide (length (Subscriptions ops) = 0%nat) then Returned s None
              else
                let sub := Subscribe subscribeId (Subscriptions ops) in
                match conn_send (trace s) sub with
                | Some e => Returned (emit CloseConn s) (Some e)
                | None =>
                    let s := emit (SendPkt sub) s in
                    match subscribe_wait env with
                    | Some e => die_in_connect env s e
                    | None => Returned s None
                    end
                end
          end
      end
  end.

(** ** Lemmas *)

(** Dying for a reason never blocks. *)
Definition dead (e : error) (s : stream) : stream :=
  set_once Done (emit CloseConn (emit (KillTomb (Some e))
    (onError (Some e) (emit CancelSubscribe (emit CancelConnect s))))).

Lemma onError_once e s : st_once (onError e s) = st_once s.
Proof. unfold onError. by destruct e, observed. Qed.

Lemma die_fresh s e : st_once s = Fresh -> die s (Some e) = Returned (dead e s) None.
Proof.
  intros Hf. unfold die, dead. cbn. rewrite Hf. cbn.
  by destruct observed.
Qed.

Lemma die_done s e : st_once s = Done -> die s e = Returned s None.
Proof. intros Hd. unfold die. cbn. by rewrite Hd. Qed.

Lemma send_ok s pkt :
  conn_send (trace s) pkt = None -> send s pkt = Returned (emit (SendPkt pkt) s) None.
Proof. unfold send, send_with. by intros ->. Qed.

Lemma send_fails s pkt e :
  st_once s = Fresh -> conn_send (trace s) pkt = Some e ->
  send s pkt = Returned (dead e s) (Some e).
Proof. intros Hf He. unfold send, send_with. rewrite He, die_fresh by done. done. Qed.

(** ** Closing *)

(** C34. Closing a live stream sends one Disconnect, cancels both futures, kills
    the tomb without a reason and closes the connection - if the connection
    takes the Disconnect.  If it does not, the call never returns: the failed
    [send] calls [die], whose [once] is already running, and the caller of
    [Client.Close] waits for ever with the connection still open. *)
Theorem close_outcome s :
  st_once s = Fresh ->
  let s1 := emit CancelSubscribe (emit CancelConnect (set_once Running s)) in
  match conn_send (trace s1) Disconnect with
  | None => exists s', close s = Returned s' None /\ st_once s' = Done /\
      trace s' = trace s ++
        [CancelConnect; CancelSubscribe; SendPkt Disconnect; KillTomb None; CloseConn]
  | Some _ => close s = Deadlock s1 /\
      trace s1 = trace s ++ [CancelConnect; CancelSubscribe]
  end.
Proof.
  intros Hf s1. subst s1. unfold close, die. cbn. rewrite Hf. cbn.
  unfold send_with. cbn. rewrite <- !app_assoc. cbn.
  destruct (conn_send _ Disconnect) as [e|] eqn:E; cbn.
  - done.
  - eexists. split; [done|]. cbn. split; [done|]. by rewrite <- !app_assoc.
Qed.

(** ** Receiving *)

(** The handshake: [receiving] reports the connection as established exactly
    when the first packet is an accepting Connack; otherwise the stream dies
    with the reason, having acknowledged nothing and called no message callback. *)
Definition message_action (a : action) : bool :=
  match a with
  | SendPkt _ | ObsPublish _ | ObsPuback _ | CompleteConnect | CompleteSubscribe => true
  | _ => false
  end.

Lemma dead_trace e s :
  trace (dead e s) = trace s ++ [CancelConnect; CancelSubscribe] ++
    (if observed then [ObsError e] else []) ++ [KillTomb (Some e); CloseConn].
Proof. unfold dead, onError. destruct observed; cbn; by rewrite <- !app_assoc. Qed.

(** If the first packet is not a Connack that accepts the connection, the
    stream ends with that error, both futures are cancelled, and no message is
    acknowledged or delivered, however many packets follow. *)
Theorem handshake_required s pkt pkts eof e :
  st_once s = Fresh -> onConnack pkt = Some e ->
  exists s' tail, receiving s false (pkt :: pkts) eof = Returned s' (Some e) /\
    trace s' = trace s ++ tail /\
    Forall (fun a => message_action a = false) tail /\
    CancelConnect ∈ tail /\ CancelSubscribe ∈ tail /\ CloseConn ∈ tail.
Proof.
  intros Hf He. cbn. rewrite He, die_fresh by done. cbn.
  do 2 eexists. split; [done|]. rewrite dead_trace. split; [done|].
  destruct observed; cbn; repeat split; try set_solver; by repeat constructor.
Qed.

(** What [receiving] should do with the messages of an established connection
    that stays up: each Publish goes to the observer once, in order, and is
    acknowledged if the observer took it, it has QoS 1 and automatic
    acknowledgement is on. *)
Fixpoint deliver_all (tr : list action) (pubs : list Packet) : list action :=
  match pubs with
  | [] => tr
  | p :: pubs =>
      let tr1 := if observed then tr ++ [ObsPublish p] else tr in
      let handled := if observed then on_publish tr p else None in
      match handled, p with
      | None, Publish id _ m =>
          if negb DisableAutoAck && (QOS m =? 1)
          then deliver_all (tr1 ++ [SendPkt (Puback id)]) pubs
          else deliver_all tr1 pubs
      | _, _ => deliver_all tr1 pubs
      end
  end.

Definition is_publish (p : Packet) : Prop := exists id d m, p = Publish id d m.

(** On a connection that was accepted and whose sends succeed, [receiving]
    acknowledges exactly the QoS 1 messages the observer handled without error
    (none with automatic acknowledgement off), each right after its delivery
    and in the order of arrival; a message the observer refuses is not
    acknowledged and does not end the stream. *)
Theorem publishes_acknowledged s pubs eof :
  st_once s = Fresh -> (forall tr p, conn_send tr p = None) ->
  Forall is_publish pubs ->
  receiving s false (Connack ConnectionAccepted :: pubs) eof =
  Returned (dead eof {| st_once := Fresh;
                        trace := deliver_all (trace s ++ [CompleteConnect]) pubs |})
    (Some eof).
Proof.
  intros Hf Hsend Hpubs. cbn.
  assert (Hgen : forall s, st_once s = Fresh ->
    receiving s true pubs eof =
    Returned (dead eof {| st_once := Fresh; trace := deliver_all (trace s) pubs |})
      (Some eof)).
  { clear s Hf. induction Hpubs as [|p pubs (id & d & m & ->) Hpubs IH]; intros s Hf.
    - cbn. rewrite die_fresh by done. cbn. destruct s. cbn in *. by subst.
    - cbn. unfold onPublish.
      destruct observed; cbn.
      + destruct (on_publish (trace s) _); cbn; [by rewrite IH by done|].
        destruct (negb DisableAutoAck && (QOS m =? 1)); cbn.
        * rewrite send_ok by done. cbn. by rewrite IH by done.
        * by rewrite IH by done.
      + destruct (negb DisableAutoAck && (QOS m =? 1)); cbn.
        * rewrite send_ok by done. cbn. by rewrite IH by done.
        * by rewrite IH by done. }
  by rewrite Hgen.
Qed.

(** ** At most one death *)

(** Counting the observer's [OnError] calls and the closings of the connection. *)
Definition is_error (a : action) : bool :=
  match a with ObsError _ => true | _ => false end.
Definition is_close (a : action) : bool :=
  match a with CloseConn => true | _ => false end.

Definition deaths (s : stream) : nat := length (List.filter is_close (trace s)).
Definition errors_reported (s : stream) : nat :=
  length (List.filter is_error (trace s)).

Lemma deaths_emit a s :
  is_error a = false -> is_close a = false ->
  deaths (emit a s) = deaths s /\ errors_reported (emit a s) = errors_reported s.
Proof.
  intros He Hc. unfold deaths, errors_reported. cbn.
  rewrite !List.filter_app, !length_app. cbn. rewrite He, Hc. cbn. lia.
Qed.

(** The streams [receiving] can be running on, and those it leaves. *)
Definition alive (s : stream) : Prop :=
  st_once s = Fresh /\ deaths s = 0%nat /\ errors_reported s = 0%nat.
Definition buried (s : stream) : Prop :=
  st_once s = Done /\ deaths s = 1%nat /\ (errors_reported s <= 1)%nat.

Lemma alive_emit a s :
  is_error a = false -> is_close a = false -> alive s -> alive (emit a s).
Proof.
  intros He Hc (Hf & Hd & Hr). unfold alive.
  by destruct (deaths_emit a s He Hc) as [-> ->].
Qed.

Lemma alive_dead e s : alive s -> buried (dead e s).
Proof.
  intros (Hf & Hd & Hr). unfold buried, deaths, errors_reported in *.
  rewrite dead_trace, !List.filter_app, !length_app, Hd, Hr.
  split; [done|]. destruct observed; cbn; lia.
Qed.

(** How a step of the loop can end: the stream lives on, or it has died and the
    step reports an error. *)
Definition step_ends (r : run) : Prop :=
  exists s oe, r = Returned s oe /\ (alive s \/ (buried s /\ oe <> None)).

Lemma send_ends s p : alive s -> step_ends (send s p).
Proof.
  intros Ha. destruct (conn_send (trace s) p) as [e|] eqn:E.
  - rewrite (send_fails _ _ e) by (done || apply Ha).
    do 2 eexists. split; [done|]. right. by split; [apply alive_dead|].
  - rewrite send_ok by done. do 2 eexists. split; [done|]. left. by apply alive_emit.
Qed.

Lemma handle_ends s p : alive s -> step_ends (handle s p).
Proof.
  intros Ha. destruct p; cbn; unfold onPublish, onPuback, onSuback;
    repeat case_match; simplify_eq/=;
    first [ apply send_ends | do 2 eexists; split; [done|left] ];
    repeat (apply alive_emit; [done..|]); done.
Qed.

Lemma die_ends s e :
  alive s \/ buried s ->
  exists s', andthen (die s (Some e)) (fun s _ => Returned s (Some e)) =
    Returned s' (Some e) /\ buried s'.
Proof.
  intros [Ha|Hb].
  - rewrite die_fresh by apply Ha. cbn. eauto using alive_dead.
  - rewrite die_done by apply Hb. cbn. eauto.
Qed.

(** C16. Whatever packets arrive and however the connection and the observer
    answer, receiving on a fresh stream always returns, the connection is
    closed exactly once, and the observer hears of at most one error. *)
Theorem receiving_dies_once s connacked pkts eof :
  alive s ->
  exists s' e, receiving s connacked pkts eof = Returned s' (Some e) /\ buried s'.
Proof.
  revert s connacked. induction pkts as [|pkt pkts IH]; intros s connacked Ha; cbn.
  { destruct (die_ends s eof) as (s' & -> & ?); eauto. }
  destruct connacked; cbn.
  - destruct (handle_ends s pkt Ha) as (s1 & oe & -> & Hs1). cbn.
    destruct oe as [e|]; [|destruct Hs1 as [?|[? []]]; eauto].
    destruct (die_ends s1 e) as (s' & -> & ?); [tauto|eauto].
  - destruct (onConnack pkt) as [e|].
    + destruct (die_ends s e) as (s' & -> & ?); eauto.
    + by apply IH, alive_emit.
Qed.

(** ** Connecting *)

Lemma die_in_connect_closes env s e :
  st_once s = Fresh ->
  exists s', die_in_connect env s e = Returned s' (Some e) /\
    (already_dead env = true \/ CloseConn ∈ trace s').
Proof.
  intros Hf. unfold die_in_connect. destruct (already_dead env).
  - rewrite die_done by done. cbn. eauto.
  - rewrite die_fresh by done. cbn. eexists. split; [done|]. right.
    rewrite dead_trace. set_solver.
Qed.

(** [connect] always returns, and leaves no open connection behind a
    failure: if it returns an error after the dial succeeded, it has closed the
    connection, or the receiving goroutine had already declared the stream dead
    (and so closed it). It succeeds only after sending the Connect packet and,
    if there are subscriptions, one Subscribe with all of them. *)
Theorem connect_no_leak {C} (ops : ClientOptions C) env :
  dial env = None ->
  exists s oe, connect ops env = Returned s oe /\
    match oe with
    | Some _ => already_dead env = true \/ CloseConn ∈ trace s
    | None => exists c, trace s = SendPkt (Connect c) ::
        (if decide (Subscriptions ops = []) then []
         else [SendPkt (Subscribe subscribeId (Subscriptions ops))])
    end.
Proof.
  intros Hd. unfold connect. rewrite Hd.
  destruct (conn_send _ (Connect _)) as [e|].
  { do 2 eexists. split; [done|]. right. set_solver. }
  destruct (connect_wait env) as [e|].
  { destruct (die_in_connect_closes env (emit (SendPkt (Connect
      {| conn_ClientID := ClientID ops; conn_KeepAlive := keepAliveSeconds (KeepAlive ops);
         conn_CleanSession := CleanSession ops; conn_Username := Username ops;
         conn_Password := Password ops; conn_Version := conn_Version NewConnect |}))
      {| st_once := Fresh; trace := [] |}) e eq_refl) as (s' & -> & ?). eauto. }
  destruct (Subscriptions ops) as [|sub subs] eqn:Hs; cbn.
  { do 2 eexists. split; [done|]. eexists. done. }
  destruct (conn_send _ (Subscribe _ _)) as [e|].
  { do 2 eexists. split; [done|]. right. set_solver. }
  destruct (subscribe_wait env) as [e|].
  - edestruct die_in_connect_closes as (s' & -> & ?); [|eauto]. done.
  - do 2 eexists. split; [done|]. eexists. done.
Qed.

End with_environment.

(** A connection that takes everything, and an observer that refuses packet 2. *)
Definition fresh : stream := {| st_once := Fresh; trace := [] |}.
Definition pub (id qos : Z) : Packet :=
  Publish id false {| Topic := "t"; Payload := []; QOS := qos; Retain := false |}.
Definition refuse2 (_ : list action) (p : Packet) : option error :=
  match p with Publish 2 _ _ => Some "bad" | _ => None end.

Lemma close_outcome_witness :
  close (fun _ _ => Some "broken pipe") true fresh =
  Deadlock (emit CancelSubscribe (emit CancelConnect (set_once Running fresh))).
Proof. exact (proj1 (close_outcome (fun _ _ => Some "broken pipe") true fresh eq_refl)). Defined.

Lemma handshake_required_witness :
  exists s' tail,
    receiving (fun _ _ => None) true refuse2 refuse2 false fresh false
      (Connack NotAuthorized :: [pub 1 1]) "EOF" =
      Returned s' (Some "connection refused: not authorized") /\
    trace s' = [] ++ tail /\ Forall (fun a => message_action a = false) tail /\
    CancelConnect ∈ tail /\ CancelSubscribe ∈ tail /\ CloseConn ∈ tail.
Proof.
  apply (handshake_required (fun _ _ => None) true refuse2 refuse2 false fresh);
    reflexivity.
Defined.

Lemma publishes_acknowledged_witness :
  receiving (fun _ _ => None) true refuse2 refuse2 false fresh false
    [Connack ConnectionAccepted; pub 1 1; pub 2 1; pub 3 0; pub 4 1] "EOF" =
  Returned (dead true "EOF" {| st_once := Fresh; trace :=
    [CompleteConnect; ObsPublish (pub 1 1); SendPkt (Puback 1); ObsPublish (pub 2 1);
     ObsPublish (pub 3 0); ObsPublish (pub 4 1); SendPkt (Puback 4)] |}) (Some "EOF").
Proof.
  apply (publishes_acknowledged (fun _ _ => None) true refuse2 refuse2 false fresh
           [pub 1 1; pub 2 1; pub 3 0; pub 4 1]); [reflexivity|done|].
  repeat constructor; unfold pub; by do 3 eexists.
Defined.

Lemma receiving_dies_once_witness :
  exists s' e,
    receiving (fun _ _ => Some "reset") true refuse2 refuse2 false fresh false
      [Connack ConnectionAccepted; pub 1 1; Pingresp] "EOF" = Returned s' (Some e) /\
    buried s'.
Proof.
  apply (receiving_dies_once (fun _ _ => Some "reset") true refuse2 refuse2 false fresh).
  repeat split; reflexivity.
Defined.

Definition demo_ops : ClientOptions unit :=
  {| Address := "ssl://broker:8883"; Username := ""; Password := ""; TLSConfig := None;
     ClientID := "cid"; CleanSession := true; Timeout := 30 * second;
     KeepAlive := 90 * second; MaxReconnectInterval := 3 * minute; MaxMessageSize := 0;
     MaxCacheMessages := 10; Subscriptions := [{| sub_Topic := "t"; sub_QOS := 1 |}];
     DisableAutoAck := false |}.

Lemma connect_no_leak_witness :
  exists s oe,
    connect (fun tr _ => if decide (length tr = 1%nat) then Some "reset" else None) true
      demo_ops {| dial := None; connect_wait := None; subscribe_wait := None;
                  already_dead := false |} = Returned s oe /\
    match oe with
    | Some _ => false = true \/ CloseConn ∈ trace s
    | None => exists c, trace s = SendPkt (Connect c) ::
        (if decide (Subscriptions demo_ops = []) then []
         else [SendPkt (Subscribe subscribeId (Subscriptions demo_ops))])
    end.
Proof.
  apply (connect_no_leak
    (fun tr _ => if decide (length tr = 1%nat) then Some "reset" else None) true demo_ops
    {| dial := None; connect_wait := None; subscribe_wait := None; already_dead := false |}).
  reflexivity.
Defined.
