(* ===== verification/MqttSession.v ===== *)
(** * mqtt/client.go and mqtt/stream.go: the client with its connections

    The goroutine of [connecting] with every step it takes inside [connect], [sending] and
    [close], and for each connection the goroutines of [receiving] and [pinging], all in any
    order. What callers see of the client is the state of MqttClient; here are the
    connections below it: their futures, their once, their tomb, and what was written to
    them. MqttStream has [receiving] and [connect] as functions, each of one goroutine;
    Keepalive has the clock of [pinging]. *)

From Stdlib Require Import ZArith Lia String.
From stdpp Require Import base option list strings relations.
From S2P Require Import Prelude MqttPacket MqttCounter MqttClient MqttStream.

Local Open Scope string_scope.
Local Open Scope Z_scope.
Local Open Scope list_scope.

Section session.
Context {C : Type} (ops : ClientOptions C).

(** The futures of a stream are a library's: one that is completed or cancelled has that
    state then, unless it keeps the one it has. *)
Inductive future := Pending | Completed | Cancelled.
Context (settle : future -> future -> future).

(** The capacity of the cache. *)
Definition capacity : nat := Z.to_nat (MaxCacheMessages ops).

(** ** State *)

(** Who wrote a packet: [connect], [sending], [receiving], [pinging] or [die]. *)
Inductive origin := FromConnect | FromCache | FromReader | FromPinger | FromDie.

#[local] Instance origin_eq_dec : EqDecision origin.
Proof. solve_decision. Defined.

(** Where a call of [die] is: at [once.Do], at the Disconnect, at [tomb.Kill], at
    [conn.Close], returned; or for ever at the once that it runs itself. *)
Inductive frame :=
  | Enter (err : option error)
  | Goodbye
  | Killing
  | Shutting
  | Left
  | Stuck.

(** Where [receiving] and [pinging] are. *)
Inductive reader_at :=
  | RNone
  | Receiving
  | Handling (p : Packet)
  | Acking (id : Z)
  | RDie (f : frame)
  | REnded.
Inductive pinger_at :=
  | PNone
  | Looking
  | Sleeping
  | PDie (f : frame)
  | PEnded.

Record Stream := {
  opened : bool;                       (* conn *)
  once_ : once;
  s_dying : bool;                      (* tomb *)
  connectF : future;
  subscribeF : future;
  connacked : bool;                    (* the variable of receiving *)
  reader : reader_at;
  pinger : pinger_at;
  received : list Packet;
  wire : list (origin * Packet)        (* what conn.Send took *)
}.

(** Where the goroutine of the client is: at the select of [connecting]; in [connect]; in
    [sending]; in [close]; returned. Each but the first two and the last on a stream. *)
Inductive position :=
  | Idle
  | Dialing
  | Hello (i : nat)                    (* to send the Connect *)
  | Starting (i : nat)                 (* receiving is started, pinging is not *)
  | WaitConnack (i : nat)
  | Subscribing (i : nat)
  | WaitSuback (i : nat)
  | Failing (i : nat) (f : frame)      (* die, then connect fails *)
  | Resend (i : nat) (p : Packet)
  | Sel (i : nat)
  | Send_ (i : nat) (p : Packet)
  | Broken (i : nat) (f : frame)       (* die in send *)
  | Closing (i : nat) (f : frame)      (* die in close *)
  | Joining (i : nat)                  (* tomb.Wait in close *)
  | Halted.

Record System := { cli : Client; at_ : position; streams : list Stream }.

Definition pc_of (q : position) : PC :=
  match q with
  | Idle | Broken _ _ | Closing _ _ | Joining _ => Waiting
  | Dialing | Hello _ | Starting _ | WaitConnack _ | Subscribing _ | WaitSuback _ | Failing _ _ => Connecting
  | Resend _ p => Resending p
  | Sel _ => Selecting
  | Send_ _ p => Sending p
  | Halted => Stopped
  end.

(** ** One stream *)

Definition new_stream : Stream :=
  {| opened := true; once_ := Fresh; s_dying := false; connectF := Pending; subscribeF := Pending;
     connacked := false; reader := RNone; pinger := PNone; received := []; wire := [] |}.

Definition set_reader (r : reader_at) (st : Stream) : Stream :=
  {| opened := opened st; once_ := once_ st; s_dying := s_dying st; connectF := connectF st;
     subscribeF := subscribeF st; connacked := connacked st; reader := r; pinger := pinger st;
     received := received st; wire := wire st |}.
Definition set_pinger (p : pinger_at) (st : Stream) : Stream :=
  {| opened := opened st; once_ := once_ st; s_dying := s_dying st; connectF := connectF st;
     subscribeF := subscribeF st; connacked := connacked st; reader := reader st; pinger := p;
     received := received st; wire := wire st |}.
Definition set_futures (c s : future) (st : Stream) : Stream :=
  {| opened := opened st; once_ := once_ st; s_dying := s_dying st; connectF := c;
     subscribeF := s; connacked := connacked st; reader := reader st; pinger := pinger st;
     received := received st; wire := wire st |}.
Definition set_life (op : bool) (o : once) (dying : bool) (st : Stream) : Stream :=
  {| opened := op; once_ := o; s_dying := dying; connectF := connectF st;
     subscribeF := subscribeF st; connacked := connacked st; reader := reader st;
     pinger := pinger st; received := received st; wire := wire st |}.
Definition set_connacked (st : Stream) : Stream :=
  {| opened := opened st; once_ := once_ st; s_dying := s_dying st; connectF := connectF st;
     subscribeF := subscribeF st; connacked := true; reader := reader st; pinger := pinger st;
     received := received st; wire := wire st |}.
Definition receive (p : Packet) (st : Stream) : Stream :=
  {| opened := opened st; once_ := once_ st; s_dying := s_dying st; connectF := connectF st;
     subscribeF := subscribeF st; connacked := connacked st; reader := Handling p;
     pinger := pinger st; received := received st ++ [p]; wire := wire st |}.

(** [conn.Send], when it succeeds: only on an open connection. *)
Definition put (o : origin) (p : Packet) (st : Stream) : Stream :=
  {| opened := opened st; once_ := once_ st; s_dying := s_dying st; connectF := connectF st;
     subscribeF := subscribeF st; connacked := connacked st; reader := reader st;
     pinger := pinger st; received := received st; wire := wire st ++ [(o, p)] |}.

(** [conn.Close()] and [tomb.Kill]. *)
Definition shut (st : Stream) : Stream := set_life false (once_ st) (s_dying st) st.
Definition kill (st : Stream) : Stream := set_life (opened st) (once_ st) true st.

(** [s.tomb.Go(s.pinging)], if the keep-alive asks for it; a tomb whose only goroutine has
    returned is dead and starts nothing. *)
Definition start_pinging (st : Stream) : Stream :=
  set_pinger (if 0 <? KeepAlive ops then match reader st with REnded => PEnded | _ => Looking end
              else PEnded) st.

(** [s.die(msg, err)] *)
Inductive die_step (st : Stream) : frame -> Stream -> frame -> Prop :=
  | die_again e : once_ st = Done -> die_step st (Enter e) st Left
  | die_first e : once_ st = Fresh ->
      die_step st (Enter e)
        (set_futures (settle (connectF st) Cancelled) (settle (subscribeF st) Cancelled)
           (set_life (opened st) Running (s_dying st) st))
        match e with Some _ => Killing | None => Goodbye end
  | die_goodbye : opened st = true -> die_step st Goodbye (put FromDie Disconnect st) Killing
  (* a Disconnect that fails calls die again, inside of the once *)
  | die_mute : die_step st Goodbye st Stuck
  | die_kill : die_step st Killing (kill st) Shutting
  | die_shut : die_step st Shutting (set_life false Done (s_dying st) st) Left.

Definition die_of (e : error) : frame := Enter (Some e).

(** The turn of [receiving] on a packet; [uerr] is what the observer returns. A Puback that
    cannot be sent dies in [send], and again for nothing. *)
Definition handle (uerr : option error) (p : Packet) (st : Stream) : Stream :=
  if negb (connacked st) then
    match onConnack p with
    | Some e => set_reader (RDie (die_of e)) (set_connacked st)
    | None => set_reader Receiving
                (set_futures (settle (connectF st) Completed) (subscribeF st) (set_connacked st))
    end
  else
    match p with
    | Publish id _ m =>
        match uerr with
        | Some _ => set_reader Receiving st
        | None => if negb (DisableAutoAck ops) && (QOS m =? 1) then set_reader (Acking id) st
                  else set_reader Receiving st
        end
    | Puback _ =>
        match uerr with Some e => set_reader (RDie (die_of e)) st | None => set_reader Receiving st end
    | Suback id codes =>
        if negb (id =? subscribeId) then set_reader Receiving st
        else if existsb (fun code => code =? QOSFailure) codes
        then set_reader (RDie (die_of ErrClientSubscriptionFailed)) st
        else set_reader Receiving (set_futures (connectF st) (settle (subscribeF st) Completed) st)
    | Pingresp => set_reader Receiving st
    | Connack _ => set_reader (RDie (die_of ErrClientAlreadyConnecting)) st
    | _ => set_reader (RDie (die_of ErrNotSupported)) st
    end.

(** [receiving] and [pinging]; the pinger's clock is in Keepalive, here it may find any
    window. A goroutine that returns an error kills the tomb. *)
Inductive stream_step (st : Stream) : Stream -> Prop :=
  | rd_receive p : reader st = Receiving -> stream_step st (receive p st)
  | rd_failed e : reader st = Receiving -> stream_step st (set_reader (RDie (die_of e)) st)
  | rd_handle p uerr : reader st = Handling p -> stream_step st (handle uerr p st)
  | rd_ack id : reader st = Acking id -> opened st = true ->
      stream_step st (set_reader Receiving (put FromReader (Puback id) st))
  | rd_ack_failed id e : reader st = Acking id -> stream_step st (set_reader (RDie (die_of e)) st)
  | rd_die f st' f' : reader st = RDie f -> die_step st f st' f' ->
      stream_step st (set_reader (RDie f') st')
  | rd_end : reader st = RDie Left -> stream_step st (set_reader REnded (kill st))
  | pg_wait : pinger st = Looking -> stream_step st (set_pinger Sleeping st)
  | pg_ping : pinger st = Looking -> opened st = true ->
      stream_step st (set_pinger Sleeping (put FromPinger Pingreq st))
  | pg_failed e : pinger st = Looking -> stream_step st (set_pinger (PDie (die_of e)) st)
  | pg_again : pinger st = Sleeping -> stream_step st (set_pinger Looking st)
  | pg_dying : pinger st = Sleeping -> s_dying st = true -> stream_step st (set_pinger PEnded st)
  | pg_die f st' f' : pinger st = PDie f -> die_step st f st' f' ->
      stream_step st (set_pinger (PDie f') st')
  | pg_end : pinger st = PDie Left -> stream_step st (set_pinger PEnded (kill st)).

(** ** The goroutine of the client *)

Definition connect_packet : Packet :=
  Connect {| conn_ClientID := ClientID ops; conn_KeepAlive := keepAliveSeconds (KeepAlive ops);
             conn_CleanSession := CleanSession ops; conn_Username := Username ops;
             conn_Password := Password ops; conn_Version := conn_Version NewConnect |}.
Definition subscribe_packet : Packet := Subscribe subscribeId (Subscriptions ops).

Definition move (q : position) (c : Client) (s : System) : System :=
  {| cli := c; at_ := q; streams := streams s |}.
Definition on (i : nat) (f : Stream -> Stream) (s : System) : System :=
  {| cli := cli s; at_ := at_ s; streams := alter f i (streams s) |}.
Definition set_stream (i : nat) (st : Stream) (s : System) : System := on i (fun _ => st) s.

(** Within one function of MqttClient's goroutine. *)
Definition go (q : position) (s : System) : System :=
  move q (set_loop (cli s) (pc_of q) (curr (cli s))) s.

(** [connect] returns a stream, and [sending(curr)] begins. *)
Definition connected (i : nat) (s : System) : System :=
  move match curr (cli s) with Some p => Resend i p | None => Sel i end
    (set_stream_dying (set_loop (cli s)
       match curr (cli s) with Some p => Resending p | None => Selecting end (curr (cli s))) false) s.

(** The frame of a call of [die] that this goroutine makes on stream [i]. *)
Inductive dies : position -> nat -> frame -> (frame -> position) -> Prop :=
  | dies_failing i f : dies (Failing i f) i f (Failing i)
  | dies_broken i f : dies (Broken i f) i f (Broken i)
  | dies_closing i f : dies (Closing i f) i f (Closing i).

Inductive loop (s : System) : System -> Prop :=
  | lo_stop : at_ s = Idle -> dying (cli s) = true -> loop s (go Halted s)
  | lo_timer : at_ s = Idle -> loop s (go Dialing s)
  (* connect *)
  | lo_dial_failed : at_ s = Dialing -> loop s (go Idle s)
  | lo_dialed : at_ s = Dialing ->
      loop s (go (Hello (length (streams s)))
                {| cli := cli s; at_ := at_ s; streams := streams s ++ [new_stream] |})
  | lo_hello i : at_ s = Hello i ->
      loop s (go (Starting i) (on i (set_reader Receiving ∘ put FromConnect connect_packet) s))
  | lo_hello_failed i : at_ s = Hello i -> loop s (go Idle (on i shut s))
  | lo_start i : at_ s = Starting i -> loop s (go (WaitConnack i) (on i start_pinging s))
  | lo_connack i st : at_ s = WaitConnack i -> streams s !! i = Some st -> connectF st = Completed ->
      loop s (if bool_decide (Subscriptions ops = []) then connected i s else go (Subscribing i) s)
  | lo_subscribe i st : at_ s = Subscribing i -> streams s !! i = Some st -> opened st = true ->
      loop s (go (WaitSuback i) (on i (put FromConnect subscribe_packet) s))
  | lo_subscribe_failed i : at_ s = Subscribing i -> loop s (go Idle (on i shut s))
  | lo_suback i st : at_ s = WaitSuback i -> streams s !! i = Some st -> subscribeF st = Completed ->
      loop s (connected i s)
  (* the future is cancelled, or the time is out *)
  | lo_wait_failed i e : at_ s = WaitConnack i \/ at_ s = WaitSuback i ->
      loop s (go (Failing i (die_of e)) s)
  | lo_failed i : at_ s = Failing i Left -> loop s (go Idle s)
  (* sending *)
  | lo_take i p l : at_ s = Sel i -> cache (cli s) = p :: l ->
      loop s (move (Send_ i p) (set_cache (set_loop (cli s) (Sending p) (curr (cli s))) l) s)
  | lo_sent i p st : at_ s = Resend i p \/ at_ s = Send_ i p -> streams s !! i = Some st ->
      opened st = true ->
      loop s (move (Sel i) (deliver (set_loop (cli s) Selecting None) p) (on i (put FromCache p) s))
  | lo_send_failed i p e : at_ s = Resend i p \/ at_ s = Send_ i p ->
      loop s (move (Broken i (die_of e)) (set_loop (cli s) Waiting (Some p)) s)
  | lo_client_dying i : at_ s = Sel i -> dying (cli s) = true ->
      loop s (move (Closing i (Enter None)) (set_loop (cli s) Waiting None) s)
  | lo_stream_dying i st : at_ s = Sel i -> streams s !! i = Some st -> s_dying st = true ->
      loop s (move (Closing i (Enter None)) (set_loop (set_stream_dying (cli s) true) Waiting None) s)
  (* close *)
  | lo_broken i : at_ s = Broken i Left -> loop s (go (Closing i (Enter None)) s)
  | lo_closed i : at_ s = Closing i Left -> loop s (go (Joining i) s)
  | lo_joined i st : at_ s = Joining i -> streams s !! i = Some st -> reader st = REnded ->
      pinger st = PEnded -> loop s (go Idle s)
  | lo_die i f q st st' f' : dies (at_ s) i f q -> streams s !! i = Some st -> die_step st f st' f' ->
      loop s (go (q f') (set_stream i st' s)).

(** The callers are those of MqttClient; one that meets the goroutine at its select of an
    unbuffered cache moves it. *)
Definition follow (c : Client) (s : System) : System :=
  move match at_ s, pc c with Sel i, Sending p => Send_ i p | q, _ => q end c s.

Inductive step (s : System) : System -> Prop :=
  | s_send p c : send_step capacity (cli s) p c -> step s (follow c s)
  | s_dropped p : (capacity <= length (cache (cli s)))%nat ->
      ~ (capacity = 0%nat /\ pc (cli s) = Selecting) -> dying (cli s) = false ->
      step s (move (at_ s) (drop_pkt (cli s) p) s)
  | s_close : step s (move (at_ s) (set_dying (cli s)) s)
  | s_loop s' : loop s s' -> step s s'
  | s_stream i st st' : streams s !! i = Some st -> stream_step st st' -> step s (set_stream i st' s).

Definition init : System := {| cli := NewClient; at_ := Idle; streams := [] |}.

(** ** The client of MqttClient *)

Context (settle_law : forall f new, settle f new = new \/ settle f new = f).

Lemma pc_inv s s' : step s s' -> pc (cli s) = pc_of (at_ s) -> pc (cli s') = pc_of (at_ s').
Proof.
  intros Hs Hpc. destruct Hs as [p c Hs|p| |s' Hl|i st st' _ _]; try done.
  - unfold follow. cbn. destruct Hs as [Hlt|Hcap Hsel]; cbn.
    + rewrite Hpc. by destruct (at_ s).
    + rewrite Hsel in Hpc. by destruct (at_ s).
  - destruct Hl; try done; unfold connected.
    all: try by case_bool_decide; cbn; destruct (curr (cli s)).
    all: by cbn; destruct (curr (cli s)).
Qed.

Lemma go_same s q : pc (cli s) = pc_of q -> cli (go q s) = cli s.
Proof. intros Hp. cbn. rewrite <- Hp. by destruct (cli s). Qed.

(** The goroutine moves in MqttClient, or not at all. *)
Lemma go_simulated s q : pc (cli s) = pc_of q \/ loop_step (cli s) (set_loop (cli s) (pc_of q) (curr (cli s))) ->
  rtc (MqttClient.step capacity) (cli s) (cli (go q s)).
Proof. intros [Hp|Hl]; [by rewrite go_same|]. by apply rtc_once, step_loop. Qed.

Lemma connected_simulated i s : pc (cli s) = Connecting ->
  rtc (MqttClient.step capacity) (cli s) (cli (connected i s)).
Proof. intros Hp. by apply rtc_once, step_loop, L_connected. Qed.

Lemma loop_simulated s s' : loop s s' -> pc (cli s) = pc_of (at_ s) ->
  rtc (MqttClient.step capacity) (cli s) (cli s').
Proof.
  destruct 1 as [Ha Hd|Ha|Ha|Ha|i Ha|i Ha|i Ha|i st Ha|i st Ha|i Ha|i st Ha|i e Ha|i Ha|i p l Ha Hc|i p st Ha Hst Ho
    |i p e Ha|i Ha Hd|i st Ha Hst Hd|i Ha|i Ha|i st Ha|i f q st st' f' Hd]; intros Hp;
    try (rewrite Ha in Hp; cbn in Hp).
  all: try match goal with |- rtc _ _ (cli (go ?q ?s0)) =>
    apply (go_simulated s0 q); first [by left|right; by constructor] end.
  - case_bool_decide; [by apply connected_simulated|]. apply go_simulated. by left.
  - by apply connected_simulated.
  - apply go_simulated. left. by destruct Ha as [Ha|Ha]; rewrite Ha in Hp.
  - by apply rtc_once, step_loop, L_take.
  - apply rtc_once, step_loop. destruct Ha as [Ha|Ha]; rewrite Ha in Hp; by constructor.
  - apply rtc_once, step_loop. destruct Ha as [Ha|Ha]; rewrite Ha in Hp; by constructor.
  - by apply rtc_once, step_loop, L_client_dying.
  - eapply rtc_l; [by apply step_stream_dies|].
    by apply rtc_once, step_loop, (L_stream_dying (set_stream_dying (cli s) true)).
  - match goal with |- rtc _ _ (cli (go ?q ?s0)) => apply (go_simulated s0 q) end.
    left. cbn. rewrite Hp. by destruct Hd.
Qed.

Lemma session_step_simulated s s' : step s s' -> pc (cli s) = pc_of (at_ s) ->
  rtc (MqttClient.step capacity) (cli s) (cli s').
Proof.
  intros [p c Hs|p H1 H2 H3| |s0 Hl|i st st' _ _] Hp; [| | |by apply loop_simulated|done].
  - by eapply rtc_once, step_send.
  - by apply rtc_once, step_dropped.
  - apply rtc_once, step_close.
Qed.

Lemma client_simulated s : rtc step init s ->
  pc (cli s) = pc_of (at_ s) /\ rtc (MqttClient.step capacity) NewClient (cli s).
Proof.
  intros Hr. pattern s. revert s Hr. refine (rtc_ind_r _ init _ _); [done|].
  intros s s' _ Hs [Hp Hc]. split; [by eapply pc_inv|]. etransitivity; [done|]. by apply session_step_simulated.
Qed.

(** ** What the broker has said, and what it was told *)

Definition greeted (st : Stream) : Prop :=
  exists l, received st = Connack ConnectionAccepted :: l.
Definition granted (st : Stream) : Prop :=
  exists codes, Suback subscribeId codes ∈ received st /\
    existsb (fun code => code =? QOSFailure) codes = false.

Definition handshake : list Packet :=
  connect_packet :: if bool_decide (Subscriptions ops = []) then [] else [subscribe_packet].

Definition from (o : origin) (w : list (origin * Packet)) : list Packet :=
  omap (fun e => if decide (e.1 = o) then Some e.2 else None) w.
(** What the goroutine of the client wrote, in [connect] and in [sending]. *)
Definition by_loop (w : list (origin * Packet)) : list Packet :=
  omap (fun e => match e.1 with FromConnect | FromCache => Some e.2 | _ => None end) w.

Lemma from_snoc o w o' p : from o (w ++ [(o', p)]) = from o w ++ if decide (o' = o) then [p] else [].
Proof. unfold from. rewrite omap_app. cbn. by case_decide. Qed.
Lemma by_loop_snoc w o p : by_loop (w ++ [(o, p)]) =
  by_loop w ++ match o with FromConnect | FromCache => [p] | _ => [] end.
Proof. unfold by_loop. rewrite omap_app. by destruct o. Qed.

#[local] Arguments from : simpl never.
#[local] Arguments by_loop : simpl never.

(** ** Invariants of one stream *)

(** What is on the wire, whoever runs. *)
Record wire_ok (st : Stream) : Prop := {
  ok_first : wire st = [] /\ reader st = RNone /\ pinger st = PNone \/
    exists w, wire st = (FromConnect, connect_packet) :: w;
  ok_script : exists hs, by_loop (wire st) = hs ++ from FromCache (wire st) /\ hs `prefix_of` handshake /\
    (from FromCache (wire st) <> [] -> hs = handshake);
  ok_cache : from FromCache (wire st) <> [] -> greeted st /\ (Subscriptions ops = [] \/ granted st);
  ok_acks : forall p, p ∈ from FromReader (wire st) -> exists id d m,
    p = Puback id /\ Publish id d m ∈ received st /\ QOS m = 1;
  ok_bye : (length (from FromDie (wire st)) <= 1)%nat
}.

(** What the futures and [receiving] know. *)
Record reader_ok (st : Stream) : Prop := {
  ok_connack : connectF st = Completed -> greeted st;
  ok_suback : subscribeF st = Completed -> granted st;
  ok_silent : connacked st = false ->
    match reader st with
    | RNone | Receiving => received st = []
    | Handling p => received st = [p]
    | Acking _ => False
    | _ => True
    end;
  ok_handling p : reader st = Handling p -> p ∈ received st;
  ok_acking id : reader st = Acking id -> exists d m, Publish id d m ∈ received st /\ QOS m = 1
}.

(** The calls of [die] under way. *)
Definition active (f : frame) : Prop :=
  match f with Goodbye | Killing | Shutting | Stuck => True | _ => False end.
#[local] Instance active_dec f : Decision (active f).
Proof. destruct f; cbn; apply _. Defined.

Definition running (o : once) : nat := match o with Running => 1 | _ => 0 end.

Record frames_ok (fs : list frame) (st : Stream) : Prop := {
  ok_active : length (filter active fs) = running (once_ st);
  ok_goodbye : Goodbye ∈ fs -> from FromDie (wire st) = [];
  ok_left : Left ∈ fs -> once_ st = Done;
  ok_fresh : once_ st = Fresh -> from FromDie (wire st) = [];
  ok_done : once_ st = Done -> opened st = false
}.

Definition reader_frame (r : reader_at) : list frame := match r with RDie f => [f] | _ => [] end.
Definition pinger_frame (p : pinger_at) : list frame := match p with PDie f => [f] | _ => [] end.

Lemma frames_perm fs fs' st : fs ≡ₚ fs' -> frames_ok fs st -> frames_ok fs' st.
Proof.
  intros Hp []. assert (He : forall f, f ∈ fs' -> f ∈ fs) by (intros f; by rewrite Hp).
  constructor; auto. by rewrite <- Hp.
Qed.

Lemma no_goodbye fs : length (filter active fs) = 0%nat -> Goodbye ∉ fs.
Proof.
  intros H0 Hin. assert (Hin' : Goodbye ∈ filter active fs) by (by apply list_elem_of_filter).
  destruct (filter active fs); [by apply elem_of_nil in Hin'|done].
Qed.

Lemma active_cons f fs :
  length (filter active (f :: fs)) = ((if decide (active f) then 1 else 0) + length (filter active fs))%nat.
Proof. rewrite filter_cons. by case_decide. Qed.

(** Somebody is inside of the once. *)
Lemma frames_running f fs st : once_ st = Running -> active f -> length (filter active fs) = 0%nat ->
  Left ∉ fs -> (f = Goodbye -> from FromDie (wire st) = []) -> frames_ok (f :: fs) st.
Proof.
  intros Ho Hf Hfs Hl Hg. constructor; rewrite ?Ho; try done.
  - rewrite active_cons, decide_True, Hfs by done. done.
  - intros [<-|Hin]%elem_of_cons; [by apply Hg|]. by destruct (no_goodbye fs Hfs).
  - by intros [<-|Hin]%elem_of_cons.
Qed.

(** A call of [die] does a step, among others. *)
Lemma die_frames st f st' f' fs : die_step st f st' f' -> frames_ok (f :: fs) st -> frames_ok (f' :: fs) st'.
Proof.
  intros Hd [Ha Hg Hl Hf Hdo]. rewrite active_cons in Ha.
  assert (Hfs : active f \/ once_ st = Fresh -> length (filter active fs) = 0%nat).
  { case_decide; [|intros [?|Ho]; [done|by rewrite Ho in Ha]].
    intros _. destruct (once_ st); cbn in Ha; lia. }
  assert (Hrun : active f -> once_ st = Running).
  { case_decide; [|done]. destruct (once_ st); cbn in Ha; [lia|done|lia]. }
  assert (Hleft : once_ st <> Done -> Left ∉ fs) by (intros Ho Hin; apply Ho, Hl; by right).
  destruct Hd as [e Ho|e Ho|Ho| | |]; cbn [active] in *.
  - constructor; rewrite ?active_cons; try done.
    intros [|Hin]%elem_of_cons; [done|]. apply Hg. by right.
  - apply frames_running; [done|by destruct e|auto|apply Hleft; congruence|auto].
  - apply frames_running; [auto|done|auto|apply Hleft; rewrite Hrun; done|done].
  - apply frames_running; [auto|done|auto|apply Hleft; rewrite Hrun; done|done].
  - apply frames_running; [cbn; auto|done|auto|apply Hleft; rewrite Hrun; done|done].
  - constructor; rewrite ?active_cons; cbn; try done.
    + by rewrite Hfs by auto.
    + intros [|Hin]%elem_of_cons; [done|]. by destruct (no_goodbye fs (Hfs (or_introl I))).
Qed.

(** ** Steps of one stream *)

Definition started (st : Stream) : Prop := exists w, wire st = (FromConnect, connect_packet) :: w.

(** What the goroutine of the client may count on while others run. *)
Record grows (st st' : Stream) : Prop := {
  g_opened : opened st' = true -> opened st = true;
  g_cache : from FromCache (wire st') = from FromCache (wire st);
  g_loop : by_loop (wire st') = by_loop (wire st);
  g_received : received st `prefix_of` received st';
  g_started : started st -> started st'
}.

Lemma grows_same st st' : (opened st' = true -> opened st = true) -> wire st' = wire st ->
  received st' = received st -> grows st st'.
Proof. intros Ho Hw Hr. constructor; unfold started; rewrite ?Hw, ?Hr; done. Qed.

Lemma grows_put st st' o p : opened st' = opened st -> wire st' = wire st ++ [(o, p)] ->
  received st' = received st -> o <> FromConnect -> o <> FromCache -> grows st st'.
Proof.
  intros Ho Hw Hr H1 H2. constructor; rewrite ?Hw, ?Hr, ?Ho; try done.
  - by rewrite from_snoc, decide_False, app_nil_r by congruence.
  - rewrite by_loop_snoc. destruct o; try done; by rewrite app_nil_r.
  - intros [w Hst]. unfold started. rewrite Hw, Hst. eauto.
Qed.

Lemma greeted_mono st st' : received st `prefix_of` received st' -> greeted st -> greeted st'.
Proof. intros [k Hk] [l Hl]. exists (l ++ k). by rewrite Hk, Hl. Qed.
Lemma granted_mono st st' : received st `prefix_of` received st' -> granted st -> granted st'.
Proof. intros [k Hk] (codes & Hin & Hc). exists codes. rewrite Hk. split; [set_solver|done]. Qed.

Lemma not_started_first st : wire_ok st -> reader st <> RNone \/ pinger st <> PNone -> started st.
Proof. intros [[(_ & Hr & Hp)|Hs] _ _ _ _] Hn; [tauto|done]. Qed.

(** Nothing is written. *)
Lemma wire_ok_same st st' : wire st' = wire st -> received st `prefix_of` received st' ->
  started st -> wire_ok st -> wire_ok st'.
Proof.
  intros Hw Hr Hs [_ Hsc Hc Ha Hb]. constructor; rewrite ?Hw; try done.
  - by right.
  - intros Hne. destruct (Hc Hne) as [Hg Hgr]. split; [by eapply greeted_mono|].
    destruct Hgr; [by left|right; by eapply granted_mono].
  - intros p Hp. destruct (Ha p Hp) as (id & d & m & -> & Hin & Hq). exists id, d, m.
    destruct Hr as [k Hk]. rewrite Hk. split; [done|]. split; [set_solver|done].
Qed.

(** A packet of [receiving], [pinging] or [die]. *)
Lemma wire_ok_put st st' o p : wire st' = wire st ++ [(o, p)] -> received st' = received st ->
  started st -> o <> FromConnect -> o <> FromCache ->
  (o = FromReader -> exists id d m, p = Puback id /\ Publish id d m ∈ received st /\ QOS m = 1) ->
  (o = FromDie -> from FromDie (wire st) = []) -> wire_ok st -> wire_ok st'.
Proof.
  intros Hw Hr [w Hs] H1 H2 Hrd Hd [_ Hsc Hc Ha Hb].
  assert (Hcache : from FromCache (wire st') = from FromCache (wire st))
    by (rewrite Hw, from_snoc, decide_False, app_nil_r; [done|congruence]).
  assert (Hloop : by_loop (wire st') = by_loop (wire st))
    by (rewrite Hw, by_loop_snoc; destruct o; try done; by rewrite app_nil_r).
  constructor; rewrite ?Hcache, ?Hloop; try done.
  - right. exists (w ++ [(o, p)]). by rewrite Hw, Hs.
  - unfold greeted, granted. by rewrite Hr.
  - intros q. rewrite Hw, Hr, from_snoc. intros [Hq|Hq]%elem_of_app; [by apply Ha|].
    case_decide as Ho; [|by apply elem_of_nil in Hq].
    apply list_elem_of_singleton in Hq as ->. by apply Hrd.
  - rewrite Hw, from_snoc. case_decide as Ho; [|by rewrite app_nil_r]. by rewrite (Hd Ho).
Qed.

Lemma die_ok st f st' f' : die_step st f st' f' -> (f = Goodbye -> from FromDie (wire st) = []) ->
  started st -> wire_ok st -> reader_ok st ->
  wire_ok st' /\ reader_ok st' /\ grows st st' /\ reader st' = reader st /\ pinger st' = pinger st.
Proof.
  intros Hd Hg Hs Hw [Hc Hsub Hsil Hh Ha].
  assert (Hset : forall x, settle x Cancelled = Completed -> x = Completed)
    by (intros x; by destruct (settle_law x Cancelled) as [-> | ->]).
  destruct Hd as [e Ho|e Ho|Ho| | |].
  3: split; [by eapply (wire_ok_put _ _ FromDie); eauto|]; split; [by constructor|];
    split; [by eapply grows_put|done].
  all: split; [by apply (wire_ok_same st)|]; split; [constructor; cbn; auto|]; split; [by apply grows_same|done].
Qed.

(** A goroutine of the stream that ends or calls [die]. *)
Lemma reader_dies st f : reader_ok st -> reader_ok (set_reader (RDie f) st).
Proof. intros []. by constructor. Qed.

(** Everything that is true of a stream, with the calls of [die] of the client's goroutine. *)
Record stream_ok (fs : list frame) (st : Stream) : Prop := {
  so_wire : wire_ok st;
  so_reader : reader_ok st;
  so_frames : frames_ok (reader_frame (reader st) ++ pinger_frame (pinger st) ++ fs) st
}.

Lemma frames_set_life st fs d : frames_ok fs st -> frames_ok fs (set_life (opened st) (once_ st) d st).
Proof. by intros []. Qed.

Lemma reader_moves st r : connacked st = true -> match r with Handling _ | Acking _ => False | _ => True end ->
  reader_ok st -> reader_ok (set_reader r st).
Proof. intros Hk Hr []. constructor; cbn; try done; [by rewrite Hk|by intros p ->|by intros id ->]. Qed.


(** A turn of [receiving] writes nothing, and changes what [receiving] knows. *)
Record turn (st st' : Stream) : Prop := {
  t_wire : wire st' = wire st;
  t_received : received st' = received st;
  t_pinger : pinger st' = pinger st;
  t_opened : opened st' = opened st;
  t_once : once_ st' = once_ st;
  t_dying : s_dying st' = s_dying st;
  t_frames : reader_frame (reader st') = [] \/ exists e, reader st' = RDie (Enter e)
}.

Lemma handle_turn uerr p st : turn st (handle uerr p st).
Proof.
  unfold handle. repeat case_match; constructor; cbn; try done; try (left; done); right; eexists; done.
Qed.

Lemma handle_ok uerr p st : reader st = Handling p -> reader_ok st -> reader_ok (handle uerr p st).
Proof.
  intros Hp Hok. pose proof Hok as [Hc Hs Hsil Hh Ha]. specialize (Hh p Hp).
  unfold handle. destruct (connacked st) eqn:Hk; cbn [negb].
  - destruct p as [c|code|id d m|id|id subs|id codes|id topics|id| | |]; try by apply reader_moves.
    + destruct uerr; [by apply reader_moves|]. destruct (_ && _) eqn:Hq; [|by apply reader_moves].
      constructor; cbn; try done; [by rewrite Hk|]. intros id' [= <-]. exists d, m. split; [done|].
      apply andb_true_iff in Hq as [_ Hq]. by apply Z.eqb_eq.
    + destruct uerr; by apply reader_moves.
    + destruct (_ =? _) eqn:Hid; cbn [negb]; [|by apply reader_moves].
      apply Z.eqb_eq in Hid as ->. destruct (existsb _ codes) eqn:Hx; [by apply reader_moves|].
      constructor; cbn; try done; [|by rewrite Hk]. intros _. by exists codes.
  - rewrite Hp in Hsil. specialize (Hsil eq_refl).
    destruct (onConnack p) as [e|] eqn:He; constructor; cbn; try done.
    intros _. exists []. cbn. rewrite Hsil. f_equal.
    destruct p; try done. cbn in He. by case_decide; simplify_eq.
Qed.

(** Frames that are not under way can come and go. *)
Lemma frames_enter fs st st' e : wire st' = wire st -> opened st' = opened st -> once_ st' = once_ st ->
  frames_ok fs st -> frames_ok (Enter e :: fs) st'.
Proof.
  intros Hw Ho Hn [Ha Hg Hl Hf Hd]. constructor; rewrite ?Hw, ?Ho, ?Hn, ?active_cons; try done.
  - intros [|Hin]%elem_of_cons; auto. done.
  - intros [|Hin]%elem_of_cons; auto. done.
Qed.
Lemma frames_leave fs st st' : wire st' = wire st -> opened st' = opened st -> once_ st' = once_ st ->
  frames_ok (Left :: fs) st -> frames_ok fs st'.
Proof.
  intros Hw Ho Hn [Ha Hg Hl Hfr Hd]. rewrite active_cons in Ha.
  constructor; rewrite ?Hw, ?Ho, ?Hn; try done; intros Hin; [apply Hg|apply Hl]; by right.
Qed.
Lemma frames_same fs st st' : wire st' = wire st -> opened st' = opened st -> once_ st' = once_ st ->
  frames_ok fs st -> frames_ok fs st'.
Proof. intros Hw Ho Hn []. by constructor; rewrite ?Hw, ?Ho, ?Hn. Qed.
Lemma frames_put fs st st' o p : wire st' = wire st ++ [(o, p)] -> opened st' = opened st ->
  once_ st' = once_ st -> o <> FromDie -> frames_ok fs st -> frames_ok fs st'.
Proof.
  intros Hw Ho Hn Hne []. by constructor; rewrite ?Hw, ?Ho, ?Hn, ?from_snoc, ?(decide_False (P := o = FromDie)), ?app_nil_r.
Qed.

Lemma frames_middle gs f fs st : frames_ok (gs ++ f :: fs) st <-> frames_ok (f :: gs ++ fs) st.
Proof. split; apply frames_perm; [symmetry|]; apply Permutation_middle. Qed.

Lemma stream_step_ok fs st st' : stream_step st st' -> stream_ok fs st -> stream_ok fs st' /\ grows st st'.
Proof.
  intros Hs [Hw Hr Hf].
  assert (Hst : started st).
  { apply not_started_first; [done|]. destruct Hs; (left; congruence) || (right; congruence). }
  destruct Hs as [p Hp|e Hp|p uerr Hp|id Hp Ho|id e Hp|f st' f' Hp Hd|Hp|Hp|Hp Ho|e Hp|Hp|Hp Hdy|f st' f' Hp Hd|Hp];
    rewrite Hp in Hf; cbn [reader_frame pinger_frame app] in Hf.
  - split; [|constructor; cbn; try done; by apply prefix_app_r]. constructor.
    + apply (wire_ok_same st); cbn; try done. by apply prefix_app_r.
    + destruct Hr as [Hc Hsu Hsil Hh Ha]. rewrite Hp in Hsil.
      assert (Hpre : received st `prefix_of` received (receive p st)) by by apply prefix_app_r.
      constructor; cbn; try done.
      * intros Hx. eapply greeted_mono; eauto.
      * intros Hx. eapply granted_mono; eauto.
      * intros Hk. by rewrite Hsil.
      * intros q [= <-]. set_solver.
    + by apply (frames_same _ st).
  - split; [|by apply grows_same]. constructor; [by apply (wire_ok_same st)|by apply reader_dies|].
    by apply (frames_enter _ st).
  - pose proof (handle_turn uerr p st) as [T1 T2 T3 T4 T5 _ T6].
    split; [|apply grows_same; congruence]. constructor; [apply (wire_ok_same st); rewrite ?T2; done|by apply handle_ok|].
    rewrite T3. destruct T6 as [-> |[e ->]]; [by apply (frames_same _ st)|by apply (frames_enter _ st)].
  - split; [|by apply (grows_put _ _ FromReader (Puback id))]. constructor; cbn.
    + apply (wire_ok_put st _ FromReader (Puback id)); try done. intros _.
      destruct (ok_acking st Hr id Hp) as (d & m & ?). eauto.
    + destruct Hr as [Hc Hsu Hsil Hh Ha]. rewrite Hp in Hsil. constructor; cbn; try done.
    + by apply (frames_put _ st _ FromReader (Puback id)).
  - split; [|by apply grows_same]. constructor; [by apply (wire_ok_same st)|by apply reader_dies|].
    by apply (frames_enter _ st).
  - destruct (die_ok st f st' f' Hd) as (Hw' & Hr' & Hg & Hrd & Hpg); try done.
    { intros ->. apply (ok_goodbye _ _ Hf). set_solver. }
    split; [|destruct Hg; by constructor]. constructor; [|by apply reader_dies|].
    + apply (wire_ok_same st'); try done. by apply (g_started _ _ Hg).
    + cbn. rewrite Hpg. apply (frames_same _ st'); try done. by eapply die_frames.
  - split; [|by apply grows_same]. constructor; [by apply (wire_ok_same st)| |].
    + destruct Hr. by constructor.
    + by apply (frames_leave _ st).
  - split; [|by apply grows_same]. constructor; [by apply (wire_ok_same st)|by destruct Hr|by apply (frames_same _ st)].
  - split; [|by apply (grows_put _ _ FromPinger Pingreq)]. constructor; [|by destruct Hr|].
    + by apply (wire_ok_put st _ FromPinger Pingreq).
    + by apply (frames_put _ st _ FromPinger Pingreq).
  - split; [|by apply grows_same]. constructor; [by apply (wire_ok_same st)|by destruct Hr|].
    cbn. rewrite frames_middle. by apply (frames_enter _ st).
  - split; [|by apply grows_same]. constructor; [by apply (wire_ok_same st)|by destruct Hr|by apply (frames_same _ st)].
  - split; [|by apply grows_same]. constructor; [by apply (wire_ok_same st)|by destruct Hr|by apply (frames_same _ st)].
  - destruct (die_ok st f st' f' Hd) as (Hw' & Hr' & Hg & Hrd & Hpg); try done.
    { intros ->. apply (ok_goodbye _ _ Hf). set_solver. }
    split; [|destruct Hg; by constructor]. constructor; [|by destruct Hr'|].
    + apply (wire_ok_same st'); try done. by apply (g_started _ _ Hg).
    + cbn. rewrite Hrd, frames_middle. rewrite frames_middle in Hf. apply (frames_same _ st'); try done.
      by eapply die_frames.
  - split; [|by apply grows_same]. constructor; [by apply (wire_ok_same st)|by destruct Hr|].
    cbn. rewrite frames_middle in Hf. by apply (frames_leave _ st).
Qed.

(** ** The invariant of the system *)

Definition current (q : position) : option nat :=
  match q with
  | Idle | Dialing | Halted => None
  | Hello i | Starting i | WaitConnack i | Subscribing i | WaitSuback i | Failing i _ | Resend i _
  | Sel i | Send_ i _ | Broken i _ | Closing i _ | Joining i => Some i
  end.

Definition loop_frames (q : position) (i : nat) : list frame :=
  match q with
  | Failing j f | Broken j f | Closing j f => if decide (j = i) then [f] else []
  | _ => []
  end.

(** What the goroutine of the client knows of its stream. *)
Definition said (hs : list Packet) (st : Stream) : Prop :=
  by_loop (wire st) = hs ++ from FromCache (wire st).
Definition served (st : Stream) : Prop :=
  said handshake st /\ greeted st /\ (Subscriptions ops = [] \/ granted st).
Definition at_ok (q : position) (st : Stream) : Prop :=
  match q with
  | Idle | Dialing | Halted => False
  | Hello _ => st = new_stream
  | Starting _ => said [connect_packet] st /\ from FromCache (wire st) = [] /\ started st /\ pinger st = PNone
  | WaitConnack _ => said [connect_packet] st /\ from FromCache (wire st) = [] /\ started st
  | Subscribing _ => said [connect_packet] st /\ from FromCache (wire st) = [] /\ started st /\ greeted st /\
      Subscriptions ops <> []
  | WaitSuback _ => said handshake st /\ from FromCache (wire st) = [] /\ started st /\ greeted st
  | Resend _ _ | Sel _ | Send_ _ _ => served st /\ started st
  | Failing _ _ | Broken _ _ | Closing _ _ => started st
  | Joining _ => opened st = false
  end.

Definition written (sts : list Stream) : list Packet := mjoin ((fun st => from FromCache (wire st)) <$> sts).

#[local] Arguments written : simpl never.

Record inv (s : System) : Prop := {
  v_pc : pc (cli s) = pc_of (at_ s);
  v_streams i st : streams s !! i = Some st -> stream_ok (loop_frames (at_ s) i) st;
  v_open i st : streams s !! i = Some st -> opened st = true -> current (at_ s) = Some i;
  v_at i : current (at_ s) = Some i ->
    S i = length (streams s) /\ exists st, streams s !! i = Some st /\ at_ok (at_ s) st;
  v_sent : written (streams s) = sent (cli s)
}.

Lemma split_last {A} (l : list A) i x : S i = length l -> l !! i = Some x -> exists k, l = k ++ [x] /\ length k = i.
Proof.
  intros Hi Hx. apply list_elem_of_split_length in Hx as (k & k' & -> & ->).
  rewrite length_app in Hi. cbn in Hi. exists k. by replace k' with (@nil A) by (destruct k'; [done|cbn in Hi; lia]).
Qed.

Lemma written_snoc sts st : written (sts ++ [st]) = written sts ++ from FromCache (wire st).
Proof. unfold written. rewrite fmap_app, join_app. cbn. by rewrite app_nil_r. Qed.

Lemma other_frames q i j : current q = Some i -> j <> i -> loop_frames q j = [].
Proof. destruct q; cbn; intros [= ->] ?; by rewrite ?decide_False. Qed.
Lemma no_frames q j : current q = None -> loop_frames q j = [].
Proof. by destruct q. Qed.

(** The goroutine of the client moves, and changes its stream. *)
Lemma inv_update s c q i st st' sts k : inv s -> current (at_ s) = Some i -> streams s !! i = Some st ->
  sts = alter (fun _ => st') i (streams s) -> stream_ok (loop_frames q i) st' ->
  (current q = Some i /\ at_ok q st' \/ current q = None /\ opened st' = false) -> pc c = pc_of q ->
  sent c = sent (cli s) ++ k -> from FromCache (wire st') = from FromCache (wire st) ++ k ->
  inv {| cli := c; at_ := q; streams := sts |}.
Proof.
  intros [Hpc Hsts Hop Hat Hsent] Hcur Hst -> Hok Hq Hc Hk Hw.
  destruct (Hat i Hcur) as [Hlen _].
  assert (Hfr : forall j, j <> i -> loop_frames q j = loop_frames (at_ s) j).
  { intros j Hj. rewrite (other_frames (at_ s) i j Hcur Hj).
    destruct Hq as [[Hq _]|[Hq _]]; [by eapply other_frames|by apply no_frames]. }
  constructor; cbn [cli at_ streams].
  - done.
  - intros j x. destruct (decide (j = i)) as [->|Hj].
    + rewrite list_lookup_alter_eq, Hst. by intros [= <-].
    + rewrite list_lookup_alter_ne by done. intros Hx. rewrite Hfr by done. by apply Hsts.
  - intros j x. destruct (decide (j = i)) as [->|Hj].
    + rewrite list_lookup_alter_eq, Hst. intros [= <-] Hx. destruct Hq as [[? _]|[_ ?]]; [done|congruence].
    + rewrite list_lookup_alter_ne by done. intros Hx Ho. pose proof (Hop j x Hx Ho). congruence.
  - intros j Hj. destruct Hq as [[Hq Hqa]|[Hq _]]; [|congruence].
    assert (j = i) as -> by congruence. rewrite length_alter. split; [done|].
    exists st'. by rewrite list_lookup_alter_eq, Hst.
  - destruct (split_last _ i st Hlen Hst) as (l & Hl & Hli). rewrite Hl in Hsent |- *.
    rewrite alter_app_r_alt, Hli, Nat.sub_diag by lia. cbn. rewrite written_snoc in *.
    by rewrite Hw, app_assoc, Hsent, Hk.
Qed.

Lemma alter_same {A} (l : list A) i x : l !! i = Some x -> l = alter (fun _ => x) i l.
Proof. intros Hx. apply list_eq. intros j. rewrite list_lookup_alter. case_decide; [by subst; rewrite Hx|done]. Qed.

(** The streams stay. *)
Lemma inv_stay s c q i st k : inv s -> current (at_ s) = Some i -> streams s !! i = Some st ->
  loop_frames q i = loop_frames (at_ s) i \/ stream_ok (loop_frames q i) st ->
  (current q = Some i /\ at_ok q st \/ current q = None /\ opened st = false) -> pc c = pc_of q ->
  sent c = sent (cli s) ++ k -> k = [] -> inv (move q c s).
Proof.
  intros Hi Hcur Hst Hf Hq Hc Hk ->. eapply (inv_update s c q i st st _ []); try done.
  - by apply alter_same.
  - destruct Hf as [-> |]; [by apply v_streams|done].
  - by rewrite app_nil_r.
Qed.

(** No stream is current, before and after. *)
Lemma inv_away s c q : inv s -> current (at_ s) = None -> current q = None -> pc c = pc_of q ->
  sent c = sent (cli s) -> inv (move q c s).
Proof.
  intros [Hpc Hsts Hop Hat Hsent] H1 H2 Hc Hs. constructor; cbn; try done.
  - intros i st Hst. rewrite no_frames by done. rewrite <- (no_frames (at_ s) i) by done. by apply Hsts.
  - intros i st Hst Ho. rewrite H2, <- H1. by eapply Hop.
  - intros i Hi. congruence.
  - congruence.
Qed.

(** ** Steps keep it *)

Lemma new_stream_ok : stream_ok [] new_stream.
Proof.
  constructor.
  - constructor; cbn; try done; [by left|exists []; repeat split; [by apply prefix_nil|done]|
      by intros p ?%elem_of_nil|exact (Nat.le_0_l 1)].
  - by constructor.
  - by constructor; cbn; try done; intros ?%elem_of_nil.
Qed.

Lemma inv_dialed s : inv s -> at_ s = Dialing ->
  inv (go (Hello (length (streams s)))
         {| cli := cli s; at_ := at_ s; streams := streams s ++ [new_stream] |}).
Proof.
  intros [Hpc Hsts Hop Hat Hsent] Ha. rewrite Ha in *. constructor; cbn; try done.
  - intros i st [Hst|[_ [_ <-]%list_lookup_singleton_Some]]%lookup_app_Some; [by apply Hsts in Hst|].
    apply new_stream_ok.
  - intros i st [Hst|[Hi [Hz <-]%list_lookup_singleton_Some]]%lookup_app_Some Ho; [by apply Hop in Hst|].
    f_equal. lia.
  - intros i [= <-]. rewrite length_app. cbn. split; [lia|]. exists new_stream. split; [|done].
    rewrite lookup_app_r, Nat.sub_diag by lia. done.
  - rewrite written_snoc, Hsent. by rewrite app_nil_r.
Qed.

Lemma said_mono hs st st' : grows st st' -> said hs st -> said hs st'.
Proof. intros []. unfold said. by rewrite g_loop0, g_cache0. Qed.
Lemma served_mono st st' : grows st st' -> served st -> served st'.
Proof.
  intros Hg (Hs & Hgr & Hgt). split; [by eapply said_mono|]. split; [eapply greeted_mono; [apply Hg|done]|].
  destruct Hgt; [by left|right]. eapply granted_mono; [apply Hg|done].
Qed.

Lemma pinger_stays st st' : stream_step st st' -> pinger st = PNone -> pinger st' = PNone.
Proof.
  destruct 1 as [| |p uerr Hp| | |f st' f' Hp Hd| | | | | | | |]; cbn; try congruence.
  - by rewrite (t_pinger _ _ (handle_turn uerr p st)).
  - by destruct Hd.
Qed.

(** What the goroutine of the client knows stays true while the stream runs. *)
Lemma at_ok_step q st st' : stream_step st st' -> grows st st' -> at_ok q st -> at_ok q st'.
Proof.
  intros Hs Hg. pose proof Hg as [Ho Hc Hl Hr Hst]. destruct q; cbn; try done.
  - intros ->. by destruct Hs.
  - intros (H1 & H2 & H3 & H4). rewrite Hc. split; [by eapply said_mono|]. split; [done|]. split; [auto|].
    by eapply pinger_stays.
  - intros (H1 & H2 & H3). rewrite Hc. split; [by eapply said_mono|]. auto.
  - intros (H1 & H2 & H3 & H4 & H5). rewrite Hc. split; [by eapply said_mono|]. split; [done|]. split; [auto|].
    split; [|done]. by eapply greeted_mono.
  - intros (H1 & H2 & H3 & H4). rewrite Hc. split; [by eapply said_mono|]. split; [done|]. split; [auto|].
    by eapply greeted_mono.
  - intros [H1 H2]. split; [by eapply served_mono|auto].
  - intros [H1 H2]. split; [by eapply served_mono|auto].
  - intros [H1 H2]. split; [by eapply served_mono|auto].
  - intros Hx. apply not_true_iff_false. intros Hy. rewrite Ho in Hx by done. done.
Qed.

Lemma inv_stream s i st st' : inv s -> streams s !! i = Some st -> stream_step st st' ->
  inv (set_stream i st' s).
Proof.
  intros [Hpc Hsts Hop Hat Hsent] Hst Hs.
  destruct (stream_step_ok _ _ _ Hs (Hsts i st Hst)) as [Hok Hg]. constructor; cbn [set_stream on cli at_ streams].
  - done.
  - intros j x. rewrite list_lookup_alter. case_decide as Hj; [subst j|apply Hsts].
    rewrite Hst. by intros [= <-].
  - intros j x. rewrite list_lookup_alter. case_decide as Hj; [subst j|apply Hop].
    rewrite Hst. intros [= <-] Ho. eapply Hop; [done|]. by apply Hg.
  - intros j Hj. destruct (Hat j Hj) as (Hl & x & Hx & Hok'). rewrite length_alter. split; [done|].
    rewrite list_lookup_alter. case_decide as He; [subst j|by eauto].
    rewrite Hst in Hx |- *. simplify_eq. exists st'. split; [done|]. by eapply at_ok_step.
  - rewrite <- Hsent. unfold written. f_equal. apply list_eq. intros j.
    rewrite !list_lookup_fmap, list_lookup_alter. case_decide; [subst j|done].
    rewrite Hst. cbn. f_equal. apply Hg.
Qed.

Lemma inv_call s p c : inv s -> send_step capacity (cli s) p c -> inv (follow c s).
Proof.
  intros Hi Hs. pose proof (v_pc s Hi) as Hpc. unfold follow.
  assert (Hq : pc c = pc_of (match at_ s, pc c with Sel i, Sending p => Send_ i p | q, _ => q end) /\ sent c = sent (cli s)).
  { destruct Hs as [Hlt|Hcap Hsel]; cbn; (split; [|done]).
    - rewrite Hpc. by destruct (at_ s).
    - rewrite Hsel in Hpc. by destruct (at_ s). }
  destruct Hq as [Hq Hsent]. destruct (current (at_ s)) as [i|] eqn:Hcur.
  - destruct (v_at s Hi i Hcur) as (_ & st & Hst & Hok).
    apply (inv_stay s c _ i st []); try done; [| |by rewrite app_nil_r].
    + left. by destruct (at_ s), (pc c).
    + left. destruct (at_ s), (pc c); done.
  - apply inv_away; try done. by destruct (at_ s), (pc c).
Qed.

(** A change of the client's flags only. *)
Lemma inv_flags s c : inv s -> pc c = pc (cli s) -> sent c = sent (cli s) -> inv (move (at_ s) c s).
Proof.
  intros Hi Hpc Hs. pose proof (v_pc s Hi) as Hp. rewrite <- Hpc in Hp.
  destruct Hi. by constructor; cbn; rewrite ?Hs.
Qed.

Lemma handshake_prefix : [connect_packet] `prefix_of` handshake.
Proof. unfold handshake. case_bool_decide; by eexists. Qed.

(** The goroutine of the client writes. *)
Lemma wire_ok_write st st' o p hs k : wire_ok st -> wire st' = wire st ++ [(o, p)] -> received st' = received st ->
  started st' -> o = FromConnect \/ o = FromCache -> said hs st' -> hs `prefix_of` handshake ->
  from FromCache (wire st') = k -> (k = [] \/ hs = handshake /\ greeted st /\ (Subscriptions ops = [] \/ granted st)) ->
  wire_ok st'.
Proof.
  intros [Hf Hsc Hc Ha Hb] Hw Hr Hst Ho Hsaid Hpre Hk Hkk.
  assert (Hother : forall o', o' <> FromConnect -> o' <> FromCache -> from o' (wire st') = from o' (wire st)).
  { intros o' H1 H2. rewrite Hw, from_snoc, decide_False, app_nil_r; [done|]. intros ->. by destruct Ho. }
  constructor; rewrite ?Hother by done; rewrite ?Hk, ?Hr.
  - by right.
  - exists hs. split; [by rewrite <- Hk|]. split; [done|]. intros Hne. destruct Hkk as [|[? _]]; done.
  - intros Hne. unfold greeted, granted. rewrite Hr. destruct Hkk as [|[_ ?]]; done.
  - done.
  - done.
Qed.

Lemma alter_at {A} (f : A -> A) (l : list A) i x : l !! i = Some x -> alter f i l = alter (fun _ => f x) i l.
Proof. intros Hx. apply list_eq. intros j. rewrite !list_lookup_alter. case_decide; [by subst; rewrite Hx|done]. Qed.

(** *** The steps of [connect] that write *)

Lemma hello_ok : stream_ok [] (set_reader Receiving (put FromConnect connect_packet new_stream)).
Proof.
  constructor.
  - constructor; cbn; try done.
    + right. by eexists.
    + exists [connect_packet]. split; [done|]. split; [apply handshake_prefix|done].
    + by intros p ?%elem_of_nil.
    + exact (Nat.le_0_l 1).
  - by constructor.
  - by constructor; cbn; try done; intros ?%elem_of_nil.
Qed.

Lemma shut_ok fs st : stream_ok fs st -> stream_ok fs (shut st).
Proof.
  intros [[] [] []]. constructor; [by constructor|by constructor|]. by constructor.
Qed.

Lemma start_pinging_ok st : stream_ok [] st -> pinger st = PNone -> started st -> stream_ok [] (start_pinging st).
Proof.
  intros [Hw Hr Hf] Hp Hs. rewrite Hp in Hf. constructor.
  - by apply (wire_ok_same st).
  - by destruct Hr.
  - apply (frames_same _ st); try done. cbn. by destruct (0 <? KeepAlive ops), (reader st).
Qed.

Lemma subscribe_ok st : stream_ok [] st -> said [connect_packet] st -> from FromCache (wire st) = [] ->
  started st -> Subscriptions ops <> [] ->
  said handshake (put FromConnect subscribe_packet st) /\ stream_ok [] (put FromConnect subscribe_packet st).
Proof.
  intros [Hw Hr Hf] Hsaid Hc [w Hs] Hsub. unfold said in *.
  assert (Hh : handshake = [connect_packet; subscribe_packet]).
  { unfold handshake. by rewrite bool_decide_false. }
  assert (Hsaid' : said handshake (put FromConnect subscribe_packet st)).
  { unfold said. rewrite Hh. cbn [wire put]. rewrite by_loop_snoc, from_snoc, Hsaid, Hc. done. }
  split; [done|]. constructor.
  - eapply (wire_ok_write st _ FromConnect subscribe_packet handshake []); try done; [|by left| |by left].
    + exists (w ++ [(FromConnect, subscribe_packet)]). cbn. by rewrite Hs.
    + cbn. by rewrite from_snoc, Hc.
  - by destruct Hr.
  - by apply (frames_put _ st _ FromConnect subscribe_packet).
Qed.

(** *** The packet of a caller *)

Lemma deliver_ok p st : stream_ok [] st -> served st -> started st ->
  served (put FromCache p st) /\ started (put FromCache p st) /\ stream_ok [] (put FromCache p st) /\
  from FromCache (wire (put FromCache p st)) = from FromCache (wire st) ++ [p].
Proof.
  intros [Hw Hr Hf] (Hsaid & Hg & Hgt) [w Hs].
  assert (Hc : from FromCache (wire (put FromCache p st)) = from FromCache (wire st) ++ [p]).
  { cbn. by rewrite from_snoc. }
  assert (Hsaid' : said handshake (put FromCache p st)).
  { unfold said in *. rewrite Hc. cbn. by rewrite by_loop_snoc, Hsaid, app_assoc. }
  assert (Hst : started (put FromCache p st)).
  { exists (w ++ [(FromCache, p)]). cbn. by rewrite Hs. }
  split; [by split|]. split; [done|]. split; [|done]. constructor.
  - eapply (wire_ok_write st _ FromCache p handshake _); try done; [by right|by right].
  - by destruct Hr.
  - by apply (frames_put _ st _ FromCache p).
Qed.

Lemma die_step_ok fs f f' st st' : die_step st f st' f' -> started st -> stream_ok (f :: fs) st ->
  stream_ok (f' :: fs) st' /\ grows st st'.
Proof.
  intros Hd Hst [Hw Hr Hf].
  rewrite app_assoc, frames_middle, <- app_assoc in Hf.
  destruct (die_ok st f st' f' Hd) as (Hw' & Hr' & Hg & Hrd & Hpg); try done.
  { intros ->. apply (ok_goodbye _ _ Hf). by left. }
  split; [|done]. constructor; [done|done|]. rewrite Hrd, Hpg, app_assoc, frames_middle, <- app_assoc.
  by eapply die_frames.
Qed.

Lemma left_closed fs st : stream_ok (Left :: fs) st -> opened st = false.
Proof. intros [_ _ Hf]. apply (ok_done _ _ Hf), (ok_left _ _ Hf). set_solver. Qed.
Lemma enter_ok e fs st : stream_ok fs st -> stream_ok (Enter e :: fs) st.
Proof.
  intros [Hw Hr Hf]. constructor; [done..|].
  rewrite app_assoc, frames_middle, <- app_assoc. by apply (frames_enter _ st).
Qed.
Lemma leave_ok fs st : stream_ok (Left :: fs) st -> stream_ok fs st.
Proof.
  intros [Hw Hr Hf]. constructor; [done..|].
  rewrite app_assoc, frames_middle, <- app_assoc in Hf. by apply (frames_leave _ st).
Qed.

(** The stream of the client's goroutine. *)
Lemma at_stream s i : inv s -> current (at_ s) = Some i ->
  exists st, streams s !! i = Some st /\ at_ok (at_ s) st /\ stream_ok (loop_frames (at_ s) i) st.
Proof.
  intros Hi Hc. destruct (v_at s Hi i Hc) as (_ & st & Hst & Hok). exists st.
  split; [done|]. split; [done|]. by apply v_streams.
Qed.

Lemma inv_connected s i st : inv s -> current (at_ s) = Some i -> streams s !! i = Some st ->
  loop_frames (at_ s) i = [] -> served st -> started st -> inv (connected i s).
Proof.
  intros Hi Hc Hst Hf Hs Ht. unfold connected. eapply (inv_stay s _ _ i st []); try done.
  - left. rewrite Hf. by destruct (curr (cli s)).
  - left. by destruct (curr (cli s)).
  - cbn. by destruct (curr (cli s)).
  - by rewrite app_nil_r.
Qed.

(** A step within [connect], [sending] or [close] that writes nothing. *)
Lemma inv_go s q i st : inv s -> current (at_ s) = Some i -> streams s !! i = Some st ->
  loop_frames q i = loop_frames (at_ s) i \/ stream_ok (loop_frames q i) st ->
  (current q = Some i /\ at_ok q st \/ current q = None /\ opened st = false) -> inv (go q s).
Proof. intros. eapply (inv_stay s _ q i st []); try done. by rewrite app_nil_r. Qed.

(** One that changes the stream but sends no packet of the cache. *)
Lemma inv_on s q i st f : inv s -> current (at_ s) = Some i -> streams s !! i = Some st ->
  stream_ok (loop_frames q i) (f st) ->
  (current q = Some i /\ at_ok q (f st) \/ current q = None /\ opened (f st) = false) ->
  from FromCache (wire (f st)) = from FromCache (wire st) -> inv (go q (on i f s)).
Proof.
  intros Hi Hc Hst Hok Hq Hw. eapply (inv_update s _ q i st (f st) _ []); try done.
  - by apply alter_at.
  - by rewrite app_nil_r.
  - by rewrite app_nil_r.
Qed.

Ltac at_stream_of s i Hi Ha st Hst Hok Hso :=
  let Hc := fresh "Hc" in
  assert (Hc : current (at_ s) = Some i) by (by rewrite Ha);
  destruct (at_stream s i Hi Hc) as (st & Hst & Hok & Hso);
  rewrite Ha in Hok, Hso; cbn [at_ok loop_frames] in Hok, Hso;
  try rewrite decide_True in Hso by done.

Lemma session_inv_send s i p : inv s -> at_ s = Resend i p \/ at_ s = Send_ i p ->
  inv (move (Sel i) (deliver (set_loop (cli s) Selecting None) p) (on i (put FromCache p) s)).
Proof.
  intros Hi Ha.
  assert (H : exists st, current (at_ s) = Some i /\ streams s !! i = Some st /\ (served st /\ started st) /\ stream_ok [] st).
  { destruct Ha as [Ha|Ha]; at_stream_of s i Hi Ha st Hst Hok Hso; by exists st. }
  destruct H as (st & Hc & Hst & [Hs Ht] & Hso).
  destruct (deliver_ok p st Hso Hs Ht) as (H1 & H2 & H3 & H4).
  eapply (inv_update s _ (Sel i) i st (put FromCache p st) _ [p]); try done; [by apply alter_at|by left].
Qed.

Lemma inv_die s i f q st st' f' : inv s -> dies (at_ s) i f q -> streams s !! i = Some st ->
  die_step st f st' f' -> inv (go (q f') (set_stream i st' s)).
Proof.
  intros Hi Hd Hst Hs. pose proof (v_streams s Hi i st Hst) as Hso.
  assert (Hc : current (at_ s) = Some i) by by destruct Hd.
  destruct (at_stream s i Hi Hc) as (x & Hx & Hok & _). rewrite Hst in Hx. injection Hx as <-.
  assert (Hst0 : started st) by by destruct Hd.
  assert (Hf : loop_frames (at_ s) i = [f]) by (destruct Hd; cbn; by rewrite decide_True).
  rewrite Hf in Hso. destruct (die_step_ok [] f f' st st' Hs Hst0 Hso) as [Hso' Hg].
  apply (inv_on s (q f') i st (fun _ => st')); try done.
  - by destruct Hd; cbn; rewrite decide_True.
  - left. destruct Hd; (split; [done|]); by apply Hg.
  - apply Hg.
Qed.

Lemma inv_connect s s' : loop s s' -> pc (cli s) = Connecting -> inv s -> inv s'.
Proof.
  destruct 1 as [Ha Hd|Ha|Ha|Ha|i Ha|i Ha|i Ha|i st Ha Hst Hcf|i st Ha Hst Ho|i Ha|i st Ha Hst Hcf|i e Ha|i Ha
    |i p l Ha Hc|i p st Ha Hst Ho|i p e Ha|i Ha Hd|i st Ha Hst Hd|i Ha|i Ha|i st Ha|i f q st st' f' Hd Hst Hs];
    intros Hpc Hi; try (pose proof (v_pc s Hi) as Hp; rewrite Ha, Hpc in Hp; done).
  - by apply inv_away; rewrite ?Ha.
  - by apply inv_dialed.
  - at_stream_of s i Hi Ha st Hst Hok Hso. subst st.
    apply (inv_on s (Starting i) i new_stream); try done; [apply hello_ok|]. left. split; [done|].
    split; [done|]. split; [done|]. split; [by eexists|done].
  - at_stream_of s i Hi Ha st Hst Hok Hso. subst st.
    apply (inv_on s Idle i new_stream); try done; [by apply shut_ok|by right].
  - at_stream_of s i Hi Ha st Hst Hok Hso. destruct Hok as (H1 & H2 & H3 & H4).
    apply (inv_on s (WaitConnack i) i st); try done; [by apply start_pinging_ok|by left].
  - at_stream_of s i Hi Ha x Hx Hok Hso. rewrite Hst in Hx. injection Hx as <-. destruct Hok as (H1 & H2 & H3).
    pose proof (ok_connack st (so_reader _ _ Hso) Hcf) as Hg. case_bool_decide as Hsub.
    + apply (inv_connected s i st); rewrite ?Ha; try done. split; [|split; [done|by left]].
      unfold handshake. by rewrite bool_decide_true.
    + apply (inv_go s (Subscribing i) i st); try done; [by right|by left].
  - at_stream_of s i Hi Ha x Hx Hok Hso. rewrite Hst in Hx. injection Hx as <-. destruct Hok as (H1 & H2 & H3 & H4 & H5).
    destruct (subscribe_ok st Hso H1 H2 H3 H5) as [Hs' Hok'].
    apply (inv_on s (WaitSuback i) i st); try done; [left; split; [done|]|cbn; by rewrite from_snoc, app_nil_r].
    split; [done|]. split; [cbn; by rewrite from_snoc, H2|]. split; [|done].
    destruct H3 as [w Hw]. exists (w ++ [(FromConnect, subscribe_packet)]). cbn. by rewrite Hw.
  - at_stream_of s i Hi Ha st Hst Hok Hso.
    apply (inv_on s Idle i st); try done; [by apply shut_ok|by right].
  - at_stream_of s i Hi Ha x Hx Hok Hso. rewrite Hst in Hx. injection Hx as <-. destruct Hok as (H1 & H2 & H3 & H4).
    apply (inv_connected s i st); rewrite ?Ha; try done. split; [done|]. split; [done|]. right.
    exact (ok_suback st (so_reader _ _ Hso) Hcf).
  - assert (H : exists st, current (at_ s) = Some i /\ streams s !! i = Some st /\ started st /\ stream_ok [] st).
    { destruct Ha as [Ha|Ha]; at_stream_of s i Hi Ha st Hst Hok Hso; exists st; naive_solver. }
    destruct H as (st & Hc & Hst & Ht & Hso).
    apply (inv_go s _ i st); try done; [right; cbn; rewrite decide_True by done; by apply enter_ok|by left].
  - at_stream_of s i Hi Ha st Hst Hok Hso.
    apply (inv_go s Idle i st); try done; [right; by apply leave_ok|]. right. split; [done|]. by eapply left_closed.
  - by destruct Ha as [Ha|Ha]; pose proof (v_pc s Hi) as Hp; rewrite Ha, Hpc in Hp.
  - by destruct Ha as [Ha|Ha]; pose proof (v_pc s Hi) as Hp; rewrite Ha, Hpc in Hp.
  - by eapply inv_die.
Qed.

Lemma inv_sending s s' : loop s s' -> pc (cli s) <> Connecting -> inv s -> inv s'.
Proof.
  destruct 1 as [Ha Hd|Ha|Ha|Ha|i Ha|i Ha|i Ha|i st Ha Hst Hcf|i st Ha Hst Ho|i Ha|i st Ha Hst Hcf|i e Ha|i Ha
    |i p l Ha Hc|i p st Ha Hst Ho|i p e Ha|i Ha Hd|i st Ha Hst Hd|i Ha|i Ha|i st Ha Hst Hr Hpg|i f q st st' f' Hd Hst Hs];
    intros Hpc Hi; try (destruct Hpc; rewrite (v_pc s Hi), Ha; done).
  - by apply inv_away; rewrite ?Ha.
  - by apply inv_away; rewrite ?Ha.
  - destruct Hpc. rewrite (v_pc s Hi). by destruct Ha as [-> | ->].
  - at_stream_of s i Hi Ha st Hst Hok Hso.
    eapply (inv_stay s _ (Send_ i p) i st []); try done; [by rewrite Ha; left|by left|by rewrite app_nil_r].
  - by apply session_inv_send.
  - assert (H : exists st, current (at_ s) = Some i /\ streams s !! i = Some st /\ started st /\ stream_ok [] st).
    { destruct Ha as [Ha|Ha]; at_stream_of s i Hi Ha st Hst Hok Hso; exists st; naive_solver. }
    destruct H as (st & Hc & Hst & Ht & Hso).
    eapply (inv_stay s _ _ i st []); try done; [right; cbn; rewrite decide_True by done; by apply enter_ok|by left|].
    by rewrite app_nil_r.
  - at_stream_of s i Hi Ha st Hst Hok Hso. destruct Hok as [_ Ht].
    eapply (inv_stay s _ _ i st []); try done; [right; cbn; rewrite decide_True by done; by apply enter_ok|by left|].
    by rewrite app_nil_r.
  - at_stream_of s i Hi Ha x Hx Hok Hso. rewrite Hst in Hx. injection Hx as <-. destruct Hok as [_ Ht].
    eapply (inv_stay s _ _ i st []); try done; [right; cbn; rewrite decide_True by done; by apply enter_ok|by left|].
    by rewrite app_nil_r.
  - at_stream_of s i Hi Ha st Hst Hok Hso.
    apply (inv_go s _ i st); try done; [|by left].
    right. cbn. rewrite decide_True by done. by apply enter_ok, leave_ok.
  - at_stream_of s i Hi Ha st Hst Hok Hso.
    apply (inv_go s _ i st); try done; [right; by apply leave_ok|left; split; [done|]; by eapply left_closed].
  - at_stream_of s i Hi Ha x Hx Hok Hso. rewrite Hst in Hx. injection Hx as <-.
    apply (inv_go s _ i st); try done; [by left; rewrite Ha|by right].
  - by eapply inv_die.
Qed.

Lemma session_inv_step s s' : step s s' -> inv s -> inv s'.
Proof.
  intros [p c Hs|p H1 H2 H3| |s0 Hl|i st st' Hst Hs] Hi.
  - by eapply inv_call.
  - by apply inv_flags.
  - by apply inv_flags.
  - assert (Hpc : pc (cli s) = Connecting \/ pc (cli s) <> Connecting)
      by (destruct (pc (cli s)); (by left) || by right).
    destruct Hpc; [by eapply inv_connect|by eapply inv_sending].
  - by eapply inv_stream.
Qed.

Lemma session_inv_init : inv init.
Proof. by constructor. Qed.

Lemma session_inv s : rtc step init s -> inv s.
Proof. intros Hr. exact (rtc_preserves step inv session_inv_step _ _ Hr session_inv_init). Qed.

(** C2. The client of MqttClient is what callers see of this system: every run of it, with all
    its connections and goroutines, is a run of that client. *)
Theorem session_refines_client s : rtc step init s -> rtc (MqttClient.step capacity) NewClient (cli s).
Proof. intros Hr. by apply client_simulated. Qed.

(** C1. What the connections are told, however the goroutines of the client and of its streams
    interleave and whatever brokers send. The packets the caches accepted are, in order and
    without loss or repetition, those written to the connections one after the other, then the one on its way, then
    those in the cache. One connection at most is open at a time, and none when the client
    has stopped. On each, the goroutine of the client writes the Connect first, then the
    Subscribe if there are subscriptions, then packets of callers, and those only after the
    broker accepted the Connect and granted the subscriptions; acknowledgements answer
    messages of quality one that were received, and at most one Disconnect is written. *)
Theorem wires_in_order s : rtc step init s ->
  accepted (cli s) = written (streams s) ++ held (cli s) ++ cache (cli s) /\
  (forall i j st st', streams s !! i = Some st -> streams s !! j = Some st' ->
     opened st = true -> opened st' = true -> i = j) /\
  (at_ s = Halted -> Forall (fun st => opened st = false) (streams s)) /\
  forall i st, streams s !! i = Some st ->
    (wire st = [] \/ exists w, wire st = (FromConnect, connect_packet) :: w) /\
    (exists hs, by_loop (wire st) = hs ++ from FromCache (wire st) /\ hs `prefix_of` handshake /\
       (from FromCache (wire st) <> [] -> hs = handshake /\ greeted st /\ (Subscriptions ops = [] \/ granted st))) /\
    (forall p, p ∈ from FromReader (wire st) ->
       exists id d m, p = Puback id /\ Publish id d m ∈ received st /\ QOS m = 1) /\
    (length (from FromDie (wire st)) <= 1)%nat.
Proof.
  intros Hr. pose proof (session_inv s Hr) as Hi. destruct (client_simulated s Hr) as [_ Hc].
  split; [rewrite (v_sent s Hi); apply (reachable_inv capacity), Hc|]. split; [|split].
  - intros i j st st' Hst Hst' Ho Ho'. pose proof (v_open s Hi i st Hst Ho). pose proof (v_open s Hi j st' Hst' Ho').
    congruence.
  - intros Hh. apply Forall_lookup. intros i st Hst. apply not_true_iff_false. intros Ho.
    pose proof (v_open s Hi i st Hst Ho) as Hcur. by rewrite Hh in Hcur.
  - intros i st Hst. pose proof (so_wire _ _ (v_streams s Hi i st Hst)) as [Hf (hs & H1 & H2 & H3) Hca Ha Hb].
    split; [destruct Hf as [[? _]|?]; auto|]. split; [|done]. exists hs. split; [done|]. split; [done|]. auto.
Qed.
End session.

(** ** Witnesses and examples *)

Definition quiet_ops : ClientOptions unit :=
  {| Address := "tcp://broker:1883"; Username := ""; Password := ""; TLSConfig := None; ClientID := "c";
     CleanSession := true; Timeout := 0; KeepAlive := 10 * second; MaxReconnectInterval := 0;
     MaxMessageSize := 0; MaxCacheMessages := 2; Subscriptions := []; DisableAutoAck := false |}.

Definition note (id : Z) : Packet :=
  Publish id false {| Topic := "t"; Payload := []; QOS := 1; Retain := false |}.
Definition keep_first (f new : future) : future := match f with Pending => new | _ => f end.
Lemma keep_first_law f new : keep_first f new = new \/ keep_first f new = f.
Proof. destruct f; auto. Qed.
Abbreviation qstep := (step quiet_ops keep_first).

Definition hello : origin * Packet := (FromConnect, connect_packet quiet_ops).
Definition yes : Packet := Connack ConnectionAccepted.

Ltac premise := vm_compute; first [reflexivity|left; reflexivity|right; reflexivity|lia].
Ltac normal :=
  lazymatch goal with |- rtc _ ?s _ => let s' := eval vm_compute in s in change s with s' end.
Tactic Notation "loops" uconstr(c) := eapply rtc_l; [apply s_loop; eapply c; premise|]; normal.
Tactic Notation "runs" constr(i) uconstr(c) :=
  eapply rtc_l; [eapply (s_stream _ _ _ i); [vm_compute; reflexivity|eapply c; premise]|]; normal.
Tactic Notation "reader_dies_by" constr(i) uconstr(c) :=
  eapply rtc_l; [eapply (s_stream _ _ _ i); [vm_compute; reflexivity|eapply rd_die; [premise|eapply c; premise]]|]; normal.
Tactic Notation "dies_by" uconstr(c) :=
  eapply rtc_l; [apply s_loop; eapply lo_die; [constructor|vm_compute; reflexivity|eapply c; premise]|]; normal.
Tactic Notation "calls" constr(p) :=
  eapply rtc_l; [apply (s_send _ _ _ p), Send_cached; premise|]; normal.

(** Two packets are accepted; the first is written, the second is not, as the connection
    breaks; it is written to the next one. *)
Definition resent (s : System) : Prop :=
  wire <$> streams s = [[hello; (FromCache, note 1)]; [hello; (FromCache, note 2)]] /\
  accepted (cli s) = [note 1; note 2].

Lemma resent_reachable : exists s, rtc qstep init s /\ resent s.
Proof.
  eexists. split.
  - calls (note 1). calls (note 2).
    loops lo_timer. loops lo_dialed. loops lo_hello. loops lo_start.
    runs 0%nat (rd_receive _ _ _ yes). runs 0%nat (rd_handle _ _ _ yes None).
    loops lo_connack. loops lo_take. loops lo_sent. loops lo_take.
    loops (lo_send_failed _ _ _ _ _ "broken pipe").
    dies_by die_first. dies_by die_kill. dies_by die_shut. loops lo_broken. dies_by die_again.
    loops lo_closed.
    runs 0%nat (rd_failed _ _ _ "closed"). reader_dies_by 0%nat die_again. runs 0%nat rd_end.
    runs 0%nat pg_wait. runs 0%nat pg_dying. loops lo_joined.
    loops lo_timer. loops lo_dialed. loops lo_hello. loops lo_start.
    runs 1%nat (rd_receive _ _ _ yes). runs 1%nat (rd_handle _ _ _ yes None).
    loops lo_connack. loops lo_sent.
    apply rtc_refl.
  - done.
Qed.

Lemma wires_in_order_witness : exists s, resent s /\
  accepted (cli s) = written (streams s) ++ held (cli s) ++ cache (cli s).
Proof.
  destruct resent_reachable as (s & Hr & Hs). exists s. split; [done|].
  apply (wires_in_order quiet_ops keep_first keep_first_law s Hr).
Defined.

Lemma session_refines_client_witness : exists s, resent s /\
  rtc (MqttClient.step (capacity quiet_ops)) NewClient (cli s).
Proof.
  destruct resent_reachable as (s & Hr & Hs). exists s. split; [done|].
  apply (session_refines_client quiet_ops keep_first s Hr).
Defined.

(** The goroutine of the client says goodbye, and the pinger pings after it. *)
Example packet_after_disconnect : exists s, rtc qstep init s /\
  wire <$> streams s = [[hello; (FromDie, Disconnect); (FromPinger, Pingreq)]].
Proof.
  eexists. split.
  - loops lo_timer. loops lo_dialed. loops lo_hello. loops lo_start.
    runs 0%nat (rd_receive _ _ _ yes). runs 0%nat (rd_handle _ _ _ yes None). loops lo_connack.
    eapply rtc_l; [apply s_close|]. normal. loops lo_client_dying. dies_by die_first. dies_by die_goodbye.
    runs 0%nat pg_ping. apply rtc_refl.
  - done.
Qed.

(** A connection that is given up in [connect] is not waited for: its goroutine may still
    handle a packet when that of the next connection does. *)
Example two_readers : exists s, rtc qstep init s /\
  reader <$> streams s = [Handling yes; Handling yes].
Proof.
  eexists. split.
  - loops lo_timer. loops lo_dialed. loops lo_hello. loops lo_start. runs 0%nat (rd_receive _ _ _ yes).
    loops (lo_wait_failed _ _ _ _ "timeout"). dies_by die_first. dies_by die_kill. dies_by die_shut. loops lo_failed.
    loops lo_timer. loops lo_dialed. loops lo_hello. loops lo_start. runs 1%nat (rd_receive _ _ _ yes).
    apply rtc_refl.
  - done.
Qed.
