(* ===== verification/MqttClose.v ===== *)
(** * mqtt/client.go: whether [Close] returns

    [Client.Close] kills the tomb and waits for the goroutine of [connecting]. On the system
    of MqttSession: from every state in which it was called the goroutine can return, unless
    it has come to a Disconnect that could not be sent, inside of the once of its stream;
    then it never does. A callback of a reconnect is taken to return here; one that calls
    [Close] itself is in MqttReconnect. *)

From Stdlib Require Import ZArith Lia String.
From stdpp Require Import base option list strings relations.
From S2P Require Import Prelude MqttPacket MqttCounter MqttClient MqttStream MqttSession.

Local Open Scope string_scope.
Local Open Scope Z_scope.
Local Open Scope list_scope.

#[local] Existing Instance active_dec.

Section close.
Context {C : Type} (ops : ClientOptions C) (settle : future -> future -> future).
Context (settle_law : forall f new, settle f new = new \/ settle f new = f).

Abbreviation sstep := (step ops settle).
Abbreviation reachable s := (rtc sstep init s).

(** ** More that is invariant *)

(** A call of [die] that gives a reason. *)
Definition polite (f : frame) : Prop :=
  match f with Enter (Some _) | Killing | Shutting | Left => True | _ => False end.

(** What the goroutine of the client may count on when it has to wait for a stream. *)
Definition ready (q : position) (st : Stream) : Prop :=
  match q with
  | Idle | Dialing | Halted | Hello _ => True
  | Starting _ => reader st <> RNone
  | Joining _ => once_ st = Done /\ reader st <> RNone /\ pinger st <> PNone
  | Failing _ f | Broken _ f => polite f /\ reader st <> RNone /\ pinger st <> PNone
  | _ => reader st <> RNone /\ pinger st <> PNone
  end.

Record live_ok (q : position) (i : nat) (st : Stream) : Prop := {
  l_reader f : reader st = RDie f -> polite f;
  l_pinger f : pinger st = PDie f -> polite f;
  l_done : once_ st = Done -> s_dying st = true;
  l_shutting : Shutting ∈ reader_frame (reader st) ++ pinger_frame (pinger st) ++ loop_frames q i -> s_dying st = true;
  l_opened : current q = Some i -> once_ st <> Done -> opened st = true;
  l_ready : current q = Some i -> ready q st
}.

Definition live (s : System) : Prop := forall i st, streams s !! i = Some st -> live_ok (at_ s) i st.

Lemma die_polite st f st' f' : die_step settle st f st' f' -> polite f -> polite f'.
Proof. by destruct 1 as [e|[]| | | |]. Qed.

(** What a step of [die] leaves, and what it needs to know of the tomb. *)
Lemma die_life st f st' f' : die_step settle st f st' f' ->
  (f = Shutting -> s_dying st = true) -> (once_ st = Done -> s_dying st = true) ->
  (once_ st' = Done -> s_dying st' = true) /\ (f' = Shutting -> s_dying st' = true) /\
  (s_dying st = true -> s_dying st' = true) /\ reader st' = reader st /\ pinger st' = pinger st /\
  (once_ st' <> Done -> opened st' = opened st /\ once_ st <> Done) /\ (once_ st = Done -> once_ st' = Done).
Proof.
  destruct 1 as [e Ho|[]  Ho|Ho| | |]; cbn; intros H1 H2; repeat split; try done; try congruence; auto.
Qed.

Lemma ready_stays q st st' : (reader st <> RNone -> reader st' <> RNone) -> (pinger st <> PNone -> pinger st' <> PNone) ->
  (once_ st = Done -> once_ st' = Done) -> ready q st -> ready q st'.
Proof. destruct q; cbn; naive_solver. Qed.

(** A change that is none for [die]. *)
Lemma live_calm q i st st' : live_ok q i st -> once_ st' = once_ st -> opened st' = opened st ->
  (s_dying st = true -> s_dying st' = true) ->
  (reader st <> RNone -> reader st' <> RNone) -> (pinger st <> PNone -> pinger st' <> PNone) ->
  (reader st' = reader st \/ reader_frame (reader st') = [] \/ exists e, reader st' = RDie (die_of e)) ->
  (pinger st' = pinger st \/ pinger_frame (pinger st') = [] \/ exists e, pinger st' = PDie (die_of e)) ->
  live_ok q i st'.
Proof.
  intros [Hr Hp Hd Hs Hop Hre] Ho Hopn Hdy Hr0 Hp0 Hrd Hpg. constructor; rewrite ?Ho, ?Hopn.
  - intros f Hf. rewrite Hf in Hrd. destruct Hrd as [Hrd|[Hrd|[e Hrd]]]; [eauto|done|by injection Hrd as ->].
  - intros f Hf. rewrite Hf in Hpg. destruct Hpg as [Hpg|[Hpg|[e Hpg]]]; [eauto|done|by injection Hpg as ->].
  - auto.
  - intros Hin. apply Hdy, Hs. rewrite !elem_of_app in Hin |- *. destruct Hin as [Hin|[Hin|Hin]]; [| |auto].
    + destruct Hrd as [Hrd|[Hrd|[e Hrd]]]; rewrite Hrd in Hin; [auto|set_solver..].
    + destruct Hpg as [Hpg|[Hpg|[e Hpg]]]; rewrite Hpg in Hin; [auto|set_solver..].
  - done.
  - intros Hc. eapply ready_stays; eauto. by rewrite Ho.
Qed.

(** A step of [die] by [receiving] or [pinging]. *)
Lemma live_die q i st f st' f' (set : frame -> Stream -> Stream) :
  (set = (fun f => set_reader (RDie f)) /\ reader st = RDie f \/ set = (fun f => set_pinger (PDie f)) /\ pinger st = PDie f) ->
  die_step settle st f st' f' -> live_ok q i st -> live_ok q i (set f' st').
Proof.
  intros Hset Hd [Hr Hp Hdo Hs Hop Hre].
  assert (Hpol : polite f) by (destruct Hset as [[_ ?]|[_ ?]]; auto).
  assert (Hsh : f = Shutting -> s_dying st = true).
  { intros ->. apply Hs. destruct Hset as [[_ ->]|[_ ->]]; set_solver. }
  destruct (die_life st f st' f' Hd Hsh Hdo) as (H1 & H2 & H3 & H4 & H5 & H6 & H7).
  pose proof (die_polite st f st' f' Hd Hpol) as Hpol'.
  destruct Hset as [[-> Hf]|[-> Hf]]; constructor; cbn; rewrite ?H4, ?H5; try done.
  - by intros ? [= <-].
  - intros [Hin%symmetry|Hin]%elem_of_cons; [auto|]. apply H3, Hs. set_solver.
  - intros Hc Hn. destruct (H6 Hn) as [-> Hn']. auto.
  - intros Hc. specialize (Hre Hc). revert Hre. apply ready_stays; cbn; rewrite ?H5; auto.
  - by intros ? [= <-].
  - rewrite !elem_of_app, elem_of_cons. intros [Hin|[Hin%symmetry|Hin]]; [|auto|].
    + apply H3, Hs. set_solver.
    + apply H3, Hs. set_solver.
  - intros Hc Hn. destruct (H6 Hn) as [-> Hn']. auto.
  - intros Hc. specialize (Hre Hc). revert Hre. apply ready_stays; cbn; rewrite ?H4; auto.
Qed.

Lemma handle_reader uerr p st : reader (handle ops settle uerr p st) = Receiving \/
  (exists id, reader (handle ops settle uerr p st) = Acking id) \/
  exists e, reader (handle ops settle uerr p st) = RDie (die_of e).
Proof. unfold handle. repeat case_match; cbn; eauto. Qed.

Lemma live_stream q i st st' : stream_step ops settle st st' -> live_ok q i st -> live_ok q i st'.
Proof.
  intros Hs Hl.
  destruct Hs as [p Hp|e Hp|p uerr Hp|id Hp Ho|id e Hp|f st' f' Hp Hd|Hp|Hp|Hp Ho|e Hp|Hp|Hp Hdy|f st' f' Hp Hd|Hp].
  all: try by apply (live_calm q i st); auto; cbn; rewrite ?Hp; auto; try congruence; right; eauto.
  - pose proof (handle_turn ops settle uerr p st) as [T1 T2 T3 T4 T5 T6 T7].
    apply (live_calm q i st); rewrite ?T3, ?T6; auto.
    + intros _. by destruct (handle_reader uerr p st) as [-> |[[id ->]|[e ->]]].
    + right. destruct (handle_reader uerr p st) as [-> |[[id ->]|[e ->]]]; [by left|by left|right; by exists e].
  - apply (live_die q i st f st' f' (fun f => set_reader (RDie f))); [by left|done..].
  - apply (live_die q i st f st' f' (fun f => set_pinger (PDie f))); [by right|done..].
Qed.

(** *** Steps of the goroutine of the client *)

Lemma frames_elsewhere q j : current q <> Some j -> loop_frames q j = [].
Proof. destruct q; cbn; try done; intros Hn; rewrite decide_False; congruence. Qed.

Lemma live_elsewhere q q' j st : current q <> Some j -> current q' <> Some j -> live_ok q j st -> live_ok q' j st.
Proof.
  intros Hq Hq' [Hr Hp Hd Hs Hop Hre]. rewrite (frames_elsewhere q j Hq) in Hs.
  by constructor; rewrite ?(frames_elsewhere q' j Hq').
Qed.

(** Elsewhere nothing happens. *)
Lemma live_update s c q i st st' sts : live s -> current (at_ s) = Some i -> streams s !! i = Some st ->
  sts = alter (fun _ => st') i (streams s) -> live_ok q i st' -> (current q = Some i \/ current q = None) ->
  live {| cli := c; at_ := q; streams := sts |}.
Proof.
  intros Hl Hc Hst -> Hok Hq j x. cbn. rewrite list_lookup_alter. case_decide as Hj; [subst j|].
  - rewrite Hst. by intros [= <-].
  - intros Hx. apply (live_elsewhere (at_ s)); [congruence|destruct Hq; congruence|by apply Hl].
Qed.

Lemma live_away s c q : live s -> current (at_ s) = None -> current q = None -> live (move q c s).
Proof. intros Hl H1 H2 j x Hx. apply (live_elsewhere (at_ s)); [congruence|cbn; congruence|by apply Hl]. Qed.

(** The goroutine moves on its stream, which stays. *)
Lemma live_stay s c q i st : live s -> current (at_ s) = Some i -> streams s !! i = Some st ->
  (current q = Some i -> ready q st) -> (current q = Some i \/ current q = None) -> Shutting ∉ loop_frames q i ->
  live (move q c s).
Proof.
  intros Hl Hc Hst Hre Hq Hsh. apply (live_update s c q i st st); try done; [by apply alter_same|].
  destruct (Hl i st Hst) as [H1 H2 H3 H4 H5 H6]. constructor; auto.
  intros Hin. apply H4. rewrite !elem_of_app in Hin |- *. tauto.
Qed.

Lemma live_shut s q i st : live s -> current (at_ s) = Some i -> streams s !! i = Some st ->
  current q = None -> live (go q (on i shut s)).
Proof.
  intros Hl Hc Hst Hq. apply (live_update s _ q i st (shut st)); try done; [by apply alter_at| |by right].
  destruct (Hl i st Hst) as [H1 H2 H3 H4 H5 H6].
  assert (Hq' : current q <> Some i) by congruence.
  constructor; try done.
  cbn. rewrite frames_elsewhere by congruence. intros Hin. apply H4. rewrite !elem_of_app in Hin |- *.
  destruct Hin as [|[|Hin]]; [tauto..|by apply elem_of_nil in Hin].
Qed.

Lemma live_put s c q i st o p : live s -> current (at_ s) = Some i -> streams s !! i = Some st ->
  current q = Some i -> ready q st -> loop_frames q i = [] ->
  live {| cli := c; at_ := q; streams := alter (put o p) i (streams s) |}.
Proof.
  intros Hl Hc Hst Hq Hre Hf. apply (live_update s _ q i st (put o p st)); try done; [by apply alter_at| |by left].
  destruct (Hl i st Hst) as [H1 H2 H3 H4 H5 H6].
  constructor; [exact H1|exact H2|exact H3| |by auto|intros _; by destruct q].
  cbn. rewrite Hf. intros Hin. apply H4. rewrite !elem_of_app in Hin |- *.
  destruct Hin as [|[|Hin]]; [tauto..|by apply elem_of_nil in Hin].
Qed.

Lemma live_dies s i f q st st' f' : live s -> dies (at_ s) i f q -> streams s !! i = Some st ->
  die_step settle st f st' f' -> live (go (q f') (set_stream i st' s)).
Proof.
  intros Hl Hd Hst Hs.
  assert (Hc : current (at_ s) = Some i) by by destruct Hd.
  assert (Hq : current (q f') = Some i) by by destruct Hd.
  assert (Hf : forall g, loop_frames (q g) i = [g]) by (intros g; destruct Hd; cbn; by rewrite decide_True).
  assert (Hf0 : at_ s = q f) by by destruct Hd.
  apply (live_update s _ (q f') i st st'); try done; [|by left].
  destruct (Hl i st Hst) as [H1 H2 H3 H4 H5 H6]. rewrite Hf0, Hf in H4.
  destruct (die_life st f st' f' Hs) as (K1 & K2 & K3 & K4 & K5 & K6 & K7); [|done|].
  { intros ->. apply H4. set_solver. }
  constructor; rewrite ?K4, ?K5, ?Hf; auto.
  - rewrite !elem_of_app, list_elem_of_singleton. intros [Hin|[Hin|Hin]]; [| |auto].
    + apply K3, H4. set_solver.
    + apply K3, H4. set_solver.
  - intros _ Hn. destruct (K6 Hn) as [-> Hn']. auto.
  - intros _. specialize (H6 Hc). rewrite Hf0 in H6. pose proof (die_polite st f st' f' Hs) as Hpol.
    destruct Hd; cbn in *; rewrite ?K4, ?K5; tauto.
Qed.

Abbreviation inv := (MqttSession.inv ops).

(** The stream of the client's goroutine, with all that is known of it. *)
Lemma here s i : inv s -> live s -> current (at_ s) = Some i ->
  exists st, streams s !! i = Some st /\ at_ok ops (at_ s) st /\
    stream_ok ops (loop_frames (at_ s) i) st /\ live_ok (at_ s) i st /\ ready (at_ s) st.
Proof.
  intros Hi Hl Hc. destruct (at_stream ops s i Hi Hc) as (st & Hst & Hok & Hso).
  pose proof (Hl i st Hst) as Hlv. exists st. repeat (split; [done|]). by apply (l_ready _ _ _ Hlv).
Qed.

Ltac here_of s i Hi Hl Ha st Hst Hok Hlv Hre :=
  let Hc := fresh "Hc" in
  assert (Hc : current (at_ s) = Some i) by (by rewrite Ha);
  destruct (here s i Hi Hl Hc) as (st & Hst & Hok & _ & Hlv & Hre);
  rewrite Ha in Hok, Hre; cbn [at_ok ready] in Hok, Hre.

Lemma live_connected s i st : live s -> current (at_ s) = Some i -> streams s !! i = Some st ->
  reader st <> RNone /\ pinger st <> PNone -> live (connected i s).
Proof.
  intros Hl Hc Hst Hre. unfold connected.
  destruct (curr (cli s)); (apply (live_stay s _ _ i st); [done..|by left|apply not_elem_of_nil]).
Qed.

Lemma live_loop s s' : loop ops settle s s' -> inv s -> live s -> live s'.
Proof.
  destruct 1 as [Ha Hd|Ha|Ha|Ha|i Ha|i Ha|i Ha|i st Ha Hst Hcf|i st Ha Hst Ho|i Ha|i st Ha Hst Hcf|i e Ha|i Ha
    |i p l Ha Hc|i p st Ha Hst Ho|i p e Ha|i Ha Hd|i st Ha Hst Hd|i Ha|i Ha|i st Ha|i f q st st' f' Hd Hst Hs];
    intros Hi Hl; try (apply live_away; rewrite ?Ha; done).
  - intros j x [Hx|[Hj [Hz <-]%list_lookup_singleton_Some]]%lookup_app_Some.
    + apply (live_elsewhere (at_ s)); [by rewrite Ha|cbn; apply lookup_lt_Some in Hx; intros [= <-]; lia|by apply Hl].
    + constructor; try done. cbn. by intros ?%elem_of_nil.
  - here_of s i Hi Hl Ha st Hst Hok Hlv Hre. subst st.
    apply (live_update s _ (Starting i) i new_stream (set_reader Receiving (put FromConnect (connect_packet ops) new_stream)));
      try done; [exact (alter_at (set_reader Receiving ∘ put FromConnect (connect_packet ops)) _ _ _ Hst)| |by left].
    constructor; try done. cbn. by intros ?%elem_of_nil.
  - here_of s i Hi Hl Ha st Hst Hok Hlv Hre. by apply (live_shut s Idle i st).
  - here_of s i Hi Hl Ha st Hst Hok Hlv Hre. destruct Hok as (_ & _ & _ & Hpg).
    apply (live_update s _ (WaitConnack i) i st (start_pinging ops st)); try done; [by apply alter_at| |by left].
    destruct Hlv as [H1 H2 H3 H4 H5 H6]. constructor; try done.
    + cbn. intros f. destruct (0 <? KeepAlive ops), (reader st); done.
    + intros Hin. apply H4. cbn in Hin. destruct (0 <? KeepAlive ops), (reader st); cbn in *; set_solver.
    + rewrite Ha in H5. intros _. exact (H5 eq_refl).
    + intros _. cbn. split; [done|]. destruct (0 <? KeepAlive ops), (reader st); done.
  - here_of s i Hi Hl Ha x Hx Hok Hlv Hre. case_bool_decide.
    + by apply (live_connected s i x).
    + apply (live_stay s _ (Subscribing i) i x); try done; [by left|set_solver].
  - here_of s i Hi Hl Ha x Hx Hok Hlv Hre. by apply (live_put s _ (WaitSuback i) i x).
  - here_of s i Hi Hl Ha st Hst Hok Hlv Hre. by apply (live_shut s Idle i st).
  - here_of s i Hi Hl Ha x Hx Hok Hlv Hre. by apply (live_connected s i x).
  - destruct Ha as [Ha|Ha]; here_of s i Hi Hl Ha st Hst Hok Hlv Hre;
      (apply (live_stay s _ _ i st); [done..|by left|cbn; rewrite decide_True by done; set_solver]).
  - here_of s i Hi Hl Ha st Hst Hok Hlv Hre. apply (live_stay s _ Idle i st); try done; [by right|set_solver].
  - here_of s i Hi Hl Ha st Hst Hok Hlv Hre. apply (live_stay s _ (Send_ i p) i st); try done; [by left|set_solver].
  - destruct Ha as [Ha|Ha]; here_of s i Hi Hl Ha x Hx Hok Hlv Hre; by apply (live_put s _ (Sel i) i x).
  - destruct Ha as [Ha|Ha]; here_of s i Hi Hl Ha st Hst Hok Hlv Hre;
      (apply (live_stay s _ _ i st); [done..|by left|cbn; rewrite decide_True by done; set_solver]).
  - here_of s i Hi Hl Ha st Hst Hok Hlv Hre. apply (live_stay s _ (Closing i (Enter None)) i st); [done..|by left|].
    cbn. rewrite decide_True by done. set_solver.
  - here_of s i Hi Hl Ha x Hx Hok Hlv Hre. apply (live_stay s _ (Closing i (Enter None)) i x); [done..|by left|].
    cbn. rewrite decide_True by done. set_solver.
  - here_of s i Hi Hl Ha st Hst Hok Hlv Hre. destruct Hre as [_ Hre].
    apply (live_stay s _ (Closing i (Enter None)) i st); [done..|by left|]. cbn. rewrite decide_True by done. set_solver.
  - here_of s i Hi Hl Ha st Hst Hok Hlv Hre. pose proof (v_streams _ s Hi i st Hst) as [_ _ Hf].
    apply (live_stay s _ (Joining i) i st); [done..| |by left|cbn; set_solver].
    intros _. split; [|done]. apply (ok_left _ _ Hf). rewrite Ha. cbn. rewrite decide_True by done. set_solver.
  - here_of s i Hi Hl Ha x Hx Hok Hlv Hre. apply (live_stay s _ Idle i x); try done; [by right|set_solver].
  - by eapply live_dies.
Qed.

Lemma live_step s s' : sstep s s' -> inv s -> live s -> live s'.
Proof.
  intros [p c Hs|p H1 H2 H3| |s0 Hlo|i st st' Hst Hs] Hi Hl.
  - unfold follow. destruct (current (at_ s)) as [i|] eqn:Hc.
    + destruct (here s i Hi Hl Hc) as (st & Hst & _ & _ & _ & Hre).
      destruct (at_ s) eqn:Ha; try done; destruct (pc c); intros j x Hx; specialize (Hl j x Hx); rewrite Ha in Hl; try done.
      all: by destruct Hl.
    + intros j x Hx. specialize (Hl j x Hx). by destruct (at_ s).
  - exact Hl.
  - exact Hl.
  - by eapply live_loop.
  - intros j x. cbn. rewrite list_lookup_alter. case_decide as Hj; [subst j|by apply Hl].
    rewrite Hst. intros [= <-]. eapply live_stream; [done|by apply Hl].
Qed.

Lemma reachable_live s : reachable s -> inv s /\ live s.
Proof.
  intros Hr. pattern s. revert s Hr. refine (rtc_ind_r _ init _ _).
  - split; [apply session_inv_init|by intros i st].
  - intros s s' _ Hs [Hi Hl]. split; [by eapply session_inv_step|by eapply live_step].
Qed.

(** ** A stream that has died comes to an end *)

Abbreviation sruns := (rtc (stream_step ops settle)).

(** What [receiving] can do by itself, the pinger aside. *)
Definition reader_can_end (st : Stream) : Prop :=
  exists st', sruns st st' /\ reader st' = REnded /\ pinger st' = pinger st /\ once_ st' = Done.

Lemma reader_step st st' : stream_step ops settle st st' -> pinger st' = pinger st -> reader_can_end st' ->
  reader_can_end st.
Proof.
  intros Hs Hp (x & Hx & Hr & Hpx & Ho). exists x. split; [by eapply rtc_l|]. split; [done|]. split; [congruence|done].
Qed.

Lemma reader_left st : reader st = RDie Left -> once_ st = Done -> reader_can_end st.
Proof.
  intros Hr Ho. eapply reader_step; [by apply rd_end|done|]. eexists. split; [apply rtc_refl|]. done.
Qed.

Lemma reader_enter st e : reader st = RDie (Enter e) -> once_ st = Done -> reader_can_end st.
Proof.
  intros Hr Ho. eapply reader_step; [eapply rd_die; [done|by apply die_again]|done|]. by apply reader_left.
Qed.

Lemma reader_receiving st : reader st = Receiving -> once_ st = Done -> reader_can_end st.
Proof.
  intros Hr Ho. eapply reader_step; [by apply (rd_failed _ _ _ "closed")|done|]. by eapply reader_enter.
Qed.

Lemma reader_acking st id : reader st = Acking id -> once_ st = Done -> reader_can_end st.
Proof.
  intros Hr Ho. eapply reader_step; [by apply (rd_ack_failed _ _ _ id "closed")|done|]. by eapply reader_enter.
Qed.

(** Nobody is inside of a once that is done. *)
Lemma done_inactive fs st f : frames_ok fs st -> once_ st = Done -> f ∈ fs -> ~ active f.
Proof.
  intros [Ha _ _ _ _] Ho Hin Hf. rewrite Ho in Ha. apply nil_length_inv in Ha.
  eapply elem_of_nil. rewrite <- Ha. by apply list_elem_of_filter.
Qed.

Lemma reader_ends fs st : stream_ok ops fs st -> once_ st = Done -> reader st <> RNone ->
  (forall f, reader st = RDie f -> polite f) -> reader_can_end st.
Proof.
  intros [_ _ Hf] Ho Hn Hp. destruct (reader st) as [| |p|id|f|] eqn:Hr; [done| | | | |].
  - by apply reader_receiving.
  - pose proof (t_once _ _ (handle_turn ops settle None p st)) as Ht.
    eapply reader_step; [by apply (rd_handle _ _ _ p None)|apply handle_turn|].
    destruct (handle_reader None p st) as [Hh|[[id Hh]|[e Hh]]].
    + apply reader_receiving; [done|congruence].
    + eapply reader_acking; [done|congruence].
    + eapply reader_enter; [done|congruence].
  - by eapply reader_acking.
  - assert (Hin : ~ active f) by (eapply done_inactive; [done|done|set_solver]).
    specialize (Hp f eq_refl). destruct f; try by destruct Hin.
    + by eapply reader_enter.
    + by apply reader_left.
  - exists st. split; [apply rtc_refl|]. done.
Qed.

(** And the pinger, when [receiving] has ended. *)
Lemma pinger_ends fs st : stream_ok ops fs st -> once_ st = Done -> s_dying st = true -> pinger st <> PNone ->
  (forall f, pinger st = PDie f -> polite f) ->
  exists st', sruns st st' /\ reader st' = reader st /\ pinger st' = PEnded.
Proof.
  intros [_ _ Hf] Ho Hd Hn Hp.
  assert (Hsleep : forall x, pinger x = Sleeping -> s_dying x = true ->
    exists st', sruns x st' /\ reader st' = reader x /\ pinger st' = PEnded).
  { intros x Hx Hdx. eexists. split; [by apply rtc_once, pg_dying|done]. }
  assert (Hleft : forall x, pinger x = PDie Left -> exists st', sruns x st' /\ reader st' = reader x /\ pinger st' = PEnded).
  { intros x Hx. eexists. split; [by apply rtc_once, pg_end|done]. }
  destruct (pinger st) as [| | |f|] eqn:Hr; [done| | | |].
  - destruct (Hsleep (set_pinger Sleeping st) eq_refl Hd) as (x & Hx & ?). exists x.
    split; [by eapply rtc_l; [apply pg_wait|]|done].
  - by apply Hsleep.
  - assert (Hin : ~ active f) by (eapply done_inactive; [done|done|set_solver]).
    specialize (Hp f eq_refl). destruct f; try by destruct Hin.
    + destruct (Hleft (set_pinger (PDie Left) st) eq_refl) as (x & Hx & ?). exists x.
      split; [|done]. eapply rtc_l; [|done]. by eapply pg_die; [|apply die_again].
    + by apply Hleft.
  - exists st. split; [apply rtc_refl|]. done.
Qed.

(** ** A once that runs is left *)

Lemma once_left fs st : stream_ok ops fs st -> once_ st = Running -> (forall f, f ∈ fs -> ~ active f) ->
  (forall f, reader st = RDie f -> polite f) -> (forall f, pinger st = PDie f -> polite f) ->
  exists st', sruns st st' /\ once_ st' = Done.
Proof.
  intros [_ _ Hf] Ho Hfs Hr Hp.
  assert (Hact : (exists f, active f /\ reader st = RDie f) \/ exists f, active f /\ pinger st = PDie f).
  { pose proof (ok_active _ _ Hf) as Ha. rewrite Ho in Ha.
    destruct (filter active _) as [|f l] eqn:Hl in Ha; [done|].
    assert (Hin : f ∈ filter active (reader_frame (reader st) ++ pinger_frame (pinger st) ++ fs)) by (rewrite Hl; by left).
    apply list_elem_of_filter in Hin as [Hact Hin]. rewrite !elem_of_app in Hin.
    destruct Hin as [Hin|[Hin|Hin]]; [left|right|by destruct (Hfs f Hin)]; exists f; (split; [done|]).
    - destruct (reader st); cbn in Hin; set_solver.
    - destruct (pinger st); cbn in Hin; set_solver. }
  assert (Hshut : forall x, reader x = RDie Shutting \/ pinger x = PDie Shutting -> exists st', sruns x st' /\ once_ st' = Done).
  { intros x [Hx|Hx]; eexists; (split; [apply rtc_once|]).
    - by eapply rd_die; [|apply die_shut].
    - done.
    - by eapply pg_die; [|apply die_shut].
    - done. }
  destruct Hact as [(f & Hact & Hx)|(f & Hact & Hx)].
  - specialize (Hr f Hx). destruct f; try done; [|by apply Hshut; left].
    destruct (Hshut (set_reader (RDie Shutting) (kill st)) (or_introl eq_refl)) as (x & Hxx & Hd). exists x.
    split; [|done]. eapply rtc_l; [|done]. by eapply rd_die; [|apply die_kill].
  - specialize (Hp f Hx). destruct f; try done; [|by apply Hshut; right].
    destruct (Hshut (set_pinger (PDie Shutting) (kill st)) (or_intror eq_refl)) as (x & Hxx & Hd). exists x.
    split; [|done]. eapply rtc_l; [|done]. by eapply pg_die; [|apply die_kill].
Qed.

(** ** The goroutine of the client comes to an end *)

(** A stream runs, and the client stays where it is. *)
Lemma lift s i st st' : streams s !! i = Some st -> sruns st st' ->
  exists s', rtc sstep s s' /\ streams s' !! i = Some st' /\ at_ s' = at_ s /\ cli s' = cli s.
Proof.
  intros Hst Hs. revert s Hst. induction Hs as [st|st x st' Hx _ IH]; intros s Hst.
  { exists s. split; [apply rtc_refl|done]. }
  destruct (IH (set_stream i x s)) as (s' & Hr & H1 & H2 & H3).
  { cbn. by rewrite list_lookup_alter_eq, Hst. }
  exists s'. split; [|done]. eapply rtc_l; [|exact Hr]. by eapply s_stream.
Qed.

(** A call of [die] of this goroutine does a step. *)
Lemma die_one s i f q st st' f' : dies (at_ s) i f q -> streams s !! i = Some st -> die_step settle st f st' f' ->
  exists s', sstep s s' /\ at_ s' = q f' /\ dies (at_ s') i f' q /\ dying (cli s') = dying (cli s) /\
    streams s' !! i = Some st'.
Proof.
  intros Hd Hst Hs. exists (go (q f') (set_stream i st' s)).
  split; [by eapply s_loop, lo_die|]. split; [done|]. split; [by destruct Hd; constructor|]. split; [done|].
  cbn. by rewrite list_lookup_alter_eq, Hst.
Qed.

(** It comes to its end. *)
Definition die_can_end (s : System) (q : frame -> position) : Prop :=
  exists s', rtc sstep s s' /\ at_ s' = q Left /\ dying (cli s') = dying (cli s).

Lemma die_more s i f q st st' f' : dies (at_ s) i f q -> streams s !! i = Some st -> die_step settle st f st' f' ->
  (forall s', dies (at_ s') i f' q -> at_ s' = q f' -> streams s' !! i = Some st' -> die_can_end s' q) -> die_can_end s q.
Proof.
  intros Hd Hst Hs Hn. destruct (die_one s i f q st st' f' Hd Hst Hs) as (s1 & H1 & H2 & H3 & H4 & H5).
  destruct (Hn s1 H3 H2 H5) as (s2 & K1 & K2 & K3). exists s2. split; [by eapply rtc_l|]. split; [done|congruence].
Qed.

Lemma die_left s q : at_ s = q Left -> die_can_end s q.
Proof. intros Ha. exists s. split; [apply rtc_refl|done]. Qed.
Lemma die_shutting s i q st : dies (at_ s) i Shutting q -> streams s !! i = Some st -> die_can_end s q.
Proof. intros Hd Hst. eapply die_more; [done..|apply die_shut|]. intros. by apply die_left. Qed.
Lemma die_killing s i q st : dies (at_ s) i Killing q -> streams s !! i = Some st -> die_can_end s q.
Proof. intros Hd Hst. eapply die_more; [done..|apply die_kill|]. intros. by eapply die_shutting. Qed.
Lemma die_goodbyes s i q st : dies (at_ s) i Goodbye q -> streams s !! i = Some st -> opened st = true ->
  die_can_end s q.
Proof. intros Hd Hst Ho. eapply die_more; [done..|by apply die_goodbye|]. intros. by eapply die_killing. Qed.

Lemma die_call_ends s i f q : reachable s -> dies (at_ s) i f q -> f <> Stuck -> die_can_end s q.
Proof.
  intros Hr Hd Hf. destruct (reachable_live s Hr) as [Hi Hl].
  assert (Hc : current (at_ s) = Some i) by by destruct Hd.
  assert (Hfr : loop_frames (at_ s) i = [f]) by (destruct Hd; cbn; by rewrite decide_True).
  assert (Hq : at_ s = q f) by by destruct Hd.
  destruct (here s i Hi Hl Hc) as (st & Hst & _ & Hso & Hlv & _). rewrite Hfr in Hso.
  destruct f as [e| | | | |]; [| |by eapply die_killing|by eapply die_shutting|by apply die_left|done].
  - assert (Hdone : forall s', dies (at_ s') i (Enter e) q -> forall x, streams s' !! i = Some x -> once_ x = Done -> die_can_end s' q).
    { intros s' Hd' x Hx Ho. eapply die_more; [done..|by apply die_again|]. intros. by apply die_left. }
    destruct (once_ st) eqn:Ho; [| |by eapply Hdone].
    + assert (Hop : opened st = true) by (apply (l_opened _ _ _ Hlv); [done|congruence]).
      eapply die_more; [done..|by apply die_first|]. intros s' Hd' Ha Hst'.
      destruct e; [by eapply die_killing|by eapply die_goodbyes].
    + destruct (once_left [Enter e] st Hso Ho) as (x & Hx & Hxo).
      * by intros f ->%list_elem_of_singleton [].
      * apply (l_reader _ _ _ Hlv).
      * apply (l_pinger _ _ _ Hlv).
      * destruct (lift s i st x Hst Hx) as (s1 & H1 & H2 & H3 & H4). rewrite <- H3 in Hd.
        destruct (Hdone s1 Hd x H2 Hxo) as (s2 & K1 & K2 & K3). exists s2.
        split; [by etransitivity|]. split; [done|congruence].
  - assert (Ho : once_ st = Running).
    { pose proof (ok_active _ _ (so_frames _ _ _ Hso)) as Ha.
      assert (Hin : Goodbye ∈ filter active (reader_frame (reader st) ++ pinger_frame (pinger st) ++ [Goodbye])).
      { apply list_elem_of_filter. split; [done|]. set_solver. }
      destruct (once_ st); [|done|]; apply nil_length_inv in Ha; rewrite Ha in Hin; by apply elem_of_nil in Hin. }
    eapply die_goodbyes; [done..|]. apply (l_opened _ _ _ Hlv); [done|congruence].
Qed.

Definition can_halt (s : System) : Prop := exists s', rtc sstep s s' /\ at_ s' = Halted.

Lemma halt_later s s' : rtc sstep s s' -> can_halt s' -> can_halt s.
Proof. intros Hs (x & Hx & Ha). exists x. split; [by etransitivity|done]. Qed.
Lemma halt_loop s s' : loop ops settle s s' -> can_halt s' -> can_halt s.
Proof. intros Hs. by apply halt_later, rtc_once, s_loop. Qed.

Lemma halt_idle s : at_ s = Idle -> dying (cli s) = true -> can_halt s.
Proof. intros Ha Hd. eapply halt_loop; [by apply lo_stop|]. exists (go Halted s). split; [apply rtc_refl|done]. Qed.

Lemma halt_joining s i : reachable s -> at_ s = Joining i -> dying (cli s) = true -> can_halt s.
Proof.
  intros Hr Ha Hd. destruct (reachable_live s Hr) as [Hi Hl].
  assert (Hc : current (at_ s) = Some i) by by rewrite Ha.
  destruct (here s i Hi Hl Hc) as (st & Hst & _ & Hso & Hlv & Hre). rewrite Ha in Hre. destruct Hre as (Ho & Hrn & Hpn).
  destruct (reader_ends _ st Hso Ho Hrn (l_reader _ _ _ Hlv)) as (x & Hx & Hxr & Hxp & Hxo).
  destruct (lift s i st x Hst Hx) as (s1 & H1 & H2 & H3 & H4).
  assert (Hr1 : reachable s1) by by etransitivity.
  destruct (reachable_live s1 Hr1) as [Hi1 Hl1].
  assert (Hlv1 : live_ok (at_ s1) i x) by by apply Hl1.
  destruct (pinger_ends (loop_frames (at_ s1) i) x) as (y & Hy & Hyr & Hyp).
  { by apply (v_streams _ s1 Hi1). }
  { done. }
  { by apply (l_done _ _ _ Hlv1). }
  { congruence. }
  { apply (l_pinger _ _ _ Hlv1). }
  destruct (lift s1 i x y H2 Hy) as (s2 & K1 & K2 & K3 & K4).
  eapply halt_later; [etransitivity; [exact H1|exact K1]|].
  eapply halt_loop; [eapply (lo_joined _ _ s2 i y); congruence|].
  apply halt_idle; [done|]. cbn. congruence.
Qed.

Lemma halt_closing s i f : reachable s -> at_ s = Closing i f -> f <> Stuck -> dying (cli s) = true -> can_halt s.
Proof.
  intros Hr Ha Hf Hd. destruct (die_call_ends s i f (Closing i) Hr) as (s1 & H1 & H2 & H3);
    [rewrite Ha; constructor|done|].
  apply (halt_later s s1 H1). eapply halt_loop; [by apply lo_closed|].
  apply (halt_joining _ i); [|done|cbn; congruence]. eapply rtc_r; [by etransitivity|by apply s_loop, lo_closed].
Qed.

(** [die] in [connect] and in [send]. *)
Lemma halt_failing s i f : reachable s -> at_ s = Failing i f -> polite f -> dying (cli s) = true -> can_halt s.
Proof.
  intros Hr Ha Hf Hd. destruct (die_call_ends s i f (Failing i) Hr) as (s1 & H1 & H2 & H3);
    [rewrite Ha; constructor|by intros ->|].
  apply (halt_later s s1 H1). eapply halt_loop; [by eapply lo_failed|]. apply halt_idle; [done|cbn; congruence].
Qed.
Lemma halt_broken s i f : reachable s -> at_ s = Broken i f -> polite f -> dying (cli s) = true -> can_halt s.
Proof.
  intros Hr Ha Hf Hd. destruct (die_call_ends s i f (Broken i) Hr) as (s1 & H1 & H2 & H3);
    [rewrite Ha; constructor|by intros ->|].
  apply (halt_later s s1 H1). eapply halt_loop; [by apply lo_broken|].
  apply (halt_closing _ i (Enter None)); [|done|done|cbn; congruence].
  eapply rtc_r; [by etransitivity|by apply s_loop, lo_broken].
Qed.

(** A step of the goroutine, and on from there. *)
Lemma halt_via s s' i f : reachable s -> loop ops settle s s' -> dying (cli s') = true ->
  at_ s' = Failing i f \/ at_ s' = Broken i f \/ at_ s' = Closing i f -> polite f \/ at_ s' = Closing i f /\ f <> Stuck ->
  can_halt s.
Proof.
  intros Hr Hs Hd Ha Hf. assert (Hr' : reachable s') by (eapply rtc_r; [done|by apply s_loop]).
  apply (halt_loop s s' Hs). destruct Ha as [Ha|[Ha|Ha]].
  - eapply halt_failing; [done..| |done]. destruct Hf as [?|[? _]]; [done|congruence].
  - eapply halt_broken; [done..| |done]. destruct Hf as [?|[? _]]; [done|congruence].
  - eapply halt_closing; [done..| |done]. destruct Hf as [?|[_ ?]]; [by intros ->|done].
Qed.

Lemma closed_halts s : reachable s -> dying (cli s) = true -> (forall i, at_ s <> Closing i Stuck) -> can_halt s.
Proof.
  intros Hr Hd Hn. destruct (reachable_live s Hr) as [Hi Hl].
  assert (Hre : forall i, current (at_ s) = Some i -> exists st, streams s !! i = Some st /\ ready (at_ s) st).
  { intros i Hc. destruct (here s i Hi Hl Hc) as (st & ? & _ & _ & _ & ?). by exists st. }
  destruct (at_ s) as [| |i|i|i|i|i|i f|i p|i|i p|i f|i f|i|] eqn:Ha.
  - by apply halt_idle.
  - eapply halt_loop; [by apply lo_dial_failed|]. by apply halt_idle.
  - eapply halt_loop; [by eapply lo_hello_failed|]. by apply halt_idle.
  - eapply (halt_later s (go (WaitConnack i) (on i (start_pinging ops) s))); [by apply rtc_once, s_loop, lo_start|].
    eapply (halt_via _ _ i (die_of "")); [eapply rtc_r; [done|by apply s_loop, lo_start]|
      apply (lo_wait_failed _ _ _ i ""); by left|done|by left|by left].
  - eapply (halt_via s _ i (die_of "")); [done|apply (lo_wait_failed _ _ _ i ""); by left|done|by left|by left].
  - eapply halt_loop; [by eapply lo_subscribe_failed|]. by apply halt_idle.
  - eapply (halt_via s _ i (die_of "")); [done|apply (lo_wait_failed _ _ _ i ""); by right|done|by left|by left].
  - destruct (Hre i eq_refl) as (st & _ & Hp & _). by eapply halt_failing.
  - eapply (halt_via s _ i (die_of "")); [done|apply (lo_send_failed _ _ _ i p ""); by left|done|by right; left|by left].
  - eapply (halt_via s _ i (Enter None)); [done|by apply lo_client_dying|done|by right; right|by right].
  - eapply (halt_via s _ i (die_of "")); [done|apply (lo_send_failed _ _ _ i p ""); by right|done|by right; left|by left].
  - destruct (Hre i eq_refl) as (st & _ & Hp & _). by eapply halt_broken.
  - eapply halt_closing; [done..| |done]. intros ->. by apply (Hn i).
  - by eapply halt_joining.
  - exists s. split; [apply rtc_refl|done].
Qed.

(** Stuck is for ever. *)
Lemma stuck_stays s s' i : sstep s s' -> at_ s = Closing i Stuck -> at_ s' = Closing i Stuck.
Proof.
  intros Hs Ha. destruct Hs as [p c Hs|p H1 H2 H3| |s0 Hl|j st st' Hst Hs]; try done.
  - unfold follow. cbn. by rewrite Ha.
  - destruct Hl; try congruence; try (destruct H; congruence).
    rewrite Ha in H. inversion H; subst. by match goal with H : die_step _ _ _ _ _ |- _ => inversion H end.
Qed.

(** C3. [Close] can return exactly when the goroutine it waits for is not stuck: from every
    reachable state in which the client is dying there is a way to the end of the goroutine
    of [connecting], whatever its streams are doing, unless its last [die] could not send
    its Disconnect; then that goroutine, and [Close], wait for ever. *)
Theorem close_can_return s : reachable s -> dying (cli s) = true ->
  (exists s', rtc sstep s s' /\ at_ s' = Halted) <-> forall i, at_ s <> Closing i Stuck.
Proof.
  intros Hr Hd. split; [|by apply closed_halts].
  intros (s' & Hs & Ha) i Hi.
  assert (Hst : at_ s' = Closing i Stuck); [|congruence].
  clear Ha Hr Hd. induction Hs as [s|s x s' Hx _ IH]; [done|]. apply IH. by eapply stuck_stays.
Qed.
End close.

(** ** Witness and example *)

(** A client that is closed while it is connected. *)
Definition closed_while_connected (s : System) : Prop :=
  dying (cli s) = true /\ at_ s = Sel 0 /\ wire <$> streams s = [[hello]].

Lemma closed_reachable : exists s, rtc qstep init s /\ closed_while_connected s.
Proof.
  eexists. split.
  - loops lo_timer. loops lo_dialed. loops lo_hello. loops lo_start.
    runs 0%nat (rd_receive _ _ _ yes). runs 0%nat (rd_handle _ _ _ yes None). loops lo_connack.
    eapply rtc_l; [apply s_close|]. normal. apply rtc_refl.
  - done.
Qed.

Lemma close_can_return_witness : exists s, closed_while_connected s /\
  exists s', rtc qstep s s' /\ at_ s' = Halted.
Proof.
  destruct closed_reachable as (s & Hr & Hs). exists s. split; [done|]. destruct Hs as (Hd & Ha & Hw).
  apply (close_can_return quiet_ops keep_first keep_first_law s Hr Hd). intros i. by rewrite Ha.
Defined.

(** The connection takes no Disconnect: the goroutine calls [die] inside of its once. *)
Example close_stuck : exists s, rtc qstep init s /\ dying (cli s) = true /\ at_ s = Closing 0 Stuck.
Proof.
  eexists. split.
  - loops lo_timer. loops lo_dialed. loops lo_hello. loops lo_start.
    runs 0%nat (rd_receive _ _ _ yes). runs 0%nat (rd_handle _ _ _ yes None). loops lo_connack.
    eapply rtc_l; [apply s_close|]. normal. loops lo_client_dying. dies_by die_first. dies_by die_mute.
    apply rtc_refl.
  - done.
Qed.
