(* ===== verification/MqttReconnect.v ===== *)
(** * mqtt/client.go: when the client reconnects

    The loop of [Client.connecting] with its clock, its timer, its back-off and its
    callback. What happens inside of a connection is MqttSession's; here a connection is made
    or not, and ends at some time. A call of [stream.die], which this goroutine makes in
    [connect], [sending] and [stream.close], may never return: when the Disconnect cannot be
    sent inside of the once (MqttClose says exactly when), or when the [OnError] of the
    observer waits for the client. A time is nanoseconds of a clock, without the limits of
    [time.Time]. *)

From Stdlib Require Import ZArith Lia.
From stdpp Require Import base option list relations.
From S2P Require Import Prelude.

Local Open Scope Z_scope.
Local Open Scope list_scope.

(** Where the goroutine is: at the top of the loop; in the callback; in a callback that
    called [Client.Close] and waits for the tomb; before [stream.close()]; at the select; in
    [connect]; in [sending]; in a [stream.die] that does not return; returned. *)
Inductive place := Top | Calling | InClose | Closing | Waiting | Connecting | Sending | InDie | Returned.

(** What the goroutine did: an attempt at a time, with the number the back-off counts;
    how it went; a call of the callback; the end of a connection. *)
Inductive event := Attempt (t : Z) (n : nat) | Connected | Failed | Called | Closed.

Section reconnect.
(** The back-off of the library: the duration of its n-th attempt since the last [Reset],
    counted from 0. Whether a callback was set. *)
Context (ForAttempt : nat -> Z) (callback : bool).

(** [armed] and [fired] are the timer: when it is due, and the value in its channel, which
    [timer.Reset] does not take out. *)
Record State := {
  now : Z;
  at_ : place;
  next : option Z;               (* nothing is the zero time *)
  attempt : nat;                 (* [bf.Attempt()] *)
  armed : option Z;
  fired : bool;
  stream : bool;                 (* [stream != nil] *)
  dying : bool;                  (* of the client's tomb *)
  events : list event            (* the newest first *)
}.

(** [time.NewTimer(0)] *)
Definition start (t : Z) : State :=
  {| now := t; at_ := Top; next := None; attempt := 0; armed := Some t; fired := false;
     stream := false; dying := false; events := [] |}.

Definition move (p : place) (s : State) : State :=
  {| now := now s; at_ := p; next := next s; attempt := attempt s; armed := armed s; fired := fired s;
     stream := stream s; dying := dying s; events := events s |}.
Definition emit (e : event) (s : State) : State :=
  {| now := now s; at_ := at_ s; next := next s; attempt := attempt s; armed := armed s; fired := fired s;
     stream := stream s; dying := dying s; events := e :: events s |}.
Definition set_timer (a : option Z) (f : bool) (s : State) : State :=
  {| now := now s; at_ := at_ s; next := next s; attempt := attempt s; armed := a; fired := f;
     stream := stream s; dying := dying s; events := events s |}.
Definition set_stream (b : bool) (s : State) : State :=
  {| now := now s; at_ := at_ s; next := next s; attempt := attempt s; armed := armed s; fired := fired s;
     stream := b; dying := dying s; events := events s |}.
Definition kill (s : State) : State :=
  {| now := now s; at_ := at_ s; next := next s; attempt := attempt s; armed := armed s; fired := fired s;
     stream := stream s; dying := true; events := events s |}.
Definition tick (d : Z) (s : State) : State :=
  {| now := now s + d; at_ := at_ s; next := next s; attempt := attempt s; armed := armed s; fired := fired s;
     stream := stream s; dying := dying s; events := events s |}.
Definition set_backoff (u : option Z) (n : nat) (s : State) : State :=
  {| now := now s; at_ := at_ s; next := u; attempt := n; armed := armed s; fired := fired s;
     stream := stream s; dying := dying s; events := events s |}.

(** [if !next.IsZero() { timer.Reset(next.Sub(time.Now())); ... }] *)
Definition top (s : State) : State :=
  match next s with
  | None => move Closing s
  | Some u => let s := set_timer (Some u) (fired s) s in
              if callback then move Calling (emit Called s) else move Closing s
  end.

(** [if stream != nil { stream.close(); stream = nil }], when the close returns *)
Definition close (s : State) : State :=
  move Waiting (if stream s then set_stream false (emit Closed s) else s).

(** [case <-timer.C], [next = time.Now().Add(bf.Duration())] *)
Definition dial (s : State) : State :=
  let s := set_timer (armed s) false s in
  move Connecting (set_backoff (Some (now s + ForAttempt (attempt s))) (S (attempt s))
    (emit (Attempt (now s) (attempt s)) s)).

(** [c.connect(obs)] returned: no stream and an error, or a stream. *)
Definition failed (s : State) : State := move Top (emit Failed (set_stream false s)).
Definition connected (s : State) : State :=
  move Sending (set_backoff (next s) 0 (emit Connected (set_stream true s))).

(** Where the goroutine calls [stream.die]. *)
Definition dies (s : State) : bool :=
  match at_ s with Closing => stream s | Connecting | Sending => true | _ => false end.

Inductive step (s : State) : State -> Prop :=
  | step_tick d : 0 <= d -> step s (tick d s)
  | step_kill : step s (kill s)
  | step_fire u : armed s = Some u -> u <= now s -> step s (set_timer None true s)
  | step_top : at_ s = Top -> step s (top s)
  | step_called : at_ s = Calling -> step s (move Closing s)          (* its error is only logged *)
  | step_call_close : at_ s = Calling -> step s (move InClose (kill s))
  | step_close : at_ s = Closing -> step s (close s)
  | step_return : at_ s = Waiting -> dying s = true -> step s (move Returned s)
  | step_dial : at_ s = Waiting -> fired s = true -> step s (dial s)
  | step_failed : at_ s = Connecting -> step s (failed s)
  | step_connected : at_ s = Connecting -> step s (connected s)
  | step_broken : at_ s = Sending -> step s (move Top s)
  | step_die_blocks : dies s = true -> step s (move InDie s).

Definition reachable (s : State) : Prop := exists t, rtc step (start t) s.

(** ** What the events should be *)

(** Since the last connection. *)
Fixpoint failures (l : list event) : nat :=
  match l with
  | [] | Connected :: _ => 0
  | Failed :: l => S (failures l)
  | _ :: l => failures l
  end.
(** When the last attempt lets the next one start. *)
Fixpoint allowed (l : list event) : option Z :=
  match l with
  | [] => None
  | Attempt t n :: _ => Some (t + ForAttempt n)
  | _ :: l => allowed l
  end.
(** Calls of the callback since the last attempt. *)
Fixpoint calls (l : list event) : nat :=
  match l with
  | [] | Attempt _ _ :: _ => 0
  | Called :: l => S (calls l)
  | _ :: l => calls l
  end.
(** Whether a connection is open. *)
Fixpoint open (l : list event) : bool :=
  match l with
  | [] | Closed :: _ => false
  | Connected :: _ => true
  | _ :: l => open l
  end.
Fixpoint attempts (l : list event) : nat :=
  match l with
  | [] => 0
  | Attempt _ _ :: l => S (attempts l)
  | _ :: l => attempts l
  end.

(** An attempt waits for the back-off of the attempt before, which grows with the failures
    since the last connection; the callback was called once since the attempt before, when
    there is one; no other connection is open. *)
Definition timely (t : Z) (n : nat) (l : list event) : Prop :=
  n = failures l /\ open l = false /\
  match allowed l with
  | None => calls l = 0%nat
  | Some u => u <= t /\ calls l = if callback then 1%nat else 0%nat
  end.
Fixpoint paced (l : list event) : Prop :=
  match l with
  | [] => True
  | e :: l => paced l /\ match e with Attempt t n => timely t n l | _ => True end
  end.

(** ** The invariant *)

(** The timer is due when the next attempt is allowed, or its value waits in the channel;
    or it was used up. *)
Definition due (s : State) : Prop :=
  match armed s, fired s with
  | Some a, false => match next s with Some u => a = u | None => True end
  | None, true => match next s with Some u => u <= now s | None => True end
  | _, _ => False
  end.
Definition spent (s : State) : Prop := armed s = None /\ fired s = false.

Definition timer_ok (s : State) : Prop :=
  match at_ s with
  | Top => match next s with None => due s | Some _ => spent s end
  | Calling | InClose | Closing | Waiting => due s
  | Connecting | Sending => spent s /\ is_Some (next s)
  | InDie | Returned => True
  end.

Definition calls_ok (s : State) : Prop :=
  match at_ s with
  | Top | Connecting | Sending => calls (events s) = 0%nat
  | Calling | InClose => callback = true /\ is_Some (next s) /\ calls (events s) = 1%nat
  | Closing | Waiting =>
      calls (events s) = match next s with Some _ => if callback then 1%nat else 0%nat | None => 0%nat end
  | InDie | Returned => True
  end.

Record inv (s : State) : Prop := {
  inv_paced : paced (events s);
  inv_next : next s = allowed (events s);
  inv_stream : stream s = open (events s);
  inv_no_stream : at_ s = Waiting \/ at_ s = Connecting -> stream s = false;
  inv_attempt : match at_ s with
                | Connecting => attempt s = S (failures (events s))
                | InDie => True
                | _ => attempt s = failures (events s)
                end;
  inv_calls : calls_ok s;
  inv_timer : timer_ok s
}.

(** The parts of the invariant, for a state whose place is known. *)
Ltac at_place H :=
  let H1 := fresh "Hpaced" in let H2 := fresh "Hnext" in let H3 := fresh "Hstream" in
  let H4 := fresh "Hno" in let H5 := fresh "Hattempt" in let H6 := fresh "Hcalls" in
  let H7 := fresh "Htimer" in
  destruct H as [H1 H2 H3 H4 H5 H6 H7]; unfold calls_ok, timer_ok in *;
  match goal with Ha : at_ _ = _ |- _ => rewrite Ha in * end; cbn in *.

Lemma keeps_start t : inv (start t).
Proof. constructor; cbn; try done. Qed.

Lemma due_tick d s : 0 <= d -> due s -> due (tick d s).
Proof. unfold due. cbn. destruct (armed s), (fired s); try done. destruct (next s); [lia|done]. Qed.

Lemma keeps_tick d s : 0 <= d -> inv s -> inv (tick d s).
Proof.
  intros Hd []. pose proof (due_tick d s Hd) as Ht. constructor; try done.
  unfold timer_ok in *. cbn. destruct (at_ s); auto. destruct (next s); auto.
Qed.

Lemma keeps_fire u s : armed s = Some u -> u <= now s -> inv s -> inv (set_timer None true s).
Proof.
  intros Ha Hu []. constructor; try done.
  assert (Hdue : due s -> due (set_timer None true s)).
  { unfold due. cbn. rewrite Ha. destruct (fired s); [done|]. destruct (next s); [|done]. by intros ->. }
  assert (Hspent : spent s -> False) by (intros [? _]; congruence).
  unfold timer_ok in *. cbn. destruct (at_ s); try tauto. destruct (next s); tauto.
Qed.

Lemma keeps_top s : at_ s = Top -> inv s -> inv (top s).
Proof.
  intros Ha H. at_place H. unfold top. destruct (next s) as [u|] eqn:Hu.
  - destruct Htimer as [_ Hf].
    destruct callback eqn:Hc; constructor; cbn; unfold calls_ok, timer_ok, due; cbn; try done;
      rewrite ?Hu, ?Hf, ?Hcalls, ?Hc; try done; try tauto; by intros [?|?].
  - constructor; cbn; unfold calls_ok, timer_ok; cbn; rewrite ?Hu; try done. by intros [?|?].
Qed.

Lemma keeps_called s : at_ s = Calling -> inv s -> inv (move Closing s).
Proof.
  intros Ha H. at_place H. destruct Hcalls as (Hc & [u Hu] & Hn).
  constructor; cbn; unfold calls_ok, timer_ok; cbn; try done; [by intros [?|?]|by rewrite Hu, Hc].
Qed.

Lemma keeps_close s : at_ s = Closing -> inv s -> inv (close s).
Proof.
  intros Ha H. at_place H. unfold close. destruct (stream s) eqn:Hs; constructor; try done. cbn. congruence.
Qed.

Lemma keeps_dial s : at_ s = Waiting -> fired s = true -> inv s -> inv (dial s).
Proof.
  intros Ha Hf H. at_place H. unfold due in Htimer. rewrite Hf in Htimer.
  assert (Hn : armed s = None) by by destruct (armed s). rewrite Hn in Htimer.
  constructor; cbn; unfold calls_ok, timer_ok, spent; cbn; try done.
  - split; [done|]. unfold timely. rewrite <- Hnext, <- Hstream. split; [done|].
    split; [by apply Hno; left|]. by destruct (next s).
  - intros _. by apply Hno; left.
  - by rewrite Hattempt.
Qed.

Lemma keeps_connect s : at_ s = Connecting -> inv s -> inv (failed s) /\ inv (connected s).
Proof.
  intros Ha H. at_place H.
  rewrite Hno in Hstream by by right.
  destruct Htimer as [Hspent [u Hu]].
  split; constructor; cbn; unfold calls_ok, timer_ok; cbn; try done; try (by intros [?|?]); by rewrite Hu.
Qed.

Lemma keeps_broken s : at_ s = Sending -> inv s -> inv (move Top s).
Proof.
  intros Ha H. at_place H. destruct Htimer as [Hspent [u Hu]].
  constructor; cbn; unfold calls_ok, timer_ok; cbn; try done; [by intros [?|?]|by rewrite Hu].
Qed.

(** Places at which nothing more is asked. *)
Lemma keeps_in_close s : at_ s = Calling -> inv s -> inv (move InClose (kill s)).
Proof. intros Ha H. at_place H. constructor; cbn; try done. by intros [?|?]. Qed.
Lemma keeps_return s : at_ s = Waiting -> inv s -> inv (move Returned s).
Proof. intros Ha H. at_place H. constructor; cbn; try done. by intros [?|?]. Qed.
Lemma keeps_die s : inv s -> inv (move InDie s).
Proof. intros []. constructor; cbn; try done. by intros [?|?]. Qed.
Lemma keeps_kill s : inv s -> inv (kill s).
Proof. intros []. by constructor. Qed.

Lemma keeps_step s s' : inv s -> step s s' -> inv s'.
Proof.
  intros H Hs. destruct Hs; eauto using keeps_tick, keeps_kill, keeps_fire, keeps_top, keeps_called, keeps_in_close,
    keeps_close, keeps_return, keeps_dial, keeps_broken, keeps_die.
  all: by apply keeps_connect.
Qed.

Lemma keeps_steps s s' : rtc step s s' -> inv s -> inv s'.
Proof. induction 1; eauto using keeps_step. Qed.

Lemma keeps_reachable s : reachable s -> inv s.
Proof. intros (t & H). eapply keeps_steps; [done|apply keeps_start]. Qed.

(** ** Progress *)

Definition waits_forever (p : place) : Prop := p = InClose \/ p = InDie.
Definition ended (s : State) : Prop := at_ s = Returned \/ waits_forever (at_ s).

(** The goroutine comes to its select, with no attempt on the way. *)
Definition comes (s : State) : Prop :=
  exists s', rtc step s s' /\ at_ s' = Waiting /\ attempts (events s') = attempts (events s) /\
    dying s' = dying s.

Lemma comes_later s s' : step s s' -> attempts (events s') = attempts (events s) ->
  dying s' = dying s -> comes s' -> comes s.
Proof.
  intros Hs Ha Hd (s2 & Hr & Hw & Ha2 & Hd2). exists s2. split; [by eapply rtc_l|].
  split; [done|]. by rewrite Ha2, Hd2.
Qed.

Lemma closing_comes s : at_ s = Closing -> comes s.
Proof.
  intros Ha. exists (close s). split; [by apply rtc_once, step_close|].
  unfold close. by destruct (stream s).
Qed.

Lemma top_comes s : at_ s = Top -> comes s.
Proof.
  intros Ha. assert (Hs := step_top s Ha). unfold top in Hs.
  destruct (next s) as [u|]; [destruct callback|].
  - eapply comes_later; [exact Hs|done..|].
    eapply comes_later; [by apply step_called|done..|]. by apply closing_comes.
  - eapply comes_later; [exact Hs|done..|]. by apply closing_comes.
  - eapply comes_later; [exact Hs|done..|]. by apply closing_comes.
Qed.

Lemma select_reached s : ~ ended s -> comes s.
Proof.
  intros Hn. destruct (at_ s) eqn:Ha.
  - by apply top_comes.
  - eapply comes_later; [by apply step_called|done..|]. by apply closing_comes.
  - destruct Hn. right. rewrite Ha. by left.
  - by apply closing_comes.
  - by exists s.
  - eapply comes_later; [by apply step_failed|done..|]. by apply top_comes.
  - eapply comes_later; [by apply step_broken|done..|]. by apply top_comes.
  - destruct Hn. right. rewrite Ha. by right.
  - destruct Hn. by left.
Qed.

(** At its select the goroutine makes an attempt when the timer is due. *)
Lemma select_dials s : inv s -> at_ s = Waiting ->
  exists s', rtc step s s' /\ attempts (events s') = S (attempts (events s)).
Proof.
  intros H Ha. destruct (fired s) eqn:Hf.
  - exists (dial s). split; [by apply rtc_once, step_dial|done].
  - at_place H. unfold due in Htimer. rewrite Hf in Htimer.
    destruct (armed s) as [u|] eqn:Hu; [|done].
    exists (dial (set_timer None true (tick (Z.max 0 (u - now s)) s))). split; [|done].
    eapply rtc_l; [apply (step_tick _ (Z.max 0 (u - now s))); lia|].
    eapply rtc_l; [apply (step_fire _ u); cbn; [done|lia]|]. by apply rtc_once, step_dial.
Qed.

Lemma stays_stuck s s' : waits_forever (at_ s) -> rtc step s s' ->
  at_ s' = at_ s /\ events s' = events s.
Proof.
  intros Ha Hr. revert Ha. induction Hr as [|s s1 s' Hs _ IH]; [done|]. intros Ha.
  assert (Heq : at_ s1 = at_ s /\ events s1 = events s)
    by (destruct Ha as [Ha|Ha], Hs; unfold dies in *; rewrite ?Ha in *; done).
  destruct Heq as [H1 H2]. rewrite <- H1, <- H2 in *. by apply IH.
Qed.

(** ** Properties *)

(** C18. However connections fail, last and end, and whenever the client is closed: an
    attempt to connect starts no sooner than the back-off of the attempt before allows,
    which counts the failures since the last connection; between two attempts the
    callback is called once, when there is one; and no other connection is open at an
    attempt. The goroutine can make another attempt, and can return when it is dying, until
    it has returned, is in a callback that called Close, or in a [stream.die] that does not
    return, which it calls in [connect], in [sending] and in [stream.close]; in the latter
    two it waits forever. *)
Theorem reconnect_paced s : reachable s ->
  paced (events s) /\
  (at_ s <> Returned -> at_ s <> InClose -> at_ s <> InDie ->
     (exists s', rtc step s s' /\ attempts (events s') = S (attempts (events s))) /\
     (dying s = true -> exists s', rtc step s s' /\ at_ s' = Returned)) /\
  (waits_forever (at_ s) -> forall s', rtc step s s' -> at_ s' = at_ s /\ events s' = events s).
Proof.
  intros Hr%keeps_reachable. split; [apply Hr|]. split.
  - intros Hn1 Hn2 Hn3. destruct (select_reached s) as (s' & Hs & Hw & Ha & Hd); [by intros [?|[?|?]]|].
    split.
    + destruct (select_dials s') as (s2 & Hs2 & Ha2); [by eapply keeps_steps|done|].
      exists s2. split; [by etrans|]. by rewrite Ha2, Ha.
    + intros Hk. exists (move Returned s'). split; [|done].
      eapply rtc_r; [done|]. apply step_return; [done|]. by rewrite Hd.
  - intros Ha s' Hs. by apply stays_stuck.
Qed.
End reconnect.

(** ** Examples *)

(** A back-off of one second, two, and so on. *)
Definition seconds (n : nat) : Z := Z.of_nat (S n) * 1000000000.

Tactic Notation "takes" open_constr(c) :=
  eapply rtc_l; [eapply c; solve [reflexivity|vm_compute; congruence]|vm_compute].

(** The first attempt fails, the second is made after the back-off and connects; the
    connection lasts and the client reconnects as soon as it ends. *)
Definition three_attempts : list event :=
  [Attempt 60000000000 0; Closed; Called; Connected; Attempt 1000000000 1; Called; Failed; Attempt 0 0].
Lemma three_attempts_made : exists s, reachable seconds true s /\ events s = three_attempts /\ at_ s = Connecting.
Proof.
  eexists. split; [exists 0|].
  - takes step_fire. takes step_top. takes step_close. takes step_dial. takes step_failed.
    takes step_top. takes step_called. takes step_close. takes (step_tick _ _ _ 1000000000).
    takes step_fire. takes step_dial. takes step_connected. takes (step_tick _ _ _ 59000000000).
    takes step_broken. takes step_top. takes step_called. takes step_close. takes step_fire.
    takes step_dial. apply rtc_refl.
  - by split.
Defined.

(** A callback that closes the client waits for itself. *)
Example callback_closes : exists s, reachable seconds true s /\ at_ s = InClose /\ dying s = true /\
  forall s', rtc (step seconds true) s s' -> at_ s' <> Returned.
Proof.
  eexists. split; [exists 0|].
  - takes step_fire. takes step_top. takes step_close. takes step_dial. takes step_failed.
    takes step_top. takes step_call_close. apply rtc_refl.
  - split; [done|]. split; [done|]. intros s' Hs.
    apply stays_stuck in Hs as [-> _]; [done|by left].
Qed.

(** The connection breaks and the close of its stream does not return: there is no other
    attempt, and a client that is closed then does not end. *)
Example close_blocks : exists s, reachable seconds false s /\ at_ s = InDie /\ dying s = true /\
  forall s', rtc (step seconds false) s s' -> at_ s' <> Returned /\ attempts (events s') = 1%nat.
Proof.
  eexists. split; [exists 0|].
  - takes step_fire. takes step_top. takes step_close. takes step_dial. takes step_connected.
    takes step_broken. takes step_top. takes step_die_blocks. takes step_kill. apply rtc_refl.
  - split; [done|]. split; [done|]. intros s' Hs.
    apply stays_stuck in Hs as [-> ->]; [done|by right].
Qed.

Lemma reconnect_paced_witness :
  exists s, reachable seconds true s /\ paced seconds true (events s) /\ events s = three_attempts /\
    exists s', rtc (step seconds true) s s' /\ attempts (events s') = 4%nat.
Proof.
  destruct three_attempts_made as (s & Hr & He & Ha). exists s. split; [exact Hr|].
  destruct (reconnect_paced seconds true s Hr) as (Hp & Hl & _). split; [exact Hp|]. split; [exact He|].
  destruct Hl as [(s' & Hs & Hn) _]; [congruence..|]. exists s'. split; [exact Hs|]. by rewrite Hn, He.
Defined.
