(* ===== verification/Keepalive.v ===== *)
(** * mqtt/stream.go: keeping a connection alive

    [stream.pinging] with its clock: it sleeps until the keep-alive interval since the last
    packet is over, sends a ping then, and declares the stream dead when the last ping has
    had no answer. The tracker of the MQTT library is the class [Tracker] with its
    documented behaviour; how late a timer may wake the goroutine is a parameter. *)

From Stdlib Require Import ZArith Lia String.
From stdpp Require Import base option list strings relations.
From S2P Require Import Prelude MqttPacket.
From S2P Require MqttStream.

Local Open Scope string_scope.
Local Open Scope Z_scope.
Local Open Scope list_scope.

Definition ErrClientMissingPong : error := "missing pong".

(** ** The tracker *)

(** Times are nanoseconds of a clock. *)
Class Tracker (T : Type) := {
  NewTracker : Z -> Z -> T;           (* the interval, and when it was made *)
  Reset : Z -> T -> T;                (* a packet is sent at that time *)
  Window : Z -> T -> Z;               (* the time until a ping should be sent *)
  Ping : T -> T;
  Pong : T -> T;
  Pending : T -> bool }.

(** The interval runs from the last reset; a ping is pending until its pong. The counter of
    pings is a byte: nothing is said of a second ping before the first has its pong, nor of a
    pong when no ping is pending. *)
Class TrackerLaws (T : Type) `{!Tracker T} := {
  interval : T -> Z;
  last_reset : T -> Z;
  pings : T -> Z;
  new_tracker k now : interval (NewTracker k now) = k /\ last_reset (NewTracker k now) = now /\
    pings (NewTracker k now) = 0;
  reset_tracker now t : interval (Reset now t) = interval t /\ last_reset (Reset now t) = now /\
    pings (Reset now t) = pings t;
  window_law now t : Window now t = interval t - (now - last_reset t);
  ping_tracker t : interval (Ping t) = interval t /\ last_reset (Ping t) = last_reset t /\
    (pings t = 0 -> pings (Ping t) = 1);
  pong_tracker t : interval (Pong t) = interval t /\ last_reset (Pong t) = last_reset t /\
    (0 < pings t -> pings (Pong t) = pings t - 1);
  pending_law t : Pending t = (0 <? pings t) }.

Section pinging.
Context {T : Type} `{!Tracker T}.
(** The interval, and how late a timer may be. *)
Context (KeepAlive latency : Z).

(** Why [pinging] returned, and the error it returned. *)
Inductive ending := TombDying | MissingPong | SendFailed (err : error).
Definition ending_error (e : ending) : option error :=
  match e with
  | TombDying => None
  | MissingPong => Some ErrClientMissingPong
  | SendFailed err => Some err
  end.

(** Where [pinging] is: about to look at the window; in the select, until the timer wakes
    it, which it does by the deadline; or returned, with the ping unanswered and the time
    then. *)
Inductive phase :=
  | Look
  | Sleep (wake deadline : Z)
  | Ended (why : ending) (asked : option Z) (at_time : Z).

Record State := {
  tracker : T;
  now : Z;
  at_ : phase;
  dying : bool;                (* of the stream's tomb *)
  unanswered : option Z;       (* when the ping was sent that has had no pong *)
  unsolicited : option Z       (* when the first Pingresp came that answers no ping *)
}.

Definition start (t : Z) : State :=
  {| tracker := NewTracker KeepAlive t; now := t; at_ := Look; dying := false; unanswered := None;
     unsolicited := None |}.

(** [s.send(pkt)] of any goroutine: [tracker.Reset()] and the packet. *)
Definition send (s : State) : State :=
  {| tracker := Reset (now s) (tracker s); now := now s; at_ := at_ s; dying := dying s;
     unanswered := unanswered s; unsolicited := unsolicited s |}.
(** [receiving] on a Pingresp, whether it answers a ping or not. *)
Definition receive_pong (s : State) : State :=
  {| tracker := Pong (tracker s); now := now s; at_ := at_ s; dying := dying s; unanswered := None;
     unsolicited := match unanswered s, unsolicited s with
                    | None, None => Some (now s)
                    | _, u => u
                    end |}.

Definition move (p : phase) (s : State) : State :=
  {| tracker := tracker s; now := now s; at_ := p; dying := dying s; unanswered := unanswered s;
     unsolicited := unsolicited s |}.
Definition kill (s : State) : State :=
  {| tracker := tracker s; now := now s; at_ := at_ s; dying := true; unanswered := unanswered s;
     unsolicited := unsolicited s |}.
Definition tick (d : Z) (s : State) : State :=
  {| tracker := tracker s; now := now s + d; at_ := at_ s; dying := dying s; unanswered := unanswered s;
     unsolicited := unsolicited s |}.

(** The select: [time.After(window)] wakes at once for a window that is not positive. *)
Definition sleep (window : Z) (s : State) : State :=
  move (Sleep (now s + window) (Z.max (now s) (now s + window) + latency)) s.

(** [s.tracker.Ping()] and the send of the request. *)
Definition ping (s : State) : State :=
  let s := send {| tracker := Ping (tracker s); now := now s; at_ := at_ s; dying := dying s;
                   unanswered := unanswered s; unsolicited := unsolicited s |} in
  {| tracker := tracker s; now := now s; at_ := at_ s; dying := dying s; unanswered := Some (now s);
     unsolicited := unsolicited s |}.

Definition return_ (why : ending) (s : State) : State :=
  move (Ended why (unanswered s) (now s)) s.

(** One turn of the loop, up to the select; [sent] is the error of the send. *)
Definition look (sent : option error) (s : State) : State :=
  let window := Window (now s) (tracker s) in
  if window <? 0 then
    if Pending (tracker s) then kill (return_ MissingPong s)
    else match sent with
         | Some err => kill (return_ (SendFailed err) s)
         | None => sleep window (ping s)
         end
  else sleep window s.

Inductive step : State -> State -> Prop :=
  | step_look sent s : at_ s = Look -> step s (look sent s)
  | step_wake w d s : at_ s = Sleep w d -> w <= now s -> step s (move Look s)
  | step_dying w d s : at_ s = Sleep w d -> dying s = true -> step s (return_ TombDying s)
  | step_sleep w d t s : at_ s = Sleep w d -> 0 <= t -> now s + t <= d -> step s (tick t s)
  | step_ended e p u t s : at_ s = Ended e p u -> 0 <= t -> step s (tick t s)
  | step_send s : step s (send s)
  | step_pong s : step s (receive_pong s)
  | step_kill s : step s (kill s).

Definition reachable (s : State) : Prop := exists t, rtc step (start t) s.

Definition alive (s : State) : bool := match at_ s with Ended _ _ _ => false | _ => true end.

Context `{!TrackerLaws T} (HK : 0 <= KeepAlive) (HL : 0 <= latency).

(** ** The invariant *)

(** The stream missed the pong of a ping sent at [p]; or a Pingresp had come before that
    answers no ping. *)
Definition justified (asked : option Z) (t : Z) (s : State) : Prop :=
  (exists p, asked = Some p /\ p + KeepAlive < t) \/
  (exists u, unsolicited s = Some u /\ u <= t).

Record inv (s : State) : Prop := {
  inv_interval : interval (tracker s) = KeepAlive;
  inv_pings : unsolicited s = None ->
    pings (tracker s) = match unanswered s with Some _ => 1 | None => 0 end;
  inv_unsolicited : forall u, unsolicited s = Some u -> u <= now s;
  inv_asked : forall p, unanswered s = Some p -> p <= last_reset (tracker s);
  inv_past : last_reset (tracker s) <= now s;
  inv_at : match at_ s with
           | Look => now s <= last_reset (tracker s) + KeepAlive + latency
           | Sleep w d => now s <= d /\ d <= last_reset (tracker s) + KeepAlive + latency
           | Ended e asked t => t <= now s /\ (e = MissingPong -> justified asked t s)
           end }.

Lemma keep_start t : inv (start t).
Proof.
  destruct (new_tracker KeepAlive t) as (Hi & Hl & Hp).
  constructor; cbn; rewrite ?Hi, ?Hl, ?Hp; try done; lia.
Qed.

Lemma inv_sleep w s : inv s -> now s + w <= last_reset (tracker s) + KeepAlive ->
  now s <= last_reset (tracker s) + KeepAlive -> inv (sleep w s).
Proof. intros [] Hw Hn. constructor; cbn; try done. lia. Qed.

(** A ping starts the interval anew. *)
Lemma inv_ping s : inv s -> at_ s = Look -> pings (tracker s) <= 0 -> inv (ping s).
Proof.
  intros [] Ha Hu. destruct (ping_tracker (tracker s)) as (Hi & Hl & Hp).
  destruct (reset_tracker (now s) (Ping (tracker s))) as (Hi' & Hl' & Hp').
  rewrite Ha in *. constructor; cbn; rewrite ?Hi', ?Hl', ?Hp', ?Hi; try done; try lia.
  - intros Hn. apply Hp. specialize (inv_pings0 Hn). destruct (unanswered s); lia.
  - intros p [= <-]. lia.
  - rewrite Ha. lia.
Qed.

Lemma inv_return e s : inv s -> (e = MissingPong -> justified (unanswered s) (now s) s) ->
  inv (return_ e s).
Proof. intros [] He. by constructor; cbn. Qed.

Lemma inv_kill s : inv s -> inv (kill s).
Proof. intros []. by constructor. Qed.

(** The last ping is overdue. *)
Lemma overdue s : inv s -> Window (now s) (tracker s) < 0 -> 0 < pings (tracker s) ->
  justified (unanswered s) (now s) s.
Proof.
  intros [] Hw Hp. rewrite window_law in Hw. unfold justified.
  destruct (unsolicited s) as [u|]; [right; eauto|]. left.
  specialize (inv_pings0 eq_refl). destruct (unanswered s) as [p|]; [|lia].
  exists p. split; [done|]. specialize (inv_asked0 p eq_refl). lia.
Qed.

Lemma inv_look sent s : inv s -> at_ s = Look -> inv (look sent s).
Proof.
  intros Hi Ha. pose proof (window_law (now s) (tracker s)) as Hw.
  pose proof (inv_interval s Hi). pose proof (inv_past s Hi).
  unfold look. rewrite pending_law. destruct (Z.ltb_spec (Window (now s) (tracker s)) 0) as [Hneg|Hpos].
  - destruct (Z.ltb_spec 0 (pings (tracker s))) as [Hp|Hp].
    + apply inv_kill, inv_return; [done|]. intros _. by apply overdue.
    + destruct sent as [e|]; [by apply inv_kill, inv_return|].
      apply inv_sleep; [by apply inv_ping|..]; cbn;
        destruct (reset_tracker (now s) (Ping (tracker s))) as (_ & -> & _); lia.
  - apply inv_sleep; [done|lia|lia].
Qed.

Lemma keep_send s : inv s -> inv (send s).
Proof.
  intros []. destruct (reset_tracker (now s) (tracker s)) as (Hi & Hl & Hp).
  constructor; cbn; rewrite ?Hi, ?Hl, ?Hp; try done.
  - intros p Hu. specialize (inv_asked0 p Hu). lia.
  - destruct (at_ s); lia || done.
Qed.

Lemma inv_pong s : inv s -> inv (receive_pong s).
Proof.
  intros []. destruct (pong_tracker (tracker s)) as (Hi & Hl & Hp).
  constructor; cbn; rewrite ?Hi, ?Hl; try done.
  - destruct (unanswered s) as [p|], (unsolicited s) as [u|]; try done. intros _.
    specialize (inv_pings0 eq_refl). rewrite Hp; lia.
  - intros u. destruct (unanswered s), (unsolicited s); intros [= <-]; auto; lia.
  - destruct (at_ s) as [| |e p t]; [done..|]. destruct inv_at0 as [Ht Hj]. split; [done|].
    intros [?|(u & Hu & Hut)]%Hj; [by left|]. right. exists u. cbn. rewrite Hu.
    by destruct (unanswered s).
Qed.

Lemma keep_step s s' : step s s' -> inv s -> inv s'.
Proof.
  destruct 1 as [sent u Ha|w d u Ha Hw|w d u Ha Hd|w d t u Ha Ht Hle|e p t' t u Ha Ht|u|u|u];
    intros Hi; auto using inv_look, keep_send, inv_pong, inv_kill.
  - destruct Hi. rewrite Ha in *. constructor; cbn; try done. lia.
  - by apply inv_return.
  - destruct Hi. constructor; cbn; try done; [|lia|].
    + intros x Hx. specialize (inv_unsolicited0 x Hx). lia.
    + rewrite Ha in *. lia.
  - destruct Hi. constructor; cbn; try done; [|lia|].
    + intros x Hx. specialize (inv_unsolicited0 x Hx). lia.
    + rewrite Ha in *. destruct inv_at0. split; [lia|done].
Qed.

Lemma keepalive_inv s : reachable s -> inv s.
Proof.
  intros (t & H). pose proof (keep_start t) as Hi. revert Hi. induction H; eauto using keep_step.
Qed.

(** C17. The keep-alive contract of a client, however pings, pongs and the packets of other
    goroutines interleave. While [pinging] runs the client is never silent for longer than
    the interval (and the lateness of a timer), so that a peer that is silent after a ping,
    on a connection with nothing else to send, is found out by the next interval. As long as
    no Pingresp has come that answers no ping: no second ping is sent before the first has
    its pong, and the first look at the window after the interval has passed without it ends
    the stream. A stream is declared dead for a missing pong only when the interval has
    passed since a ping without one, or when a Pingresp that answers no ping had come
    before. *)
Theorem keepalive_contract s : reachable s ->
  (alive s = true -> now s <= last_reset (tracker s) + KeepAlive + latency) /\
  (forall p, unanswered s = Some p -> last_reset (tracker s) = p -> alive s = true ->
     now s <= p + KeepAlive + latency) /\
  (forall sent p, at_ s = Look -> unanswered s = Some p -> unsolicited s = None ->
     if decide (last_reset (tracker s) + KeepAlive < now s)
     then at_ (look sent s) = Ended MissingPong (Some p) (now s) /\ dying (look sent s) = true
     else tracker (look sent s) = tracker s /\ unanswered (look sent s) = Some p /\
       at_ (look sent s) = Sleep (last_reset (tracker s) + KeepAlive)
                                 (last_reset (tracker s) + KeepAlive + latency)) /\
  (forall asked t, at_ s = Ended MissingPong asked t ->
     (exists p, asked = Some p /\ p + KeepAlive < t) \/
     (exists u, unsolicited s = Some u /\ u <= t)).
Proof.
  intros Hi%keepalive_inv. split; [|split; [|split]].
  - unfold alive. pose proof (inv_at s Hi). destruct (at_ s); [lia|lia|done].
  - intros p Hp Hl Hal. unfold alive in Hal. pose proof (inv_at s Hi). destruct (at_ s); [lia|lia|done].
  - intros sent p Ha Hp Hn. unfold look. rewrite pending_law, (inv_pings s Hi Hn), window_law, Hp.
    rewrite (inv_interval s Hi). cbn [Z.ltb Z.compare].
    case_decide as Hd; destruct (Z.ltb_spec (KeepAlive - (now s - last_reset (tracker s))) 0); [|lia|lia|].
    + cbn. by rewrite Hp.
    + cbn. rewrite Hp. repeat split. f_equal; lia.
  - intros asked t Ha. pose proof (inv_at s Hi) as Hat. rewrite Ha in Hat. by apply Hat.
Qed.
End pinging.

(** ** Examples *)

(** The counter of pings is a byte. *)
Record counter_tracker := { every : Z; last : Z; count : Z }.

#[export] Instance counter_Tracker : Tracker counter_tracker := {
  NewTracker k t := {| every := k; last := t; count := 0 |};
  Reset t tr := {| every := every tr; last := t; count := count tr |};
  Window t tr := every tr - (t - last tr);
  Ping tr := {| every := every tr; last := last tr; count := (count tr + 1) mod 256 |};
  Pong tr := {| every := every tr; last := last tr; count := (count tr - 1) mod 256 |};
  Pending tr := 0 <? count tr mod 256 }.

#[export] Instance counter_laws : TrackerLaws counter_tracker.
Proof.
  apply (Build_TrackerLaws _ _ every last (fun tr => count tr mod 256)); try done; intros t; cbn;
    (split; [done|]; split; [done|]); intros H; rewrite ?Zmod_mod; Z.to_euclidean_division_equations; lia.
Defined.

(** A silent peer: the client pings after 10, at 11, and gives up after another 10, at 22. *)
Definition later (d : Z) (s : @State counter_tracker) : State := look 1 None (move Look (tick d s)).
Definition pinged : @State counter_tracker := later 11 (look 1 None (start 10 0)).
Definition gave_up : @State counter_tracker := later 11 pinged.

Example silent_peer :
  unanswered pinged = Some 11 /\ at_ pinged = Sleep 10 12 /\
  at_ gave_up = Ended MissingPong (Some 11) 22.
Proof. repeat split. Qed.

(** A Pingresp that answers no ping takes the counter to 255: at the first look after the
    interval the stream dies of a missing pong, and no ping was ever sent. *)
Definition unasked : @State counter_tracker := later 11 (look 1 None (receive_pong (start 10 0))).
Example unsolicited_pong_kills : reachable 10 1 unasked /\
  at_ unasked = Ended MissingPong None 11 /\ unsolicited unasked = Some 0.
Proof.
  split; [|by repeat split]. exists 0.
  eapply rtc_l; [apply step_pong|].
  eapply rtc_l; [apply (step_look 1 None); reflexivity|].
  eapply rtc_l; [eapply (step_sleep 1 _ _ 11); [reflexivity|done|vm_compute; discriminate]|].
  eapply rtc_l; [eapply step_wake; [reflexivity|vm_compute; discriminate]|].
  eapply rtc_l; [apply (step_look 1 None); reflexivity|].
  apply rtc_refl.
Qed.

Lemma pinged_reachable : reachable 10 1 pinged.
Proof.
  exists 0.
  eapply rtc_l; [apply (step_look 1 None); reflexivity|].
  eapply rtc_l; [eapply (step_sleep 1 _ _ 11); [reflexivity|done|vm_compute; discriminate]|].
  eapply rtc_l; [eapply step_wake; [reflexivity|vm_compute; discriminate]|].
  eapply rtc_l; [apply (step_look 1 None); reflexivity|].
  apply rtc_refl.
Qed.

Lemma keepalive_contract_witness :
  now pinged <= last_reset (tracker pinged) + 10 + 1 /\ now pinged <= 11 + 10 + 1.
Proof.
  destruct (keepalive_contract 10 1 ltac:(lia) ltac:(lia) pinged pinged_reachable) as (H1 & H2 & _).
  split; [by apply H1|by apply H2].
Defined.
