(* ===== verification/GoValue.v ===== *)
(** * Dynamic Go values

    The values an [interface{}] of this repository holds: what encoding/json
    decodes into, and the typed slices and maps the setters of spec/v1 store.
    [kind] is what [reflect.TypeOf(v).Kind()] answers.  The report records of
    spec/v1/sync_report.go are here too, since reports carry them as values. *)

From Stdlib Require Import ZArith Lia String SpecFloat.
From stdpp Require Import base option list strings gmap fin_maps.
From S2P Require Import Prelude.

Local Open Scope string_scope.
Local Open Scope Z_scope.
Local Open Scope list_scope.

(** ** Go maps

    A map with string keys; [None] is the nil map, which reads as empty and
    cannot be assigned to. *)
Abbreviation gomap V := (option (gmap string V)).

Definition mget {V} (m : gomap V) (k : string) : option V :=
  match m with Some m => m !! k | None => None end.

Definition nil_map_panic : string := "assignment to entry in nil map".

Definition mset {V} (m : gomap V) (k : string) (v : V) : outcome (gomap V) :=
  match m with
  | None => Panic nil_map_panic
  | Some m => Ok (Some (<[k := v]> m))
  end.

(** The entries of a map, none for a nil one. *)
Definition entries {V} (m : gomap V) : gmap string V := default ∅ m.

Lemma mget_entries {V} (m : gomap V) k : mget m k = entries m !! k.
Proof. by destruct m. Qed.

(** ** spec/v1/sync_report.go *)

Record DeviceInfo := { di_Name : string; di_Version : string }.
Record AppInfo := { ai_Name : string; ai_Version : string }.

#[export] Instance DeviceInfo_eq_dec : EqDecision DeviceInfo.
Proof. solve_decision. Defined.
#[export] Instance AppInfo_eq_dec : EqDecision AppInfo.
Proof. solve_decision. Defined.

Record ContainerInfo := {
  ct_Name : string;
  ct_Usage : gomap string;
  ct_State : string;
  ct_Reason : string }.

(** [V] is the type of [interface{}] values; times are nanoseconds. *)
Record InstanceStats (V : Type) := {
  is_Name : string;
  is_ServiceName : string;
  is_AppName : string;
  is_Usage : gomap string;
  is_Extension : V;
  is_Status : string;
  is_Cause : string;
  is_IP : string;
  is_NodeName : string;
  is_Pid : Z;
  is_PPid : Z;
  is_CreateTime : Z;
  is_Containers : list ContainerInfo;
  is_InitContainers : list ContainerInfo }.
Arguments is_Name {V}. Arguments is_ServiceName {V}. Arguments is_AppName {V}.
Arguments is_Usage {V}. Arguments is_Extension {V}. Arguments is_Status {V}.
Arguments is_Cause {V}. Arguments is_IP {V}. Arguments is_NodeName {V}.
Arguments is_Pid {V}. Arguments is_PPid {V}. Arguments is_CreateTime {V}.
Arguments is_Containers {V}. Arguments is_InitContainers {V}.
Arguments Build_InstanceStats {V}.

Record AppStats (V : Type) := {
  as_AppInfo : AppInfo;
  as_DeployType : string;
  as_Status : string;
  as_Cause : string;
  as_InstanceStats : gomap (InstanceStats V) }.
Arguments as_AppInfo {V}. Arguments as_DeployType {V}. Arguments as_Status {V}.
Arguments as_Cause {V}. Arguments as_InstanceStats {V}.
Arguments Build_AppStats {V}.

Record NodeInfo := {
  ni_Hostname : string;
  ni_Address : string;
  ni_Arch : string;
  ni_KernelVersion : string;
  ni_OS : string;
  ni_ContainerRuntime : string;
  ni_MachineID : string;
  ni_BootID : string;
  ni_SystemUUID : string;
  ni_OSImage : string;
  ni_Variant : string;
  ni_HostID : string;
  ni_Role : string;
  ni_Labels : gomap string;
  ni_ClientIP : string }.

Record NodeStats (V : Type) := {
  ns_DiskPressure : bool;
  ns_MemoryPressure : bool;
  ns_PIDPressure : bool;
  ns_NetworkUnavailable : bool;
  ns_Ready : bool;
  ns_Usage : gomap string;
  ns_Capacity : gomap string;
  ns_Percent : gomap string;
  ns_NetIO : gomap string;
  ns_Extension : V }.
Arguments ns_DiskPressure {V}. Arguments ns_MemoryPressure {V}.
Arguments ns_PIDPressure {V}. Arguments ns_NetworkUnavailable {V}.
Arguments ns_Ready {V}. Arguments ns_Usage {V}. Arguments ns_Capacity {V}.
Arguments ns_Percent {V}. Arguments ns_NetIO {V}. Arguments ns_Extension {V}.
Arguments Build_NodeStats {V}.

Record CoreInfo := {
  core_GoVersion : string;
  core_BinVersion : string;
  core_GitRevision : string }.

(** ** Values *)

(** float64, as the numbers IEEE 754 gives it. *)
Definition float64 := spec_float.

#[export] Instance spec_float_eq_dec : EqDecision spec_float.
Proof. solve_decision. Defined.

Inductive Kind :=
  | KBool | KInt | KInt8 | KInt16 | KInt32 | KInt64
  | KUint | KUint8 | KUint16 | KUint32 | KUint64
  | KFloat32 | KFloat64 | KString | KSlice | KMap | KStruct | KPtr | KFunc.

#[export] Instance Kind_eq_dec : EqDecision Kind.
Proof. solve_decision. Defined.

#[local] Set Warnings "-register-all".

Inductive GoVal :=
  | VNil                                        (* nil *)
  | VBool (b : bool)
  | VInt (k : Kind) (z : Z)                     (* the integer type of kind k *)
  | VFloat32 (f : spec_float)
  | VFloat64 (f : float64)
  | VString (s : string)
  | VNumber (s : string)                        (* json.Number *)
  | VSlice (l : list GoVal)                     (* []interface{} *)
  | VMap (m : option (gmap string GoVal))       (* map[string]interface{} *)
  | VStringMap (m : gomap string)               (* map[string]string *)
  | VAppInfos (l : option (list AppInfo))       (* []AppInfo, maybe nil *)
  | VDeviceInfos (l : option (list DeviceInfo)) (* []DeviceInfo, maybe nil *)
  | VAppStats (l : option (list (AppStats GoVal)))
  | VNodeInfos (m : gmap string NodeInfo)       (* map[string]*NodeInfo *)
  | VNodeStats (m : gmap string (NodeStats GoVal))
  | VOther (k : Kind) (type : string).          (* a value of another type *)

(** [reflect.TypeOf(v).Kind()] of a value that is not nil. *)
Definition kind (v : GoVal) : option Kind :=
  match v with
  | VNil => None
  | VBool _ => Some KBool
  | VInt k _ => Some k
  | VFloat32 _ => Some KFloat32
  | VFloat64 _ => Some KFloat64
  | VString _ | VNumber _ => Some KString
  | VSlice _ | VAppInfos _ | VDeviceInfos _ | VAppStats _ => Some KSlice
  | VMap _ | VStringMap _ | VNodeInfos _ | VNodeStats _ => Some KMap
  | VOther k _ => Some k
  end.

Definition is_nil (v : GoVal) : bool :=
  match v with VNil => true | _ => false end.

Definition is_map_kind (v : GoVal) : bool :=
  match kind v with Some KMap => true | _ => false end.

(** Type assertions: the value with [ok], or the panic of the one-result form. *)
Definition as_map (v : GoVal) : option (gomap GoVal) :=
  match v with VMap m => Some m | _ => None end.
Definition as_string (v : GoVal) : option string :=
  match v with VString s => Some s | _ => None end.
Definition as_slice (v : GoVal) : option (list GoVal) :=
  match v with VSlice l => Some l | _ => None end.
Definition as_float64 (v : GoVal) : option float64 :=
  match v with VFloat64 f => Some f | _ => None end.

Definition conversion_panic : string := "interface conversion".

Definition must {A} (o : option A) : outcome A :=
  match o with Some a => Ok a | None => Panic conversion_panic end.

(** ** Induction *)

Fixpoint value_size (v : GoVal) : nat :=
  match v with
  | VMap (Some m) => S (map_fold (fun _ w n => value_size w + n)%nat 0%nat m)
  | VSlice l => S (foldr (fun w n => value_size w + n)%nat 0%nat l)
  | _ => 0%nat
  end.

Lemma size_map_lt (m : gmap string GoVal) k v :
  m !! k = Some v -> (value_size v < value_size (VMap (Some m)))%nat.
Proof.
  cbn. revert k v.
  refine (map_fold_weak_ind (fun r m => forall k v, m !! k = Some v -> (value_size v < S r)%nat)
    _ _ _ _ m); [done|].
  intros i x m' r Hi IH k v [[-> ->]|[? Hv]]%lookup_insert_Some; [lia|].
  specialize (IH _ _ Hv). lia.
Qed.

Lemma size_slice_lt l v : v ∈ l -> (value_size v < value_size (VSlice l))%nat.
Proof.
  induction l as [|w l IH]; intros Hv; [by apply elem_of_nil in Hv|].
  apply elem_of_cons in Hv as [->|Hv]; cbn in *.
  - lia.
  - specialize (IH Hv). lia.
Qed.

(** Induction over a value, with hypotheses for the elements of its slices and
    the entries of its maps. *)
Lemma GoVal_nested_ind (P : GoVal -> Prop) :
  (forall v, (forall l, v <> VSlice l) -> (forall m, v <> VMap (Some m)) -> P v) ->
  (forall l, Forall P l -> P (VSlice l)) ->
  (forall m, map_Forall (fun _ => P) m -> P (VMap (Some m))) ->
  forall v, P v.
Proof.
  intros Hleaf Hl Hm v. remember (value_size v) as n eqn:Hn. revert v Hn.
  induction (lt_wf n) as [n _ IH]. intros v ->.
  destruct v as [| | | | | | |l|[m|]| | | | | | |]; try (by apply Hleaf).
  - apply Hl, Forall_forall. intros w Hw. eapply IH; [|done]. by apply size_slice_lt.
  - apply Hm. intros k w Hw. eapply IH; [|done]. by eapply size_map_lt.
Qed.

(** ** Reading by path *)

(** The value reached from [v] by a path of keys through maps. *)
Fixpoint at_path (v : GoVal) (p : list string) : option GoVal :=
  match p with
  | [] => Some v
  | k :: p =>
      match v with
      | VMap (Some m) => m !! k ≫= fun w => at_path w p
      | _ => None
      end
  end.
