(* ===== verification/GoStrconv.v ===== *)
(** * strconv: decimal integers

    [FormatInt(z, 10)] and [ParseInt(s, 10, bits)]: an optional sign, then one or
    more digits, in the range of the width.  Each is proved to be what the other
    needs. *)

From Stdlib Require Import ZArith Lia Ascii String.
From stdpp Require Import base option list strings.
From S2P Require Import Prelude.

Local Open Scope string_scope.
Local Open Scope Z_scope.
Local Open Scope list_scope.

Definition digit (d : Z) : ascii := z2b (48 + d).

(** The digits of [n], put in front of [acc], least significant first. *)
Fixpoint format_digits (fuel : nat) (n : Z) (acc : string) : string :=
  match fuel with
  | O => acc
  | S fuel =>
      let acc := String (digit (n mod 10)) acc in
      if n <? 10 then acc else format_digits fuel (n / 10) acc
  end.

(** A number below [10 ^ fuel] needs no more than [fuel] digits, and
    [n < 2 ^ (log2 n + 1)]. *)
Definition FormatUint (n : Z) : string := format_digits (S (Z.to_nat (Z.log2 n))) n "".

Definition FormatInt (z : Z) : string :=
  if z <? 0 then String "-" (FormatUint (- z)) else FormatUint z.

Fixpoint parse_digits (acc : Z) (s : string) : option Z :=
  match s with
  | EmptyString => Some acc
  | String c s =>
      let d := b2z c - 48 in
      if (0 <=? d) && (d <=? 9) then parse_digits (10 * acc + d) s else None
  end.

Definition parse_unsigned (s : string) : option Z :=
  match s with EmptyString => None | _ => parse_digits 0 s end.

Definition ErrSyntax : error := "invalid syntax".
Definition ErrRange : error := "value out of range".

(** [strconv.ParseInt(s, 10, bitSize)]: digits that do not fit give a range error. *)
Definition ParseInt (s : string) (bitSize : Z) : outcome Z :=
  let '(neg, digits) :=
    match s with
    | String c s' => if Ascii.eqb c "-" then (true, s')
                     else if Ascii.eqb c "+" then (false, s') else (false, s)
    | EmptyString => (false, s)
    end in
  match parse_unsigned digits with
  | None => Err ErrSyntax
  | Some n =>
      let z := if neg then - n else n in
      if bool_decide (in_s bitSize z) then Ok z else Err ErrRange
  end.

(** ** Lemmas *)

Lemma digit_value d : 0 <= d < 10 -> b2z (digit d) - 48 = d.
Proof. intros Hd. unfold digit. rewrite b2z_z2b, Z.mod_small by lia. lia. Qed.

Lemma parse_digit acc d s :
  0 <= d < 10 -> parse_digits acc (String (digit d) s) = parse_digits (10 * acc + d) s.
Proof.
  intros Hd. cbn [parse_digits]. rewrite digit_value by done.
  by rewrite (proj2 (Z.leb_le 0 d)), (proj2 (Z.leb_le d 9)) by lia.
Qed.

Lemma parse_format fuel : forall n s,
  0 <= n < 10 ^ Z.of_nat fuel ->
  parse_digits 0 (format_digits fuel n s) = parse_digits n s.
Proof.
  induction fuel as [|fuel IH]; intros n s Hn.
  { cbn in *. by replace n with 0 by lia. }
  pose proof (Z.mod_pos_bound n 10 ltac:(lia)). cbn [format_digits].
  destruct (n <? 10) eqn:E; boolify.
  - rewrite parse_digit, Z.mod_small by lia. f_equal.
  - rewrite Nat2Z.inj_succ, Z.pow_succ_r in Hn by lia.
    assert (0 <= n / 10 < 10 ^ Z.of_nat fuel).
    { split; [apply Z.div_pos; lia|apply Z.div_lt_upper_bound; lia]. }
    rewrite IH, parse_digit by lia. f_equal. pose proof (Z.div_mod n 10). lia.
Qed.

Lemma fuel_enough n : 0 <= n -> n < 10 ^ Z.of_nat (S (Z.to_nat (Z.log2 n))).
Proof.
  intros Hn. rewrite Nat2Z.inj_succ, Z2Nat.id by apply Z.log2_nonneg.
  destruct (Z.eq_dec n 0) as [->|Hne]; [done|].
  pose proof (Z.log2_spec n ltac:(lia)) as [_ Hlt].
  pose proof (Z.pow_le_mono_l 2 10 (Z.succ (Z.log2 n)) ltac:(lia)). lia.
Qed.

Lemma format_digits_head fuel : forall n s,
  exists c t, format_digits (S fuel) n s = String c t /\
    (48 <= b2z c < 58 \/ exists d, c = digit d /\ 0 <= d < 10).
Proof.
  induction fuel as [|fuel IH]; intros n s.
  - cbn. pose proof (Z.mod_pos_bound n 10 ltac:(lia)).
    destruct (n <? 10); eauto 10.
  - change (format_digits (S (S fuel)) n s) with
      (if n <? 10 then String (digit (n mod 10)) s
       else format_digits (S fuel) (n / 10) (String (digit (n mod 10)) s)).
    destruct (n <? 10); [|apply IH].
    pose proof (Z.mod_pos_bound n 10 ltac:(lia)). eauto 10.
Qed.

Lemma FormatUint_head n :
  exists c t, FormatUint n = String c t /\ Ascii.eqb c "-" = false /\ Ascii.eqb c "+" = false.
Proof.
  destruct (format_digits_head (Z.to_nat (Z.log2 n)) n "") as (c & t & Hc & Hd).
  assert (48 <= b2z c).
  { destruct Hd as [?|(d & -> & ?)]; [lia|]. pose proof (digit_value d ltac:(lia)). lia. }
  exists c, t. split; [done|].
  split; apply Ascii.eqb_neq; intros ->;
    match goal with H : 48 <= b2z _ |- _ => by vm_compute in H end.
Qed.

Lemma parse_FormatUint n : 0 <= n -> parse_unsigned (FormatUint n) = Some n.
Proof.
  intros Hn. unfold parse_unsigned.
  destruct (FormatUint_head n) as (c & t & Hc & _). rewrite Hc, <- Hc.
  unfold FormatUint. rewrite parse_format; [done|].
  split; [done|by apply fuel_enough].
Qed.

(** Printing and reading an integer is the identity exactly on the integers of
    the width; any other integer is a range error. *)
Lemma ParseInt_FormatInt z w :
  ParseInt (FormatInt z) w = if bool_decide (in_s w z) then Ok z else Err ErrRange.
Proof.
  unfold ParseInt, FormatInt. destruct (z <? 0) eqn:E; boolify.
  - rewrite (Ascii.eqb_refl "-"), parse_FormatUint, Z.opp_involutive by lia. done.
  - destruct (FormatUint_head z) as (c & t & Hc & Hm & Hp).
    rewrite Hc, Hm, Hp, <- Hc, parse_FormatUint by lia. done.
Qed.

Lemma ParseInt_range s w z : ParseInt s w = Ok z -> in_s w z.
Proof.
  unfold ParseInt. destruct (match s with EmptyString => _ | _ => _ end) as [neg ds].
  destruct (parse_unsigned ds); [|done]. case_bool_decide; [|done]. by intros [= <-].
Qed.
