(* ===== verification/SpecMerge.v ===== *)
(** * spec/v1/node.go: merging, cleaning, diffing and patching shadows

    [Report] and [Desire] are trees of [map[string]interface{}].  [merge]
    overlays the reported tree on the stored one in place, down to a bounded
    number of levels; [clean] removes nil entries; [diff] and [patch] go through
    JSON and a JSON-patch library, both parameters here. *)

From Stdlib Require Import ZArith Lia String.
From stdpp Require Import base option list strings gmap fin_maps.
From S2P Require Import Prelude GoValue.

Local Open Scope string_scope.
Local Open Scope Z_scope.
Local Open Scope list_scope.

Definition maxJSONLevel : Z := 5.
Definition ErrJSONLevelExceedsLimit : error := "the level of json exceeds the max limit (5)".

(** ** Merge

    A merge returns the map it leaves in [left], whether or not it succeeded,
    since it works in place. *)
Definition merged : Type := (gomap GoVal * outcome unit)%type.

Definition assign (left : gomap GoVal) (k : string) (v : GoVal) : merged :=
  match mset left k v with
  | Ok left' => (left', Ok tt)
  | Err e => (left, Err e)
  | Panic w => (left, Panic w)
  | NoFuel => (left, NoFuel)
  end.

Section merge.
(** Go's iteration order over a map: any order, which may differ from one loop
    to the next (a loop is identified by the keys that lead to its map). *)
Context (order : list string -> gmap string GoVal -> list (string * GoVal)).

(** The body of the loop of [merge] for one entry of [right]; [rec] is the
    recursive call. *)
Definition merge_entry (rec : gomap GoVal -> gomap GoVal -> merged)
    (left : gomap GoVal) (rk : string) (rv : GoVal) : merged :=
  match mget left rk with
  | None => assign left rk rv
  | Some lv =>
      if is_nil lv || is_nil rv || negb (is_map_kind rv) || negb (is_map_kind lv)
      then assign left rk rv
      else match as_map lv, as_map rv with
           | Some lm, Some rm =>
               let '(lm', r) := rec lm rm in
               match left with
               | Some l => (Some (<[rk := VMap lm']> l), r)
               | None => (left, r)
               end
           | _, _ => (left, Panic conversion_panic)
           end
  end.

Fixpoint merge_loop (rec : string -> gomap GoVal -> gomap GoVal -> merged)
    (left : gomap GoVal) (es : list (string * GoVal)) : merged :=
  match es with
  | [] => (left, Ok tt)
  | (rk, rv) :: es =>
      let '(left', r) := merge_entry (rec rk) left rk rv in
      match r with
      | Ok _ => merge_loop rec left' es
      | Err e => (left', Err e)
      | Panic w => (left', Panic w)
      | NoFuel => (left', NoFuel)
      end
  end.

(** [merge(left, right, depth, maxDepth)]; each level uses one unit of fuel. *)
Fixpoint merge_fuel (fuel : nat) (path : list string) (left right : gomap GoVal)
    (depth maxDepth : Z) : merged :=
  match fuel with
  | O => (left, NoFuel)
  | S fuel =>
      if maxDepth <=? depth then (left, Err ErrJSONLevelExceedsLimit)
      else merge_loop
             (fun k l r => merge_fuel fuel (path ++ [k]) l r (depth + 1) maxDepth)
             left (order path (entries right))
  end.

Definition merge (left right : gomap GoVal) (depth maxDepth : Z) : merged :=
  merge_fuel (S (Z.to_nat (maxDepth - depth))) [] left right depth maxDepth.

(** [Report.Merge] and [Desire.Merge] *)
Definition Report_Merge (r reported : gomap GoVal) : merged := merge r reported 1 maxJSONLevel.
Definition Desire_Merge (d desired : gomap GoVal) : merged := merge d desired 1 maxJSONLevel.

End merge.

(** ** What a merge means *)

(** [right] over [left]: keys of [right] win, except that two maps are merged. *)
Fixpoint overlay (lv rv : GoVal) : GoVal :=
  match lv, rv with
  | VMap ml, VMap (Some r) =>
      VMap ((fun l => map_imap (fun k rv =>
               Some (match l !! k with Some lv => overlay lv rv | None => rv end)) r ∪ l)
            <$> ml)
  | VMap ml, VMap None => VMap ml
  | _, _ => rv
  end.

(** The number of levels on which both sides have maps. *)
Fixpoint overlap (lv rv : GoVal) : nat :=
  match lv, rv with
  | VMap (Some l), VMap (Some r) =>
      S (map_fold (fun k rv n =>
           Nat.max (match l !! k with Some lv => overlap lv rv | None => 0 end) n)%nat
         0%nat r)
  | VMap _, VMap _ => 1%nat
  | _, _ => 0%nat
  end.

(** Values whose maps are all non-nil [map[string]interface{}], as JSON
    decoding gives them. *)
Inductive plain : GoVal -> Prop :=
  | plain_leaf v : is_map_kind v = false -> plain v
  | plain_map m : (forall k v, m !! k = Some v -> plain v) -> plain (VMap (Some m)).

Definition overlay_map (l r : gmap string GoVal) : gmap string GoVal :=
  map_imap (fun k rv =>
    Some (match l !! k with Some lv => overlay lv rv | None => rv end)) r ∪ l.

Lemma overlay_maps l r :
  overlay (VMap (Some l)) (VMap (Some r)) = VMap (Some (overlay_map l r)).
Proof. done. Qed.

Lemma lookup_overlay_map l r k :
  overlay_map l r !! k =
  match r !! k with
  | Some rv => Some (match l !! k with Some lv => overlay lv rv | None => rv end)
  | None => l !! k
  end.
Proof.
  unfold overlay_map. destruct (r !! k) as [rv|] eqn:Hr.
  - apply lookup_union_Some_l. by rewrite map_lookup_imap, Hr.
  - apply lookup_union_r. by rewrite map_lookup_imap, Hr.
Qed.

Lemma overlay_map_empty l : overlay_map l ∅ = l.
Proof. apply map_eq. intros k. by rewrite lookup_overlay_map, lookup_empty. Qed.

Lemma overlay_self v : overlay v v = v.
Proof.
  induction v as [v Hs Hm|l IH|m IH] using GoVal_nested_ind; [|done|].
  - destruct v as [| | | | | | | |[m|]| | | | | | |]; try done. by destruct (Hm m).
  - rewrite overlay_maps. do 2 f_equal. apply map_eq. intros k.
    rewrite lookup_overlay_map. destruct (m !! k) eqn:Hk; [|done].
    f_equal. by eapply IH.
Qed.

Lemma overlay_twice rv : forall lv, overlay (overlay lv rv) rv = overlay lv rv.
Proof.
  induction rv as [v Hs Hm|l IH|r IH] using GoVal_nested_ind; intros lv.
  - destruct v as [| | | | | | | |[m|]| | | | | | |], lv; try done; by destruct (Hm m).
  - by destruct lv.
  - destruct lv as [| | | | | | | |[m|]| | | | | | |]; try apply overlay_self; [|done].
    rewrite !overlay_maps. do 2 f_equal. apply map_eq. intros k.
    rewrite !lookup_overlay_map. destruct (r !! k) as [rv|] eqn:Hr; [|done].
    f_equal. destruct (m !! k); [by eapply IH|apply overlay_self].
Qed.

Lemma overlap_maps l r n :
  (overlap (VMap (Some l)) (VMap (Some r)) <= S n)%nat <->
  forall k lv rv, l !! k = Some lv -> r !! k = Some rv -> (overlap lv rv <= n)%nat.
Proof.
  cbn [overlap]. rewrite <- Nat.succ_le_mono.
  revert r. refine (map_fold_weak_ind (fun b r => (b <= n)%nat <->
    forall k lv rv, l !! k = Some lv -> r !! k = Some rv -> (overlap lv rv <= n)%nat)
    _ _ _ _).
  { split; [by intros _ k lv rv _ ?|lia]. }
  intros i x m b Hi IH. rewrite Nat.max_lub_iff, IH. split.
  - intros [Hx Hm] k lv rv Hl [[-> ->]|[? ?]]%lookup_insert_Some; [|eauto].
    by rewrite Hl in Hx.
  - intros H. split.
    + destruct (l !! i) eqn:Hl; [|lia]. eapply H; [done|]. by rewrite lookup_insert_eq.
    + intros k lv rv Hl Hr. eapply H; [done|].
      rewrite lookup_insert_ne by congruence. done.
Qed.

Lemma overlap_maps_pos ml mr : (1 <= overlap (VMap ml) (VMap mr))%nat.
Proof. destruct ml, mr; cbn; lia. Qed.

Lemma plain_lookup m k v : plain (VMap (Some m)) -> m !! k = Some v -> plain v.
Proof. inversion 1; subst; eauto. done. Qed.

Lemma plain_as_map v :
  plain v -> is_map_kind v = true -> exists m, v = VMap (Some m).
Proof. destruct 1; [congruence|eauto]. Qed.

(** *** One entry *)

Lemma overlay_assigns lv rv :
  is_nil lv || is_nil rv || negb (is_map_kind rv) || negb (is_map_kind lv) = true ->
  overlay lv rv = rv.
Proof. destruct lv, rv; done. Qed.

Definition overlay_at (m : gmap string GoVal) (k : string) (rv : GoVal) : GoVal :=
  match m !! k with Some lv => overlay lv rv | None => rv end.

Lemma merge_entry_ok rec m k rv left' :
  (forall l r l', rec l r = (l', Ok tt) -> VMap l' = overlay (VMap l) (VMap r)) ->
  merge_entry rec (Some m) k rv = (left', Ok tt) ->
  left' = Some (<[k := overlay_at m k rv]> m).
Proof.
  intros Hrec. unfold merge_entry, overlay_at. cbn [mget].
  destruct (m !! k) as [lv|]; [|intros [= <-]; done].
  destruct (_ || negb (is_map_kind lv)) eqn:E.
  - intros [= <-]. by rewrite overlay_assigns.
  - destruct lv; try discriminate. destruct rv; try discriminate. cbn [as_map].
    destruct (rec _ _) as [lm' res] eqn:Er. intros [= <- ->].
    by rewrite (Hrec _ _ _ Er).
Qed.

Lemma merge_loop_ok rec es m left' :
  (forall k l r l', rec k l r = (l', Ok tt) -> VMap l' = overlay (VMap l) (VMap r)) ->
  NoDup es.*1 ->
  merge_loop rec (Some m) es = (left', Ok tt) ->
  left' = Some (overlay_map m (list_to_map es)).
Proof.
  intros Hrec. revert m. induction es as [|[k rv] es IH]; intros m Hnd.
  { intros [= <-]. by rewrite overlay_map_empty. }
  cbn in *. apply NoDup_cons in Hnd as [Hk Hnd].
  destruct (merge_entry _ _ _ _) as [l1 [[]| | |]] eqn:E; try discriminate.
  apply merge_entry_ok in E as ->; [|by apply Hrec].
  intros H. rewrite (IH _ Hnd H). f_equal. apply map_eq. intros j.
  rewrite !lookup_overlay_map.
  destruct (decide (j = k)) as [->|Hne].
  - rewrite (not_elem_of_list_to_map_1 _ _ Hk), !lookup_insert_eq. done.
  - by rewrite !lookup_insert_ne by done.
Qed.

Lemma merge_loop_nil rec es left' :
  merge_loop rec None es = (left', Ok tt) -> es = [] /\ left' = None.
Proof. destruct es as [|[k rv] es]; cbn; [by intros [= <-]|discriminate]. Qed.

Section theorems.
Context (order : list string -> gmap string GoVal -> list (string * GoVal)).
Context (Horder : forall p m, order p m ≡ₚ map_to_list m).

Lemma order_NoDup p m : NoDup (order p m).*1.
Proof. rewrite (Horder p m). apply NoDup_fst_map_to_list. Qed.

Lemma order_map p m : list_to_map (order p m) = m.
Proof.
  rewrite <- (list_to_map_to_list m) at 2.
  apply list_to_map_proper; [apply order_NoDup|apply Horder].
Qed.

Lemma order_elem p m k v : (k, v) ∈ order p m <-> m !! k = Some v.
Proof. by rewrite (Horder p m), elem_of_map_to_list. Qed.

Lemma merge_fuel_ok fuel path l r depth maxDepth l' :
  merge_fuel order fuel path l r depth maxDepth = (l', Ok tt) ->
  VMap l' = overlay (VMap l) (VMap r).
Proof.
  revert path l r depth l'. induction fuel as [|fuel IH]; intros path l r depth l'; cbn [merge_fuel]; [done|].
  destruct (maxDepth <=? depth); [done|]. intros H. destruct l as [m|].
  - apply merge_loop_ok in H as ->; [|by eauto|apply order_NoDup].
    rewrite order_map. destruct r as [r|]; cbn [entries default].
    + by rewrite overlay_maps.
    + unfold entries. cbn. by rewrite overlay_map_empty.
  - apply merge_loop_nil in H as [He ->]. by destruct r.
Qed.

(** *** When a merge succeeds *)

Definition level_result (fits : Prop) `{Decision fits} : outcome unit :=
  if decide fits then Ok tt else Err ErrJSONLevelExceedsLimit.

Definition overlap_at (m : gmap string GoVal) (k : string) (rv : GoVal) : nat :=
  match m !! k with Some lv => overlap lv rv | None => 0%nat end.

Lemma overlap_leaf lv rv :
  is_map_kind lv = false \/ is_map_kind rv = false -> overlap lv rv = 0%nat.
Proof.
  intros H. destruct lv as [| | | | | | | |[m|]| | | | | | |], rv as [| | | | | | | |[m'|]| | | | | | |];
    try reflexivity; by destruct H.
Qed.

Lemma merge_entry_total rec m k rv n :
  (forall l r, plain (VMap (Some l)) -> plain (VMap (Some r)) ->
     snd (rec (Some l) (Some r)) =
     level_result (overlap (VMap (Some l)) (VMap (Some r)) <= n)%nat) ->
  (forall lv, m !! k = Some lv -> plain lv) -> plain rv ->
  exists v, merge_entry rec (Some m) k rv =
    (Some (<[k := v]> m), level_result (overlap_at m k rv <= n)%nat).
Proof.
  intros Hrec Hl Hr. unfold merge_entry, overlap_at, level_result. cbn [mget].
  destruct (m !! k) as [lv|] eqn:Hm; [|exists rv; by rewrite decide_True by lia].
  destruct (_ || negb (is_map_kind lv)) eqn:E.
  - exists rv. rewrite overlap_leaf; [by rewrite decide_True by lia|].
    destruct (is_map_kind lv) eqn:?, (is_map_kind rv) eqn:?; auto.
    destruct lv, rv; discriminate.
  - boolify. destruct (plain_as_map lv) as [lm ->]; [eauto|done|].
    destruct (plain_as_map rv) as [rm ->]; [done..|]. cbn [as_map].
    specialize (Hrec lm rm (Hl _ eq_refl) Hr).
    destruct (rec _ _) as [lm' res]. cbn [snd] in Hrec. subst res. eauto.
Qed.

Lemma merge_loop_total rec l n es m :
  (forall k l r, plain (VMap (Some l)) -> plain (VMap (Some r)) ->
     snd (rec k (Some l) (Some r)) =
     level_result (overlap (VMap (Some l)) (VMap (Some r)) <= n)%nat) ->
  plain (VMap (Some l)) -> NoDup es.*1 ->
  (forall k rv, (k, rv) ∈ es -> plain rv /\ m !! k = l !! k) ->
  snd (merge_loop rec (Some m) es) =
  level_result (Forall (fun e => (overlap_at l e.1 e.2 <= n)%nat) es).
Proof.
  intros Hrec Hl. revert m. induction es as [|[k rv] es IH]; intros m Hnd Hes.
  { cbn. unfold level_result. by rewrite decide_True by constructor. }
  cbn in Hnd. apply NoDup_cons in Hnd as [Hk Hnd].
  destruct (Hes k rv) as [Hrv Hm]; [set_solver|]. cbn [merge_loop].
  destruct (merge_entry_total (rec k) m k rv n) as [v ->];
    [by auto|intros lv; rewrite Hm; by apply plain_lookup|done|].
  assert (Hov : overlap_at m k rv = overlap_at l k rv) by (unfold overlap_at; by rewrite Hm).
  unfold level_result at 1. case_decide as Hd; rewrite Hov in Hd.
  - rewrite IH; [|done|].
    + unfold level_result. apply decide_ext. rewrite Forall_cons. tauto.
    + intros j w Hj. destruct (Hes j w) as [? <-]; [set_solver|]. split; [done|].
      apply lookup_insert_ne. intros ->. apply Hk.
      apply list_elem_of_fmap. by exists (j, w).
  - unfold level_result. rewrite decide_False; [done|].
    rewrite Forall_cons. cbn. tauto.
Qed.

Lemma merge_fuel_total b : forall fuel path l r depth maxDepth,
  (b < fuel)%nat -> maxDepth - depth = Z.of_nat b ->
  plain (VMap (Some l)) -> plain (VMap (Some r)) ->
  snd (merge_fuel order fuel path (Some l) (Some r) depth maxDepth) =
  level_result (overlap (VMap (Some l)) (VMap (Some r)) <= b)%nat.
Proof.
  induction b as [|b IH]; intros fuel path l r depth maxDepth Hf Hb Hl Hr;
    (destruct fuel as [|fuel]; [lia|]); cbn [merge_fuel].
  - rewrite (proj2 (Z.leb_le _ _)) by lia. unfold level_result.
    rewrite decide_False; [done|]. pose proof (overlap_maps_pos (Some l) (Some r)). lia.
  - rewrite (proj2 (Z.leb_gt _ _)) by lia.
    rewrite (merge_loop_total _ l b); [|intros; apply IH; (done || lia)|done|apply order_NoDup|].
    + unfold level_result. apply decide_ext. rewrite overlap_maps, Forall_forall. split.
      * intros H k lv rv Hlk Hrk. specialize (H (k, rv)). unfold overlap_at in H. cbn in H.
        rewrite Hlk in H. by apply H, order_elem.
      * intros H [k rv] Hin%order_elem. unfold overlap_at. cbn.
        destruct (l !! k) eqn:?; [eauto|lia].
    + intros k rv Hin%order_elem. split; [by eapply plain_lookup|done].
Qed.

(** C6. Whatever order Go iterates its maps in, a merge that succeeds leaves the
    overlay of the two trees: every value of the reported tree, except that maps
    present on both sides are merged recursively, and everything of the stored
    tree that no reported key covers.  In particular the result does not depend
    on the order. *)
Theorem merge_overlays l r depth maxDepth l' :
  merge order l r depth maxDepth = (l', Ok tt) ->
  VMap l' = overlay (VMap l) (VMap r).
Proof. apply merge_fuel_ok. Qed.

(** C30. Merging JSON trees always returns, and fails exactly when both sides have
    maps on more than four nested levels (the limit [maxJSONLevel] is never
    compared with the depth of the rest of either tree); the only error is
    [ErrJSONLevelExceedsLimit], whatever the iteration order. *)
Theorem report_merge_succeeds l r :
  plain (VMap (Some l)) -> plain (VMap (Some r)) ->
  snd (Report_Merge order (Some l) (Some r)) =
  if (overlap (VMap (Some l)) (VMap (Some r)) <=? 4)%nat then Ok tt
  else Err ErrJSONLevelExceedsLimit.
Proof.
  intros Hl Hr. unfold Report_Merge, merge.
  rewrite (merge_fuel_total 4) by (done || (unfold maxJSONLevel; lia)).
  unfold level_result. case_decide; destruct (Nat.leb_spec (overlap (VMap (Some l)) (VMap (Some r))) 4); done || lia.
Qed.

(** Applying the same desire twice gives the same tree as applying it once,
    whenever both merges succeed. *)
Theorem desire_merge_idempotent d desired d1 d2 :
  Desire_Merge order d desired = (d1, Ok tt) ->
  Desire_Merge order d1 desired = (d2, Ok tt) ->
  d2 = d1.
Proof.
  intros H1%merge_fuel_ok H2%merge_fuel_ok.
  rewrite H1, overlay_twice in H2. congruence.
Qed.

End theorems.

(** ** Clean *)

(** [clean(m)]: entries with nil values are deleted, maps among the others are
    cleaned; other map types are left alone.  The loop only deletes the entry it
    is at, so the iteration order does not matter. *)
Fixpoint clean_value (v : GoVal) : GoVal :=
  match v with
  | VMap (Some m) =>
      VMap (Some (omap (fun w => if is_nil w then None else Some (clean_value w)) m))
  | _ => v
  end.

Definition clean (m : gomap GoVal) : gomap GoVal :=
  match m with
  | Some m => Some (omap (fun w => if is_nil w then None else Some (clean_value w)) m)
  | None => None
  end.

Lemma clean_clean_value m : VMap (clean m) = clean_value (VMap m).
Proof. by destruct m. Qed.

Lemma clean_value_nil v : clean_value v = VNil <-> v = VNil.
Proof. destruct v as [| | | | | | | |[m|]| | | | | | |]; split; (done || by intros [=]). Qed.

Lemma clean_value_path p : forall v w, v <> VNil ->
  at_path (clean_value v) p = Some w <->
  exists v0, at_path v p = Some v0 /\ v0 <> VNil /\ w = clean_value v0.
Proof.
  induction p as [|k p IH]; intros v w Hv.
  - cbn. split; [intros [= <-]; eauto|by intros (v0 & [= <-] & _ & ->)].
  - destruct v as [| | | | | | | |[m|]| | | | | | |]; try (cbn; split; [done|by intros (? & ? & _)]).
    cbn [clean_value at_path]. rewrite lookup_omap.
    destruct (m !! k) as [x|] eqn:Hx; [|cbn; split; [done|by intros (? & ? & _)]].
    cbn. destruct (is_nil x) eqn:En.
    + destruct x; try done. cbn. split; [done|]. intros (v0 & Hp & Hn & _).
      destruct p; cbn in Hp; congruence.
    + cbn. apply IH. by intros ->.
Qed.

(** ** Diff and patch *)

Section json.
(** encoding/json on these trees, and the JSON-patch library. *)
Context (Marshal : gomap GoVal -> outcome string).
Context (Unmarshal : string -> outcome (gomap GoVal)).
Context (CreateMergePatch MergePatch : string -> string -> outcome string).

Definition diff (desired reported : gomap GoVal) (cleanNil : bool) : outcome (gomap GoVal) :=
  r ← Marshal reported;
  d ← Marshal desired;
  patch ← CreateMergePatch r d;
  delta ← Unmarshal patch;
  Ok (if cleanNil then clean delta else delta).

Definition patch (doc delta : gomap GoVal) : outcome (gomap GoVal) :=
  docData ← Marshal doc;
  deltaData ← Marshal delta;
  patchData ← MergePatch docData deltaData;
  Unmarshal patchData.

Definition Desire_Diff (d reported : gomap GoVal) := diff d reported true.
Definition Desire_DiffWithNil (d report : gomap GoVal) := diff d report false.
Definition Desire_Patch (d delta : gomap GoVal) := patch d delta.
Definition Report_Patch (r delta : gomap GoVal) := patch r delta.

(** The delta of a desire holds no nil at any depth; apart from that it is the
    delta with nils: the same paths lead to the same values, each cleaned of the
    nils below it.  Both deltas fail on the same inputs, with the same error. *)
Theorem desire_diff_cleans d reported :
  match Desire_DiffWithNil d reported with
  | Ok full => exists delta, Desire_Diff d reported = Ok delta /\
      forall p v, p <> [] ->
        at_path (VMap delta) p = Some v <->
        exists v0, at_path (VMap full) p = Some v0 /\ v0 <> VNil /\ v = clean_value v0
  | Err e => Desire_Diff d reported = Err e
  | Panic w => Desire_Diff d reported = Panic w
  | NoFuel => Desire_Diff d reported = NoFuel
  end.
Proof.
  unfold Desire_Diff, Desire_DiffWithNil, diff.
  destruct (Marshal reported); cbn; try done.
  destruct (Marshal d); cbn; try done.
  destruct (CreateMergePatch _ _) as [pt| | |]; cbn; try done.
  destruct (Unmarshal pt) as [full| | |]; cbn; try done.
  eexists. split; [done|]. intros p v _. rewrite clean_clean_value.
  by apply clean_value_path.
Qed.

End json.

(** ** Examples *)

Lemma plain_singleton k v : plain v -> plain (VMap (Some {[k := v]})).
Proof. intros Hv. apply plain_map. by intros j w [<- <-]%lookup_singleton_Some. Qed.

Fixpoint nest (n : nat) (v : GoVal) : GoVal :=
  match n with O => v | S n => VMap (Some {["k" := nest n v]}) end.

Lemma plain_nest n v : plain v -> plain (nest n v).
Proof. intros Hv. induction n; [done|]. by apply plain_singleton. Qed.

Definition in_order (_ : list string) (m : gmap string GoVal) := map_to_list m.

Definition nest_map (n : nat) (v : GoVal) : gmap string GoVal := {["k" := nest n v]}.

(** Five common levels are too many, and merging a report of five levels twice
    fails although merging it once into an empty shadow succeeds. *)
Example merge_levels :
  snd (Report_Merge in_order (Some (nest_map 3 (VBool true))) (Some (nest_map 3 (VBool false)))) = Ok tt /\
  snd (Report_Merge in_order (Some (nest_map 4 (VBool true))) (Some (nest_map 4 (VBool false)))) =
    Err ErrJSONLevelExceedsLimit /\
  Report_Merge in_order (Some ∅) (Some (nest_map 4 VNil)) = (Some (nest_map 4 VNil), Ok tt).
Proof. repeat split; vm_compute; reflexivity. Qed.

Lemma merge_overlays_witness :
  VMap (Some (nest_map 1 (VString "new"))) =
  overlay (VMap (Some (nest_map 1 (VString "old")))) (VMap (Some (nest_map 1 (VString "new")))).
Proof.
  apply (merge_overlays in_order (fun _ _ => reflexivity _)
    (Some (nest_map 1 (VString "old"))) (Some (nest_map 1 (VString "new"))) 1 5).
  vm_compute. reflexivity.
Defined.

Lemma report_merge_succeeds_witness :
  snd (Report_Merge in_order (Some (nest_map 4 (VBool true))) (Some (nest_map 4 (VBool false)))) =
  Err ErrJSONLevelExceedsLimit.
Proof.
  rewrite (report_merge_succeeds in_order (fun _ _ => reflexivity _)
    (nest_map 4 (VBool true)) (nest_map 4 (VBool false))
    (plain_nest 5 _ (plain_leaf (VBool true) eq_refl))
    (plain_nest 5 _ (plain_leaf (VBool false) eq_refl))).
  reflexivity.
Defined.

Lemma desire_merge_idempotent_witness :
  Some (nest_map 2 (VBool true)) = Some (nest_map 2 (VBool true)).
Proof.
  apply (desire_merge_idempotent in_order (fun _ _ => reflexivity _)
    (Some (nest_map 1 (VString "x"))) (Some (nest_map 2 (VBool true)))
    (Some (nest_map 2 (VBool true))) (Some (nest_map 2 (VBool true))));
    vm_compute; reflexivity.
Defined.
