(* ===== verification/SpecNode.v ===== *)
(** * spec/v1/node.go: node shadows and their views

    The typed readers and writers of [Report] and [Desire], and [Node.View],
    which normalises the reported statistics of a node.  JSON conversions, the
    Kubernetes quantity parser, mapstructure and the printing of floats are
    parameters. *)

From Stdlib Require Import ZArith Lia String SpecFloat.
From stdpp Require Import base option list strings gmap fin_maps pretty.
From S2P Require Import Prelude GoValue GoStrconv.

Local Open Scope string_scope.
Local Open Scope Z_scope.
Local Open Scope list_scope.

Definition KeyDevices : string := "devices".
Definition KeyApps : string := "apps".
Definition KeySysApps : string := "sysapps".
Definition KeyAppStats : string := "appstats".
Definition KeySysAppStats : string := "sysappstats".
Definition ResourceCPU : string := "cpu".
Definition ResourceMemory : string := "memory".
Definition ResourceGPU : string := "gpu".
Definition ResourceDisk : string := "disk".
Definition RunModeKube : string := "kube".
Definition RunModeNative : string := "native".

Definition NodeUninstall : Z := 0.
Definition NodeOnline : Z := 1.
Definition NodeOffline : Z := 2.

(** [acceleratorMap] and [IsLegalAcceleratorType] *)
Definition acceleratorMap : gmap string bool :=
  list_to_map [("nvidia", true); ("jetson", true); ("ascend", true);
               ("bitmain", true); ("cambricon", true); ("kunlun", true)].

Definition IsLegalAcceleratorType (accelerator : string) : bool :=
  bool_decide (is_Some (acceleratorMap !! accelerator)).

(** ** App and device lists of a shadow

    The loop of [getAppInfos] and [getDeviceInfos] over a decoded JSON list: an
    element that is not a map, or whose name or version is not a string, panics;
    a nil map ends it with nil. *)
Fixpoint infos_loop {A} (mk : string -> string -> A) (res : list A)
    (ais : list GoVal) : outcome (option (list A)) :=
  match ais with
  | [] => Ok (Some res)
  | ai :: ais =>
      aim ← must (as_map ai);
      match aim with
      | None => Ok None
      | Some m =>
          name ← must (m !! "name" ≫= as_string);
          version ← must (m !! "version" ≫= as_string);
          infos_loop mk (res ++ [mk name version]) ais
      end
  end.

Definition getAppInfos (appType : string) (data : gomap GoVal)
    : outcome (option (list AppInfo)) :=
  match mget data appType with
  | None | Some VNil => Ok None
  | Some (VAppInfos res) => Ok res
  | Some (VSlice ais) => infos_loop Build_AppInfo [] ais
  | Some _ => Ok None
  end.

Definition getDeviceInfos (data : gomap GoVal) : outcome (option (list DeviceInfo)) :=
  match mget data KeyDevices with
  | None | Some VNil => Ok None
  | Some (VDeviceInfos res) => Ok res
  | Some (VSlice dis) => infos_loop Build_DeviceInfo [] dis
  | Some _ => Ok None
  end.

Definition Report_DeviceInfos (r : gomap GoVal) := getDeviceInfos r.
Definition Desire_DeviceInfos (d : gomap GoVal) := getDeviceInfos d.
Definition Report_SetDeviceInfos (r : gomap GoVal) devs := mset r KeyDevices (VDeviceInfos devs).
Definition Desire_SetDeviceInfos (d : gomap GoVal) devs := mset d KeyDevices (VDeviceInfos devs).

Definition Report_AppInfos (r : gomap GoVal) (isSys : bool) :=
  if isSys then getAppInfos KeySysApps r else getAppInfos KeyApps r.
Definition Desire_AppInfos (d : gomap GoVal) (isSys : bool) :=
  if isSys then getAppInfos KeySysApps d else getAppInfos KeyApps d.
Definition Report_SetAppInfos (r : gomap GoVal) (isSys : bool) apps :=
  if isSys then mset r KeySysApps (VAppInfos apps) else mset r KeyApps (VAppInfos apps).
Definition Desire_SetAppInfos (d : gomap GoVal) (isSys : bool) apps :=
  if isSys then mset d KeySysApps (VAppInfos apps) else mset d KeyApps (VAppInfos apps).

Definition Report_SetAppStats (r : gomap GoVal) (isSys : bool) stats :=
  if isSys then mset r KeySysAppStats (VAppStats stats) else mset r KeyAppStats (VAppStats stats).
Definition Desire_SetAppStats (d : gomap GoVal) (isSys : bool) stats :=
  if isSys then mset d KeySysAppStats (VAppStats stats) else mset d KeyAppStats (VAppStats stats).

Section appstats.
(** Points in time, and [time.Parse(time.RFC3339, s)]. *)
Context {Time : Type} (ParseRFC3339 : string -> outcome Time).

(** What a hook of mapstructure makes of a value: another value, here a time, or the same. *)
Inductive hooked := Same (data : GoVal) | ATime (t : Time).

(** [timeHookFunc(f, t, data)]: [f] is the kind of the data, [to_time] whether [t] is
    time.Time. A json.Number is of kind string and no string. *)
Definition timeHookFunc (f : option Kind) (to_time : bool) (data : GoVal) : outcome hooked :=
  if negb to_time then Ok (Same data)
  else
    match f with
    | Some KString =>
        match data with
        | VString s => t ← ParseRFC3339 s; Ok (ATime t)
        | _ => Panic "interface conversion: interface {} is not string"
        end
    | _ => Ok (Same data)
    end.

(** mapstructure, by its hook. *)
Context (Decode : (option Kind -> bool -> GoVal -> outcome hooked) -> GoVal ->
  outcome (option (list (AppStats GoVal)))).

Definition getAppStats (statsType : string) (data : gomap GoVal)
    : outcome (option (list (AppStats GoVal))) :=
  match mget data statsType with
  | None | Some VNil => Ok None
  | Some (VAppStats res) => Ok res
  | Some apps => match Decode timeHookFunc apps with Err _ => Ok None | r => r end
  end.

(** The hook panics where a time is wanted on a value of kind string that is no string, and
    on nothing else. *)
Lemma hook_panics to_time data w : (forall s, plain (ParseRFC3339 s)) ->
  timeHookFunc (kind data) to_time data = Panic w ->
  to_time = true /\ kind data = Some KString /\ forall s, data <> VString s.
Proof.
  intros Hp. unfold timeHookFunc. destruct to_time; [|done]. cbn [negb].
  destruct (kind data) as [[]|]; try done. destruct data as [| | | | |s| | | | | | | | | |]; try done.
  specialize (Hp s). by destruct (ParseRFC3339 s).
Qed.

Definition Report_AppStats (r : gomap GoVal) (isSys : bool) :=
  if isSys then getAppStats KeySysAppStats r else getAppStats KeyAppStats r.
Definition Desire_AppStats (d : gomap GoVal) (isSys : bool) :=
  if isSys then getAppStats KeySysAppStats d else getAppStats KeyAppStats d.

(** What a shadow's setters store its getters return, for system and user
    applications separately: setting one kind leaves the other as it was. *)
Theorem app_lists_kept r isSys apps stats r1 r2 :
  Report_SetAppInfos r isSys apps = Ok r1 ->
  Report_SetAppStats r1 isSys stats = Ok r2 ->
  Report_AppInfos r2 isSys = Ok apps /\ Report_AppStats r2 isSys = Ok stats /\
  Report_AppInfos r2 (negb isSys) = Report_AppInfos r (negb isSys) /\
  Report_AppStats r2 (negb isSys) = Report_AppStats r (negb isSys) /\
  Report_DeviceInfos r2 = Report_DeviceInfos r.
Proof.
  unfold Report_SetAppInfos, Report_SetAppStats, Report_AppInfos, Report_AppStats,
    Report_DeviceInfos, getAppInfos, getAppStats, getDeviceInfos.
  destruct isSys, r as [m|]; cbn; try discriminate; intros [= <-]; intros [= <-]; cbn.
  all: by rewrite ?lookup_insert_eq, ?(lookup_insert_ne _ KeySysAppStats),
    ?(lookup_insert_ne _ KeyAppStats), ?lookup_insert_eq, ?(lookup_insert_ne _ KeySysApps),
    ?(lookup_insert_ne _ KeyApps) by done.
Qed.

End appstats.

(** [AppInfo] after a JSON round trip: the struct tags drop empty fields. *)
Definition omitempty (k v : string) (m : gmap string GoVal) : gmap string GoVal :=
  if String.eqb v "" then m else <[k := VString v]> m.

Definition json_AppInfo (a : AppInfo) : GoVal :=
  VMap (Some (omitempty "name" (ai_Name a) (omitempty "version" (ai_Version a) ∅))).

Lemma json_AppInfo_name a :
  (omitempty "name" (ai_Name a) (omitempty "version" (ai_Version a) ∅)) !! "name" =
  if String.eqb (ai_Name a) "" then None else Some (VString (ai_Name a)).
Proof. unfold omitempty. by repeat case_match; simplify_map_eq. Qed.

Lemma json_AppInfo_version a :
  (omitempty "name" (ai_Name a) (omitempty "version" (ai_Version a) ∅)) !! "version" =
  if String.eqb (ai_Version a) "" then None else Some (VString (ai_Version a)).
Proof. unfold omitempty. by repeat case_match; simplify_map_eq. Qed.

Definition complete (a : AppInfo) : bool :=
  negb (String.eqb (ai_Name a) "") && negb (String.eqb (ai_Version a) "").

Lemma infos_loop_json res apps :
  infos_loop Build_AppInfo res (json_AppInfo <$> apps) =
  if forallb complete apps then Ok (Some (res ++ apps)) else Panic conversion_panic.
Proof.
  revert res. induction apps as [|a apps IH]; intros res; cbn.
  { by rewrite app_nil_r. }
  rewrite json_AppInfo_name, json_AppInfo_version. unfold complete at 1.
  destruct (String.eqb (ai_Name a) ""); [done|]. cbn.
  destruct (String.eqb (ai_Version a) ""); [done|]. cbn.
  rewrite IH. destruct a. by rewrite <- app_assoc.
Qed.

(** Reading the application list of a shadow that went through JSON gives the
    list that was stored - if every entry has a name and a version.  Otherwise
    it panics: the encoding drops the empty field, and the reader asserts that
    it is there. *)
Theorem app_infos_json (data : gomap GoVal) (isSys : bool) (apps : list AppInfo) :
  mget data (if isSys then KeySysApps else KeyApps) = Some (VSlice (json_AppInfo <$> apps)) ->
  Report_AppInfos data isSys =
  if forallb complete apps then Ok (Some apps) else Panic conversion_panic.
Proof.
  intros H. unfold Report_AppInfos, getAppInfos.
  destruct isSys; rewrite H; apply infos_loop_json.
Qed.

(** ** The node and its view *)

(** [type Node struct]; labels and annotations are string maps, times are
    nanoseconds. *)
Record Node := {
  n_Namespace : string;
  n_Name : string;
  n_Version : string;
  n_CreationTimestamp : Z;
  n_Accelerator : string;
  n_Mode : string;
  n_NodeMode : string;
  n_Cluster : bool;
  n_Labels : gomap string;
  n_Annotations : gomap string;
  n_Attributes : gomap GoVal;
  n_Report : gomap GoVal;
  n_Desire : gomap GoVal;
  n_SysApps : list string;
  n_Description : string;
  n_Link : string;
  n_CoreId : string }.

(** [type ReportView struct]; [None] in the maps of nodes is a nil pointer. *)
Record ReportView := {
  rv_Time : option Z;
  rv_Apps : list AppInfo;
  rv_SysApps : list AppInfo;
  rv_Core : option CoreInfo;
  rv_AppStats : list (AppStats GoVal);
  rv_SysAppStats : list (AppStats GoVal);
  rv_Node : gomap (option NodeInfo);
  rv_NodeStats : gomap (option (NodeStats GoVal));
  rv_NodeInsNum : gomap Z;
  rv_ModeInfo : string }.

(** [type NodeView struct] *)
Record NodeView := {
  v_Namespace : string;
  v_Name : string;
  v_Version : string;
  v_CreationTimestamp : Z;
  v_Accelerator : string;
  v_Labels : gomap string;
  v_Annotations : gomap string;
  v_Report : option ReportView;
  v_AppMode : string;
  v_Desire : gomap GoVal;
  v_SysApps : list string;
  v_Description : string;
  v_Cluster : bool;
  v_Ready : Z;
  v_Mode : string;
  v_NodeMode : string;
  v_Link : string;
  v_CoreId : string }.

Definition with_report (n : Node) (r : gomap GoVal) : Node :=
  {| n_Namespace := n_Namespace n; n_Name := n_Name n; n_Version := n_Version n;
     n_CreationTimestamp := n_CreationTimestamp n; n_Accelerator := n_Accelerator n;
     n_Mode := n_Mode n; n_NodeMode := n_NodeMode n; n_Cluster := n_Cluster n;
     n_Labels := n_Labels n; n_Annotations := n_Annotations n;
     n_Attributes := n_Attributes n; n_Report := r; n_Desire := n_Desire n;
     n_SysApps := n_SysApps n; n_Description := n_Description n; n_Link := n_Link n;
     n_CoreId := n_CoreId n |}.

(** The fields of a view that [View] computes, set one by one. *)
Definition set_view (v : NodeView) (r : option ReportView) (appMode : string) (ready : Z)
    : NodeView :=
  {| v_Namespace := v_Namespace v; v_Name := v_Name v; v_Version := v_Version v;
     v_CreationTimestamp := v_CreationTimestamp v; v_Accelerator := v_Accelerator v;
     v_Labels := v_Labels v; v_Annotations := v_Annotations v; v_Report := r;
     v_AppMode := appMode; v_Desire := v_Desire v; v_SysApps := v_SysApps v;
     v_Description := v_Description v; v_Cluster := v_Cluster v; v_Ready := ready;
     v_Mode := v_Mode v; v_NodeMode := v_NodeMode v; v_Link := v_Link v;
     v_CoreId := v_CoreId v |}.

Definition set_stats (r : ReportView) (sys apps : list (AppStats GoVal))
    (nodes : gomap (option (NodeStats GoVal))) (ins : gomap Z) : ReportView :=
  {| rv_Time := rv_Time r; rv_Apps := rv_Apps r; rv_SysApps := rv_SysApps r;
     rv_Core := rv_Core r; rv_AppStats := apps; rv_SysAppStats := sys;
     rv_Node := rv_Node r; rv_NodeStats := nodes; rv_NodeInsNum := ins;
     rv_ModeInfo := rv_ModeInfo r |}.

Definition set_resources (s : NodeStats GoVal) (usage capacity percent netio : gomap string)
    : NodeStats GoVal :=
  {| ns_DiskPressure := ns_DiskPressure s; ns_MemoryPressure := ns_MemoryPressure s;
     ns_PIDPressure := ns_PIDPressure s; ns_NetworkUnavailable := ns_NetworkUnavailable s;
     ns_Ready := ns_Ready s; ns_Usage := usage; ns_Capacity := capacity;
     ns_Percent := percent; ns_NetIO := netio; ns_Extension := ns_Extension s |}.

Definition set_status (a : AppStats GoVal) (status : string) : AppStats GoVal :=
  {| as_AppInfo := as_AppInfo a; as_DeployType := as_DeployType a; as_Status := status;
     as_Cause := as_Cause a; as_InstanceStats := as_InstanceStats a |}.
Definition set_instances (a : AppStats GoVal) (m : gomap (InstanceStats GoVal))
    : AppStats GoVal :=
  {| as_AppInfo := as_AppInfo a; as_DeployType := as_DeployType a;
     as_Status := as_Status a; as_Cause := as_Cause a; as_InstanceStats := m |}.
Definition set_usage (i : InstanceStats GoVal) (u : gomap string) : InstanceStats GoVal :=
  {| is_Name := is_Name i; is_ServiceName := is_ServiceName i; is_AppName := is_AppName i;
     is_Usage := u; is_Extension := is_Extension i; is_Status := is_Status i;
     is_Cause := is_Cause i; is_IP := is_IP i; is_NodeName := is_NodeName i;
     is_Pid := is_Pid i; is_PPid := is_PPid i; is_CreateTime := is_CreateTime i;
     is_Containers := is_Containers i; is_InitContainers := is_InitContainers i |}.
Definition set_role (i : NodeInfo) (role : string) : NodeInfo :=
  {| ni_Hostname := ni_Hostname i; ni_Address := ni_Address i; ni_Arch := ni_Arch i;
     ni_KernelVersion := ni_KernelVersion i; ni_OS := ni_OS i;
     ni_ContainerRuntime := ni_ContainerRuntime i; ni_MachineID := ni_MachineID i;
     ni_BootID := ni_BootID i; ni_SystemUUID := ni_SystemUUID i; ni_OSImage := ni_OSImage i;
     ni_Variant := ni_Variant i; ni_HostID := ni_HostID i; ni_Role := role;
     ni_Labels := ni_Labels i; ni_ClientIP := ni_ClientIP i |}.

Definition nil_pointer_panic : string := "nil pointer dereference".

(** float64 of an int64, and division. *)
Definition float_of_int (z : Z) : float64 := binary_normalize 53 1024 z 0 false.
Definition float_div (x y : float64) : float64 := SFdiv 53 1024 x y.
Definition milliPrecision : Z := 1000.

Section view.
(** resource.ParseQuantity with MilliValue and Value; the printing of floats by
    strconv.FormatFloat(x, 'f', -1, 64). *)
Context (ParseQuantity : string -> outcome (Z * Z)).
Context (FormatFloat : float64 -> string).
(** The order in which Go iterates a map. *)
Context (order : forall V, gmap string V -> list (string * V)).

(** [translateQuantityToDecimal(q, milli)] *)
Definition translateQuantityToDecimal (q : string) (milli : bool) : outcome Z :=
  num ← ParseQuantity q;
  Ok (if milli then fst num else snd num).

Definition populateCPUResource (usage : string) (resource : gomap string)
    : outcome (gomap string * Z) :=
  usg ← translateQuantityToDecimal usage true;
  resource' ← mset resource ResourceCPU
    (FormatFloat (float_div (float_of_int usg) (float_of_int milliPrecision)));
  Ok (resource', usg).

Definition populateMemoryResource (usage : string) (resource : gomap string)
    : outcome (gomap string * Z) :=
  usg ← translateQuantityToDecimal usage false;
  resource' ← mset resource ResourceMemory (FormatInt usg);
  Ok (resource', usg).

(** [processResourcePercent(status, resourceType, populate)]: the capacity and
    usage maps it leaves, and the percentage. *)
Definition processResourcePercent (capacity usage : gomap string) (resourceType : string)
    (populate : string -> gomap string -> outcome (gomap string * Z))
    : outcome (gomap string * gomap string * string) :=
  let cap := mget capacity resourceType in
  let usg := mget usage resourceType in
  total ← match cap with Some c => populate c capacity | None => Ok (capacity, 0) end;
  used ← match usg with Some u => populate u usage | None => Ok (usage, 0) end;
  Ok (fst total, fst used,
      if bool_decide (is_Some cap) && bool_decide (is_Some usg) && negb (snd total =? 0)
      then if snd total <=? snd used then "1"
           else FormatFloat (float_div (float_of_int (snd used)) (float_of_int (snd total)))
      else "0").

(** One statistic of an extension: nothing if it is absent, 0 if it is no float. *)
Definition put_stat (stats : gomap GoVal) (key : string) (m : gomap string) (rk : string)
    : outcome (gomap string) :=
  match mget stats key with
  | None => Ok m
  | Some val => mset m rk (FormatFloat (default (S754_zero false) (as_float64 val)))
  end.

Definition populateGPUStats (s : NodeStats GoVal) (extension : GoVal)
    : outcome (NodeStats GoVal) :=
  match as_map extension with
  | None => Ok s
  | Some stats =>
      usage ← put_stat stats "usedMemory" (ns_Usage s) ResourceGPU;
      capacity ← put_stat stats "totalMemory" (ns_Capacity s) ResourceGPU;
      percent ← put_stat stats "percent" (ns_Percent s) ResourceGPU;
      Ok (set_resources s usage capacity percent (ns_NetIO s))
  end.

Definition populateDiskNetStats (s : NodeStats GoVal) (extension : GoVal)
    : outcome (NodeStats GoVal) :=
  let stats := default None (as_map extension) in
  usage ← put_stat stats "diskUsed" (ns_Usage s) ResourceDisk;
  capacity ← put_stat stats "diskTotal" (ns_Capacity s) ResourceDisk;
  percent ← put_stat stats "diskPercent" (ns_Percent s) ResourceDisk;
  io1 ← put_stat stats "netBytesSent" (Some ∅) "netBytesSent";
  io2 ← put_stat stats "netBytesRecv" io1 "netBytesRecv";
  io3 ← put_stat stats "netPacketsRecv" io2 "netPacketsRecv";
  io4 ← put_stat stats "netPacketsSent" io3 "netPacketsSent";
  Ok (set_resources s usage capacity percent io4).

(** The body of the loop of [populateNodeStats]. *)
Definition populate_one (s : NodeStats GoVal) : outcome (NodeStats GoVal) :=
  mem ← processResourcePercent (Some (entries (ns_Capacity s))) (Some (entries (ns_Usage s)))
          ResourceMemory populateMemoryResource;
  let '(capacity, usage, p_mem) := mem in
  percent ← mset (Some (entries (ns_Percent s))) ResourceMemory p_mem;
  cpu ← processResourcePercent capacity usage ResourceCPU populateCPUResource;
  let '(capacity, usage, p_cpu) := cpu in
  percent ← mset percent ResourceCPU p_cpu;
  let s := set_resources s usage capacity percent (ns_NetIO s) in
  if is_nil (ns_Extension s) then Ok s
  else s ← populateGPUStats s (ns_Extension s);
       populateDiskNetStats s (ns_Extension s).

(** The loop over a map whose body may replace the entry it is at. *)
Fixpoint update_entries {V} (f : V -> outcome V) (m : gmap string V)
    (es : list (string * V)) : outcome (gmap string V) :=
  match es with
  | [] => Ok m
  | (k, v) :: es => v' ← f v; update_entries f (<[k := v']> m) es
  end.

Definition update_map {V} (f : V -> outcome V) (m : gomap V) : outcome (gomap V) :=
  match m with
  | None => Ok None
  | Some m => Some <$> update_entries f m (order _ m)
  end.

(** A pointer: nil panics. *)
Definition deref {V} (f : V -> outcome V) (p : option V) : outcome (option V) :=
  match p with None => Panic nil_pointer_panic | Some v => Some <$> f v end.

Definition ready_state (now timeout : Z) (time : option Z) : Z :=
  match time with
  | None => NodeUninstall
  | Some t => if now <? t + timeout then NodeOnline else NodeOffline
  end.

(** [view.populateNodeStats(timeout)] at the time [now] *)
Definition populateNodeStats (now timeout : Z) (view : NodeView) : outcome NodeView :=
  match v_Report view with
  | None => Ok (set_view view None (v_AppMode view) NodeUninstall)
  | Some r =>
      nodes ← update_map (deref populate_one) (rv_NodeStats r);
      Ok (set_view view
            (Some (set_stats r (rv_SysAppStats r) (rv_AppStats r) nodes (rv_NodeInsNum r)))
            (v_AppMode view) (ready_state now timeout (rv_Time r)))
  end.

(** [s.translateResourceQuantity()] *)
Definition translateResourceQuantity (s : InstanceStats GoVal) : outcome (InstanceStats GoVal) :=
  match is_Usage s with
  | None => Ok s
  | Some _ =>
      u1 ← match mget (is_Usage s) ResourceCPU with
           | Some c => fst <$> populateCPUResource c (is_Usage s)
           | None => Ok (is_Usage s)
           end;
      u2 ← match mget u1 ResourceMemory with
           | Some c => fst <$> populateMemoryResource c u1
           | None => Ok u1
           end;
      Ok (set_usage s u2)
  end.

Fixpoint translate_apps (l : list (AppStats GoVal)) : outcome (list (AppStats GoVal)) :=
  match l with
  | [] => Ok []
  | a :: l =>
      m ← update_map translateResourceQuantity (as_InstanceStats a);
      l' ← translate_apps l;
      Ok (set_instances a m :: l')
  end.

(** [view.translateServiceResourceQuantity()] *)
Definition translateServiceResourceQuantity (r : ReportView) : outcome ReportView :=
  sys ← translate_apps (rv_SysAppStats r);
  apps ← translate_apps (rv_AppStats r);
  Ok (set_stats r sys apps (rv_NodeStats r) (rv_NodeInsNum r)).

(** [view.resetNodeAppStats()] *)
Definition resetNodeAppStats (r : ReportView) : ReportView :=
  set_stats r ((fun a => set_status a "") <$> rv_SysAppStats r)
    ((fun a => set_status a "") <$> rv_AppStats r) (rv_NodeStats r) (rv_NodeInsNum r).

(** [view.countInstanceNum()] *)
Definition count_instance (nums : gmap string Z) (e : string * InstanceStats GoVal)
    : gmap string Z :=
  let node := is_NodeName (snd e) in
  match nums !! node with
  | Some n => <[node := n + 1]> nums
  | None => <[node := 1]> nums
  end.

Definition count_app (nums : gmap string Z) (stat : AppStats GoVal) : gmap string Z :=
  foldl count_instance nums (order _ (entries (as_InstanceStats stat))).

Definition countInstanceNum (r : ReportView) : ReportView :=
  let nums := foldl count_app ∅ (rv_AppStats r) in
  let nums := foldl count_app nums (rv_SysAppStats r) in
  set_stats r (rv_SysAppStats r) (rv_AppStats r) (rv_NodeStats r) (Some nums).

(** [view.calculateAppMode()] *)
Fixpoint app_mode_loop (nodes : list (string * option NodeInfo)) : outcome string :=
  match nodes with
  | [] => Ok RunModeKube
  | (_, None) :: _ => Panic nil_pointer_panic
  | (_, Some node) :: nodes =>
      if String.eqb (ni_ContainerRuntime node) "" && String.eqb (ni_MachineID node) ""
      then Ok RunModeNative else app_mode_loop nodes
  end.

Definition calculateAppMode (r : ReportView) : outcome string :=
  app_mode_loop (order _ (entries (rv_Node r))).

(** *** JSON conversions of a node *)

(** json.Marshal, and json.Unmarshal at the types [compatibleSingleNode] uses. *)
Context (Marshal : GoVal -> outcome string).
Context (UnmarshalNodeInfos : string -> outcome unit).
Context (UnmarshalNodeInfo : string -> outcome NodeInfo).
Context (UnmarshalNodeStats : string -> outcome (NodeStats GoVal)).
(** json.Marshal of a node, read back as a view. *)
Context (ToView : Node -> outcome NodeView).

(** [n.compatibleSingleNode()]: a report in the old format for a single node is
    rewritten in place; the report is returned on errors too. *)
Definition compatibleSingleNode (r : gomap GoVal) : gomap GoVal * outcome unit :=
  match mget r "node" with
  | None => (r, Ok tt)
  | Some nodeInfo =>
      match Marshal nodeInfo with
      | Ok nodeInfoStr =>
          match UnmarshalNodeInfos nodeInfoStr with
          | Ok _ => (r, Ok tt)
          | Err _ =>
              match UnmarshalNodeInfo nodeInfoStr with
              | Ok single =>
                  let edgeNodeName := ni_Hostname single in
                  let m := <["node" := VNodeInfos {[edgeNodeName := set_role single "master"]}]>
                             (entries r) in
                  match m !! "nodestats" with
                  | None => (Some m, Ok tt)
                  | Some nodeStats =>
                      match nodeStatsStr ← Marshal nodeStats; UnmarshalNodeStats nodeStatsStr with
                      | Ok stats => (Some (<["nodestats" := VNodeStats {[edgeNodeName := stats]}]> m), Ok tt)
                      | Err e => (Some m, Err e)
                      | Panic w => (Some m, Panic w)
                      | NoFuel => (Some m, NoFuel)
                      end
                  end
              | Err e => (r, Err e)
              | Panic w => (r, Panic w)
              | NoFuel => (r, NoFuel)
              end
          | Panic w => (r, Panic w)
          | NoFuel => (r, NoFuel)
          end
      | Err e => (r, Err e)
      | Panic w => (r, Panic w)
      | NoFuel => (r, NoFuel)
      end
  end.

(** The part of [View] after the JSON conversion. *)
Definition finish_view (now timeout : Z) (view : NodeView) : outcome NodeView :=
  view ← populateNodeStats now timeout view;
  match v_Report view with
  | None => Ok view
  | Some report =>
      report ← translateServiceResourceQuantity report;
      let report := if negb (v_Ready view =? NodeOnline) then resetNodeAppStats report
                    else report in
      let report := countInstanceNum report in
      mode ← calculateAppMode report;
      Ok (set_view view (Some report) mode (v_Ready view))
  end.

(** [n.View(timeout)] at the time [now]: the node, whose report may have been
    rewritten, and the view. *)
Definition View (now timeout : Z) (n : Node) : Node * outcome NodeView :=
  let '(r, res) := compatibleSingleNode (n_Report n) in
  let n := with_report n r in
  (n, res ≫= fun _ => ToView n ≫= finish_view now timeout).

(** *** Counting instances *)









(** *** The application mode *)



(** *** Percentages *)

(** What the percentage of a resource should be, from the reported capacity and
    usage: 0 if one of them is missing or the capacity is zero, at most 1. *)
Definition percentage (milli : bool) (res : string) (s : NodeStats GoVal) : string :=
  match mget (ns_Capacity s) res, mget (ns_Usage s) res with
  | Some c, Some u =>
      match translateQuantityToDecimal c milli, translateQuantityToDecimal u milli with
      | Ok t, Ok w =>
          if t =? 0 then "0" else if t <=? w then "1"
          else FormatFloat (float_div (float_of_int w) (float_of_int t))
      | _, _ => "0"
      end
  | _, _ => "0"
  end.

(** A function that parses a quantity and rewrites the entry [res]. *)
Definition populates (res : string) (milli : bool)
    (populate : string -> gomap string -> outcome (gomap string * Z)) : Prop :=
  forall q m m' z, populate q m = Ok (m', z) ->
    translateQuantityToDecimal q milli = Ok z /\ (forall k, k <> res -> mget m' k = mget m k).

Lemma mset_others {V} (m m' : gomap V) k (v : V) j :
  mset m k v = Ok m' -> j <> k -> mget m' j = mget m j.
Proof. destruct m; [|done]. intros [= <-] ?. cbn. by rewrite lookup_insert_ne. Qed.

Lemma mset_same {V} (m m' : gomap V) k (v : V) :
  mset m k v = Ok m' -> mget m' k = Some v.
Proof. destruct m; [|done]. intros [= <-]. cbn. apply lookup_insert_eq. Qed.

Lemma populateCPU_populates : populates ResourceCPU true populateCPUResource.
Proof.
  intros q m m' z. unfold populateCPUResource. rewrite outcome_bind_ok.
  intros (u & Hu & (m1 & Hm & [= <- <-])%outcome_bind_ok). eauto using mset_others.
Qed.

Lemma populateMemory_populates : populates ResourceMemory false populateMemoryResource.
Proof.
  intros q m m' z. unfold populateMemoryResource. rewrite outcome_bind_ok.
  intros (u & Hu & (m1 & Hm & [= <- <-])%outcome_bind_ok). eauto using mset_others.
Qed.

Lemma processResourcePercent_ok res milli populate s cap usg cap' usg' p :
  populates res milli populate ->
  mget cap res = mget (ns_Capacity s) res -> mget usg res = mget (ns_Usage s) res ->
  processResourcePercent cap usg res populate = Ok (cap', usg', p) ->
  p = percentage milli res s /\
  (forall k, k <> res -> mget cap' k = mget cap k /\ mget usg' k = mget usg k).
Proof.
  intros Hp Hc Hu. unfold processResourcePercent, percentage. rewrite Hc, Hu.
  rewrite outcome_bind_ok. intros ([c1 t] & Ht & ([u1 w] & Hw & [= <- <- <-])%outcome_bind_ok).
  destruct (mget (ns_Capacity s) res) as [c|]; [apply Hp in Ht as [Ht Hc1]|injection Ht as <- <-];
  (destruct (mget (ns_Usage s) res) as [u|]; [apply Hp in Hw as [Hw Hu1]|injection Hw as <- <-]);
    cbn; (split; [|by auto]); try done.
  rewrite Ht, Hw. by destruct (t =? 0).
Qed.

Lemma put_stat_others stats key m rk m' k :
  put_stat stats key m rk = Ok m' -> k <> rk -> mget m' k = mget m k.
Proof. unfold put_stat. destruct (mget stats key); [apply mset_others|by intros [= <-]]. Qed.

Lemma populateGPU_others s e s' k :
  populateGPUStats s e = Ok s' -> k <> ResourceGPU -> mget (ns_Percent s') k = mget (ns_Percent s) k.
Proof.
  unfold populateGPUStats. destruct (as_map e); [|by intros [= <-]]. intros H Hk.
  apply outcome_bind_ok in H as (? & _ & H). apply outcome_bind_ok in H as (? & _ & H).
  apply outcome_bind_ok in H as (? & Hp & [= <-]). cbn. by eapply put_stat_others.
Qed.

Lemma populateDisk_others s e s' k :
  populateDiskNetStats s e = Ok s' -> k <> ResourceDisk ->
  mget (ns_Percent s') k = mget (ns_Percent s) k.
Proof.
  unfold populateDiskNetStats. intros H Hk.
  apply outcome_bind_ok in H as (? & _ & H). apply outcome_bind_ok in H as (? & _ & H).
  apply outcome_bind_ok in H as (? & Hp & H).
  repeat (apply outcome_bind_ok in H as (? & _ & H)). injection H as <-. cbn.
  by eapply put_stat_others.
Qed.

(** After [populateNodeStats] a node has a memory and a CPU percentage, each
    computed from the capacity and the usage that were reported for that
    resource, whatever its extension contains. *)
Theorem populate_percentages s s' :
  populate_one s = Ok s' ->
  mget (ns_Percent s') ResourceMemory = Some (percentage false ResourceMemory s) /\
  mget (ns_Percent s') ResourceCPU = Some (percentage true ResourceCPU s).
Proof.
  unfold populate_one. rewrite outcome_bind_ok. intros ([[c1 u1] pm] & Hm & H).
  apply outcome_bind_ok in H as (p1 & Hp1 & H).
  apply outcome_bind_ok in H as ([[c2 u2] pc] & Hc & H).
  apply outcome_bind_ok in H as (p2 & Hp2 & H).
  eapply (processResourcePercent_ok _ _ _ s) in Hm as [Epm Hk];
    [|apply populateMemory_populates|by rewrite (mget_entries (ns_Capacity s))..|];
    [|by rewrite (mget_entries (ns_Usage s))].
  eapply (processResourcePercent_ok _ _ _ s) in Hc as [Epc _];
    [|apply populateCPU_populates|..].
  2: { rewrite (proj1 (Hk ResourceCPU ltac:(done))). by rewrite (mget_entries (ns_Capacity s)). }
  2: { rewrite (proj2 (Hk ResourceCPU ltac:(done))). by rewrite (mget_entries (ns_Usage s)). }
  subst pm pc.
  assert (Hmem : mget p2 ResourceMemory = Some (percentage false ResourceMemory s)).
  { rewrite (mset_others _ _ _ _ _ Hp2) by done. eapply mset_same, Hp1. }
  apply mset_same in Hp2. destruct (is_nil _); [by injection H as <-|].
  apply outcome_bind_ok in H as (s1 & H1 & H2). split.
  - rewrite (populateDisk_others _ _ _ _ H2), (populateGPU_others _ _ _ _ H1) by done. done.
  - rewrite (populateDisk_others _ _ _ _ H2), (populateGPU_others _ _ _ _ H1) by done. done.
Qed.

(** *** What [View] keeps of a report *)

(** Go iterates every entry of a map once. *)
Context (order_law : forall V (m : gmap string V), order V m ≡ₚ map_to_list m).


















(** *** The view *)

End view.

(** ** Examples *)

(** A few quantities as Kubernetes reads them (milli-value and value); floats are
    printed by their IEEE fields, which is enough to tell them apart. *)
Definition quantities (q : string) : outcome (Z * Z) :=
  if String.eqb q "512Mi" then Ok (536870912000, 536870912)
  else if String.eqb q "1Gi" then Ok (1073741824000, 1073741824)
  else if String.eqb q "500m" then Ok (500, 1)
  else if String.eqb q "2" then Ok (2000, 2)
  else Err "quantities must match the regular expression".

Definition show_float (f : float64) : string :=
  match f with
  | S754_finite s m e => (if s then "-" else "") +:+ pretty (Zpos m) +:+ "p" +:+ pretty e
  | S754_zero _ => "0"
  | S754_infinity _ => "inf"
  | S754_nan => "nan"
  end.

Definition some_order (V : Type) (m : gmap string V) : list (string * V) := map_to_list m.

Definition stats1 : NodeStats GoVal :=
  {| ns_DiskPressure := false; ns_MemoryPressure := false; ns_PIDPressure := false;
     ns_NetworkUnavailable := false; ns_Ready := true;
     ns_Usage := Some {["memory" := "512Mi"; "cpu" := "500m"]};
     ns_Capacity := Some {["memory" := "1Gi"; "cpu" := "2"]};
     ns_Percent := None; ns_NetIO := None; ns_Extension := VNil |}.

Definition instance1 (node : string) : InstanceStats GoVal :=
  {| is_Name := "i"; is_ServiceName := ""; is_AppName := "a"; is_Usage := None;
     is_Extension := VNil; is_Status := "Running"; is_Cause := ""; is_IP := "";
     is_NodeName := node; is_Pid := 1; is_PPid := 0; is_CreateTime := 0;
     is_Containers := []; is_InitContainers := [] |}.

Definition app1 : AppStats GoVal :=
  {| as_AppInfo := {| ai_Name := "a"; ai_Version := "1" |}; as_DeployType := "";
     as_Status := "Running"; as_Cause := "";
     as_InstanceStats := Some {["x" := instance1 "n1"; "y" := instance1 "n1"]} |}.

Definition report1 : ReportView :=
  {| rv_Time := Some 1000; rv_Apps := []; rv_SysApps := []; rv_Core := None;
     rv_AppStats := [app1]; rv_SysAppStats := [app1]; rv_Node := None;
     rv_NodeStats := Some {["n1" := Some stats1]}; rv_NodeInsNum := None; rv_ModeInfo := "" |}.

Definition view1 : NodeView :=
  {| v_Namespace := "default"; v_Name := "n"; v_Version := "1"; v_CreationTimestamp := 0;
     v_Accelerator := ""; v_Labels := None; v_Annotations := None; v_Report := Some report1;
     v_AppMode := ""; v_Desire := None; v_SysApps := []; v_Description := "";
     v_Cluster := false; v_Ready := 0; v_Mode := "cloud"; v_NodeMode := "kube";
     v_Link := ""; v_CoreId := "" |}.

Example count_two_apps :
  match finish_view quantities show_float some_order 5000 100 view1 with
  | Ok v => v_Ready v = NodeOffline /\
      match v_Report v with
      | Some r => rv_NodeInsNum r = Some {["n1" := 4]} /\ as_Status <$> rv_AppStats r = [""]
      | None => False
      end
  | _ => False
  end.
Proof. vm_compute. auto. Qed.



Definition populated1 : NodeStats GoVal :=
  match populate_one quantities show_float stats1 with Ok s => s | _ => stats1 end.

Lemma populate_percentages_witness :
  mget (ns_Percent populated1) "memory" = Some "4503599627370496p-53" /\
  mget (ns_Percent populated1) "cpu" = Some "4503599627370496p-54".
Proof.
  apply (populate_percentages quantities show_float stats1 populated1).
  vm_compute. reflexivity.
Defined.

Definition shadow1 : gmap string GoVal := {[KeyApps := VAppInfos (Some [Build_AppInfo "u" "3"])]}.
Definition shadow2 : gmap string GoVal :=
  <[KeySysAppStats := VAppStats None]>
    (<[KeySysApps := VAppInfos (Some [Build_AppInfo "a" "1"])]> shadow1).

Definition no_RFC3339 (_ : string) : outcome unit := Err "no time".

(** A number in the place of the time of an application. *)
Example number_for_time : exists w, timeHookFunc no_RFC3339 (kind (VNumber "1")) true (VNumber "1") = Panic w.
Proof. by eexists. Qed.

Lemma app_lists_kept_witness :
  Report_AppInfos (Some shadow2) true = Ok (Some [Build_AppInfo "a" "1"]) /\
  Report_AppStats no_RFC3339 (fun _ _ => Ok None) (Some shadow2) true = Ok None /\
  Report_AppInfos (Some shadow2) false = Report_AppInfos (Some shadow1) false /\
  Report_AppStats no_RFC3339 (fun _ _ => Ok None) (Some shadow2) false =
    Report_AppStats no_RFC3339 (fun _ _ => Ok None) (Some shadow1) false /\
  Report_DeviceInfos (Some shadow2) = Report_DeviceInfos (Some shadow1).
Proof.
  apply (app_lists_kept no_RFC3339 (fun _ _ => Ok None) (Some shadow1) true
    (Some [Build_AppInfo "a" "1"]) None
    (Some (<[KeySysApps := VAppInfos (Some [Build_AppInfo "a" "1"])]> shadow1)));
    reflexivity.
Defined.

Lemma app_infos_json_witness :
  Report_AppInfos (Some {[KeyApps := VSlice (json_AppInfo <$> [Build_AppInfo "a" "1"; Build_AppInfo "b" ""])]})
    false = Panic conversion_panic.
Proof.
  apply (app_infos_json
    (Some {[KeyApps := VSlice (json_AppInfo <$> [Build_AppInfo "a" "1"; Build_AppInfo "b" ""])]})
    false [Build_AppInfo "a" "1"; Build_AppInfo "b" ""]).
  reflexivity.
Defined.
