(* ===== verification/GoEqual.v ===== *)
(** * reflect.DeepEqual

    Deep equality, type by type, on objects that are not shared: a pointer or a
    map is compared by what it holds.  Nil and empty slices or maps differ; a NaN
    is not equal to itself. *)

From Stdlib Require Import ZArith Lia String SpecFloat.
From stdpp Require Import base option list strings gmap fin_maps.
From S2P Require Import Prelude GoValue.

Local Open Scope Z_scope.
Local Open Scope list_scope.

(** A slice; [None] is nil. *)
Abbreviation goslice T := (option (list T)).

Class DeepEqual (A : Type) := deep_equal : A -> A -> bool.

#[export] Instance string_DeepEqual : DeepEqual string := String.eqb.
#[export] Instance bool_DeepEqual : DeepEqual bool := Bool.eqb.
#[export] Instance Z_DeepEqual : DeepEqual Z := Z.eqb.
#[export] Instance float_DeepEqual : DeepEqual spec_float := SFeqb.

Section lists.
Context {A : Type}.

Fixpoint list_deep (eq : A -> A -> bool) (l k : list A) : bool :=
  match l, k with
  | [], [] => true
  | x :: l, y :: k => eq x y && list_deep eq l k
  | _, _ => false
  end.

Definition option_deep (eq : A -> A -> bool) (x y : option A) : bool :=
  match x, y with
  | None, None => true
  | Some x, Some y => eq x y
  | _, _ => false
  end.

Definition map_deep (eq : A -> A -> bool) (m n : gmap string A) : bool :=
  (size m =? size n)%nat &&
  map_fold (fun k v r => r && match n !! k with Some w => eq v w | None => false end) true m.

Lemma list_deep_length eq l k : list_deep eq l k = true -> length l = length k.
Proof.
  revert k. induction l as [|x l IH]; intros [|y k]; cbn; try done.
  intros [_ H]%andb_true_iff. by rewrite (IH _ H).
Qed.

Lemma map_deep_size eq m n : map_deep eq m n = true -> size m = size n.
Proof. by intros [?%Nat.eqb_eq _]%andb_true_iff. Qed.
End lists.

#[export] Instance list_DeepEqual `{DeepEqual A} : DeepEqual (list A) := list_deep deep_equal.
#[export] Instance option_DeepEqual `{DeepEqual A} : DeepEqual (option A) := option_deep deep_equal.
#[export] Instance map_DeepEqual `{DeepEqual A} : DeepEqual (gmap string A) := map_deep deep_equal.

(** len of a slice or of a map. *)
Definition slice_len {A} (l : goslice A) : Z := Z.of_nat (length (default [] l)).
Definition map_len {A} (m : gomap A) : Z := Z.of_nat (size (entries m)).

(** The length tests that guard a comparison are implied by it. *)
Lemma slice_deep_len `{DeepEqual A} (l k : goslice A) :
  deep_equal l k = true -> slice_len l = slice_len k.
Proof.
  destruct l, k; try done. intros Hl%list_deep_length. unfold slice_len. cbn. by rewrite Hl.
Qed.

Lemma map_deep_len `{DeepEqual A} (m n : gomap A) :
  deep_equal m n = true -> map_len m = map_len n.
Proof.
  destruct m, n; try done. intros Hm%map_deep_size. unfold map_len. cbn. by rewrite Hm.
Qed.

(** ** The report records *)

#[export] Instance AppInfo_DeepEqual : DeepEqual AppInfo := fun a b =>
  deep_equal (ai_Name a) (ai_Name b) && deep_equal (ai_Version a) (ai_Version b).
#[export] Instance DeviceInfo_DeepEqual : DeepEqual DeviceInfo := fun a b =>
  deep_equal (di_Name a) (di_Name b) && deep_equal (di_Version a) (di_Version b).
#[export] Instance ContainerInfo_DeepEqual : DeepEqual ContainerInfo := fun a b =>
  deep_equal (ct_Name a) (ct_Name b) && deep_equal (ct_Usage a) (ct_Usage b) &&
  deep_equal (ct_State a) (ct_State b) && deep_equal (ct_Reason a) (ct_Reason b).
#[export] Instance NodeInfo_DeepEqual : DeepEqual NodeInfo := fun a b =>
  deep_equal (ni_Hostname a) (ni_Hostname b) && deep_equal (ni_Address a) (ni_Address b) &&
  deep_equal (ni_Arch a) (ni_Arch b) && deep_equal (ni_KernelVersion a) (ni_KernelVersion b) &&
  deep_equal (ni_OS a) (ni_OS b) && deep_equal (ni_ContainerRuntime a) (ni_ContainerRuntime b) &&
  deep_equal (ni_MachineID a) (ni_MachineID b) && deep_equal (ni_BootID a) (ni_BootID b) &&
  deep_equal (ni_SystemUUID a) (ni_SystemUUID b) && deep_equal (ni_OSImage a) (ni_OSImage b) &&
  deep_equal (ni_Variant a) (ni_Variant b) && deep_equal (ni_HostID a) (ni_HostID b) &&
  deep_equal (ni_Role a) (ni_Role b) && deep_equal (ni_Labels a) (ni_Labels b) &&
  deep_equal (ni_ClientIP a) (ni_ClientIP b).

Section nested.
Context {V : Type} (eq : V -> V -> bool).

Definition instance_deep (a b : InstanceStats V) : bool :=
  eq (is_Extension a) (is_Extension b) &&
  deep_equal (is_Name a) (is_Name b) && deep_equal (is_ServiceName a) (is_ServiceName b) &&
  deep_equal (is_AppName a) (is_AppName b) && deep_equal (is_Usage a) (is_Usage b) &&
  deep_equal (is_Status a) (is_Status b) && deep_equal (is_Cause a) (is_Cause b) &&
  deep_equal (is_IP a) (is_IP b) && deep_equal (is_NodeName a) (is_NodeName b) &&
  deep_equal (is_Pid a) (is_Pid b) && deep_equal (is_PPid a) (is_PPid b) &&
  deep_equal (is_CreateTime a) (is_CreateTime b) &&
  deep_equal (is_Containers a) (is_Containers b) &&
  deep_equal (is_InitContainers a) (is_InitContainers b).

Definition appstats_deep (a b : AppStats V) : bool :=
  option_deep (map_deep instance_deep) (as_InstanceStats a) (as_InstanceStats b) &&
  deep_equal (as_AppInfo a) (as_AppInfo b) && deep_equal (as_DeployType a) (as_DeployType b) &&
  deep_equal (as_Status a) (as_Status b) && deep_equal (as_Cause a) (as_Cause b).

Definition nodestats_deep (a b : NodeStats V) : bool :=
  eq (ns_Extension a) (ns_Extension b) &&
  deep_equal (ns_DiskPressure a) (ns_DiskPressure b) &&
  deep_equal (ns_MemoryPressure a) (ns_MemoryPressure b) &&
  deep_equal (ns_PIDPressure a) (ns_PIDPressure b) &&
  deep_equal (ns_NetworkUnavailable a) (ns_NetworkUnavailable b) &&
  deep_equal (ns_Ready a) (ns_Ready b) && deep_equal (ns_Usage a) (ns_Usage b) &&
  deep_equal (ns_Capacity a) (ns_Capacity b) && deep_equal (ns_Percent a) (ns_Percent b) &&
  deep_equal (ns_NetIO a) (ns_NetIO b).
End nested.

(** ** Dynamic values: the same dynamic type, and equal contents *)

Fixpoint GoVal_deep (v w : GoVal) : bool :=
  match v, w with
  | VNil, VNil => true
  | VBool a, VBool b => Bool.eqb a b
  | VInt k a, VInt j b => bool_decide (k = j) && (a =? b)
  | VFloat32 a, VFloat32 b => SFeqb a b
  | VFloat64 a, VFloat64 b => SFeqb a b
  | VString a, VString b => String.eqb a b
  | VNumber a, VNumber b => String.eqb a b
  | VSlice l, VSlice k => list_deep GoVal_deep l k
  | VMap m, VMap n => option_deep (map_deep GoVal_deep) m n
  | VStringMap m, VStringMap n => deep_equal m n
  | VAppInfos l, VAppInfos k => deep_equal l k
  | VDeviceInfos l, VDeviceInfos k => deep_equal l k
  | VAppStats l, VAppStats k => option_deep (list_deep (appstats_deep GoVal_deep)) l k
  | VNodeInfos m, VNodeInfos n => deep_equal m n
  | VNodeStats m, VNodeStats n => map_deep (nodestats_deep GoVal_deep) m n
  | _, _ => false
  end.

#[export] Instance GoVal_DeepEqual : DeepEqual GoVal := GoVal_deep.
