(* ===== verification/SpecApp.v ===== *)
(** * spec/v1: applications, configurations and secrets

    The resources a node is asked to run, field by field (spec/v1/application.go,
    ota.go, configuration.go, secret.go): the data that SpecMessage.v unpacks from
    a synchronisation response. *)

From Stdlib Require Import ZArith String.
From stdpp Require Import base option list strings gmap.
From S2P Require Import Prelude GoValue GoEqual.

Local Open Scope string_scope.
Local Open Scope Z_scope.

Record IntOrString := {
  ios_Type : Z;
  ios_IntVal : Z;
  ios_StrVal : string }.

Record HTTPHeader := {
  hh_Name : string;
  hh_Value : string }.

Record HTTPGetAction := {
  hga_Path : string;
  hga_Port : IntOrString;
  hga_Host : string;
  hga_Scheme : string;
  hga_HTTPHeaders : goslice HTTPHeader }.

Record ExecAction := {
  xa_Command : goslice string }.

Record TCPSocketAction := {
  tsa_Port : IntOrString;
  tsa_Host : string }.

Record ProbeHandler := {
  ph_HTTPGet : option HTTPGetAction;
  ph_Exec : option ExecAction;
  ph_TCPSocket : option TCPSocketAction }.

Record Probe := {
  pb_ProbeHandler : ProbeHandler;
  pb_InitialDelaySeconds : Z;
  pb_TimeoutSeconds : Z;
  pb_PeriodSeconds : Z;
  pb_SuccessThreshold : Z;
  pb_FailureThreshold : Z }.

Record SecurityContext := {
  sctx_Privileged : bool }.

Record Environment := {
  env_Name : string;
  env_Value : string }.

Record Device := {
  vd_DevicePath : string;
  vd_Policy : string;
  vd_Description : string }.

Record ContainerPort := {
  cp_HostPort : Z;
  cp_ContainerPort : Z;
  cp_Protocol : string;
  cp_HostIP : string;
  cp_ServiceType : string;
  cp_NodePort : Z }.

Record EmptyDirVolumeSource := {
  ed_Medium : string;
  ed_SizeLimit : string }.

Record HostPathVolumeSource := {
  hp_Path : string;
  hp_Type : string }.

Record ObjectReference := {
  ref_Name : string;
  ref_Version : string }.
#[export] Instance ObjectReference_DeepEqual : DeepEqual ObjectReference := fun a b =>
  deep_equal (ref_Name a) (ref_Name b) &&
  deep_equal (ref_Version a) (ref_Version b).

Record VolumeSource := {
  vs_HostPath : option HostPathVolumeSource;
  vs_Config : option ObjectReference;
  vs_Secret : option ObjectReference;
  vs_EmptyDir : option EmptyDirVolumeSource }.

Record Volume := {
  vol_Name : string;
  vol_VolumeSource : VolumeSource }.

Record VolumeMount := {
  vm_Name : string;
  vm_MountPath : string;
  vm_SubPath : string;
  vm_ReadOnly : bool;
  vm_Immutable : bool;
  vm_AutoClean : bool }.

Record Resources := {
  res_Limits : gomap string;
  res_Requests : gomap string }.

Record ServiceFunctionConfig := {
  sfc_Name : string;
  sfc_Runtime : string }.

Record ServiceFunction := {
  sf_Name : string;
  sf_Handler : string;
  sf_CodeDir : string }.

Record ServiceJobConfig := {
  sjc_Completions : Z;
  sjc_Parallelism : Z;
  sjc_BackoffLimit : Z;
  sjc_RestartPolicy : string }.

Record AppJobConfig := {
  ajc_Completions : Z;
  ajc_Parallelism : Z;
  ajc_BackoffLimit : Z;
  ajc_RestartPolicy : string }.

Record ResourceMetric := {
  rm_Name : string;
  rm_TargetType : string;
  rm_Value : string;
  rm_AverageValue : string;
  rm_AverageUtilization : Z }.

Record MetricSpec := {
  ms_Type : string;
  ms_Resource : option ResourceMetric }.

Record AutoScaleCfg := {
  asc_MinReplicas : Z;
  asc_MaxReplicas : Z;
  asc_Metrics : goslice MetricSpec }.

Record ApkInfo := {
  apk_Key : string;
  apk_Url : string;
  apk_Md5 : string;
  apk_Sha1 : string;
  apk_PackName : string;
  apk_Size : Z;
  apk_VersionCode : Z;
  apk_Version : string }.

Record OtaDeviceGroup := {
  odg_AddTestDeviceGroupName : string;
  odg_AddTestDeviceGroupId : Z;
  odg_AddTestDeviceGroupKey : string;
  odg_AddDeviceGroupName : string;
  odg_AddDeviceGroupId : Z;
  odg_AddDeviceGroupKey : string;
  odg_DelTestDeviceGroupName : string;
  odg_DelTestDeviceGroupId : Z;
  odg_DelTestDeviceGroupKey : string;
  odg_DelDeviceGroupName : string;
  odg_DelDeviceGroupId : Z;
  odg_DelDeviceGroupKey : string }.

Record OtaTask := {
  otk_AddTaskName : string;
  otk_AddTaskId : Z;
  otk_DelTaskName : string;
  otk_DelTaskId : Z }.

Record OtaInfo := {
  ota_ApkInfo : option ApkInfo;
  ota_DeviceGroup : option OtaDeviceGroup;
  ota_Task : option OtaTask }.

Record Service := {
  svc_Name : string;
  svc_Hostname : string;
  svc_Image : string;
  svc_VolumeMounts : goslice VolumeMount;
  svc_Ports : goslice ContainerPort;
  svc_Devices : goslice Device;
  svc_Args : goslice string;
  svc_Command : goslice string;
  svc_WorkingDir : string;
  svc_Env : goslice Environment;
  svc_Resources : option Resources;
  svc_Runtime : string;
  svc_SecurityContext : option SecurityContext;
  svc_FunctionConfig : option ServiceFunctionConfig;
  svc_Functions : goslice ServiceFunction;
  svc_Labels : gomap string;
  svc_HostNetwork : bool;
  svc_Replica : Z;
  svc_JobConfig : option ServiceJobConfig;
  svc_Type : string;
  svc_LivenessProbe : option Probe }.

Record Application := {
  app_Name : string;
  app_Type : string;
  app_Mode : string;
  app_Labels : gomap string;
  app_Namespace : string;
  app_CreationTimestamp : Z;
  app_Version : string;
  app_Selector : string;
  app_NodeSelector : string;
  app_Description : string;
  app_System : bool;
  app_CronStatus : Z;
  app_UpdateTime : Z;
  app_CronTime : Z;
  app_Replica : Z;
  app_Workload : string;
  app_JobConfig : option AppJobConfig;
  app_Ota : OtaInfo;
  app_AutoScaleCfg : option AutoScaleCfg;
  app_InitServices : goslice Service;
  app_Services : goslice Service;
  app_Volumes : goslice Volume;
  app_HostNetwork : bool;
  app_DNSPolicy : string }.

Record Configuration := {
  cf_Name : string;
  cf_Namespace : string;
  cf_Labels : gomap string;
  cf_Data : gomap string;
  cf_CreationTimestamp : Z;
  cf_UpdateTimestamp : Z;
  cf_Description : string;
  cf_Version : string;
  cf_System : bool }.

Record ConfigurationObject := {
  co_MD5 : string;
  co_Sha256 : string;
  co_URL : string;
  co_Token : string;
  co_Unpack : string;
  co_Metadata : gomap string }.

Record Secret := {
  sec_Name : string;
  sec_Namespace : string;
  sec_Labels : gomap string;
  sec_Annotations : gomap string;
  sec_Data : gomap ((list byte));
  sec_CreationTimestamp : Z;
  sec_UpdateTimestamp : Z;
  sec_Description : string;
  sec_Version : string;
  sec_System : bool }.

