(* ===== verification/SpecMessage.v ===== *)
(** * spec/v1: messages and lazily decoded values

    [LazyValue] (lazy_value.go) holds either a value or the JSON document it came
    from, and decodes on demand; [Message] (message.go) and [ResourceValue]
    (sync_desire.go) carry one. *)

From Stdlib Require Import ZArith String.
From stdpp Require Import base option list strings gmap.
From S2P Require Import Prelude GoValue SpecApp.

Local Open Scope string_scope.
Local Open Scope list_scope.

(** ** LazyValue *)

(** [V] is the type of values held; [None] is a nil interface or document. *)
Record LazyValue (V : Type) := { Value : option V; doc : option string }.
Arguments Value {V}. Arguments doc {V}. Arguments Build_LazyValue {V}.

Section lazy.
Context {V : Type}.
(** json.Marshal of a value, and of nil. *)
Context (Marshal : option V -> outcome string).

Definition UnmarshalJSON (v : LazyValue V) (b : string) : LazyValue V * outcome unit :=
  ({| Value := Value v; doc := Some b |}, Ok tt).

Definition SetJSON (v : LazyValue V) (d : option string) : LazyValue V :=
  {| Value := Value v; doc := d |}.

Definition GetJSON (v : LazyValue V) : option string := doc v.

Definition MarshalJSON (v : LazyValue V) : outcome string :=
  match doc v with
  | Some d => Ok d
  | None => Marshal (Value v)
  end.

(** Decoding into an object of type [T]: json.Unmarshal, or a decoder with
    UseNumber, which may leave the object changed when they fail. *)
Section decode.
Context {T : Type} (Decode : string -> T -> T * outcome unit).

Definition decode_lazy (v : LazyValue V) (obj : T) : T * outcome unit :=
  match doc v with
  | Some d => Decode d obj
  | None =>
      match Value v with
      | Some x =>
          match Marshal (Some x) with
          | Ok bs => Decode bs obj
          | Err e => (obj, Err e)
          | Panic w => (obj, Panic w)
          | NoFuel => (obj, NoFuel)
          end
      | None => (obj, Ok tt)
      end
  end.

(** [v.Unmarshal(obj)] decodes with json.Unmarshal, [v.ExactUnmarshal(obj)] with
    a decoder that keeps numbers as text. *)
Definition Unmarshal := decode_lazy.
Definition ExactUnmarshal := decode_lazy.

(** Sending a lazy value through JSON does not change what it decodes to: the
    receiver of its encoding decodes to the same object and outcome as the
    sender would have, and passes the document on byte for byte. *)
Theorem lazy_value_transparent v v0 b obj :
  (doc v <> None \/ Value v <> None) ->
  MarshalJSON v = Ok b ->
  let received := fst (UnmarshalJSON v0 b) in
  Unmarshal received obj = Unmarshal v obj /\ MarshalJSON received = Ok b.
Proof.
  intros Hv Hm. split; [|done].
  unfold MarshalJSON, UnmarshalJSON, Unmarshal, decode_lazy in *. cbn.
  destruct (doc v) as [d|]; [congruence|].
  destruct (Value v) as [x|]; [|by destruct Hv]. by rewrite Hm.
Qed.
End decode.
End lazy.

(** ** Messages *)

Definition MessageDeviceEvent : string := "deviceEvent".
Definition MessageDeviceReport : string := "deviceReport".
Definition MessageDeviceDelta : string := "deviceDelta".
Definition MessageResponse : string := "response".
Definition MessageDevicePropertyGet : string := "thing.property.get".
Definition MessageDeviceEventReport : string := "thing.event.post".
Definition MessageDeviceLifecycleReport : string := "thing.lifecycle.post".

Record Message (V : Type) := {
  msg_Kind : string;
  msg_Metadata : gomap string;
  msg_Content : LazyValue V }.
Arguments msg_Kind {V}. Arguments msg_Metadata {V}. Arguments msg_Content {V}.
Arguments Build_Message {V}.

(** ** Resources of a desire response *)

Definition KindApp : string := "app".
Definition KindApplication : string := "application".
Definition KindConfig : string := "config".
Definition KindConfiguration : string := "configuration".
Definition KindSecret : string := "secret".

Record ResourceInfo := { ri_Kind : string; ri_Name : string; ri_Version : string }.
Record ResourceValue (V : Type) := { rvl_Info : ResourceInfo; rvl_Value : LazyValue V }.
Arguments rvl_Info {V}. Arguments rvl_Value {V}. Arguments Build_ResourceValue {V}.

Section resources.
Context {V : Type} (Marshal : option V -> outcome string).
(** json.Unmarshal into the three resources, and their zero values. *)
Context (DecodeApp : string -> Application -> Application * outcome unit) (zero_app : Application).
Context (DecodeConfig : string -> Configuration -> Configuration * outcome unit)
  (zero_config : Configuration).
Context (DecodeSecret : string -> Secret -> Secret * outcome unit) (zero_secret : Secret).

(** The error of the decoding is dropped: a resource that does not decode comes
    back as far as it was decoded. *)
Definition App (v : ResourceValue V) : option Application :=
  if String.eqb (ri_Kind (rvl_Info v)) KindApplication || String.eqb (ri_Kind (rvl_Info v)) KindApp
  then Some (fst (Unmarshal Marshal DecodeApp (rvl_Value v) zero_app)) else None.

Definition Config (v : ResourceValue V) : option Configuration :=
  if String.eqb (ri_Kind (rvl_Info v)) KindConfiguration || String.eqb (ri_Kind (rvl_Info v)) KindConfig
  then Some (fst (Unmarshal Marshal DecodeConfig (rvl_Value v) zero_config)) else None.

Definition Secret_ (v : ResourceValue V) : option Secret :=
  if String.eqb (ri_Kind (rvl_Info v)) KindSecret
  then Some (fst (Unmarshal Marshal DecodeSecret (rvl_Value v) zero_secret)) else None.

End resources.

Definition PrefixConfigObject : string := "_object_".
Definition IsConfigObject (key : string) : bool := HasPrefix key PrefixConfigObject.

Lemma lazy_value_transparent_witness :
  let v : LazyValue nat := {| Value := Some 3; doc := None |} in
  let received := fst (UnmarshalJSON (V := nat) {| Value := None; doc := None |} "3") in
  Unmarshal (fun _ => Ok "3") (fun d _ => (d, Ok tt)) received "" =
    Unmarshal (fun _ => Ok "3") (fun d _ => (d, Ok tt)) v "" /\
  MarshalJSON (fun _ => Ok "3") received = Ok "3".
Proof.
  apply (lazy_value_transparent (fun _ => Ok "3") (fun d _ => (d, Ok tt))
    (Build_LazyValue (Some 3) None) (Build_LazyValue None None) "3" "");
    [by right|reflexivity].
Defined.
