(* ===== verification/DmTypes.v ===== *)
(** * dmcontext: the data of devices, models, drivers and access templates

    The structs of dmcontext/config.go, access.go, device.go, device_model.go,
    device_driver.go and blink.go, field by field: integers of any width and times
    (nanoseconds) are [Z], pointers options, slices options of lists.  The types
    that [reflect.DeepEqual] reaches from a device, a model or a driver have their
    [DeepEqual] instance. *)

From Stdlib Require Import ZArith String.
From stdpp Require Import base option list strings gmap.
From S2P Require Import Prelude MqttPacket GoValue GoEqual SpecApp.

Local Open Scope string_scope.
Local Open Scope Z_scope.
Local Open Scope list_scope.

#[export] Instance QOSTopic_DeepEqual : DeepEqual QOSTopic := fun a b =>
  deep_equal (qt_QOS a) (qt_QOS b) && deep_equal (qt_Topic a) (qt_Topic b).

(** ** config.go: types of properties and visitors *)

Record EnumValue := {
  ev_Name : string;
  ev_Value : string;
  ev_DisplayName : string }.
#[export] Instance EnumValue_DeepEqual : DeepEqual EnumValue := fun a b =>
  deep_equal (ev_Name a) (ev_Name b) &&
  deep_equal (ev_Value a) (ev_Value b) &&
  deep_equal (ev_DisplayName a) (ev_DisplayName b).

Record EnumType := {
  et_Type : string;
  et_Values : goslice EnumValue }.
#[export] Instance EnumType_DeepEqual : DeepEqual EnumType := fun a b =>
  deep_equal (et_Type a) (et_Type b) &&
  deep_equal (et_Values a) (et_Values b).

Record ArrayType := {
  at__Type : string;
  at__Min : Z;
  at__Max : Z;
  at__Format : string }.
#[export] Instance ArrayType_DeepEqual : DeepEqual ArrayType := fun a b =>
  deep_equal (at__Type a) (at__Type b) &&
  deep_equal (at__Min a) (at__Min b) &&
  deep_equal (at__Max a) (at__Max b) &&
  deep_equal (at__Format a) (at__Format b).

Record ObjectType := {
  ot_DisplayName : string;
  ot_Type : string;
  ot_Format : string }.
#[export] Instance ObjectType_DeepEqual : DeepEqual ObjectType := fun a b =>
  deep_equal (ot_DisplayName a) (ot_DisplayName b) &&
  deep_equal (ot_Type a) (ot_Type b) &&
  deep_equal (ot_Format a) (ot_Format b).

Record IEC104Visitor := {
  iv_PointNum : Z;
  iv_PointType : string;
  iv_Type : string }.
#[export] Instance IEC104Visitor_DeepEqual : DeepEqual IEC104Visitor := fun a b =>
  deep_equal (iv_PointNum a) (iv_PointNum b) &&
  deep_equal (iv_PointType a) (iv_PointType b) &&
  deep_equal (iv_Type a) (iv_Type b).

Record ModbusVisitor := {
  mv_Function : Z;
  mv_Address : string;
  mv_Quantity : Z;
  mv_Type : string;
  mv_Unit : string;
  mv_Scale : float64;
  mv_SwapByte : bool;
  mv_SwapRegister : bool }.
#[export] Instance ModbusVisitor_DeepEqual : DeepEqual ModbusVisitor := fun a b =>
  deep_equal (mv_Function a) (mv_Function b) &&
  deep_equal (mv_Address a) (mv_Address b) &&
  deep_equal (mv_Quantity a) (mv_Quantity b) &&
  deep_equal (mv_Type a) (mv_Type b) &&
  deep_equal (mv_Unit a) (mv_Unit b) &&
  deep_equal (mv_Scale a) (mv_Scale b) &&
  deep_equal (mv_SwapByte a) (mv_SwapByte b) &&
  deep_equal (mv_SwapRegister a) (mv_SwapRegister b).

Record OpcuaVisitor := {
  uv_NodeID : string;
  uv_Type : string;
  uv_NsBase : Z;
  uv_IdBase : string;
  uv_IdType : string }.
#[export] Instance OpcuaVisitor_DeepEqual : DeepEqual OpcuaVisitor := fun a b =>
  deep_equal (uv_NodeID a) (uv_NodeID b) &&
  deep_equal (uv_Type a) (uv_Type b) &&
  deep_equal (uv_NsBase a) (uv_NsBase b) &&
  deep_equal (uv_IdBase a) (uv_IdBase b) &&
  deep_equal (uv_IdType a) (uv_IdType b).

Record OpcdaVisitor := {
  dv_Datapath : string;
  dv_Type : string }.
#[export] Instance OpcdaVisitor_DeepEqual : DeepEqual OpcdaVisitor := fun a b =>
  deep_equal (dv_Datapath a) (dv_Datapath b) &&
  deep_equal (dv_Type a) (dv_Type b).

Record BacnetVisitor := {
  bv_Type : string;
  bv_BacnetType : Z;
  bv_BacnetAddress : Z;
  bv_ApplicationTagNumber : Z }.
#[export] Instance BacnetVisitor_DeepEqual : DeepEqual BacnetVisitor := fun a b =>
  deep_equal (bv_Type a) (bv_Type b) &&
  deep_equal (bv_BacnetType a) (bv_BacnetType b) &&
  deep_equal (bv_BacnetAddress a) (bv_BacnetAddress b) &&
  deep_equal (bv_ApplicationTagNumber a) (bv_ApplicationTagNumber b).

Record PropertyVisitor := {
  pv_Modbus : option ModbusVisitor;
  pv_Opcua : option OpcuaVisitor;
  pv_Opcda : option OpcdaVisitor;
  pv_Bacnet : option BacnetVisitor;
  pv_IEC104 : option IEC104Visitor;
  pv_Custom : option string }.
#[export] Instance PropertyVisitor_DeepEqual : DeepEqual PropertyVisitor := fun a b =>
  deep_equal (pv_Modbus a) (pv_Modbus b) &&
  deep_equal (pv_Opcua a) (pv_Opcua b) &&
  deep_equal (pv_Opcda a) (pv_Opcda b) &&
  deep_equal (pv_Bacnet a) (pv_Bacnet b) &&
  deep_equal (pv_IEC104 a) (pv_IEC104 b) &&
  deep_equal (pv_Custom a) (pv_Custom b).

Record IpcDeviceConfig := {
  ipc_Name : string;
  ipc_StreamAddress : string;
  ipc_ServiceName : string;
  ipc_ResultTopic : string;
  ipc_AgentEnable : bool;
  ipc_System : bool;
  ipc_RemoteAddress : string;
  ipc_IP : string;
  ipc_Port : Z;
  ipc_Username : string;
  ipc_Password : string }.
#[export] Instance IpcDeviceConfig_DeepEqual : DeepEqual IpcDeviceConfig := fun a b =>
  deep_equal (ipc_Name a) (ipc_Name b) &&
  deep_equal (ipc_StreamAddress a) (ipc_StreamAddress b) &&
  deep_equal (ipc_ServiceName a) (ipc_ServiceName b) &&
  deep_equal (ipc_ResultTopic a) (ipc_ResultTopic b) &&
  deep_equal (ipc_AgentEnable a) (ipc_AgentEnable b) &&
  deep_equal (ipc_System a) (ipc_System b) &&
  deep_equal (ipc_RemoteAddress a) (ipc_RemoteAddress b) &&
  deep_equal (ipc_IP a) (ipc_IP b) &&
  deep_equal (ipc_Port a) (ipc_Port b) &&
  deep_equal (ipc_Username a) (ipc_Username b) &&
  deep_equal (ipc_Password a) (ipc_Password b).

Record IpcScale := { sc_Enable : bool; sc_Height : Z; sc_Width : Z }.
Record IpcBody := {
  bd_Content : string; bd_ImageType : string; bd_ImageName : string;
  bd_Params : gomap GoVal }.
Record IpcServiceConfig := {
  isc_Name : string;
  isc_FPS : float64;
  isc_ImageFormat : string;
  isc_Scale : IpcScale;
  isc_Address : string;
  isc_Request_Params : gomap string;
  isc_Body : IpcBody;
  isc_Upload : bool;
  isc_Cache : bool;
  isc_CachePath : string;
  isc_CacheTime : Z }.
#[export] Instance IpcScale_DeepEqual : DeepEqual IpcScale := fun a b =>
  deep_equal (sc_Enable a) (sc_Enable b) && deep_equal (sc_Height a) (sc_Height b) &&
  deep_equal (sc_Width a) (sc_Width b).
#[export] Instance IpcBody_DeepEqual : DeepEqual IpcBody := fun a b =>
  deep_equal (bd_Content a) (bd_Content b) && deep_equal (bd_ImageType a) (bd_ImageType b) &&
  deep_equal (bd_ImageName a) (bd_ImageName b) && deep_equal (bd_Params a) (bd_Params b).
#[export] Instance IpcServiceConfig_DeepEqual : DeepEqual IpcServiceConfig := fun a b =>
  deep_equal (isc_Name a) (isc_Name b) && deep_equal (isc_FPS a) (isc_FPS b) &&
  deep_equal (isc_ImageFormat a) (isc_ImageFormat b) && deep_equal (isc_Scale a) (isc_Scale b) &&
  deep_equal (isc_Address a) (isc_Address b) &&
  deep_equal (isc_Request_Params a) (isc_Request_Params b) &&
  deep_equal (isc_Body a) (isc_Body b) && deep_equal (isc_Upload a) (isc_Upload b) &&
  deep_equal (isc_Cache a) (isc_Cache b) && deep_equal (isc_CachePath a) (isc_CachePath b) &&
  deep_equal (isc_CacheTime a) (isc_CacheTime b).

Record ReportProperty := {
  rp_Time : Z;
  rp_Value : GoVal }.

Record Event := {
  event_Type : string;
  event_Payload : GoVal }.

(** ** access.go: access to devices, and access templates *)

Record TcpConfig := {
  tcp_Address : string;
  tcp_Port : Z }.
#[export] Instance TcpConfig_DeepEqual : DeepEqual TcpConfig := fun a b =>
  deep_equal (tcp_Address a) (tcp_Address b) &&
  deep_equal (tcp_Port a) (tcp_Port b).

Record RtuConfig := {
  rtu_Port : string;
  rtu_BaudRate : Z;
  rtu_Parity : string;
  rtu_DataBit : Z;
  rtu_StopBit : Z }.
#[export] Instance RtuConfig_DeepEqual : DeepEqual RtuConfig := fun a b =>
  deep_equal (rtu_Port a) (rtu_Port b) &&
  deep_equal (rtu_BaudRate a) (rtu_BaudRate b) &&
  deep_equal (rtu_Parity a) (rtu_Parity b) &&
  deep_equal (rtu_DataBit a) (rtu_DataBit b) &&
  deep_equal (rtu_StopBit a) (rtu_StopBit b).

Record OpcuaSecurity := {
  os_Policy : string;
  os_Mode : string }.
#[export] Instance OpcuaSecurity_DeepEqual : DeepEqual OpcuaSecurity := fun a b =>
  deep_equal (os_Policy a) (os_Policy b) &&
  deep_equal (os_Mode a) (os_Mode b).

Record OpcuaAuth := {
  oa_Username : string;
  oa_Password : string }.
#[export] Instance OpcuaAuth_DeepEqual : DeepEqual OpcuaAuth := fun a b =>
  deep_equal (oa_Username a) (oa_Username b) &&
  deep_equal (oa_Password a) (oa_Password b).

Record OpcuaCertificate := {
  oc_Cert : string;
  oc_Key : string }.
#[export] Instance OpcuaCertificate_DeepEqual : DeepEqual OpcuaCertificate := fun a b =>
  deep_equal (oc_Cert a) (oc_Cert b) &&
  deep_equal (oc_Key a) (oc_Key b).

Record ModbusAccessConfig := {
  mac_Id : Z;
  mac_Interval : Z;
  mac_Timeout : Z;
  mac_IdleTimeout : Z;
  mac_Tcp : option TcpConfig;
  mac_Rtu : option RtuConfig }.
#[export] Instance ModbusAccessConfig_DeepEqual : DeepEqual ModbusAccessConfig := fun a b =>
  deep_equal (mac_Id a) (mac_Id b) &&
  deep_equal (mac_Interval a) (mac_Interval b) &&
  deep_equal (mac_Timeout a) (mac_Timeout b) &&
  deep_equal (mac_IdleTimeout a) (mac_IdleTimeout b) &&
  deep_equal (mac_Tcp a) (mac_Tcp b) &&
  deep_equal (mac_Rtu a) (mac_Rtu b).

Record IEC104AccessConfig := {
  iac_Id : Z;
  iac_Interval : Z;
  iac_Endpoint : string;
  iac_AIOffset : Z;
  iac_DIOffset : Z;
  iac_AOOffset : Z;
  iac_DOOffset : Z }.
#[export] Instance IEC104AccessConfig_DeepEqual : DeepEqual IEC104AccessConfig := fun a b =>
  deep_equal (iac_Id a) (iac_Id b) &&
  deep_equal (iac_Interval a) (iac_Interval b) &&
  deep_equal (iac_Endpoint a) (iac_Endpoint b) &&
  deep_equal (iac_AIOffset a) (iac_AIOffset b) &&
  deep_equal (iac_DIOffset a) (iac_DIOffset b) &&
  deep_equal (iac_AOOffset a) (iac_AOOffset b) &&
  deep_equal (iac_DOOffset a) (iac_DOOffset b).

Record OpcuaAccessConfig := {
  uac_Id : Z;
  uac_Endpoint : string;
  uac_Interval : Z;
  uac_Timeout : Z;
  uac_Security : OpcuaSecurity;
  uac_Auth : option OpcuaAuth;
  uac_Certificate : option OpcuaCertificate;
  uac_NsOffset : Z;
  uac_IdOffset : Z }.
#[export] Instance OpcuaAccessConfig_DeepEqual : DeepEqual OpcuaAccessConfig := fun a b =>
  deep_equal (uac_Id a) (uac_Id b) &&
  deep_equal (uac_Endpoint a) (uac_Endpoint b) &&
  deep_equal (uac_Interval a) (uac_Interval b) &&
  deep_equal (uac_Timeout a) (uac_Timeout b) &&
  deep_equal (uac_Security a) (uac_Security b) &&
  deep_equal (uac_Auth a) (uac_Auth b) &&
  deep_equal (uac_Certificate a) (uac_Certificate b) &&
  deep_equal (uac_NsOffset a) (uac_NsOffset b) &&
  deep_equal (uac_IdOffset a) (uac_IdOffset b).

Record OpcdaAccessConfig := {
  dac_Server : string;
  dac_Host : string;
  dac_Group : string;
  dac_Interval : Z }.
#[export] Instance OpcdaAccessConfig_DeepEqual : DeepEqual OpcdaAccessConfig := fun a b =>
  deep_equal (dac_Server a) (dac_Server b) &&
  deep_equal (dac_Host a) (dac_Host b) &&
  deep_equal (dac_Group a) (dac_Group b) &&
  deep_equal (dac_Interval a) (dac_Interval b).

Record BacnetAccessConfig := {
  bac_Id : Z;
  bac_Interval : Z;
  bac_DeviceId : Z;
  bac_AddressOffset : Z;
  bac_Address : string;
  bac_Port : Z }.
#[export] Instance BacnetAccessConfig_DeepEqual : DeepEqual BacnetAccessConfig := fun a b =>
  deep_equal (bac_Id a) (bac_Id b) &&
  deep_equal (bac_Interval a) (bac_Interval b) &&
  deep_equal (bac_DeviceId a) (bac_DeviceId b) &&
  deep_equal (bac_AddressOffset a) (bac_AddressOffset b) &&
  deep_equal (bac_Address a) (bac_Address b) &&
  deep_equal (bac_Port a) (bac_Port b).

Record AccessConfig := {
  ac_Modbus : option ModbusAccessConfig;
  ac_Opcua : option OpcuaAccessConfig;
  ac_Opcda : option OpcdaAccessConfig;
  ac_Bacnet : option BacnetAccessConfig;
  ac_IEC104 : option IEC104AccessConfig;
  ac_Custom : option string }.
#[export] Instance AccessConfig_DeepEqual : DeepEqual AccessConfig := fun a b =>
  deep_equal (ac_Modbus a) (ac_Modbus b) &&
  deep_equal (ac_Opcua a) (ac_Opcua b) &&
  deep_equal (ac_Opcda a) (ac_Opcda b) &&
  deep_equal (ac_Bacnet a) (ac_Bacnet b) &&
  deep_equal (ac_IEC104 a) (ac_IEC104 b) &&
  deep_equal (ac_Custom a) (ac_Custom b).

Record accessConfig := {
  lac_Modbus : option ModbusAccessConfig;
  lac_Opcua : option OpcuaAccessConfig;
  lac_Opcda : option OpcdaAccessConfig;
  lac_Bacnet : option BacnetAccessConfig;
  lac_IEC104 : option IEC104AccessConfig;
  lac_Custom : option string }.

Record DeviceProperty := {
  dp_Name : string;
  dp_Id : string;
  dp_Type : string;
  dp_Mode : string;
  dp_Unit : string;
  dp_Visitor : PropertyVisitor;
  dp_Format : string;
  dp_EnumType : EnumType;
  dp_ArrayType : ArrayType;
  dp_ObjectType : gomap ObjectType;
  dp_ObjectRequired : goslice string;
  dp_Current : GoVal;
  dp_Expect : GoVal }.
#[export] Instance DeviceProperty_DeepEqual : DeepEqual DeviceProperty := fun a b =>
  deep_equal (dp_Name a) (dp_Name b) &&
  deep_equal (dp_Id a) (dp_Id b) &&
  deep_equal (dp_Type a) (dp_Type b) &&
  deep_equal (dp_Mode a) (dp_Mode b) &&
  deep_equal (dp_Unit a) (dp_Unit b) &&
  deep_equal (dp_Visitor a) (dp_Visitor b) &&
  deep_equal (dp_Format a) (dp_Format b) &&
  deep_equal (dp_EnumType a) (dp_EnumType b) &&
  deep_equal (dp_ArrayType a) (dp_ArrayType b) &&
  deep_equal (dp_ObjectType a) (dp_ObjectType b) &&
  deep_equal (dp_ObjectRequired a) (dp_ObjectRequired b) &&
  deep_equal (dp_Current a) (dp_Current b) &&
  deep_equal (dp_Expect a) (dp_Expect b).

Record deviceProperty := {
  ldp_Name : string;
  ldp_Id : string;
  ldp_Type : string;
  ldp_Mode : string;
  ldp_Unit : string;
  ldp_Visitor : PropertyVisitor;
  ldp_Format : string;
  ldp_EnumType : EnumType;
  ldp_ArrayType : ArrayType;
  ldp_ObjectType : gomap ObjectType;
  ldp_ObjectRequired : goslice string;
  ldp_Current : GoVal;
  ldp_Expect : GoVal }.

Record DeviceAttribute := {
  da_Name : string;
  da_Id : string;
  da_Type : string;
  da_Unit : string;
  da_Required : bool;
  da_Value : GoVal }.
#[export] Instance DeviceAttribute_DeepEqual : DeepEqual DeviceAttribute := fun a b =>
  deep_equal (da_Name a) (da_Name b) &&
  deep_equal (da_Id a) (da_Id b) &&
  deep_equal (da_Type a) (da_Type b) &&
  deep_equal (da_Unit a) (da_Unit b) &&
  deep_equal (da_Required a) (da_Required b) &&
  deep_equal (da_Value a) (da_Value b).

Record deviceAttribute := {
  lda_Name : string;
  lda_Id : string;
  lda_Type : string;
  lda_Unit : string;
  lda_Required : bool;
  lda_Value : GoVal }.

Record ModelMapping := {
  mm_Attribute : string;
  mm_Type : string;
  mm_Expression : string;
  mm_Precision : Z;
  mm_Deviation : float64;
  mm_SilentWin : Z }.

Record AccessTemplate := {
  tpl_Name : string;
  tpl_Version : string;
  tpl_Properties : goslice DeviceProperty;
  tpl_Mappings : goslice ModelMapping }.

(** ** device.go: devices and their configuration *)

Record Topic := {
  top_Delta : QOSTopic;
  top_Report : QOSTopic;
  top_Event : QOSTopic;
  top_Get : QOSTopic;
  top_GetResponse : QOSTopic }.
#[export] Instance Topic_DeepEqual : DeepEqual Topic := fun a b =>
  deep_equal (top_Delta a) (top_Delta b) &&
  deep_equal (top_Report a) (top_Report b) &&
  deep_equal (top_Event a) (top_Event b) &&
  deep_equal (top_Get a) (top_Get b) &&
  deep_equal (top_GetResponse a) (top_GetResponse b).

Record DeviceTopic := {
  dt_Delta : QOSTopic;
  dt_Report : QOSTopic;
  dt_Event : QOSTopic;
  dt_Get : QOSTopic;
  dt_GetResponse : QOSTopic;
  dt_EventReport : QOSTopic;
  dt_PropertyGet : QOSTopic;
  dt_LifecycleReport : QOSTopic }.
#[export] Instance DeviceTopic_DeepEqual : DeepEqual DeviceTopic := fun a b =>
  deep_equal (dt_Delta a) (dt_Delta b) &&
  deep_equal (dt_Report a) (dt_Report b) &&
  deep_equal (dt_Event a) (dt_Event b) &&
  deep_equal (dt_Get a) (dt_Get b) &&
  deep_equal (dt_GetResponse a) (dt_GetResponse b) &&
  deep_equal (dt_EventReport a) (dt_EventReport b) &&
  deep_equal (dt_PropertyGet a) (dt_PropertyGet b) &&
  deep_equal (dt_LifecycleReport a) (dt_LifecycleReport b).

Record DeviceInfo := {
  dev_Name : string;
  dev_Version : string;
  dev_Topic : Topic;
  dev_DeviceModel : string;
  dev_AccessTemplate : string;
  dev_DeviceTopic : DeviceTopic;
  dev_AccessConfig : option AccessConfig }.
#[export] Instance DeviceInfo_DeepEqual : DeepEqual DeviceInfo := fun a b =>
  deep_equal (dev_Name a) (dev_Name b) &&
  deep_equal (dev_Version a) (dev_Version b) &&
  deep_equal (dev_Topic a) (dev_Topic b) &&
  deep_equal (dev_DeviceModel a) (dev_DeviceModel b) &&
  deep_equal (dev_AccessTemplate a) (dev_AccessTemplate b) &&
  deep_equal (dev_DeviceTopic a) (dev_DeviceTopic b) &&
  deep_equal (dev_AccessConfig a) (dev_AccessConfig b).

Record ModbusConfig := {
  mc_ChannelId : string;
  mc_SlaveId : Z;
  mc_Interval : Z }.
#[export] Instance ModbusConfig_DeepEqual : DeepEqual ModbusConfig := fun a b =>
  deep_equal (mc_ChannelId a) (mc_ChannelId b) &&
  deep_equal (mc_SlaveId a) (mc_SlaveId b) &&
  deep_equal (mc_Interval a) (mc_Interval b).

Record OpcuaConfig := {
  uc_ChannelId : string;
  uc_Interval : Z;
  uc_NsOffset : Z;
  uc_IdOffset : Z }.
#[export] Instance OpcuaConfig_DeepEqual : DeepEqual OpcuaConfig := fun a b =>
  deep_equal (uc_ChannelId a) (uc_ChannelId b) &&
  deep_equal (uc_Interval a) (uc_Interval b) &&
  deep_equal (uc_NsOffset a) (uc_NsOffset b) &&
  deep_equal (uc_IdOffset a) (uc_IdOffset b).

Record IEC104Config := {
  ic_ChannelId : string;
  ic_Interval : Z;
  ic_AIOffset : Z;
  ic_DIOffset : Z;
  ic_AOOffset : Z;
  ic_DOOffset : Z;
  ic_PIOffset : Z }.
#[export] Instance IEC104Config_DeepEqual : DeepEqual IEC104Config := fun a b =>
  deep_equal (ic_ChannelId a) (ic_ChannelId b) &&
  deep_equal (ic_Interval a) (ic_Interval b) &&
  deep_equal (ic_AIOffset a) (ic_AIOffset b) &&
  deep_equal (ic_DIOffset a) (ic_DIOffset b) &&
  deep_equal (ic_AOOffset a) (ic_AOOffset b) &&
  deep_equal (ic_DOOffset a) (ic_DOOffset b) &&
  deep_equal (ic_PIOffset a) (ic_PIOffset b).

Record OpcdaConfig := {
  dc_ChannelId : string;
  dc_Interval : Z;
  dc_Group : string }.
#[export] Instance OpcdaConfig_DeepEqual : DeepEqual OpcdaConfig := fun a b =>
  deep_equal (dc_ChannelId a) (dc_ChannelId b) &&
  deep_equal (dc_Interval a) (dc_Interval b) &&
  deep_equal (dc_Group a) (dc_Group b).

Record BacnetConfig := {
  bc_ChannelId : string;
  bc_Interval : Z;
  bc_DeviceId : Z;
  bc_AddressOffset : Z }.
#[export] Instance BacnetConfig_DeepEqual : DeepEqual BacnetConfig := fun a b =>
  deep_equal (bc_ChannelId a) (bc_ChannelId b) &&
  deep_equal (bc_Interval a) (bc_Interval b) &&
  deep_equal (bc_DeviceId a) (bc_DeviceId b) &&
  deep_equal (bc_AddressOffset a) (bc_AddressOffset b).

Record DeviceConfig := {
  cfg_Infos : option DeviceInfo;
  cfg_Props : goslice DeviceProperty;
  cfg_Modbus : option ModbusConfig;
  cfg_OpcUA : option OpcuaConfig;
  cfg_IEC104 : option IEC104Config;
  cfg_Opcda : option OpcdaConfig;
  cfg_Bacnet : option BacnetConfig;
  cfg_Ipc : option IpcDeviceConfig;
  cfg_Custom : option string }.
#[export] Instance DeviceConfig_DeepEqual : DeepEqual DeviceConfig := fun a b =>
  deep_equal (cfg_Infos a) (cfg_Infos b) &&
  deep_equal (cfg_Props a) (cfg_Props b) &&
  deep_equal (cfg_Modbus a) (cfg_Modbus b) &&
  deep_equal (cfg_OpcUA a) (cfg_OpcUA b) &&
  deep_equal (cfg_IEC104 a) (cfg_IEC104 b) &&
  deep_equal (cfg_Opcda a) (cfg_Opcda b) &&
  deep_equal (cfg_Bacnet a) (cfg_Bacnet b) &&
  deep_equal (cfg_Ipc a) (cfg_Ipc b) &&
  deep_equal (cfg_Custom a) (cfg_Custom b).

Record FullDeviceConfig := {
  fdc_Infos : option DeviceInfo;
  fdc_Props : GoVal }.

Record DeviceConfigView := {
  dcv_Modbus : option ModbusConfig;
  dcv_Opcua : option OpcuaConfig;
  dcv_Ipc : option IpcDeviceConfig;
  dcv_IEC104 : option IEC104Config;
  dcv_Opcda : option OpcdaConfig;
  dcv_Custom : option string }.

Record ModbusChannel := {
  mch_Tcp : option TcpConfig;
  mch_Rtu : option RtuConfig }.
#[export] Instance ModbusChannel_DeepEqual : DeepEqual ModbusChannel := fun a b =>
  deep_equal (mch_Tcp a) (mch_Tcp b) &&
  deep_equal (mch_Rtu a) (mch_Rtu b).

Record OpcuaChannel := {
  uch_ID : Z;
  uch_Endpoint : string;
  uch_Timeout : Z;
  uch_Security : OpcuaSecurity;
  uch_Auth : option OpcuaAuth;
  uch_Certificate : option OpcuaCertificate }.
#[export] Instance OpcuaChannel_DeepEqual : DeepEqual OpcuaChannel := fun a b =>
  deep_equal (uch_ID a) (uch_ID b) &&
  deep_equal (uch_Endpoint a) (uch_Endpoint b) &&
  deep_equal (uch_Timeout a) (uch_Timeout b) &&
  deep_equal (uch_Security a) (uch_Security b) &&
  deep_equal (uch_Auth a) (uch_Auth b) &&
  deep_equal (uch_Certificate a) (uch_Certificate b).

Record IEC104Channel := {
  ich_Protocol : string;
  ich_Address : string;
  ich_Port : Z }.
#[export] Instance IEC104Channel_DeepEqual : DeepEqual IEC104Channel := fun a b =>
  deep_equal (ich_Protocol a) (ich_Protocol b) &&
  deep_equal (ich_Address a) (ich_Address b) &&
  deep_equal (ich_Port a) (ich_Port b).

Record OpcdaChannel := {
  dch_Server : string;
  dch_Host : string }.
#[export] Instance OpcdaChannel_DeepEqual : DeepEqual OpcdaChannel := fun a b =>
  deep_equal (dch_Server a) (dch_Server b) &&
  deep_equal (dch_Host a) (dch_Host b).

Record BacnetChannel := {
  bch_Address : string;
  bch_Port : Z }.
#[export] Instance BacnetChannel_DeepEqual : DeepEqual BacnetChannel := fun a b =>
  deep_equal (bch_Address a) (bch_Address b) &&
  deep_equal (bch_Port a) (bch_Port b).

Record ChannelConfig := {
  cc_ChannelId : string;
  cc_Modbus : option ModbusChannel;
  cc_OpcUA : option OpcuaChannel;
  cc_IEC104 : option IEC104Channel;
  cc_Opcda : option OpcdaChannel;
  cc_Bacnet : option BacnetChannel }.
#[export] Instance ChannelConfig_DeepEqual : DeepEqual ChannelConfig := fun a b =>
  deep_equal (cc_ChannelId a) (cc_ChannelId b) &&
  deep_equal (cc_Modbus a) (cc_Modbus b) &&
  deep_equal (cc_OpcUA a) (cc_OpcUA b) &&
  deep_equal (cc_IEC104 a) (cc_IEC104 b) &&
  deep_equal (cc_Opcda a) (cc_Opcda b) &&
  deep_equal (cc_Bacnet a) (cc_Bacnet b).

Record Device := {
  d_Name : string;
  d_Namespace : string;
  d_Version : string;
  d_Description : string;
  d_Protocol : string;
  d_Alias : string;
  d_Ready : bool;
  d_Active : bool;
  d_Labels : gomap string;
  d_DeviceModel : string;
  d_Attributes : goslice DeviceAttribute;
  d_Properties : goslice DeviceProperty;
  d_NodeName : string;
  d_DriverName : string;
  d_Config : option DeviceConfig;
  d_Shadow : string;
  d_CreateTime : Z;
  d_UpdateTime : Z }.
#[export] Instance Device_DeepEqual : DeepEqual Device := fun a b =>
  deep_equal (d_Name a) (d_Name b) &&
  deep_equal (d_Namespace a) (d_Namespace b) &&
  deep_equal (d_Version a) (d_Version b) &&
  deep_equal (d_Description a) (d_Description b) &&
  deep_equal (d_Protocol a) (d_Protocol b) &&
  deep_equal (d_Alias a) (d_Alias b) &&
  deep_equal (d_Ready a) (d_Ready b) &&
  deep_equal (d_Active a) (d_Active b) &&
  deep_equal (d_Labels a) (d_Labels b) &&
  deep_equal (d_DeviceModel a) (d_DeviceModel b) &&
  deep_equal (d_Attributes a) (d_Attributes b) &&
  deep_equal (d_Properties a) (d_Properties b) &&
  deep_equal (d_NodeName a) (d_NodeName b) &&
  deep_equal (d_DriverName a) (d_DriverName b) &&
  deep_equal (d_Config a) (d_Config b) &&
  deep_equal (d_Shadow a) (d_Shadow b) &&
  deep_equal (d_CreateTime a) (d_CreateTime b) &&
  deep_equal (d_UpdateTime a) (d_UpdateTime b).

Record DeviceView := {
  dview_Name : string;
  dview_Protocol : string;
  dview_Description : string;
  dview_Labels : gomap string;
  dview_Ready : bool;
  dview_DeviceModel : string;
  dview_Alias : string;
  dview_Status : Z;
  dview_Bind : bool;
  dview_NodeName : string;
  dview_Attributes : goslice DeviceAttribute;
  dview_Properties : goslice DeviceProperty;
  dview_Config : option DeviceConfigView;
  dview_CreateTime : Z;
  dview_UpdateTime : Z }.

Record ShadowState := {
  ss_Report : gomap GoVal;
  ss_Desire : gomap GoVal }.

Record ShadowMetadata := {
  smeta_Report : gomap GoVal;
  smeta_Desire : gomap GoVal }.

Record PropertyGet := {
  pg_Properties : goslice string }.

Record DeviceShadow := {
  shad_Name : string;
  shad_Report : gomap GoVal;
  shad_Desire : gomap GoVal }.

Record driverConfig := {
  drv_Devices : goslice DeviceInfo;
  drv_Driver : string }.

Record FullDriverConfig := {
  fdrv_Devices : goslice DeviceInfo;
  fdrv_Driver : string }.

(** ** device_model.go: device models *)

Record DeviceModelAttribute := {
  dma_Name : string;
  dma_Id : string;
  dma_Type : string;
  dma_Unit : string;
  dma_DefaultValue : GoVal;
  dma_Required : bool }.
#[export] Instance DeviceModelAttribute_DeepEqual : DeepEqual DeviceModelAttribute := fun a b =>
  deep_equal (dma_Name a) (dma_Name b) &&
  deep_equal (dma_Id a) (dma_Id b) &&
  deep_equal (dma_Type a) (dma_Type b) &&
  deep_equal (dma_Unit a) (dma_Unit b) &&
  deep_equal (dma_DefaultValue a) (dma_DefaultValue b) &&
  deep_equal (dma_Required a) (dma_Required b).

Record deviceModelAttribute := {
  ldma_Name : string;
  ldma_Id : string;
  ldma_Type : string;
  ldma_Unit : string;
  ldma_DefaultValue : GoVal;
  ldma_Required : bool }.

Record DeviceModelProperty := {
  dmp_Name : string;
  dmp_Id : string;
  dmp_Type : string;
  dmp_Mode : string;
  dmp_Unit : string;
  dmp_Format : string;
  dmp_EnumType : EnumType;
  dmp_ArrayType : ArrayType;
  dmp_ObjectType : gomap ObjectType;
  dmp_ObjectRequired : goslice string;
  dmp_Visitor : PropertyVisitor }.
#[export] Instance DeviceModelProperty_DeepEqual : DeepEqual DeviceModelProperty := fun a b =>
  deep_equal (dmp_Name a) (dmp_Name b) &&
  deep_equal (dmp_Id a) (dmp_Id b) &&
  deep_equal (dmp_Type a) (dmp_Type b) &&
  deep_equal (dmp_Mode a) (dmp_Mode b) &&
  deep_equal (dmp_Unit a) (dmp_Unit b) &&
  deep_equal (dmp_Format a) (dmp_Format b) &&
  deep_equal (dmp_EnumType a) (dmp_EnumType b) &&
  deep_equal (dmp_ArrayType a) (dmp_ArrayType b) &&
  deep_equal (dmp_ObjectType a) (dmp_ObjectType b) &&
  deep_equal (dmp_ObjectRequired a) (dmp_ObjectRequired b) &&
  deep_equal (dmp_Visitor a) (dmp_Visitor b).

Record DeviceModelPropertyYaml := {
  dmy_Name : string;
  dmy_Type : string;
  dmy_Mode : string;
  dmy_Format : string;
  dmy_EnumType : EnumType;
  dmy_ArrayType : ArrayType;
  dmy_ObjectType : gomap ObjectType;
  dmy_ObjectRequired : goslice string }.

Record DeviceModel := {
  dm_Name : string;
  dm_Namespace : string;
  dm_ProductSecret : string;
  dm_Version : string;
  dm_Description : string;
  dm_Protocol : string;
  dm_Labels : gomap string;
  dm_Attributes : goslice DeviceModelAttribute;
  dm_Properties : goslice DeviceModelProperty;
  dm_CreateTime : Z;
  dm_UpdateTime : Z;
  dm_Type : Z }.
#[export] Instance DeviceModel_DeepEqual : DeepEqual DeviceModel := fun a b =>
  deep_equal (dm_Name a) (dm_Name b) &&
  deep_equal (dm_Namespace a) (dm_Namespace b) &&
  deep_equal (dm_ProductSecret a) (dm_ProductSecret b) &&
  deep_equal (dm_Version a) (dm_Version b) &&
  deep_equal (dm_Description a) (dm_Description b) &&
  deep_equal (dm_Protocol a) (dm_Protocol b) &&
  deep_equal (dm_Labels a) (dm_Labels b) &&
  deep_equal (dm_Attributes a) (dm_Attributes b) &&
  deep_equal (dm_Properties a) (dm_Properties b) &&
  deep_equal (dm_CreateTime a) (dm_CreateTime b) &&
  deep_equal (dm_UpdateTime a) (dm_UpdateTime b) &&
  deep_equal (dm_Type a) (dm_Type b).

Record DeviceModelView := {
  dmv_Name : string;
  dmv_Description : string;
  dmv_Protocol : string;
  dmv_Labels : gomap string;
  dmv_Attributes : goslice DeviceModelAttribute;
  dmv_Properties : goslice DeviceModelProperty;
  dmv_CreateTime : Z;
  dmv_UpdateTime : Z }.

(** ** device_driver.go: device drivers *)

Record DriverRef := {
  dref_Name : string;
  dref_Type : Z;
  dref_Protocol : string;
  dref_Description : string;
  dref_Bind : bool }.

Record DriverConfig := {
  dcfg_Channels : goslice ChannelConfig;
  dcfg_IpcServices : goslice IpcServiceConfig;
  dcfg_Custom : option string }.
#[export] Instance DriverConfig_DeepEqual : DeepEqual DriverConfig := fun a b =>
  deep_equal (dcfg_Channels a) (dcfg_Channels b) &&
  deep_equal (dcfg_IpcServices a) (dcfg_IpcServices b) &&
  deep_equal (dcfg_Custom a) (dcfg_Custom b).

Record DeviceDriver := {
  dd_NodeName : string;
  dd_DriverName : string;
  dd_DriverInstName : string;
  dd_Namespace : string;
  dd_Version : string;
  dd_Protocol : string;
  dd_Application : option ObjectReference;
  dd_Configuration : option ObjectReference;
  dd_DriverConfig : option DriverConfig;
  dd_CreateTime : Z;
  dd_UpdateTime : Z }.
#[export] Instance DeviceDriver_DeepEqual : DeepEqual DeviceDriver := fun a b =>
  deep_equal (dd_NodeName a) (dd_NodeName b) &&
  deep_equal (dd_DriverName a) (dd_DriverName b) &&
  deep_equal (dd_DriverInstName a) (dd_DriverInstName b) &&
  deep_equal (dd_Namespace a) (dd_Namespace b) &&
  deep_equal (dd_Version a) (dd_Version b) &&
  deep_equal (dd_Protocol a) (dd_Protocol b) &&
  deep_equal (dd_Application a) (dd_Application b) &&
  deep_equal (dd_Configuration a) (dd_Configuration b) &&
  deep_equal (dd_DriverConfig a) (dd_DriverConfig b) &&
  deep_equal (dd_CreateTime a) (dd_CreateTime b) &&
  deep_equal (dd_UpdateTime a) (dd_UpdateTime b).

Record DeviceDriverView := {
  ddv_NodeName : string;
  ddv_DriverName : string;
  ddv_DriverInstName : string;
  ddv_Version : string;
  ddv_Protocol : string;
  ddv_DriverConfig : option DriverConfig;
  ddv_CreateTime : Z;
  ddv_UpdateTime : Z }.

Record DeviceDriverCsv := {
  csv_DeviceName : string;
  csv_DeviceModel : string;
  csv_AccessTemplate : string;
  csv_Custom : option string;
  csv_Modbus : option ModbusConfig;
  csv_OpcUA : option OpcuaConfig;
  csv_Ipc : option IpcDeviceConfig;
  csv_IEC104 : option IEC104Config;
  csv_Opcda : option OpcdaConfig;
  csv_Bacnet : option BacnetConfig }.

(** ** blink.go: the content of device messages *)

Record BlinkData := {
  blink_ReqId : string;
  blink_Method : string;
  blink_Version : string;
  blink_Timestamp : Z;
  blink_Properties : GoVal;
  blink_Events : gomap GoVal;
  blink_Params : gomap GoVal }.

Record BlinkContent := {
  bcon_Blink : BlinkData }.

