(* ===== verification/DmDevice.v ===== *)
(** * dmcontext/device.go, device_model.go, device_driver.go, access.go

    Comparisons of devices, models and drivers; the decoders that keep numbers
    exact or accept old configurations; the parsing of property values. *)

From Stdlib Require Import ZArith Lia String SpecFloat Btauto.
From stdpp Require Import base option list strings gmap fin_maps.
From S2P Require Import Prelude MqttPacket GoValue GoStrconv GoEqual SpecApp DmTypes.

Local Open Scope string_scope.
Local Open Scope Z_scope.
Local Open Scope list_scope.

(** ** Comparisons *)

Definition eqs (a b : string) : bool := String.eqb a b.

(** [func EqualDevice(old, new *Device) bool] *)
Definition EqualDevice (old new : Device) : bool :=
  if negb (eqs (d_Name old) (d_Name new)) || negb (eqs (d_Protocol old) (d_Protocol new)) ||
     negb (eqs (d_DeviceModel old) (d_DeviceModel new)) then false
  else if negb (eqs (d_Alias old) (d_Alias new)) ||
          negb (eqs (d_Description old) (d_Description new)) then false
  else if negb (map_len (d_Labels old) =? map_len (d_Labels new)) ||
          negb (deep_equal (d_Labels old) (d_Labels new)) then false
  else if negb (slice_len (d_Attributes old) =? slice_len (d_Attributes new)) ||
          negb (deep_equal (d_Attributes old) (d_Attributes new)) then false
  else if negb (slice_len (d_Properties old) =? slice_len (d_Properties new)) ||
          negb (deep_equal (d_Properties old) (d_Properties new)) then false
  else if negb (deep_equal (d_Config old) (d_Config new)) then false
  else if negb (eqs (d_NodeName old) (d_NodeName new)) ||
          negb (eqs (d_DriverName old) (d_DriverName new)) ||
          negb (eqs (d_Shadow old) (d_Shadow new)) ||
          negb (Bool.eqb (d_Ready old) (d_Ready new)) ||
          negb (Bool.eqb (d_Active old) (d_Active new)) then false
  else true.

(** [func EqualDeviceModel(old, new *DeviceModel) bool] *)
Definition EqualDeviceModel (old new : DeviceModel) : bool :=
  if negb (eqs (dm_Name old) (dm_Name new)) || negb (eqs (dm_Protocol old) (dm_Protocol new)) ||
     negb (eqs (dm_Description old) (dm_Description new)) then false
  else if negb (map_len (dm_Labels old) =? map_len (dm_Labels new)) ||
          negb (deep_equal (dm_Labels old) (dm_Labels new)) then false
  else if negb (slice_len (dm_Attributes old) =? slice_len (dm_Attributes new)) ||
          negb (deep_equal (dm_Attributes old) (dm_Attributes new)) then false
  else if negb (slice_len (dm_Properties old) =? slice_len (dm_Properties new)) ||
          negb (deep_equal (dm_Properties old) (dm_Properties new)) then false
  else true.

(** [func EqualDeviceDriver(old, new *DeviceDriver) bool] *)
Definition EqualDeviceDriver (old new : DeviceDriver) : bool :=
  if negb (eqs (dd_NodeName old) (dd_NodeName new)) ||
     negb (eqs (dd_DriverName old) (dd_DriverName new)) ||
     negb (eqs (dd_DriverInstName old) (dd_DriverInstName new)) ||
     negb (eqs (dd_Protocol old) (dd_Protocol new)) then false
  else if negb (deep_equal (dd_Application old) (dd_Application new)) ||
          negb (deep_equal (dd_Configuration old) (dd_Configuration new)) ||
          negb (deep_equal (dd_DriverConfig old) (dd_DriverConfig new)) then false
  else true.

(** The objects without the fields a comparison leaves out: identity in the
    store, version and times (and, for a model, its secret and type). *)
Definition strip_device (d : Device) : Device :=
  {| d_Name := d_Name d; d_Namespace := ""; d_Version := ""; d_Description := d_Description d;
     d_Protocol := d_Protocol d; d_Alias := d_Alias d; d_Ready := d_Ready d;
     d_Active := d_Active d; d_Labels := d_Labels d; d_DeviceModel := d_DeviceModel d;
     d_Attributes := d_Attributes d; d_Properties := d_Properties d;
     d_NodeName := d_NodeName d; d_DriverName := d_DriverName d; d_Config := d_Config d;
     d_Shadow := d_Shadow d; d_CreateTime := 0; d_UpdateTime := 0 |}.
Definition strip_model (m : DeviceModel) : DeviceModel :=
  {| dm_Name := dm_Name m; dm_Namespace := ""; dm_ProductSecret := ""; dm_Version := "";
     dm_Description := dm_Description m; dm_Protocol := dm_Protocol m;
     dm_Labels := dm_Labels m; dm_Attributes := dm_Attributes m;
     dm_Properties := dm_Properties m; dm_CreateTime := 0; dm_UpdateTime := 0; dm_Type := 0 |}.
Definition strip_driver (d : DeviceDriver) : DeviceDriver :=
  {| dd_NodeName := dd_NodeName d; dd_DriverName := dd_DriverName d;
     dd_DriverInstName := dd_DriverInstName d; dd_Namespace := ""; dd_Version := "";
     dd_Protocol := dd_Protocol d; dd_Application := dd_Application d;
     dd_Configuration := dd_Configuration d; dd_DriverConfig := dd_DriverConfig d;
     dd_CreateTime := 0; dd_UpdateTime := 0 |}.

Lemma guarded_map `{DeepEqual A} (m n : gomap A) :
  negb (map_len m =? map_len n) || negb (deep_equal m n) = negb (deep_equal m n).
Proof.
  destruct (deep_equal m n) eqn:E; [|apply orb_true_r].
  apply map_deep_len in E. by rewrite E, Z.eqb_refl.
Qed.

Lemma guarded_slice `{DeepEqual A} (l k : goslice A) :
  negb (slice_len l =? slice_len k) || negb (deep_equal l k) = negb (deep_equal l k).
Proof.
  destruct (deep_equal l k) eqn:E; [|apply orb_true_r].
  apply slice_deep_len in E. by rewrite E, Z.eqb_refl.
Qed.

(** Equality of two combinations of the same comparisons. *)
Ltac by_atoms :=
  cbn -[deep_equal];
  change (deep_equal 0 0) with true; change (deep_equal "" "") with true;
  change String.eqb with (deep_equal (A := string));
  change Bool.eqb with (deep_equal (A := bool)); btauto.

(** Two devices, models or drivers compare equal exactly when they are deeply
    equal up to the bookkeeping fields; the length tests in front of the deep
    comparisons never decide. *)
Theorem equal_up_to_bookkeeping :
  (forall old new, EqualDevice old new = deep_equal (strip_device old) (strip_device new)) /\
  (forall old new, EqualDeviceModel old new = deep_equal (strip_model old) (strip_model new)) /\
  (forall old new, EqualDeviceDriver old new = deep_equal (strip_driver old) (strip_driver new)).
Proof.
  split; [|split]; intros old new.
  - unfold EqualDevice, eqs. rewrite guarded_map, !guarded_slice.
    change (deep_equal (strip_device old) (strip_device new))
      with (Device_DeepEqual (strip_device old) (strip_device new)).
    unfold Device_DeepEqual, strip_device. by_atoms.
  - unfold EqualDeviceModel, eqs. rewrite guarded_map, !guarded_slice.
    change (deep_equal (strip_model old) (strip_model new))
      with (DeviceModel_DeepEqual (strip_model old) (strip_model new)).
    unfold DeviceModel_DeepEqual, strip_model. by_atoms.
  - unfold EqualDeviceDriver, eqs.
    change (deep_equal (strip_driver old) (strip_driver new))
      with (DeviceDriver_DeepEqual (strip_driver old) (strip_driver new)).
    unfold DeviceDriver_DeepEqual, strip_driver. by_atoms.
Qed.

(** ** Decoders *)

Section decoders.
(** A JSON decoder with UseNumber, at the type it decodes into. *)
Context (decode_property : string -> outcome deviceProperty).
Context (decode_attribute : string -> outcome deviceAttribute).
Context (decode_model_attribute : string -> outcome deviceModelAttribute).

(** [func (dp *DeviceProperty) UnmarshalJSON(b []byte) error] *)
Definition DeviceProperty_UnmarshalJSON (b : string) : outcome DeviceProperty :=
  prop ← decode_property b;
  Ok {| dp_Name := ldp_Name prop; dp_Id := ldp_Id prop; dp_Unit := ldp_Unit prop;
        dp_Type := ldp_Type prop; dp_Mode := ldp_Mode prop; dp_Visitor := ldp_Visitor prop;
        dp_Format := ldp_Format prop; dp_EnumType := ldp_EnumType prop;
        dp_ArrayType := ldp_ArrayType prop; dp_ObjectType := ldp_ObjectType prop;
        dp_ObjectRequired := ldp_ObjectRequired prop; dp_Current := ldp_Current prop;
        dp_Expect := ldp_Expect prop |}.

(** [func (da *DeviceAttribute) UnmarshalJSON(b []byte) error] *)
Definition DeviceAttribute_UnmarshalJSON (b : string) : outcome DeviceAttribute :=
  attr ← decode_attribute b;
  Ok {| da_Name := lda_Name attr; da_Id := lda_Id attr; da_Type := lda_Type attr;
        da_Unit := lda_Unit attr; da_Required := lda_Required attr;
        da_Value := lda_Value attr |}.

(** [func (da *DeviceModelAttribute) UnmarshalJSON(b []byte) error] *)
Definition DeviceModelAttribute_UnmarshalJSON (b : string) : outcome DeviceModelAttribute :=
  attr ← decode_model_attribute b;
  Ok {| dma_Name := ldma_Name attr; dma_Id := ldma_Id attr; dma_Type := ldma_Type attr;
        dma_Unit := ldma_Unit attr; dma_DefaultValue := ldma_DefaultValue attr;
        dma_Required := ldma_Required attr |}.
End decoders.

Section access.
(** The unmarshal function of yaml, at the three types it is called with. *)
Context (unmarshal_access : outcome accessConfig).
Context (unmarshal_modbus : outcome ModbusAccessConfig).
Context (unmarshal_custom : outcome string).

Definition is_none {A} (o : option A) : bool := match o with None => true | _ => false end.

(** [func (a *AccessConfig) UnmarshalYAML(unmarshal func(interface{}) error) error]:
    the configuration that replaces [a], which a failing call leaves alone; a
    custom configuration only sets its field. *)
Definition AccessConfig_UnmarshalYAML (a : AccessConfig) : outcome AccessConfig :=
  match unmarshal_access with
  | Ok acc =>
      let a := {| ac_Modbus := lac_Modbus acc; ac_Opcua := lac_Opcua acc;
                  ac_Opcda := lac_Opcda acc; ac_Bacnet := lac_Bacnet acc;
                  ac_IEC104 := lac_IEC104 acc; ac_Custom := lac_Custom acc |} in
      if is_none (ac_Modbus a) && is_none (ac_Opcua a) && is_none (ac_Custom a) &&
         is_none (ac_IEC104 a) && is_none (ac_Opcda a) && is_none (ac_Bacnet a)
      then match unmarshal_modbus with
           | Ok modbus =>
               Ok {| ac_Modbus := Some modbus; ac_Opcua := ac_Opcua a; ac_Opcda := ac_Opcda a;
                     ac_Bacnet := ac_Bacnet a; ac_IEC104 := ac_IEC104 a;
                     ac_Custom := ac_Custom a |}
           | Panic w => Panic w
           | _ => Ok a
           end
      else Ok a
  | Err _ =>
      custom ← unmarshal_custom;
      Ok {| ac_Modbus := ac_Modbus a; ac_Opcua := ac_Opcua a; ac_Opcda := ac_Opcda a;
            ac_Bacnet := ac_Bacnet a; ac_IEC104 := ac_IEC104 a; ac_Custom := Some custom |}
  | Panic w => Panic w
  | NoFuel => NoFuel
  end.
End access.

(** ** Property values *)

Definition TypeInt16 : string := "int16".
Definition TypeInt32 : string := "int32".
Definition TypeInt64 : string := "int64".
Definition TypeFloat32 : string := "float32".
Definition TypeFloat64 : string := "float64".
Definition TypeBool : string := "bool".
Definition TypeString : string := "string".
Definition TypeTime : string := "time".
Definition TypeDate : string := "date".
Definition TypeArray : string := "array".
Definition TypeEnum : string := "enum".
Definition TypeObject : string := "object".

Definition ErrTypeNotSupported : error := "type not supported".
Definition ErrDeviceNotExist : error := "device not exist".
Definition ErrPropsConfigNotExist : error := "properties config not exist".
Definition ErrInvalidPropertyKey : error := "invalid property key".

(** [num, _ := val.(json.Number)], as a string: empty if it is no number. *)
Definition number_string (val : GoVal) : string :=
  match val with VNumber s => s | _ => "" end.

(** ** device_model.go: views *)

Section view.
(** jinzhu/copier, from a model into a view. *)
Context (copier_Copy : DeviceModelView -> DeviceModel -> outcome DeviceModelView).

Definition zero_DeviceModelView : DeviceModelView :=
  {| dmv_Name := ""; dmv_Description := ""; dmv_Protocol := ""; dmv_Labels := None;
     dmv_Attributes := None; dmv_Properties := None; dmv_CreateTime := 0; dmv_UpdateTime := 0 |}.

Definition ToDeviceModelView (dm : DeviceModel) : outcome DeviceModelView :=
  copier_Copy zero_DeviceModelView dm.

(** The fields of one name are copied: a view shows its model, but for the namespace, the
    secret, the version and the type. *)
Context (copier_law : forall view dm view', copier_Copy view dm = Ok view' ->
  dmv_Name view' = dm_Name dm /\ dmv_Description view' = dm_Description dm /\
  dmv_Protocol view' = dm_Protocol dm /\ dmv_Labels view' = dm_Labels dm /\
  dmv_Attributes view' = dm_Attributes dm /\ dmv_Properties view' = dm_Properties dm /\
  dmv_CreateTime view' = dm_CreateTime dm /\ dmv_UpdateTime view' = dm_UpdateTime dm).

Lemma view_shows dm view : ToDeviceModelView dm = Ok view ->
  view = {| dmv_Name := dm_Name dm; dmv_Description := dm_Description dm; dmv_Protocol := dm_Protocol dm;
            dmv_Labels := dm_Labels dm; dmv_Attributes := dm_Attributes dm; dmv_Properties := dm_Properties dm;
            dmv_CreateTime := dm_CreateTime dm; dmv_UpdateTime := dm_UpdateTime dm |}.
Proof. intros (? & ? & ? & ? & ? & ? & ? & ?)%copier_law. destruct view; cbn in *. congruence. Qed.
End view.

Section properties.
(** strconv.ParseFloat. *)
Context (ParseFloat : string -> Z -> outcome float64).
(** Go's iteration order over a map. *)
Context (order : gmap string GoVal -> list (string * GoVal)).

(** [func parsePropertyValue(tpy string, val interface{}) (interface{}, error)] *)
Definition parsePropertyValue (tpy : string) (val : GoVal) : outcome GoVal :=
  if eqs tpy TypeInt16 then
    i ← ParseInt (number_string val) 16; Ok (VInt KInt16 (int16 i))
  else if eqs tpy TypeInt32 then
    i ← ParseInt (number_string val) 32; Ok (VInt KInt32 (int32 i))
  else if eqs tpy TypeInt64 then
    i ← ParseInt (number_string val) 64; Ok (VInt KInt64 i)
  else if eqs tpy TypeFloat32 then
    f ← ParseFloat (number_string val) 32; Ok (VFloat32 f)
  else if eqs tpy TypeFloat64 then
    f ← ParseFloat (number_string val) 64; Ok (VFloat64 f)
  else if existsb (eqs tpy)
            [TypeBool; TypeString; TypeEnum; TypeArray; TypeTime; TypeDate; TypeObject]
  then Ok val
  else Err ErrTypeNotSupported.

(** The configurations of a model by property name; the last of a name counts. *)
Definition property_configs (vals : goslice DeviceProperty) : gmap string DeviceProperty :=
  foldl (fun cfgs val => <[dp_Name val := val]> cfgs) ∅ (default [] vals).

Fixpoint parse_loop (cfgs : gmap string DeviceProperty) (res : gmap string GoVal)
    (props : list (string * GoVal)) : outcome (gmap string GoVal) :=
  match props with
  | [] => Ok res
  | (key, val) :: props =>
      match cfgs !! key with
      | Some cfg =>
          pVal ← parsePropertyValue (dp_Type cfg) val;
          parse_loop cfgs (<[key := pVal]> res) props
      | None => Err ErrPropsConfigNotExist
      end
  end.

(** [func (c *DmCtx) parsePropertyValues(device, props)] for the device models of [c] *)
Definition parsePropertyValues (deviceModels : gomap (goslice DeviceProperty))
    (device : DeviceInfo) (props : gomap GoVal) : outcome (gomap GoVal) :=
  match mget deviceModels (dev_DeviceModel device) with
  | None => Err ErrDeviceNotExist
  | Some vals => Some <$> parse_loop (property_configs vals) ∅ (order (entries props))
  end.

(** [func parsePropertyKeys(v interface{}) (keys []string, err error)] *)
Fixpoint keys_loop (keys : list string) (properties : list GoVal) : outcome (list string) :=
  match properties with
  | [] => Ok keys
  | key :: properties =>
      match as_string key with
      | Some k => keys_loop (keys ++ [k]) properties
      | None => Err ErrInvalidPropertyKey
      end
  end.

Definition parsePropertyKeys (v : GoVal) : outcome (list string) :=
  match as_slice v with
  | None => Err ErrInvalidPropertyKey
  | Some properties => keys_loop [] properties
  end.

(** *** Lemmas and properties *)

Definition int_width (tpy : string) : option (Z * Kind) :=
  if eqs tpy TypeInt16 then Some (16, KInt16)
  else if eqs tpy TypeInt32 then Some (32, KInt32)
  else if eqs tpy TypeInt64 then Some (64, KInt64) else None.

Lemma parse_int_type tpy w k val :
  int_width tpy = Some (w, k) ->
  parsePropertyValue tpy val = (i ← ParseInt (number_string val) w; Ok (VInt k i)).
Proof.
  unfold int_width, parsePropertyValue.
  destruct (eqs tpy TypeInt16); [intros [= <- <-]|destruct (eqs tpy TypeInt32); [intros [= <- <-]|]];
    [| |by destruct (eqs tpy TypeInt64); [intros [= <- <-]|]].
  all: destruct (ParseInt _ _) as [i| | |] eqn:E; try done; cbn; do 2 f_equal.
  all: apply swrap_small; [done|by eapply ParseInt_range].
Qed.

(** C36. An integer property takes exactly the integers of its width: the decimal
    text of any integer parses to that integer if it is in range and to a range
    error otherwise; a value that is not a number is an error; and whatever
    text parses, the result is in range. *)
Theorem property_integers tpy w k :
  int_width tpy = Some (w, k) ->
  (forall z, parsePropertyValue tpy (VNumber (FormatInt z)) =
     if bool_decide (in_s w z) then Ok (VInt k z) else Err ErrRange) /\
  (forall val, (forall s, val <> VNumber s) -> parsePropertyValue tpy val = Err ErrSyntax) /\
  (forall val v, parsePropertyValue tpy val = Ok v -> exists z, v = VInt k z /\ in_s w z).
Proof.
  intros Hw. split; [|split].
  - intros z. rewrite (parse_int_type _ _ _ _ Hw). cbn [number_string].
    rewrite ParseInt_FormatInt. by case_bool_decide.
  - intros val Hval. rewrite (parse_int_type _ _ _ _ Hw).
    replace (number_string val) with "" by (destruct val; try done; by destruct (Hval s)).
    done.
  - intros val v. rewrite (parse_int_type _ _ _ _ Hw), outcome_bind_ok.
    intros (i & Hi & [= <-]). eauto using ParseInt_range.
Qed.

(** What one property should become. *)
Definition parsed (cfgs : gmap string DeviceProperty) (k : string) (v : GoVal) : outcome GoVal :=
  match cfgs !! k with
  | Some cfg => parsePropertyValue (dp_Type cfg) v
  | None => Err ErrPropsConfigNotExist
  end.

Lemma parse_loop_ok cfgs props : forall res out,
  NoDup props.*1 ->
  parse_loop cfgs res props = Ok out <->
  (forall k, match (list_to_map props : gmap string GoVal) !! k with
             | Some v => exists w, parsed cfgs k v = Ok w /\ out !! k = Some w
             | None => out !! k = res !! k
             end).
Proof.
  induction props as [|[key val] props IH]; intros res out Hnd; cbn in *.
  { split; [by intros [= <-] k|]. intros H. f_equal. apply map_eq. intros k.
    specialize (H k). by rewrite lookup_empty in H. }
  apply NoDup_cons in Hnd as [Hk Hnd].
  apply (not_elem_of_list_to_map_1 (M := gmap string)) in Hk as Hnone.
  assert (Hhead : parsed cfgs key val = match cfgs !! key with
    | Some cfg => parsePropertyValue (dp_Type cfg) val | None => Err ErrPropsConfigNotExist end) by done.
  destruct (cfgs !! key) as [cfg|].
  2: { split; [done|]. intros H. specialize (H key). rewrite lookup_insert_eq in H.
       destruct H as (w & Hw & _). congruence. }
  rewrite outcome_bind_ok. split.
  - intros (w & Hw & H) k. rewrite IH in H by done. specialize (H k).
    destruct (decide (k = key)) as [->|Hne].
    + rewrite Hnone, lookup_insert_eq in H. rewrite lookup_insert_eq. exists w. split; congruence.
    + rewrite lookup_insert_ne by done. by rewrite (lookup_insert_ne res) in H by done.
  - intros H. pose proof (H key) as Hkey. rewrite lookup_insert_eq in Hkey.
    destruct Hkey as (w & Hw & Hout). exists w. split; [congruence|].
    apply IH; [done|]. intros k. specialize (H k).
    destruct (decide (k = key)) as [->|Hne].
    + by rewrite Hnone, lookup_insert_eq.
    + rewrite lookup_insert_ne in H by done. by rewrite (lookup_insert_ne res) by done.
Qed.

Context (Horder : forall m, order m ≡ₚ map_to_list m).

(** Parsing the properties of a device succeeds with [res] exactly when its
    model is known and every property is configured in it and parses by its
    configured type; [res] then holds the parsed value of each property and
    nothing else.  Neither depends on the order in which Go visits the map. *)
Theorem property_values models vals device props res :
  mget models (dev_DeviceModel device) = Some vals ->
  parsePropertyValues models device props = Ok (Some res) <->
  (forall k, match entries props !! k with
             | Some v => exists w, parsed (property_configs vals) k v = Ok w /\ res !! k = Some w
             | None => res !! k = None
             end).
Proof.
  intros Hm. unfold parsePropertyValues. rewrite Hm.
  assert (Hnd : NoDup (order (entries props)).*1).
  { rewrite (Horder _). apply NoDup_fst_map_to_list. }
  assert (Hl : list_to_map (order (entries props)) = entries props).
  { rewrite <- (list_to_map_to_list (entries props)) at 2.
    by apply list_to_map_proper, Horder. }
  pose proof (parse_loop_ok (property_configs vals) _ ∅ res Hnd) as Hp.
  rewrite Hl in Hp. etransitivity; [|exact Hp].
  destruct (parse_loop _ _ _); cbn; split; congruence || by intros [=].
Qed.
End properties.

(** ** Examples *)

Lemma property_integers_witness :
  (forall z, parsePropertyValue (fun _ _ => Err "") "int16" (VNumber (FormatInt z)) =
     if bool_decide (in_s 16 z) then Ok (VInt KInt16 z) else Err ErrRange) /\
  (forall val, (forall s, val <> VNumber s) ->
     parsePropertyValue (fun _ _ => Err "") "int16" val = Err ErrSyntax) /\
  (forall val v, parsePropertyValue (fun _ _ => Err "") "int16" val = Ok v ->
     exists z, v = VInt KInt16 z /\ in_s 16 z).
Proof. apply (property_integers (fun _ _ => Err "") "int16" 16 KInt16). reflexivity. Defined.

Example int16_texts :
  parsePropertyValue (fun _ _ => Err "") "int16" (VNumber "-32768") = Ok (VInt KInt16 (-32768)) /\
  parsePropertyValue (fun _ _ => Err "") "int16" (VNumber "32768") = Err ErrRange /\
  parsePropertyValue (fun _ _ => Err "") "int16" (VNumber "1.5") = Err ErrSyntax /\
  parsePropertyValue (fun _ _ => Err "") "int" (VNumber "1") = Err ErrTypeNotSupported.
Proof. repeat split; vm_compute; reflexivity. Qed.

Definition no_visitor : PropertyVisitor :=
  {| pv_Modbus := None; pv_Opcua := None; pv_Opcda := None; pv_Bacnet := None;
     pv_IEC104 := None; pv_Custom := None |}.
Definition property (name tpy : string) : DeviceProperty :=
  {| dp_Name := name; dp_Id := name; dp_Type := tpy; dp_Mode := "rw"; dp_Unit := "";
     dp_Visitor := no_visitor; dp_Format := "";
     dp_EnumType := {| et_Type := ""; et_Values := None |};
     dp_ArrayType := {| at__Type := ""; at__Min := 0; at__Max := 0; at__Format := "" |};
     dp_ObjectType := None; dp_ObjectRequired := None; dp_Current := VNil; dp_Expect := VNil |}.
Definition no_topic : QOSTopic := {| qt_QOS := 0; qt_Topic := "" |}.
Definition device (name model : string) : DeviceInfo :=
  {| dev_Name := name; dev_Version := ""; dev_Topic := {| top_Delta := no_topic;
       top_Report := no_topic; top_Event := no_topic; top_Get := no_topic;
       top_GetResponse := no_topic |};
     dev_DeviceModel := model; dev_AccessTemplate := "tpl";
     dev_DeviceTopic := {| dt_Delta := no_topic; dt_Report := no_topic; dt_Event := no_topic;
       dt_Get := no_topic; dt_GetResponse := no_topic; dt_EventReport := no_topic;
       dt_PropertyGet := no_topic; dt_LifecycleReport := no_topic |};
     dev_AccessConfig := None |}.

Definition model1 : gomap (goslice DeviceProperty) :=
  Some {["m" := Some [property "t" "int16"; property "on" "bool"]]}.

Lemma property_values_witness :
  parsePropertyValues (fun _ _ => Err "") map_to_list model1 (device "d" "m")
    (Some {["t" := VNumber "21"]}) = Ok (Some {["t" := VInt KInt16 21]}).
Proof.
  apply (property_values (fun _ _ => Err "") map_to_list (fun m => reflexivity _) model1
    (Some [property "t" "int16"; property "on" "bool"]) (device "d" "m")
    (Some {["t" := VNumber "21"]}) {["t" := VInt KInt16 21]}); [reflexivity|].
  intros k. unfold entries. cbn. destruct (decide (k = "t")) as [->|Hne].
  - rewrite !lookup_singleton_eq. eexists. split; reflexivity.
  - by rewrite !lookup_singleton_ne.
Defined.
