(* ===== verification/GoFloat.v ===== *)
(** * float64: exact results

    The number a float64 stands for, and when an operation gives the exact one. What
    IEEE 754 gives for whole numbers: a number below 2^53 is a float64, and so is the
    product of two when it is below 2^53. Arithmetic on float64 is that of SpecFloat. *)

From Stdlib Require Import ZArith Lia QArith SpecFloat.
From stdpp Require Import base option.
From S2P Require Import Prelude.

Local Open Scope Z_scope.

Definition f64_round (z : Z) : spec_float := binary_normalize 53 1024 z 0 false.
Definition f64_mul : spec_float -> spec_float -> spec_float := SFmul 53 1024.
Definition f64_div : spec_float -> spec_float -> spec_float := SFdiv 53 1024.

(** [uint64(f)]: the fraction is discarded; of other floats the result is up to the
    implementation, which the model gives as nothing. *)
Definition f64_to_uint64 (f : spec_float) : option Z :=
  match f with
  | S754_zero _ => Some 0
  | S754_finite false m e =>
      let z := Z.shiftl (Zpos m) e in if z <? 2 ^ 64 then Some z else None
  | _ => None
  end.
(** [int64(f)], likewise. *)
Definition f64_to_int64 (f : spec_float) : option Z :=
  match f with
  | S754_zero _ => Some 0
  | S754_finite s m e =>
      let z := cond_Zopp s (Z.shiftl (Zpos m) e) in
      if bool_decide (in_s 64 z) then Some z else None
  | _ => None
  end.

(** ** Numbers *)

(** The number a float stands for; none for the infinities and not-a-number. *)
Definition number (f : spec_float) : option Q :=
  match f with
  | S754_zero _ => Some 0%Q
  | S754_finite s m (Zneg e) => Some (Qmake (cond_Zopp s (Zpos m)) (2 ^ e))
  | S754_finite s m e => Some (inject_Z (cond_Zopp s (Zpos m) * 2 ^ e))
  | _ => None
  end.

(** [z] is what [op] gives for [x] and [y], with nothing rounded. *)
Definition exactly (op : Q -> Q -> Q) (x y z : spec_float) : bool :=
  match number x, number y, number z with
  | Some a, Some b, Some c => Qeq_bool (op a b) c
  | _, _, _ => false
  end.

Lemma exactly_number op x y z : exactly op x y z = true ->
  exists a b c, number x = Some a /\ number y = Some b /\ number z = Some c /\ (op a b == c)%Q.
Proof.
  unfold exactly. destruct (number x) as [a|], (number y) as [b|], (number z) as [c|]; try done.
  intros H%Qeq_bool_iff. eauto 8.
Qed.

(** Only the zeros stand for zero. *)
Lemma is_zero_number f q : number f = Some q -> SFeqb f (S754_zero false) = Qeq_bool q 0.
Proof.
  assert (Hz : forall s m, cond_Zopp s (Zpos m) <> 0) by (by intros []).
  destruct f as [s|s| |s m e]; cbn; [by intros [= <-]|done..|].
  unfold SFeqb, SFcompare. destruct e as [|e|e]; intros [= <-].
  all: replace (match if s then Lt else Gt with Eq => true | _ => false end) with false by (by destruct s).
  all: symmetry; apply not_true_iff_false; rewrite Qeq_bool_iff; unfold Qeq; cbn [Qnum Qden inject_Z].
  - specialize (Hz s m). lia.
  - assert (0 < 2 ^ Zpos e) by (by apply Z.pow_pos_nonneg). specialize (Hz s m). nia.
  - specialize (Hz s m). lia.
Qed.

(** ** Digits *)

Definition digits (p : positive) : Z := Zpos (digits2_pos p).

Lemma digits_spec p : 2 ^ (digits p - 1) <= Zpos p < 2 ^ digits p.
Proof.
  unfold digits. induction p as [p IH|p IH|]; cbn [digits2_pos].
  3: { cbn. lia. }
  all: rewrite Pos2Z.inj_succ; unfold Z.succ; replace (Z.pos (digits2_pos p) + 1 - 1)
    with (Z.succ (Z.pos (digits2_pos p) - 1)) by lia; rewrite Z.pow_succ_r by lia;
    rewrite Z.pow_add_r by lia; lia.
Qed.

Lemma digits_unique p d : 0 < d -> 2 ^ (d - 1) <= Zpos p < 2 ^ d -> digits p = d.
Proof.
  intros Hd Hp. pose proof (digits_spec p) as Hs.
  assert (0 < digits p) by (unfold digits; lia).
  assert (digits p - 1 < d) by (apply (Z.pow_lt_mono_r_iff 2); lia).
  assert (d - 1 < digits p) by (apply (Z.pow_lt_mono_r_iff 2); lia). lia.
Qed.

(** [p] moved [k] places to the left. *)
Definition shl_pos (p : positive) (k : Z) : positive := Z.to_pos (Zpos p * 2 ^ k).

Lemma shl_pos_Z p k : 0 <= k -> Zpos (shl_pos p k) = Zpos p * 2 ^ k.
Proof. intros Hk. unfold shl_pos. rewrite Z2Pos.id; [done|]. pose proof (pow2_pos k Hk). nia. Qed.

Lemma digits_shl p k : 0 <= k -> digits (shl_pos p k) = digits p + k.
Proof.
  intros Hk. pose proof (digits_spec p) as Hs. pose proof (pow2_pos k Hk).
  assert (0 < digits p) by (unfold digits; lia).
  apply digits_unique; [lia|]. rewrite shl_pos_Z by done.
  replace (digits p + k - 1) with (digits p - 1 + k) by lia. rewrite !Z.pow_add_r by lia. nia.
Qed.

Lemma digits_53 p : Zpos p < 2 ^ 53 -> 1 <= digits p <= 53.
Proof.
  intros Hp. pose proof (digits_spec p). assert (0 < digits p) by (unfold digits; lia).
  assert (digits p - 1 < 53) by (apply (Z.pow_lt_mono_r_iff 2); lia). lia.
Qed.

(** ** Rounding what needs no rounding *)

Lemma iter_pos_iter {A} (f : A -> A) p x : iter_pos f p x = Nat.iter (Pos.to_nat p) f x.
Proof.
  revert x. induction p as [p IH|p IH|]; intros x; cbn [iter_pos]; [| |done].
  - rewrite !IH, Pos2Nat.inj_xI, <- Nat.iter_add, <- Nat.iter_succ_r.
    do 2 f_equal. lia.
  - rewrite !IH, Pos2Nat.inj_xO, <- Nat.iter_add. do 2 f_equal. lia.
Qed.

Lemma shr_1_even m : shr_1 {| shr_m := 2 * m; shr_r := false; shr_s := false |}
  = {| shr_m := m; shr_r := false; shr_s := false |}.
Proof. by destruct m. Qed.

(** Zeros are shifted out without a trace. *)
Lemma shr_exact n m :
  Nat.iter n shr_1 {| shr_m := m * 2 ^ Z.of_nat n; shr_r := false; shr_s := false |}
  = {| shr_m := m; shr_r := false; shr_s := false |}.
Proof.
  induction n as [|n IH]; [cbn; f_equal; lia|].
  rewrite Nat.iter_succ_r, Nat2Z.inj_succ, Z.pow_succ_r by lia.
  replace (m * (2 * 2 ^ Z.of_nat n)) with (2 * (m * 2 ^ Z.of_nat n)) by lia.
  by rewrite shr_1_even.
Qed.

(** The float64 of a number of at most 53 digits: 53 digits and an exponent. *)
Definition f64_of (p : positive) : spec_float :=
  S754_finite false (shl_pos p (53 - digits p)) (digits p - 53).

Lemma shr_fexp_none m e : Zdigits2 m = 53 -> -1074 <= e ->
  shr_fexp 53 1024 m e loc_Exact = ({| shr_m := m; shr_r := false; shr_s := false |}, e).
Proof.
  intros Hm He. unfold shr_fexp, fexp, emin, shr. rewrite Hm.
  replace (Z.max (53 + e - 53) (3 - 1024 - 53) - e) with 0 by lia. done.
Qed.

(** A mantissa with [k] zeros more at its end is the same number. *)
Lemma binary_round_exact p e k : Zpos p < 2 ^ 53 -> 0 <= k ->
  digits p - 53 = e + k -> -1074 <= e + k ->
  binary_round_aux 53 1024 false (Zpos (shl_pos p (53 - digits p)) * 2 ^ k) e loc_Exact = f64_of p.
Proof.
  intros Hp Hk He Hmin. pose proof (digits_53 p Hp) as Hd. unfold binary_round_aux.
  set (m := shl_pos p (53 - digits p)). assert (Hm : digits m = 53)
    by (unfold m; rewrite digits_shl by lia; lia).
  rewrite <- shl_pos_Z by done.
  assert (Hs : shr_fexp 53 1024 (Zpos (shl_pos m k)) e loc_Exact
    = ({| shr_m := Zpos m; shr_r := false; shr_s := false |}, digits p - 53)).
  { unfold shr_fexp, fexp, emin, shr, shr_record_of_loc. cbn [Zdigits2].
    change (Zpos (digits2_pos (shl_pos m k))) with (digits (shl_pos m k)).
    rewrite digits_shl, Hm by done.
    replace (Z.max (53 + k + e - 53) (3 - 1024 - 53) - e) with k by lia.
    destruct k as [|k|k]; [| |lia].
    - f_equal; [|lia]. f_equal. rewrite shl_pos_Z by lia. lia.
    - f_equal; [|lia]. rewrite iter_pos_iter, shl_pos_Z by lia.
      rewrite <- (shr_exact (Pos.to_nat k) (Zpos m)). by rewrite positive_nat_Z. }
  rewrite Hs. cbn [shr_m loc_of_shr_record round_nearest_even].
  rewrite shr_fexp_none by (exact Hm || lia). cbn [shr_m].
  by rewrite (proj2 (Z.leb_le _ _)) by lia.
Qed.

Lemma iter_xO p k : Pos.iter xO p k = shl_pos p (Zpos k).
Proof.
  apply Pos2Z.inj. rewrite shl_pos_Z by lia.
  induction k as [|k IH] using Pos.peano_ind; [cbn; lia|].
  rewrite Pos.iter_succ, Pos2Z.inj_succ, Z.pow_succ_r, Pos2Z.inj_xO, IH by lia. lia.
Qed.

Lemma f64_round_exact p : Zpos p < 2 ^ 53 -> f64_round (Zpos p) = f64_of p.
Proof.
  intros Hp. pose proof (digits_53 p Hp) as Hd. unfold f64_round, binary_normalize, binary_round.
  change (Zpos (digits2_pos p)) with (digits p).
  assert (Hs : shl_align p 0 (fexp 53 1024 (digits p + 0)) = (shl_pos p (53 - digits p), digits p - 53)).
  { unfold shl_align, fexp, emin.
    replace (Z.max (digits p + 0 - 53) (3 - 1024 - 53) - 0) with (- (53 - digits p)) by lia.
    replace (Z.max (digits p + 0 - 53) (3 - 1024 - 53)) with (digits p - 53) by lia.
    destruct (53 - digits p) as [|k|k] eqn:E; [| |lia].
    - cbn. f_equal; [|lia]. apply Pos2Z.inj. rewrite shl_pos_Z by lia. lia.
    - cbn [Z.opp]. f_equal. apply iter_xO. }
  rewrite Hs. rewrite <- (binary_round_exact p (digits p - 53) 0); try lia; try done.
  by rewrite Z.mul_1_r.
Qed.

Lemma f64_mul_exact p q : Zpos (p * q) < 2 ^ 53 -> f64_mul (f64_of p) (f64_of q) = f64_of (p * q).
Proof.
  intros Hpq. rewrite Pos2Z.inj_mul in Hpq.
  pose proof (digits_53 p ltac:(nia)) as Hp. pose proof (digits_53 q ltac:(nia)) as Hq.
  pose proof (digits_spec p) as Dp. pose proof (digits_spec q) as Dq.
  pose proof (digits_spec (p * q)) as Dpq. rewrite Pos2Z.inj_mul in Dpq.
  pose proof (digits_53 (p * q)) as Hd. rewrite Pos2Z.inj_mul in Hd. specialize (Hd Hpq).
  assert (digits p + digits q - 2 < digits (p * q)).
  { apply (Z.pow_lt_mono_r_iff 2); [lia|lia|].
    replace (digits p + digits q - 2) with ((digits p - 1) + (digits q - 1)) by lia.
    rewrite Z.pow_add_r by lia. nia. }
  unfold f64_mul, SFmul, f64_of at 1 2. cbn [xorb].
  rewrite <- (binary_round_exact (p * q) (digits p - 53 + (digits q - 53))
    (digits (p * q) + 53 - digits p - digits q)); try lia.
  f_equal. rewrite Pos2Z.inj_mul, !shl_pos_Z by lia. rewrite Pos2Z.inj_mul.
  transitivity (Z.pos p * Z.pos q * (2 ^ (53 - digits p) * 2 ^ (53 - digits q))); [lia|].
  rewrite <- (Z.mul_assoc (Z.pos p * Z.pos q)), <- !Z.pow_add_r by lia. do 2 f_equal. lia.
Qed.

Lemma f64_of_uint64 p : Zpos p < 2 ^ 53 -> f64_to_uint64 (f64_of p) = Some (Zpos p).
Proof.
  intros Hp. pose proof (digits_53 p Hp) as Hd. unfold f64_to_uint64, f64_of.
  rewrite shl_pos_Z by lia.
  assert (Z.shiftl (Z.pos p * 2 ^ (53 - digits p)) (digits p - 53) = Z.pos p) as ->.
  { rewrite <- Z.shiftr_opp_r. replace (- (digits p - 53)) with (53 - digits p) by lia.
    rewrite Z.shiftr_div_pow2, Z.div_mul by (try apply Z.pow_nonzero; lia). done. }
  by rewrite (proj2 (Z.ltb_lt _ _)) by lia.
Qed.
