(* ===== verification/DmExpr.v ===== *)
(** * dmcontext/expression.go: mapping expressions

    Expressions are syntax trees of go/ast, which the goexpr library parses and
    evaluates (both parameters).  [SolveExpression] inverts an expression of one
    variable by reducing it to slope and offset.  The reduction is written over a
    class of arithmetics: [float64] is the one of the program; the rationals, where no
    rounding happens, are the one of the equation. A run of the program that rounds nothing
    is a run over the rationals, so that its result solves the equation. *)

From Stdlib Require Import ZArith Lia String SpecFloat QArith Qfield.
From stdpp Require Import base option list strings gmap fin_maps.
From S2P Require Import Prelude GoValue GoFloat.

Local Open Scope string_scope.
Local Open Scope Z_scope.
Local Open Scope list_scope.

(** ** Arithmetics *)

Class Arith (A : Type) := {
  a_zero : A;
  a_one : A;
  a_add : A -> A -> A;
  a_sub : A -> A -> A;
  a_mul : A -> A -> A;
  a_div : A -> A -> A;
  a_is_zero : A -> bool }.

#[export] Instance float64_Arith : Arith float64 := {|
  a_zero := S754_zero false;
  a_one := binary_normalize 53 1024 1 0 false;
  a_add := SFadd 53 1024;
  a_sub := SFsub 53 1024;
  a_mul := SFmul 53 1024;
  a_div := SFdiv 53 1024;
  a_is_zero := fun x => SFeqb x (S754_zero false) |}.

#[export] Instance Q_Arith : Arith Q := {|
  a_zero := 0%Q; a_one := 1%Q; a_add := Qplus; a_sub := Qminus; a_mul := Qmult;
  a_div := Qdiv; a_is_zero := fun x => Qeq_bool x 0 |}.

(** ** Syntax trees *)

Inductive Op := ADD | SUB | MUL | QUO | OtherOp.

Inductive node :=
  | Ident (name : string)
  | BinaryExpr (X : node) (op : Op) (Y : node)
  | ParenExpr (X : node)
  | BasicLit (Value : string)
  | OtherNode.

Definition ErrNotOne : error := "the number of variables in expression is not one".
Definition ErrSlopeZero : error := "the slope is zero after simple".
Definition ErrNotLinear : error := "only support linear equation".
Definition ErrDenominator : error := "denominator can not have a variable".
Definition ErrOperation : error := "unsupported binary operation".
Definition ErrNode : error := "unsupported node".

Section solve.
Context {A : Type} `{Arith A}.
(** strconv.ParseFloat(s, 64) *)
Context (ParseFloat : string -> outcome A).
(** goexpr.Parse: the variables of an expression, and its tree. *)
Context (Parse : string -> outcome (list string * node)).

(** The switch of [processBinaryExpr] *)
Definition combine (op : Op) (x y : A * A) : outcome (A * A) :=
  let '(xa, xb) := x in
  let '(ya, yb) := y in
  match op with
  | ADD => Ok (a_add xa ya, a_add xb yb)
  | SUB => Ok (a_sub xa ya, a_sub xb yb)
  | MUL =>
      if negb (a_is_zero xa) && negb (a_is_zero ya) then Err ErrNotLinear
      else Ok (a_add (a_mul xa yb) (a_mul xb ya), a_mul xb yb)
  | QUO =>
      if negb (a_is_zero ya) then Err ErrDenominator
      else Ok (a_div xa yb, a_div xb yb)
  | OtherOp => Err ErrOperation
  end.

(** [simpleExpression] and [processBinaryExpr]: slope and offset of a tree. *)
Fixpoint simpleExpression (n : node) : outcome (A * A) :=
  match n with
  | Ident _ => Ok (a_one, a_zero)
  | BinaryExpr X op Y =>
      x ← simpleExpression X;
      y ← simpleExpression Y;
      combine op x y
  | ParenExpr X => simpleExpression X
  | BasicLit value => offset ← ParseFloat value; Ok (a_zero, offset)
  | OtherNode => Err ErrNode
  end.

(** [func SolveExpression(e string, value float64) (float64, error)] *)
Definition SolveExpression (e : string) (value : A) : outcome A :=
  expression ← Parse e;
  let '(vars, ast) := expression in
  if negb (size (list_to_set vars : gset string) =? 1)%nat then Err ErrNotOne
  else
    '(slope, offset) ← simpleExpression ast;
    if a_is_zero slope then Err ErrSlopeZero
    else Ok (a_div (a_sub value offset) slope).

(** The value of a tree at [x], an error where it divides by zero. *)
Fixpoint eval (x : A) (n : node) : outcome A :=
  match n with
  | Ident _ => Ok x
  | BinaryExpr X op Y =>
      u ← eval x X;
      v ← eval x Y;
      match op with
      | ADD => Ok (a_add u v)
      | SUB => Ok (a_sub u v)
      | MUL => Ok (a_mul u v)
      | QUO => if a_is_zero v then Err "division by zero" else Ok (a_div u v)
      | OtherOp => Err ErrOperation
      end
  | ParenExpr X => eval x X
  | BasicLit value => ParseFloat value
  | OtherNode => Err ErrNode
  end.

(** No denominator of the tree is the constant zero. *)
Fixpoint divides_safely (n : node) : bool :=
  match n with
  | BinaryExpr X op Y =>
      divides_safely X && divides_safely Y &&
      match op, simpleExpression Y with
      | QUO, Ok (_, yb) => negb (a_is_zero yb)
      | _, _ => true
      end
  | ParenExpr X => divides_safely X
  | _ => true
  end.
End solve.

(** ** Solving over the rationals *)

Section rationals.
Local Open Scope Q_scope.
Context (ParseFloat : string -> outcome Q).
Context (Parse : string -> outcome (list string * node)).

Lemma is_zero_true (x : Q) : a_is_zero x = true -> x == 0.
Proof. apply Qeq_bool_iff. Qed.

Lemma is_zero_false (x : Q) : a_is_zero x = false -> ~ x == 0.
Proof. apply Qeq_bool_neq. Qed.

Lemma is_zero_eq (x y : Q) : x == y -> a_is_zero x = a_is_zero y.
Proof.
  intros Hxy. destruct (a_is_zero x) eqn:Hx, (a_is_zero y) eqn:Hy; try done.
  - apply is_zero_true in Hx. apply is_zero_false in Hy. destruct Hy. by rewrite <- Hxy.
  - apply is_zero_false in Hx. apply is_zero_true in Hy. destruct Hx. by rewrite Hxy.
Qed.

(** A reduced tree is the line of its slope and offset. *)
Lemma simple_is_line n a b x :
  divides_safely ParseFloat n = true -> simpleExpression ParseFloat n = Ok (a, b) ->
  exists y, eval ParseFloat x n = Ok y /\ y == a * x + b.
Proof.
  revert a b. induction n as [name|X IHX op Y IHY|X IH|value|]; intros a b Hd Hs; cbn in Hd, Hs.
  - injection Hs as <- <-. exists x. split; [done|]. cbn. ring.
  - boolify. apply outcome_bind_ok in Hs as ([xa xb] & Hx & Hs).
    apply outcome_bind_ok in Hs as ([ya yb] & Hy & Hs).
    destruct (IHX xa xb) as (u & Hu & Eu); [done..|].
    destruct (IHY ya yb) as (v & Hv & Ev); [done..|].
    cbn [eval]. rewrite Hu. cbn. rewrite Hv. cbn.
    match goal with H : match op with _ => _ end = true |- _ => rewrite Hy in H; rename H into Hyb end.
    destruct op; cbn in Hs.
    + injection Hs as <- <-. eexists. split; [done|]. rewrite Eu, Ev. cbn. ring.
    + injection Hs as <- <-. eexists. split; [done|]. rewrite Eu, Ev. cbn. ring.
    + destruct (Qeq_bool xa 0) eqn:Hxa; cbn in Hs.
      * injection Hs as <- <-. eexists. split; [done|].
        apply Qeq_bool_iff in Hxa. rewrite Eu, Ev, Hxa. ring.
      * destruct (Qeq_bool ya 0) eqn:Hya; cbn in Hs; [|done]. injection Hs as <- <-.
        eexists. split; [done|]. apply Qeq_bool_iff in Hya. rewrite Eu, Ev, Hya. ring.
    + destruct (Qeq_bool ya 0) eqn:Hya; cbn in Hs; [|done]. injection Hs as <- <-.
      cbn in Hyb. apply negb_true_iff in Hyb. apply Qeq_bool_iff in Hya.
      assert (Ev' : v == yb) by (rewrite Ev, Hya; ring).
      change (Qeq_bool v 0) with (a_is_zero v). rewrite (is_zero_eq _ _ Ev').
      cbn. rewrite Hyb. apply Qeq_bool_neq in Hyb.
      eexists. split; [done|]. rewrite Eu, Ev'. field. done.
    + done.
  - by apply IH.
  - apply outcome_bind_ok in Hs as (offset & Ho & [= <- <-]).
    cbn. exists offset. split; [done|]. ring.
  - done.
Qed.

(** A line that is not level takes each value at one point. *)
Lemma simple_solves n a b v :
  divides_safely ParseFloat n = true -> simpleExpression ParseFloat n = Ok (a, b) -> ~ a == 0 ->
  forall x, exists y, eval ParseFloat x n = Ok y /\ (y == v <-> x == (v - b) / a).
Proof.
  intros Hd Hs Ha x. destruct (simple_is_line n a b x Hd Hs) as (y & Hy & Ey).
  exists y. split; [done|]. rewrite Ey. split; intros H.
  - rewrite <- H. by field.
  - rewrite H. by field.
Qed.
End rationals.

(** ** Solving in float64 *)

Section floats.
Context (ParseFloat : string -> outcome float64).
Context (Parse : string -> outcome (list string * node)).

(** The number a literal stands for in the program, its nearest float64. *)
Definition ParseNumber (s : string) : outcome Q :=
  match ParseFloat s with
  | Ok f => match number f with Some q => Ok q | None => Err "not a number" end
  | Err e => Err e
  | Panic w => Panic w
  | NoFuel => NoFuel
  end.

Definition exact_add (x y : float64) : bool := exactly Qplus x y (a_add x y).
Definition exact_sub (x y : float64) : bool := exactly Qminus x y (a_sub x y).
Definition exact_mul (x y : float64) : bool := exactly Qmult x y (a_mul x y).
Definition exact_div (x y : float64) : bool :=
  negb (a_is_zero y) && exactly Qdiv x y (a_div x y).

(** [combine] rounds nothing and divides by no zero. *)
Definition combine_exact (op : Op) (x y : float64 * float64) : bool :=
  let '(xa, xb) := x in
  let '(ya, yb) := y in
  match op with
  | ADD => exact_add xa ya && exact_add xb yb
  | SUB => exact_sub xa ya && exact_sub xb yb
  | MUL => exact_mul xa yb && exact_mul xb ya && exact_add (a_mul xa yb) (a_mul xb ya) &&
           exact_mul xb yb
  | QUO => exact_div xa yb && exact_div xb yb
  | OtherOp => true
  end.

(** Nor does the reduction of a tree. *)
Fixpoint tree_exact (n : node) : bool :=
  match n with
  | BinaryExpr X op Y =>
      tree_exact X && tree_exact Y &&
      match simpleExpression ParseFloat X, simpleExpression ParseFloat Y with
      | Ok x, Ok y => combine_exact op x y
      | _, _ => true
      end
  | ParenExpr X => tree_exact X
  | BasicLit value => match ParseFloat value with Ok f => exact_add f a_zero | _ => true end
  | _ => true
  end.

(** Nor does [SolveExpression]. *)
Definition solution_exact (ast : node) (value : float64) : bool :=
  tree_exact ast &&
  match simpleExpression ParseFloat ast with
  | Ok (slope, offset) => exact_sub value offset && exact_div (a_sub value offset) slope
  | _ => true
  end.

(** A float stands for a number. *)
Definition stands (f : float64) (q : Q) : Prop := exists p, number f = Some p /\ (p == q)%Q.

Lemma stands_op op (f : Q -> Q -> Q) x y a b :
  Proper (Qeq ==> Qeq ==> Qeq) f -> exactly f x y (op x y) = true ->
  stands x a -> stands y b -> stands (op x y) (f a b).
Proof.
  intros Hf (p & q & c & Hp & Hq & Hc & He)%exactly_number (p' & Hp' & Ea) (q' & Hq' & Eb).
  rewrite Hp in Hp'. injection Hp' as <-. rewrite Hq in Hq'. injection Hq' as <-.
  exists c. split; [done|]. rewrite <- He. by apply Hf.
Qed.

Lemma stands_add x y a b : exact_add x y = true -> stands x a -> stands y b -> stands (a_add x y) (a + b)%Q.
Proof. apply (stands_op a_add Qplus); apply _. Qed.
Lemma stands_sub x y a b : exact_sub x y = true -> stands x a -> stands y b -> stands (a_sub x y) (a - b)%Q.
Proof. apply (stands_op a_sub Qminus); apply _. Qed.
Lemma stands_mul x y a b : exact_mul x y = true -> stands x a -> stands y b -> stands (a_mul x y) (a * b)%Q.
Proof. apply (stands_op a_mul Qmult); apply _. Qed.
Lemma stands_div x y a b : exact_div x y = true -> stands x a -> stands y b -> stands (a_div x y) (a / b)%Q.
Proof. intros [_ H]%andb_true_iff. apply (stands_op a_div Qdiv); [apply _|done]. Qed.

Lemma stands_zero x a : stands x a -> a_is_zero x = a_is_zero a.
Proof.
  intros (p & Hp & Ea). cbn. rewrite (is_zero_number x p Hp). by apply is_zero_eq.
Qed.

Definition stands2 (x : float64 * float64) (a : Q * Q) : Prop :=
  stands (fst x) (fst a) /\ stands (snd x) (snd a).

(** What rounds nothing does what is done over the rationals, errors included. *)
Lemma combine_stands op x y a b z :
  combine_exact op x y = true -> stands2 x a -> stands2 y b -> combine op x y = Ok z ->
  exists c, combine op a b = Ok c /\ stands2 z c.
Proof.
  destruct x as [xa xb], y as [ya yb], a as [ua ub], b as [va vb].
  intros He [Hxa Hxb] [Hya Hyb]. cbn [fst snd] in *.
  destruct op; cbn [combine combine_exact] in *; boolify; intros Hz; [..|done].
  - injection Hz as <-. eexists. split; [done|]. split; by apply stands_add.
  - injection Hz as <-. eexists. split; [done|]. split; by apply stands_sub.
  - rewrite (stands_zero xa ua), (stands_zero ya va) in Hz by done.
    destruct (negb (a_is_zero ua) && negb (a_is_zero va)); [done|]. injection Hz as <-.
    eexists. split; [done|]. split; cbn [fst snd].
    + apply stands_add; [done|by apply stands_mul..].
    + by apply stands_mul.
  - rewrite (stands_zero ya va) in Hz by done. destruct (negb (a_is_zero va)); [done|].
    injection Hz as <-. eexists. split; [done|]. split; by apply stands_div.
Qed.

Lemma simple_stands n : forall z, tree_exact n = true -> simpleExpression ParseFloat n = Ok z ->
  exists c, simpleExpression ParseNumber n = Ok c /\ stands2 z c /\ divides_safely ParseNumber n = true.
Proof.
  induction n as [name|X IHX op Y IHY|X IH|value|]; intros z He Hs; cbn [tree_exact simpleExpression] in He, Hs.
  - injection Hs as <-. eexists. split; [done|]. split; [|done]. by split; eexists.
  - boolify. apply outcome_bind_ok in Hs as (x & Hx & Hs). apply outcome_bind_ok in Hs as (y & Hy & Hs).
    destruct (IHX x) as (a & Ha & Sa & Da); [done..|]. destruct (IHY y) as (b & Hb & Sb & Db); [done..|].
    match goal with H : match simpleExpression _ _ with _ => _ end = true |- _ =>
      rewrite Hx, Hy in H; rename H into Hc end.
    destruct (combine_stands op x y a b z Hc Sa Sb Hs) as (c & Hcc & Sc). exists c.
    cbn [simpleExpression divides_safely]. rewrite Ha, Hb, Da, Db. split; [done|]. split; [done|].
    destruct op, b as [ya yb]; try done. destruct x as [xa xb], y as [fa fb].
    cbn [combine_exact] in Hc. apply andb_true_iff in Hc as [Hc _]. apply andb_true_iff in Hc as [Hc _].
    destruct Sb as [_ Sb]. cbn [snd] in Sb. rewrite (stands_zero fb yb Sb) in Hc. cbn [andb]. by rewrite Hc.
  - by apply IH.
  - apply outcome_bind_ok in Hs as (f & Hf & [= <-]). rewrite Hf in He.
    apply exactly_number in He as (q & _ & _ & Hq & _). exists (0, q)%Q.
    cbn [simpleExpression divides_safely]. unfold ParseNumber. rewrite Hf, Hq.
    split; [done|]. split; [|done]. split; [by exists 0%Q|by exists q].
  - done.
Qed.

(** C37. The one solution: when [SolveExpression] returns [r] for a value, and none of its
    float64 operations rounds or divides by zero, the float [r] stands for a number at which
    the expression has exactly that value, in exact arithmetic, and there is no other such
    number; the expression is one of a single variable. *)
Theorem solve_expression_solves e value r vars ast :
  Parse e = Ok (vars, ast) -> SolveExpression ParseFloat Parse e value = Ok r ->
  solution_exact ast value = true ->
  (exists x, forall v, v ∈ vars <-> v = x) /\
  exists q v, number r = Some q /\ number value = Some v /\
    forall x, exists y, eval ParseNumber x ast = Ok y /\ (y == v <-> x == q)%Q.
Proof.
  unfold SolveExpression, solution_exact. intros -> Hr He. cbn in Hr.
  destruct (_ =? 1)%nat eqn:Hn in Hr; cbn in Hr; [|done].
  apply outcome_bind_ok in Hr as ([a b] & Hs & Hr). rewrite Hs in He. boolify. split.
  { apply Nat.eqb_eq, size_1_elem_of in Hn as [x Hx]. exists x. intros v.
    specialize (Hx v). rewrite elem_of_list_to_set, elem_of_singleton in Hx. done. }
  destruct (simple_stands ast (a, b)) as ([a' b'] & Hs' & [Sa Sb] & Hd); [done..|]. cbn [fst snd] in Sa, Sb.
  change (SFeqb a (S754_zero false)) with (a_is_zero a) in Hr. rewrite (stands_zero a a' Sa) in Hr.
  destruct (a_is_zero a') eqn:Ha; [done|]. injection Hr as <-. apply is_zero_false in Ha.
  match goal with H : exact_sub value b = true |- _ => pose proof H as Hsub end.
  apply exactly_number in Hsub as (v & _ & _ & Hv & _).
  assert (Sv : stands value v) by by exists v.
  destruct (stands_div (a_sub value b) a (v - b') a') as (q & Hq & Eq); [done|by apply stands_sub|done|].
  exists q, v. split; [done|]. split; [done|]. intros x.
  destruct (simple_solves ParseNumber ast a' b' v Hd Hs' Ha x) as (y & Hy & Ey).
  exists y. split; [done|]. by rewrite Ey, Eq.
Qed.
End floats.

(** ** Values of mappings *)

Definition MappingNone : string := "none".
Definition MappingValue : string := "value".
Definition MappingCalculate : string := "calculate".
Definition ErrUnknownMappingType : error := "unknown mapping type".
Definition ErrUnsupportedValueType : error := "unsupported value type".

Section mapping.
Context (Parse : string -> outcome (list string * node)).
(** goexpr.Evaluate *)
Context (Evaluate : node -> gmap string float64 -> outcome float64).
(** A float32 printed with the fewest digits and read as a float64. *)
Context (float32_text : spec_float -> outcome float64).
(** A float64 printed with a number of decimals and read again. *)
Context (to_precision : Z -> float64 -> outcome float64).

(** [func parseValueToFloat64(v interface{}) (float64, error)] *)
Definition parseValueToFloat64 (v : GoVal) : outcome float64 :=
  match v with
  | VInt KInt z | VInt KInt16 z | VInt KInt32 z | VInt KInt64 z =>
      Ok (binary_normalize 53 1024 z 0 false)
  | VFloat32 f => float32_text f
  | VFloat64 f => Ok f
  | _ => Err ErrUnsupportedValueType
  end.

(** [func ParseExpression(e string) ([]string, error)] *)
Definition ParseExpression (e : string) : outcome (list string) :=
  if String.eqb e "" then Ok []
  else expression ← Parse e; Ok (fst expression).

Definition processValueMappingWithPrecision (e : string) (args : gomap GoVal)
    (precision : Z) : outcome GoVal :=
  '(vars, _) ← Parse e;
  match vars with
  | [v] =>
      match mget args v with
      | Some val =>
          if precision <=? 0 then Ok val
          else match parseValueToFloat64 val with
               | Ok originValue => VFloat64 <$> to_precision precision originValue
               | Err err => if String.eqb err ErrUnsupportedValueType then Ok val else Err err
               | Panic w => Panic w
               | NoFuel => NoFuel
               end
      | None => Err ("missing argument:" +:+ v)
      end
  | _ => Err "mapping type equal can only have one variable"
  end.

Fixpoint calc_args (args : gomap GoVal) (acc : gmap string float64) (vars : list string)
    : outcome (gmap string float64) :=
  match vars with
  | [] => Ok acc
  | v :: vars =>
      match mget args v with
      | None => Err ("missing variable:" +:+ v)
      | Some a => val ← parseValueToFloat64 a; calc_args args (<[v := val]> acc) vars
      end
  end.

Definition processCalcMappingWithPrecision (e : string) (args : gomap GoVal)
    (precision : Z) : outcome GoVal :=
  '(vars, ast) ← Parse e;
  parseArgs ← calc_args args ∅ vars;
  res ← Evaluate ast parseArgs;
  if 0 <? precision then VFloat64 <$> to_precision precision res
  else Ok (VFloat64 res).

Definition processValueMapping e args := processValueMappingWithPrecision e args (-1).
Definition processCalcMapping e args := processCalcMappingWithPrecision e args (-1).

(** [func ExecExpressionWithPrecision(e, args, mappingType, precision)] *)
Definition ExecExpressionWithPrecision (e : string) (args : gomap GoVal)
    (mappingType : string) (precision : Z) : outcome GoVal :=
  if String.eqb mappingType MappingNone then Ok VNil
  else if String.eqb mappingType MappingValue then processValueMappingWithPrecision e args precision
  else if String.eqb mappingType MappingCalculate then processCalcMappingWithPrecision e args precision
  else Err ErrUnknownMappingType.

Definition ExecExpression (e : string) (args : gomap GoVal) (mappingType : string) : outcome GoVal :=
  ExecExpressionWithPrecision e args mappingType (-1).

Definition convertible (args : gomap GoVal) (v : string) : Prop :=
  exists a f, mget args v = Some a /\ parseValueToFloat64 a = Ok f.

Lemma calc_args_ok args vars : forall acc,
  Forall (convertible args) vars ->
  exists m, calc_args args acc vars = Ok m /\
    (forall v, m !! v = if decide (v ∈ vars) then
                          match mget args v with
                          | Some a => match parseValueToFloat64 a with Ok f => Some f | _ => None end
                          | None => None
                          end
                        else acc !! v).
Proof.
  induction vars as [|v vars IH]; intros acc; cbn.
  { intros _. exists acc. split; [done|]. intros v. by rewrite decide_False by set_solver. }
  intros [(a & f & Ha & Hf) Hvs]%Forall_cons. rewrite Ha, Hf. cbn.
  destruct (IH (<[v := f]> acc) Hvs) as (m & -> & Hm). exists m. split; [done|].
  intros w. rewrite Hm. destruct (decide (w ∈ vars)).
  - by rewrite decide_True by set_solver.
  - destruct (decide (w = v)) as [->|Hne].
    + rewrite decide_True by set_solver. by rewrite lookup_insert_eq, Ha, Hf.
    + rewrite decide_False by set_solver. by rewrite lookup_insert_ne.
Qed.

(** Executing a calculation hands the library exactly the variables of the
    expression, each with the float of its argument, and returns its result as a
    float; it fails before evaluating if some variable has no number. *)
Theorem calculation_arguments e args vars ast :
  Parse e = Ok (vars, ast) ->
  (Forall (convertible args) vars ->
     exists m, dom m = list_to_set vars /\
       (forall v f, m !! v = Some f -> exists a, mget args v = Some a /\ parseValueToFloat64 a = Ok f) /\
       ExecExpression e args MappingCalculate = (VFloat64 <$> Evaluate ast m)) /\
  (~ Forall (convertible args) vars ->
     forall r, ExecExpression e args MappingCalculate <> Ok r).
Proof.
  intros Hp. unfold ExecExpression, ExecExpressionWithPrecision. cbn.
  unfold processCalcMappingWithPrecision. rewrite Hp. cbn. split.
  - intros Hc. destruct (calc_args_ok args vars ∅ Hc) as (m & Hm & Hl). exists m.
    rewrite Forall_forall in Hc. split; [|split].
    + apply set_eq. intros v. rewrite elem_of_dom, elem_of_list_to_set, Hl.
      destruct (decide (v ∈ vars)) as [Hv|Hv].
      * destruct (Hc v Hv) as (a & f & -> & ->). split; eauto.
      * rewrite lookup_empty. split; [by intros []|done].
    + intros v f. rewrite Hl. case_decide; [|by rewrite lookup_empty].
      destruct (mget args v); [|done]. destruct (parseValueToFloat64 g) eqn:?; [|done..].
      intros [= <-]. eauto.
    + rewrite Hm. cbn. by destruct (Evaluate ast m).
  - intros Hn r Hr. apply Hn. apply outcome_bind_ok in Hr as (m & Hm & _). clear Hn.
    revert m Hm. generalize (∅ : gmap string float64). clear Hp.
    induction vars as [|v vars IH]; intros acc m Hm; [constructor|]. cbn in Hm.
    destruct (mget args v) as [a|] eqn:Ha; [|done].
    apply outcome_bind_ok in Hm as (f & Hf & Hm).
    constructor; [by exists a, f|by eapply IH].
Qed.
End mapping.

(** ** Examples *)

(** The expression (x1+1)*3+x1*2+1 of the documentation. *)
Definition doc_ast : node :=
  BinaryExpr
    (BinaryExpr
       (BinaryExpr (ParenExpr (BinaryExpr (Ident "x1") ADD (BasicLit "1"))) MUL (BasicLit "3"))
       ADD (BinaryExpr (Ident "x1") MUL (BasicLit "2")))
    ADD (BasicLit "1").

Definition literal {A} (of_Z : Z -> A) (s : string) : outcome A :=
  if String.eqb s "0" then Ok (of_Z 0) else if String.eqb s "1" then Ok (of_Z 1)
  else if String.eqb s "2" then Ok (of_Z 2) else if String.eqb s "3" then Ok (of_Z 3)
  else Err "invalid syntax".

Definition float_of (z : Z) : float64 := binary_normalize 53 1024 z 0 false.

Definition parse_doc (e : string) : outcome (list string * node) :=
  if String.eqb e "x1/0" then Ok (["x1"], BinaryExpr (Ident "x1") QUO (BasicLit "0"))
  else Ok (["x1"; "x1"], doc_ast).

Lemma solve_expression_solves_witness :
  exists q v, number (float_of 1) = Some q /\ number (float_of 9) = Some v /\
    forall x, exists y, eval (ParseNumber (literal float_of)) x doc_ast = Ok y /\ (y == v <-> x == q)%Q.
Proof.
  apply (solve_expression_solves (literal float_of) parse_doc "(x1+1)*3+x1*2+1" (float_of 9)
    (float_of 1) ["x1"; "x1"] doc_ast); vm_compute; reflexivity.
Defined.

(** A zero denominator is not refused, and the solution is not a number. A slope of three
    rounds the solution of 1: what is returned does not solve the equation exactly. *)
Definition thrice : node := BinaryExpr (Ident "x1") MUL (BasicLit "3").
Definition third : float64 := a_div (float_of 1) (float_of 3).

Example solve_in_floats :
  SolveExpression (literal float_of) parse_doc "x1/0" (float_of 9) = Ok S754_nan /\
  SolveExpression (literal float_of) (fun _ => Ok (["x1"], thrice)) "x1*3" (float_of 1) = Ok third /\
  solution_exact (literal float_of) thrice (float_of 1) = false /\
  (exists q y, number third = Some q /\
     eval (ParseNumber (literal float_of)) q thrice = Ok y /\ Qeq_bool y 1 = false).
Proof.
  split; [vm_compute; reflexivity|]. split; [vm_compute; reflexivity|].
  split; [vm_compute; reflexivity|].
  eexists _, _. split; [vm_compute; reflexivity|]. split; vm_compute; reflexivity.
Qed.

Lemma calculation_arguments_witness :
  let args := Some {["x1" := VInt KInt 2]} in
  let evaluate (_ : node) (m : gmap string float64) :=
    match m !! "x1" with Some f => Ok f | None => Err "unbound" end in
  (Forall (convertible Ok args) ["x1"; "x1"] ->
     exists m, dom m = list_to_set ["x1"; "x1"] /\
       (forall v f, m !! v = Some f ->
          exists a, mget args v = Some a /\ parseValueToFloat64 Ok a = Ok f) /\
       ExecExpression parse_doc evaluate Ok (fun _ => Ok) "e" args MappingCalculate =
         (VFloat64 <$> evaluate doc_ast m)) /\
  (~ Forall (convertible Ok args) ["x1"; "x1"] ->
     forall r, ExecExpression parse_doc evaluate Ok (fun _ => Ok) "e" args MappingCalculate <> Ok r).
Proof.
  apply (calculation_arguments parse_doc
    (fun _ m => match m !! "x1" with Some f => Ok f | None => Err "unbound" end) Ok
    (fun _ => Ok) "e" (Some {["x1" := VInt KInt 2]}) ["x1"; "x1"] doc_ast).
  reflexivity.
Defined.
