(* ===== verification/DmObserver.v ===== *)
(** * dmcontext/observer.go: routing device messages

    The topics of device messages are parsed by two regular expressions, each a
    sequence of literals and groups [(.+)].  A small matcher with the leftmost,
    greedy semantics of package regexp runs them. *)

From Stdlib Require Import ZArith Lia Ascii String.
From stdpp Require Import base option list strings gmap fin_maps.
From S2P Require Import Prelude MqttPacket.

Local Open Scope string_scope.
Local Open Scope list_scope.

(** ** The regular expressions *)

Inductive re := Lit (s : string) | Group.

Definition newline : ascii := "010".

Fixpoint drop_prefix (p s : string) : option string :=
  match p, s with
  | EmptyString, _ => Some s
  | String c p, String d s => if Ascii.eqb c d then drop_prefix p s else None
  | String _ _, EmptyString => None
  end.

(** A group [(.+)] followed by [k]: the longest text without newline after which
    [k] matches. *)
Fixpoint group (k : string -> option (list string)) (s : string)
    : option (string * list string) :=
  match s with
  | EmptyString => None
  | String c s =>
      if Ascii.eqb c newline then None
      else match group k s with
           | Some (g, gs) => Some (String c g, gs)
           | None => match k s with
                     | Some gs => Some (char_str c, gs)
                     | None => None
                     end
           end
  end.

(** The groups of a match that starts here. *)
Fixpoint match_here (pat : list re) (s : string) : option (list string) :=
  match pat with
  | [] => Some []
  | Lit l :: pat => match drop_prefix l s with Some s => match_here pat s | None => None end
  | Group :: pat =>
      match group (match_here pat) s with Some (g, gs) => Some (g :: gs) | None => None end
  end.

(** [r.FindStringSubmatch(s)], without the whole match: the leftmost match. *)
Fixpoint FindStringSubmatch (pat : list re) (s : string) : option (list string) :=
  match match_here pat s with
  | Some gs => Some gs
  | None => match s with
            | EmptyString => None
            | String _ s => FindStringSubmatch pat s
            end
  end.

(** ** Topics *)

Definition DeviceTopicRe : list re := [Lit "$baetyl/device/"; Group; Lit "/"; Group].
Definition BlinkDeviceTopicRe : list re :=
  [Lit "thing/"; Group; Lit "/"; Group; Lit "/"; Group; Lit "/"; Group].
Definition BaetylTopicPrefix : string := "$".
Definition ErrIllegalTopic : error := "illegal topic can not parse".

Definition ParseTopic (topic : string) : outcome string :=
  match FindStringSubmatch DeviceTopicRe topic with
  | Some [device; _] => Ok device
  | _ => Err ErrIllegalTopic
  end.

Definition parseBlinkTopic (topic : string) : outcome string :=
  match FindStringSubmatch BlinkDeviceTopicRe topic with
  | Some [_; device; _; _] => Ok device
  | _ => Err ErrIllegalTopic
  end.

Definition ParseDeviceTopic (topic : string) : outcome string :=
  if HasPrefix topic BaetylTopicPrefix then ParseTopic topic else parseBlinkTopic topic.

(** ** The observer *)

Section observer.
(** Messages, and json.Unmarshal on a payload. *)
Context {Message : Type} (Unmarshal : list byte -> outcome Message).

(** The channels of the devices, oldest message first; each has room for 1024. *)
Definition channel_size : nat := 1024.

(** [o.OnPublish(pkt)], which never returns an error: the channels afterwards. *)
Definition OnPublish (chs : gmap string (list Message)) (pkt : PubMessage)
    : gmap string (list Message) :=
  match ParseDeviceTopic (Topic pkt) with
  | Ok device =>
      match Unmarshal (Payload pkt) with
      | Ok msg =>
          match chs !! device with
          | Some ch =>
              if (length ch <? channel_size)%nat then <[device := ch ++ [msg]]> chs else chs
          | None => chs
          end
      | _ => chs
      end
  | _ => chs
  end.

(** ** Lemmas on the matcher *)

Fixpoint slashes (s : string) : nat :=
  match s with
  | EmptyString => 0
  | String c s => (if Ascii.eqb c "/" then 1 else 0) + slashes s
  end.

Fixpoint pat_slashes (pat : list re) : nat :=
  match pat with
  | [] => 0
  | Lit l :: pat => slashes l + pat_slashes pat
  | Group :: pat => pat_slashes pat
  end.

Lemma slashes_app s t : slashes (s +:+ t) = slashes s + slashes t.
Proof. induction s as [|c s IH]; [done|]. rewrite append_cons. cbn. rewrite IH. lia. Qed.

Lemma drop_prefix_app p s : drop_prefix p (p +:+ s) = Some s.
Proof.
  induction p as [|c p IH]; [done|]. rewrite append_cons. cbn. by rewrite Ascii.eqb_refl.
Qed.

Lemma drop_prefix_Some p s t : drop_prefix p s = Some t -> s = p +:+ t.
Proof.
  revert s. induction p as [|c p IH]; intros s; [by intros [= ->]|].
  destruct s as [|d s]; cbn; [done|]. destruct (Ascii.eqb c d) eqn:E; [|done]. apply Ascii.eqb_eq in E as ->.
  intros ->%IH. by rewrite append_cons.
Qed.

Lemma group_slashes k n s g gs :
  (forall t hs, k t = Some hs -> n <= slashes t) -> group k s = Some (g, gs) -> n <= slashes s.
Proof.
  intros Hk. revert g gs. induction s as [|c s IH]; intros g gs; cbn; [done|].
  destruct (Ascii.eqb c newline); [done|].
  destruct (group k s) as [[g' gs']|].
  - intros _. specialize (IH _ _ eq_refl). lia.
  - destruct (k s) as [hs|] eqn:E; [|done]. intros _. specialize (Hk _ _ E). lia.
Qed.

(** A match needs the slashes of its literals. *)
Lemma match_slashes pat s gs : match_here pat s = Some gs -> pat_slashes pat <= slashes s.
Proof.
  revert s gs. induction pat as [|[l|] pat IH]; intros s gs; cbn; [lia| |].
  - destruct (drop_prefix l s) as [t|] eqn:E; [|done].
    apply drop_prefix_Some in E as ->. rewrite slashes_app. intros ?%IH. lia.
  - destruct (group _ s) as [[g hs]|] eqn:E; [|done]. intros _.
    by eapply group_slashes.
Qed.

Lemma group_none k n s :
  (forall t hs, k t = Some hs -> n <= slashes t) -> slashes s < n -> group k s = None.
Proof.
  intros Hk Hs. destruct (group k s) as [[g gs]|] eqn:E; [|done].
  pose proof (group_slashes k n s g gs Hk E). lia.
Qed.

(** A group before a slash takes everything up to it, when what follows has just
    the slashes the rest of the pattern needs. *)
Lemma group_up_to pat a s gs :
  a <> "" -> has_char newline a = false ->
  slashes s = pat_slashes pat -> match_here pat s = Some gs ->
  match_here (Group :: Lit "/" :: pat) (a +:+ "/" +:+ s) = Some (a :: gs).
Proof.
  intros Ha Hnl Hs Hm. set (k := match_here (Lit "/" :: pat)).
  assert (Hk : k ("/" +:+ s) = Some gs).
  { subst k. cbn [match_here]. by rewrite drop_prefix_app. }
  assert (Hnone : group k ("/" +:+ s) = None).
  { change ("/" +:+ s) with (String "/" s). cbn [group].
    change (Ascii.eqb "/" newline) with false. cbn iota.
    assert (Hlt : forall t hs, k t = Some hs -> S (slashes s) <= slashes t).
    { intros t hs Ht%match_slashes.
      change (pat_slashes (Lit "/" :: pat)) with (S (pat_slashes pat)) in Ht. lia. }
    rewrite (group_none k (S (slashes s))) by (done || lia).
    destruct (k s) as [hs|] eqn:E; [|done]. apply Hlt in E. lia. }
  assert (Hg : group k (a +:+ "/" +:+ s) = Some (a, gs)).
  { clear Hm Hs. induction a as [|c a IH]; [done|]. rewrite append_cons. cbn [group].
    cbn in Hnl. apply orb_false_iff in Hnl as [Hc Hnl]. rewrite Ascii.eqb_sym, Hc.
    destruct a as [|d a].
    - rewrite append_nil, Hnone, Hk. done.
    - by rewrite IH. }
  change (match_here (Group :: Lit "/" :: pat) (a +:+ "/" +:+ s)) with
    (match group k (a +:+ "/" +:+ s) with Some (g, gs) => Some (g :: gs) | None => None end).
  by rewrite Hg.
Qed.

Lemma group_to_end a :
  a <> "" -> has_char newline a = false -> match_here [Group] a = Some [a].
Proof.
  intros Ha Hnl. cbn.
  assert (Hg : group (fun _ => Some []) a = Some (a, [])).
  { induction a as [|c a IH]; [done|]. cbn in Hnl. apply orb_false_iff in Hnl as [Hc Hnl].
    cbn [group]. rewrite Ascii.eqb_sym, Hc. destruct a as [|d a]; [done|]. by rewrite IH. }
  by rewrite Hg.
Qed.

Lemma match_lit l pat s : match_here (Lit l :: pat) (l +:+ s) = match_here pat s.
Proof. cbn. by rewrite drop_prefix_app. Qed.

Lemma find_here pat s gs : match_here pat s = Some gs -> FindStringSubmatch pat s = Some gs.
Proof. intros H. destruct s; cbn [FindStringSubmatch]; by rewrite H. Qed.

(** A level of a topic: not empty, without slash or newline. *)
Definition level (s : string) : Prop :=
  s <> "" /\ has_char newline s = false /\ slashes s = 0.

(** The device of a message: in [$baetyl/device/D/k] it is [D], all that
    stands before the last slash; in [thing/P/D/x/y] it is the level before the
    last two, whatever levels the product [P] has. *)
Theorem device_of_topic :
  (forall d k, d <> "" -> has_char newline d = false -> level k ->
     ParseDeviceTopic ("$baetyl/device/" +:+ d +:+ "/" +:+ k) = Ok d) /\
  (forall p d x y, p <> "" -> has_char newline p = false -> level d -> level x -> level y ->
     ParseDeviceTopic ("thing/" +:+ p +:+ "/" +:+ d +:+ "/" +:+ x +:+ "/" +:+ y) = Ok d).
Proof.
  split.
  - intros d k Hd Hdn (Hk & Hkn & Hks). unfold ParseDeviceTopic.
    change (HasPrefix _ _) with true. cbn iota. unfold ParseTopic.
    rewrite (find_here _ _ [d; k]); [done|].
    unfold DeviceTopicRe. rewrite match_lit.
    apply (group_up_to [Group] d k [k]); [done..|by apply group_to_end].
  - intros p d x y Hp Hpn (Hd & Hdn & Hds) (Hx & Hxn & Hxs) (Hy & Hyn & Hys).
    unfold ParseDeviceTopic. change (HasPrefix _ _) with false. cbn iota.
    unfold parseBlinkTopic. rewrite (find_here _ _ [p; d; x; y]); [done|].
    unfold BlinkDeviceTopicRe.
    rewrite match_lit.
    apply group_up_to; [done..|rewrite !slashes_app; change (slashes "/") with 1; cbn [pat_slashes];
      change (slashes "/") with 1; lia|].
    apply group_up_to; [done..|rewrite !slashes_app; change (slashes "/") with 1; cbn [pat_slashes];
      change (slashes "/") with 1; lia|].
    apply group_up_to; [done..|by apply group_to_end].
Qed.

(** A message only ever reaches the channel of the device its topic names, at
    its end and at most once; the other channels, and the channel of a topic or
    payload that does not parse, keep their messages; no channel grows beyond
    its size. *)
Theorem message_routed (chs : gmap string (list Message)) pkt dev :
  map_Forall (fun _ ch => length ch <= channel_size) chs ->
  map_Forall (fun _ ch => length ch <= channel_size) (OnPublish chs pkt) /\
  dom (OnPublish chs pkt) = dom chs /\
  (OnPublish chs pkt !! dev = chs !! dev \/
   ParseDeviceTopic (Topic pkt) = Ok dev /\
   exists msg ch, Unmarshal (Payload pkt) = Ok msg /\ chs !! dev = Some ch /\
     OnPublish chs pkt !! dev = Some (ch ++ [msg])).
Proof.
  intros Hb. unfold OnPublish.
  destruct (ParseDeviceTopic (Topic pkt)) as [device| | |] eqn:Hd; auto.
  destruct (Unmarshal (Payload pkt)) as [msg| | |] eqn:Hu; auto.
  destruct (chs !! device) as [ch|] eqn:Hc; auto.
  destruct (length ch <? channel_size)%nat eqn:Hl; auto. apply Nat.ltb_lt in Hl.
  split; [|split].
  - apply map_Forall_insert_2; [rewrite length_app; cbn; lia|done].
  - apply dom_insert_lookup_L. eauto.
  - destruct (decide (dev = device)) as [->|Hne].
    + right. split; [done|]. exists msg, ch. by rewrite lookup_insert_eq.
    + left. by rewrite lookup_insert_ne.
Qed.

End observer.

(** ** Examples *)

(** One more level and the wrong one is taken for the device; the same topic
    under the other prefix is not cut. *)
Example longer_topics :
  ParseDeviceTopic "thing/product/dev/property/invoke" = Ok "dev" /\
  ParseDeviceTopic "thing/product/dev/property/invoke/reply" = Ok "property" /\
  ParseDeviceTopic "$baetyl/device/dev/property/invoke" = Ok "dev/property" /\
  ParseDeviceTopic "$baetyl/device/dev" = Err ErrIllegalTopic.
Proof. repeat split; vm_compute; reflexivity. Qed.

Definition to_dev : PubMessage :=
  {| Topic := "$baetyl/device/dev/delta"; Payload := []; QOS := 0; Retain := false |}.

Lemma message_routed_witness :
  let chs : gmap string (list nat) := {["dev" := [7]]} in
  let next := OnPublish (fun _ => Ok 8) chs to_dev in
  map_Forall (fun _ ch => length ch <= channel_size) next /\ dom next = dom chs /\
  (next !! "dev" = chs !! "dev" \/
   ParseDeviceTopic (Topic to_dev) = Ok "dev" /\
   exists msg ch, (Ok 8 : outcome nat) = Ok msg /\ chs !! "dev" = Some ch /\
     next !! "dev" = Some (ch ++ [msg])).
Proof.
  apply (message_routed (fun _ => Ok 8) {["dev" := [7]]} to_dev "dev").
  apply map_Forall_singleton. unfold channel_size. cbn. lia.
Defined.

Lemma device_of_topic_witness :
  ParseDeviceTopic "$baetyl/device/pump-1/delta" = Ok "pump-1" /\
  ParseDeviceTopic "thing/line/a/pump-1/property/invoke" = Ok "pump-1".
Proof.
  split.
  - apply (proj1 device_of_topic "pump-1" "delta"); [done|reflexivity|]. by split; [|split].
  - apply (proj2 device_of_topic "line/a" "pump-1" "property" "invoke"); [done|reflexivity|..].
    all: by split; [|split].
Defined.
