(* ===== verification/DmContext.v ===== *)
(** * dmcontext/context.go and blink.go: the device management context

    [DmCtx] holds the devices of a driver, their models and templates, and the
    callbacks the driver registered.  Incoming messages are parsed and handed to
    a callback or to the goroutine waiting for a reply; outgoing reports are
    wrapped, addressed and published.  Every handler returns what it did to the
    outside ([call]s or [published] messages) beside its outcome. *)

From Stdlib Require Import ZArith Lia String SpecFloat.
From stdpp Require Import base option list strings gmap fin_maps fin_sets relations.
From S2P Require Import Prelude MqttPacket GoValue GoEqual DmTypes DmDevice DmExpr SpecMessage.

Local Open Scope string_scope.
Local Open Scope Z_scope.
Local Open Scope list_scope.

Definition KeyDevice : string := "device".
Definition KeyDeviceProduct : string := "deviceProduct".
Definition KeyAccessTemplate : string := "accessTemplate".
Definition KeyNode : string := "node".
Definition KeyNodeProduct : string := "nodeProduct".
Definition NodeProduct : string := "BIE-Product".

Definition ErrInvalidDelta : error := "invalid delta".
Definition ErrResponseChannelNotExist : error := "response channel not exist".
Definition ErrAccessConfigNotExist : error := "access config not exist".
Definition ErrDeviceModelNotExist : error := "device model not exist".
Definition ErrAccessTemplateNotExist : error := "access template not exist".

(** ** State *)

Definition DeltaCallback : Type := DeviceInfo -> gomap GoVal -> option error.
Definition EventCallback : Type := DeviceInfo -> Event -> option error.
Definition PropertyGetCallback : Type := DeviceInfo -> list string -> option error.

Record DmCtx := {
  c_NodeName : string;
  eventCb : option EventCallback;
  deltaCb : option DeltaCallback;
  propertyGetCb : option PropertyGetCallback;
  response : gset string;          (* the devices some goroutine waits for *)
  devices : gmap string DeviceInfo;
  driverConfig_ : string;
  propsConfig : gomap (goslice DeviceProperty);
  accessConfig_ : gomap AccessConfig;
  deviceModels : gomap (goslice DeviceProperty);
  accessTemplates : gomap AccessTemplate;
  lastReportProperties : gmap string ReportProperty }.

Definition set_callbacks (c : DmCtx) d e p : DmCtx :=
  {| c_NodeName := c_NodeName c; eventCb := e; deltaCb := d; propertyGetCb := p;
     response := response c; devices := devices c; driverConfig_ := driverConfig_ c;
     propsConfig := propsConfig c; accessConfig_ := accessConfig_ c;
     deviceModels := deviceModels c; accessTemplates := accessTemplates c;
     lastReportProperties := lastReportProperties c |}.
Definition set_last (c : DmCtx) (l : gmap string ReportProperty) : DmCtx :=
  {| c_NodeName := c_NodeName c; eventCb := eventCb c; deltaCb := deltaCb c;
     propertyGetCb := propertyGetCb c; response := response c; devices := devices c;
     driverConfig_ := driverConfig_ c; propsConfig := propsConfig c;
     accessConfig_ := accessConfig_ c; deviceModels := deviceModels c;
     accessTemplates := accessTemplates c; lastReportProperties := l |}.

(** *** Callbacks: the first registration of each kind stays *)

Definition RegisterDeltaCallback (c : DmCtx) (cb : DeltaCallback) : DmCtx * option error :=
  match deltaCb c with
  | Some _ => (c, Some "delta callback already registered")
  | None => (set_callbacks c (Some cb) (eventCb c) (propertyGetCb c), None)
  end.
Definition RegisterEventCallback (c : DmCtx) (cb : EventCallback) : DmCtx * option error :=
  match eventCb c with
  | Some _ => (c, Some "event callback already registered")
  | None => (set_callbacks c (deltaCb c) (Some cb) (propertyGetCb c), None)
  end.
Definition RegisterPropertyGetCallback (c : DmCtx) (cb : PropertyGetCallback)
    : DmCtx * option error :=
  match propertyGetCb c with
  | Some _ => (c, Some "property get callback already registered")
  | None => (set_callbacks c (deltaCb c) (eventCb c) (Some cb), None)
  end.

(** *** Configuration *)

Definition lookup_or {A} (o : option A) (e : error) : outcome A :=
  match o with Some a => Ok a | None => Err e end.

Definition GetDevice (c : DmCtx) (device : string) : outcome DeviceInfo :=
  lookup_or (devices c !! device) ErrDeviceNotExist.
Definition GetDriverConfig (c : DmCtx) : string := driverConfig_ c.
Definition GetAccessConfig (c : DmCtx) := accessConfig_ c.
Definition GetDeviceAccessConfig (c : DmCtx) (device : DeviceInfo) : outcome AccessConfig :=
  lookup_or (mget (accessConfig_ c) (dev_Name device)) ErrAccessConfigNotExist.
Definition GetPropertiesConfig (c : DmCtx) := propsConfig c.
Definition GetDevicePropertiesConfig (c : DmCtx) (device : DeviceInfo)
    : outcome (goslice DeviceProperty) :=
  lookup_or (mget (propsConfig c) (dev_Name device)) ErrPropsConfigNotExist.
Definition GetDeviceModel (c : DmCtx) (device : DeviceInfo) : outcome (goslice DeviceProperty) :=
  lookup_or (mget (deviceModels c) (dev_DeviceModel device)) ErrDeviceModelNotExist.
Definition GetAllDeviceModels (c : DmCtx) := deviceModels c.
Definition GetAccessTemplates (c : DmCtx) (device : DeviceInfo) : outcome AccessTemplate :=
  lookup_or (mget (accessTemplates c) (dev_AccessTemplate device)) ErrAccessTemplateNotExist.
Definition GetAllAccessTemplates (c : DmCtx) := accessTemplates c.

(** The devices and the subscriptions [NewContext] makes of the driver's
    configuration, and the names it gives to the access templates. *)
Definition load_devices (devs : list DeviceInfo) : gmap string DeviceInfo * list QOSTopic :=
  foldl (fun '(m, subs) dev =>
    (<[dev_Name dev := dev]> m,
     subs ++ [dt_Delta (dev_DeviceTopic dev); dt_Event (dev_DeviceTopic dev);
              dt_GetResponse (dev_DeviceTopic dev); dt_PropertyGet (dev_DeviceTopic dev)]))
    (∅, []) devs.

Definition name_template (name : string) (tpl : AccessTemplate) : AccessTemplate :=
  {| tpl_Name := name; tpl_Version := tpl_Version tpl; tpl_Properties := tpl_Properties tpl;
     tpl_Mappings := tpl_Mappings tpl |}.
Definition name_templates (tpls : gomap AccessTemplate) : gomap AccessTemplate :=
  match tpls with
  | None => None
  | Some m => Some (map_imap (fun name tpl => Some (name_template name tpl)) m)
  end.

(** [c.Start()]: a channel for each device. *)
Definition Start {M} (c : DmCtx) : gmap string (list M) := (fun _ => []) <$> devices c.

(** ** Incoming messages *)

Inductive call :=
  | CallDelta (dev : DeviceInfo) (delta : gomap GoVal)
  | CallEvent (dev : DeviceInfo) (event : Event)
  | CallPropertyGet (dev : DeviceInfo) (properties : list string)
  | Reply (device : string) (shad : DeviceShadow).

Abbreviation handled := (list call * outcome unit)%type.

(** [if err != nil { return err }] in a handler. *)
Definition check {A} (m : outcome A) (k : A -> handled) : handled :=
  match m with
  | Ok a => k a
  | Err e => ([], Err e)
  | Panic w => ([], Panic w)
  | NoFuel => ([], NoFuel)
  end.

Definition callback_result (e : option error) : outcome unit :=
  match e with None => Ok tt | Some e => Err e end.

Definition zero_topic : QOSTopic := {| qt_QOS := 0; qt_Topic := "" |}.
Definition zero_DeviceInfo : DeviceInfo :=
  {| dev_Name := ""; dev_Version := "";
     dev_Topic := {| top_Delta := zero_topic; top_Report := zero_topic;
       top_Event := zero_topic; top_Get := zero_topic; top_GetResponse := zero_topic |};
     dev_DeviceModel := ""; dev_AccessTemplate := "";
     dev_DeviceTopic := {| dt_Delta := zero_topic; dt_Report := zero_topic;
       dt_Event := zero_topic; dt_Get := zero_topic; dt_GetResponse := zero_topic;
       dt_EventReport := zero_topic; dt_PropertyGet := zero_topic;
       dt_LifecycleReport := zero_topic |};
     dev_AccessConfig := None |}.

Section incoming.
(** strconv.ParseFloat, Go's map order, and the decoding of a message's content
    into each type, from its zero value, with exact numbers or with floats. *)
Context (ParseFloat : string -> Z -> outcome float64).
Context (order : gmap string GoVal -> list (string * GoVal)).
Context (exact_blink : LazyValue BlinkContent -> outcome BlinkContent).
Context (plain_blink : LazyValue BlinkContent -> outcome BlinkContent).
Context (plain_event : LazyValue BlinkContent -> outcome Event).
Context (exact_shadow : LazyValue BlinkContent -> outcome (option DeviceShadow)).

Definition device_name (msg : Message BlinkContent) : string :=
  default "" (mget (msg_Metadata msg) KeyDevice).

Definition parse (c : DmCtx) := parsePropertyValues ParseFloat order (deviceModels c).

Definition processDelta (c : DmCtx) (msg : Message BlinkContent) : handled :=
  match deltaCb c with
  | None => ([], Ok tt)
  | Some cb =>
      check (exact_blink (msg_Content msg)) (fun content =>
      check (lookup_or (as_map (blink_Properties (bcon_Blink content))) ErrInvalidDelta) (fun delta =>
      check (lookup_or (devices c !! device_name msg) ErrDeviceNotExist) (fun dev =>
      check (parse c dev delta) (fun delta =>
      ([CallDelta dev delta], callback_result (cb dev delta))))))
  end.

Definition processEvent (c : DmCtx) (msg : Message BlinkContent) : handled :=
  match eventCb c with
  | None => ([], Ok tt)
  | Some cb =>
      check (plain_event (msg_Content msg)) (fun event =>
      match devices c !! device_name msg with
      | None => ([], Ok tt)
      | Some dev => ([CallEvent dev event], callback_result (cb dev event))
      end)
  end.

Definition processPropertyGet (c : DmCtx) (msg : Message BlinkContent) : handled :=
  match propertyGetCb c with
  | None => ([], Ok tt)
  | Some cb =>
      match devices c !! device_name msg with
      | None => ([], Ok tt)
      | Some dev =>
          check (plain_blink (msg_Content msg)) (fun content =>
          check (parsePropertyKeys (blink_Properties (bcon_Blink content))) (fun properties =>
          ([CallPropertyGet dev properties], callback_result (cb dev properties))))
      end
  end.

(** [ready] tells whether the goroutine that registered the channel is at its
    receive; otherwise the reply is dropped. *)
Definition processResponse (ready : bool) (c : DmCtx) (msg : Message BlinkContent) : handled :=
  if decide (device_name msg ∈ response c) then
    check (exact_shadow (msg_Content msg)) (fun shad =>
    match shad with
    | None => ([], Panic "nil pointer dereference")
    | Some shad =>
        let dev := default zero_DeviceInfo (devices c !! device_name msg) in
        check (parse c dev (shad_Report shad)) (fun report =>
        check (parse c dev (shad_Desire shad)) (fun desire =>
        (if ready then [Reply (device_name msg)
           {| shad_Name := shad_Name shad; shad_Report := report; shad_Desire := desire |}]
         else [], Ok tt)))
    end)
  else ([], Err ErrResponseChannelNotExist).

(** The switch of [processing]: errors are logged. *)
Definition process_one (ready : bool) (c : DmCtx) (msg : Message BlinkContent) : handled :=
  if String.eqb (msg_Kind msg) MessageDeviceDelta then processDelta c msg
  else if String.eqb (msg_Kind msg) MessageDeviceEvent then processEvent c msg
  else if String.eqb (msg_Kind msg) MessageResponse then processResponse ready c msg
  else if String.eqb (msg_Kind msg) MessageDevicePropertyGet then processPropertyGet c msg
  else ([], Ok tt).

(** What a call must satisfy to be right for a message. *)
Definition call_ok (c : DmCtx) (msg : Message BlinkContent) (k : call) : Prop :=
  match k with
  | CallDelta dev delta =>
      msg_Kind msg = MessageDeviceDelta /\ deltaCb c <> None /\
      devices c !! device_name msg = Some dev /\
      exists content props, exact_blink (msg_Content msg) = Ok content /\
        blink_Properties (bcon_Blink content) = VMap props /\ parse c dev props = Ok delta
  | CallEvent dev event =>
      msg_Kind msg = MessageDeviceEvent /\ eventCb c <> None /\
      devices c !! device_name msg = Some dev /\ plain_event (msg_Content msg) = Ok event
  | CallPropertyGet dev keys =>
      msg_Kind msg = MessageDevicePropertyGet /\ propertyGetCb c <> None /\
      devices c !! device_name msg = Some dev /\
      exists content, plain_blink (msg_Content msg) = Ok content /\
        blink_Properties (bcon_Blink content) = VSlice (VString <$> keys)
  | Reply device shad =>
      msg_Kind msg = MessageResponse /\ device = device_name msg /\ device ∈ response c /\
      exists dev raw, devices c !! device = Some dev /\ exact_shadow (msg_Content msg) = Ok (Some raw) /\
        parse c dev (shad_Report raw) = Ok (shad_Report shad) /\
        parse c dev (shad_Desire raw) = Ok (shad_Desire shad)
  end.

Lemma check_calls {A} (m : outcome A) k x :
  x ∈ fst (check m k) -> exists a, m = Ok a /\ x ∈ fst (k a).
Proof. destruct m; cbn; [eauto|by intros ?%elem_of_nil..]. Qed.

Lemma lookup_or_ok {A} (o : option A) e a : lookup_or o e = Ok a <-> o = Some a.
Proof. destruct o; cbn; split; congruence. Qed.

Lemma keys_loop_ok props : forall acc keys,
  keys_loop acc props = Ok keys -> exists ks, props = VString <$> ks /\ keys = acc ++ ks.
Proof.
  induction props as [|p props IH]; intros acc keys; cbn.
  { intros [= <-]. exists []. by rewrite app_nil_r. }
  destruct p; cbn; try done. intros (ks & -> & ->)%IH.
  exists (s :: ks). by rewrite <- app_assoc.
Qed.

Lemma parsePropertyKeys_ok v keys :
  parsePropertyKeys v = Ok keys -> v = VSlice (VString <$> keys).
Proof.
  unfold parsePropertyKeys. destruct v; cbn; try done.
  by intros (ks & -> & ->)%keys_loop_ok.
Qed.

(** What one message leads to. *)
Lemma process_one_right ready c msg :
  mget (deviceModels c) "" = None ->
  (length (fst (process_one ready c msg)) <= 1)%nat /\
  Forall (call_ok c msg) (fst (process_one ready c msg)).
Proof.
  intros Hzero. split.
  - unfold process_one, processDelta, processEvent, processResponse, processPropertyGet, check.
    repeat case_match; cbn; lia.
  - apply Forall_forall. intros x. unfold process_one.
    repeat match goal with |- context [String.eqb ?a ?b] =>
      destruct (String.eqb_spec a b) end; try by intros ?%elem_of_nil.
    + unfold processDelta. destruct (deltaCb c) eqn:Hcb; [|by intros ?%elem_of_nil].
      intros (content & Hc & Hx)%check_calls.
      apply check_calls in Hx as (props & Hp & Hx). apply lookup_or_ok in Hp.
      apply check_calls in Hx as (dev & Hd & Hx). apply lookup_or_ok in Hd.
      apply check_calls in Hx as (delta & Hpar & ->%list_elem_of_singleton).
      cbn. rewrite Hcb. repeat split; [done..|]. exists content, props.
      repeat split; [done| |done]. by destruct (blink_Properties _); cbn in Hp; simplify_eq.
    + unfold processEvent. destruct (eventCb c) eqn:Hcb; [|by intros ?%elem_of_nil].
      intros (event & Hc & Hx)%check_calls.
      destruct (devices c !! device_name msg) eqn:Hd; [|by apply elem_of_nil in Hx].
      apply list_elem_of_singleton in Hx as ->. cbn. rewrite Hcb. done.
    + unfold processResponse. case_decide as Hin; [|by intros ?%elem_of_nil].
      intros (shad & Hs & Hx)%check_calls. destruct shad as [shad|]; [|by apply elem_of_nil in Hx].
      apply check_calls in Hx as (report & Hr & Hx).
      apply check_calls in Hx as (desire & Hde & Hx).
      destruct ready; [|by apply elem_of_nil in Hx].
      apply list_elem_of_singleton in Hx as ->. cbn.
      destruct (devices c !! device_name msg) as [dev|] eqn:Hd; cbn in Hr, Hde.
      * repeat split; [done..|]. exists dev, shad. done.
      * exfalso. unfold parse, parsePropertyValues in Hr. cbn in Hr. by rewrite Hzero in Hr.
    + unfold processPropertyGet. destruct (propertyGetCb c) eqn:Hcb; [|by intros ?%elem_of_nil].
      destruct (devices c !! device_name msg) as [dev|] eqn:Hd; [|by intros ?%elem_of_nil].
      intros (content & Hc & Hx)%check_calls. apply check_calls in Hx as (keys & Hk & Hx).
      apply list_elem_of_singleton in Hx as ->. apply parsePropertyKeys_ok in Hk.
      cbn. rewrite Hcb. eauto 10.
Qed.

(** C22. Whatever message arrives, the context makes at most one call, and only one
    that is right for it: to the registered callback of the message's kind, for
    the configured device the message names, with the properties parsed by the
    device's model; a reply is only handed to a goroutine waiting for that
    device, and only for a device whose model is not the empty name (an unknown
    device has none). *)
Theorem calls_are_right ready c msg :
  mget (deviceModels c) "" = None ->
  (length (fst (process_one ready c msg)) <= 1)%nat /\
  Forall (call_ok c msg) (fst (process_one ready c msg)).
Proof. apply process_one_right. Qed.
End incoming.

(** ** Filtering reports *)

Section filter.
Context (float32_text : spec_float -> outcome float64).
Context (order : gmap string GoVal -> list (string * GoVal)).

(** [func isCalculable(v interface{}) bool] *)
Definition isCalculable (v : GoVal) : bool :=
  match v with
  | VInt KInt _ | VInt KInt16 _ | VInt KInt32 _ | VInt KInt64 _ | VFloat32 _ | VFloat64 _ => true
  | _ => false
  end.

Definition second_ns : Z := 1000000000.

(** First report of the property, or out of its silent window. *)
Definition is_due (now : Z) (mapping : ModelMapping) (last : option ReportProperty) : bool :=
  match last with
  | None => true
  | Some p => int64 (mm_SilentWin mapping * second_ns) <? now - rp_Time p
  end.

(** [parseVal-lastVal >= lastVal*mapping.Deviation/100], when both are numbers. *)
Definition deviates (mapping : ModelMapping) (value last : GoVal) : bool :=
  isCalculable value &&
  match parseValueToFloat64 float32_text value, parseValueToFloat64 float32_text last with
  | Ok parseVal, Ok lastVal =>
      SFleb (a_div (a_mul lastVal (mm_Deviation mapping)) (binary_normalize 53 1024 100 0 false))
            (a_sub parseVal lastVal)
  | _, _ => false
  end.

(** What a report collects: the filtered report and the last reported values. *)
Abbreviation filter_state := (gmap string GoVal * gmap string ReportProperty)%type.

Definition record_report (now : Z) (key : string) (value : GoVal) (s : filter_state)
    : filter_state :=
  (<[key := value]> (fst s), <[key := {| rp_Time := now; rp_Value := value |}]> (snd s)).

(** The body of the loop of [ReportDevicePropertiesWithFilter]. *)
Definition filter_entry (now : Z) (propMapping : gmap string ModelMapping)
    (s : filter_state) (e : string * GoVal) : filter_state :=
  let '(key, value) := e in
  match propMapping !! key with
  | None => s
  | Some mapping =>
      let s := if is_due now mapping (snd s !! key) then record_report now key value s else s in
      let last := match snd s !! key with Some p => rp_Value p | None => VNil end in
      if deviates mapping value last then record_report now key value s else s
  end.

Definition prop_mapping (tpl : AccessTemplate) : gmap string ModelMapping :=
  foldl (fun m mapping => <[mm_Attribute mapping := mapping]> m) ∅ (default [] (tpl_Mappings tpl)).

(** [c.ReportDevicePropertiesWithFilter(device, report)] at the time [now]: the
    report it passes on to [ReportDeviceProperties], and the context. *)
Definition filter_report (now : Z) (c : DmCtx) (device : DeviceInfo) (report : gomap GoVal)
    : DmCtx * outcome (gmap string GoVal) :=
  match GetAccessTemplates c device with
  | Ok tpl =>
      let '(filtered, last) :=
        foldl (filter_entry now (prop_mapping tpl)) (∅, lastReportProperties c)
          (order (entries report)) in
      (set_last c last, Ok filtered)
  | Err e => (c, Err e)
  | Panic w => (c, Panic w)
  | NoFuel => (c, NoFuel)
  end.

(** Whether a value should be reported, from the value reported last. *)
Definition passes (now : Z) (mappings : gmap string ModelMapping)
    (last : option ReportProperty) (key : string) (value : GoVal) : bool :=
  match mappings !! key with
  | None => false
  | Some mapping =>
      is_due now mapping last ||
      deviates mapping value (match last with Some p => rp_Value p | None => VNil end)
  end.

Lemma record_twice now key value s :
  record_report now key value (record_report now key value s) = record_report now key value s.
Proof. unfold record_report. cbn. by rewrite !insert_insert_eq. Qed.

Lemma filter_entry_spec now ms s key value :
  filter_entry now ms s (key, value) =
  if passes now ms (snd s !! key) key value then record_report now key value s else s.
Proof.
  unfold filter_entry, passes. destruct (ms !! key) as [mapping|]; [|done].
  destruct (is_due now mapping (snd s !! key)); cbn [orb]; [|done].
  case_match; [apply record_twice|done].
Qed.

Lemma filter_fold now ms es : forall s,
  NoDup es.*1 ->
  let s' := foldl (filter_entry now ms) s es in
  forall k, match (list_to_map es : gmap string GoVal) !! k with
    | Some v =>
        if passes now ms (snd s !! k) k v
        then fst s' !! k = Some v /\ snd s' !! k = Some {| rp_Time := now; rp_Value := v |}
        else fst s' !! k = fst s !! k /\ snd s' !! k = snd s !! k
    | None => fst s' !! k = fst s !! k /\ snd s' !! k = snd s !! k
    end.
Proof.
  induction es as [|[key value] es IH]; intros s Hnd s' k.
  { done. }
  cbn in Hnd. apply NoDup_cons in Hnd as [Hk Hnd]. subst s'.
  cbn [foldl]. rewrite filter_entry_spec.
  set (s1 := if passes now ms (snd s !! key) key value then _ else s).
  specialize (IH s1 Hnd k). cbn in IH.
  change (list_to_map ((key, value) :: es)) with
    (<[key := value]> (list_to_map es : gmap string GoVal)).
  destruct (decide (k = key)) as [->|Hne].
  - rewrite lookup_insert_eq.
    apply (not_elem_of_list_to_map_1 (M := gmap string)) in Hk. rewrite Hk in IH.
    destruct IH as [-> ->]. subst s1.
    destruct (passes now ms (snd s !! key) key value); cbn; by rewrite ?lookup_insert_eq.
  - rewrite lookup_insert_ne by done.
    assert (Hs1 : fst s1 !! k = fst s !! k /\ snd s1 !! k = snd s !! k).
    { subst s1. destruct (passes now ms _ key value); cbn; by rewrite ?lookup_insert_ne. }
    destruct Hs1 as [H1 H2]. rewrite H1, H2 in IH. done.
Qed.

Context (Horder : forall m, order m ≡ₚ map_to_list m).

(** The mapping of a property: the last one of the template that names it. *)
Definition mapping_of (tpl : AccessTemplate) (k : string) : option ModelMapping :=
  last (filter (fun m => mm_Attribute m = k) (default [] (tpl_Mappings tpl))).

Lemma prop_mapping_lookup tpl k : prop_mapping tpl !! k = mapping_of tpl k.
Proof.
  unfold prop_mapping, mapping_of. induction (default [] (tpl_Mappings tpl)) as [|m l IH] using rev_ind; [done|].
  rewrite foldl_app, filter_app, last_app. cbn [foldl]. destruct (decide (mm_Attribute m = k)) as [Hk|Hk].
  - rewrite filter_cons_True by done. subst k. by rewrite lookup_insert_eq.
  - rewrite filter_cons_False by done. rewrite lookup_insert_ne by done. by rewrite IH.
Qed.

(** The float64 of a value of a type that can be calculated with. *)
Definition float_value (v : GoVal) : option float64 :=
  match v with
  | VInt (KInt | KInt16 | KInt32 | KInt64) z => Some (binary_normalize 53 1024 z 0 false)
  | VFloat32 f => match float32_text f with Ok x => Some x | _ => None end
  | VFloat64 f => Some f
  | _ => None
  end.

Lemma parse_float_value v :
  match parseValueToFloat64 float32_text v with Ok f => Some f | _ => None end = float_value v.
Proof. destruct v; try done; by destruct k. Qed.

(** [x] is [y] and a percentage of it, or more: [x - y >= y * dev / 100] in float64. *)
Definition risen (x y dev : float64) : bool :=
  match SFcompare (SFsub 53 1024 x y)
                  (SFdiv 53 1024 (SFmul 53 1024 y dev) (binary_normalize 53 1024 100 0 false)) with
  | Some Gt | Some Eq => true
  | _ => false
  end.

Lemma SFcompare_sym x y : SFcompare x y = CompOpp <$> SFcompare y x.
Proof.
  destruct x as [[]|[]| |[] m e], y as [[]|[]| |[] n f]; try done; cbn [SFcompare fmap option_fmap option_map];
    change (Pos.compare_cont Eq) with Pos.compare;
    rewrite (Z.compare_antisym f e); destruct (f ?= e); cbn [CompOpp]; try done;
    rewrite (Pos.compare_antisym n m); by destruct (n ?= m)%positive.
Qed.

Lemma deviates_risen mapping value last :
  deviates mapping value last =
  match float_value value, float_value last with
  | Some x, Some y => risen x y (mm_Deviation mapping)
  | _, _ => false
  end.
Proof.
  unfold deviates. rewrite <- !parse_float_value.
  destruct (isCalculable value) eqn:Hc; cbn [andb].
  - destruct (parseValueToFloat64 float32_text value) as [x| | |]; [|done..].
    destruct (parseValueToFloat64 float32_text last) as [y| | |]; [|done..].
    unfold risen, SFleb, a_div, a_mul, a_sub, float64_Arith. rewrite SFcompare_sym.
    by destruct (SFcompare _ _) as [[]|].
  - assert (Hn : parseValueToFloat64 float32_text value = Err ErrUnsupportedValueType)
      by (destruct value; try done; by destruct k).
    by rewrite Hn.
Qed.

(** C21. What a filtered report holds of a property, and what is remembered of it. A
    reported value of a property with a mapping (the last one that names it) is passed on
    when no value of it is remembered, when more nanoseconds than the silent window have
    passed since the one that is, or when both are numbers and in float64 the difference
    to it is at least the given percentage of it; for a negative one that includes small
    falls. It is remembered with the current time then, and otherwise what was remembered
    stays. Properties without a mapping are left out. The memory is looked up by property
    alone, so it is the same for every device. *)
Theorem report_filter now c device report tpl c' filtered :
  GetAccessTemplates c device = Ok tpl ->
  filter_report now c device report = (c', Ok filtered) ->
  forall k,
    let passed v := filtered !! k = Some v /\
      lastReportProperties c' !! k = Some {| rp_Time := now; rp_Value := v |} in
    let left_out := filtered !! k = None /\
      lastReportProperties c' !! k = lastReportProperties c !! k in
    match entries report !! k, mapping_of tpl k with
    | Some v, Some m =>
        match lastReportProperties c !! k with
        | None => passed v
        | Some p =>
            if decide (now - rp_Time p > int64 (mm_SilentWin m * 1000000000)) then passed v
            else match float_value v, float_value (rp_Value p) with
                 | Some x, Some y => if risen x y (mm_Deviation m) then passed v else left_out
                 | _, _ => left_out
                 end
        end
    | _, _ => left_out
    end.
Proof.
  unfold filter_report. intros -> Hf k. cbv zeta.
  assert (Hnd : NoDup (order (entries report)).*1).
  { rewrite (Horder _). apply NoDup_fst_map_to_list. }
  assert (Hl : list_to_map (order (entries report)) = entries report).
  { rewrite <- (list_to_map_to_list (entries report)) at 2.
    by apply list_to_map_proper, Horder. }
  pose proof (filter_fold now (prop_mapping tpl) _ (∅, lastReportProperties c) Hnd k) as H.
  rewrite Hl in H. destruct (foldl _ _ _) as [f l]. injection Hf as <- <-. cbn in *.
  rewrite lookup_empty in H. destruct (entries report !! k) as [v|]; [|done].
  unfold passes in H. rewrite prop_mapping_lookup in H. destruct (mapping_of tpl k) as [m|]; [|done].
  destruct (lastReportProperties c !! k) as [p|]; [|done].
  unfold is_due in H. rewrite deviates_risen in H. change second_ns with 1000000000 in H.
  case_decide; destruct (Z.ltb_spec (int64 (mm_SilentWin m * 1000000000)) (now - rp_Time p));
    cbn [orb] in H; [done|lia|lia|].
  destruct (float_value v) as [x|], (float_value (rp_Value p)) as [y|]; try done.
Qed.
End filter.

(** ** Outgoing messages (blink.go) *)

Definition MethodPropertyInvoke : string := "thing.property.invoke".
Definition MethodPropertyReport : string := "thing.property.post".
Definition MethodEventReport : string := "thing.event.post".
Definition MethodPropertyGet : string := "thing.property.get".
Definition MethodLifecyclePost : string := "thing.lifecycle.post".
Definition DefaultVersion : string := "1.0".
Definition KeyOnlineState : string := "online_state".

Section blink.
(** A fresh request id, and the time in nanoseconds since 1970. *)
Context (reqId : string) (now : Z).

Definition getCurrentTimestamp : Z := Z.quot now 1000000.

Definition GenDeltaBlinkData (properties : gomap GoVal) : BlinkData :=
  {| blink_ReqId := reqId; blink_Method := MethodPropertyInvoke;
     blink_Version := DefaultVersion; blink_Timestamp := getCurrentTimestamp;
     blink_Properties := VMap properties; blink_Events := None; blink_Params := None |}.
Definition GenPropertyReportBlinkData (properties : gomap GoVal) : BlinkData :=
  {| blink_ReqId := reqId; blink_Method := MethodPropertyReport;
     blink_Version := DefaultVersion; blink_Timestamp := getCurrentTimestamp;
     blink_Properties := VMap properties; blink_Events := None; blink_Params := None |}.
Definition GenEventReportBlinkData (events : gomap GoVal) : BlinkData :=
  {| blink_ReqId := reqId; blink_Method := MethodEventReport;
     blink_Version := DefaultVersion; blink_Timestamp := getCurrentTimestamp;
     blink_Properties := VNil; blink_Events := events; blink_Params := None |}.
(** The property names are a []string, shown as the slice of the strings. *)
Definition GenPropertyGetBlinkData (properties : list string) : BlinkData :=
  {| blink_ReqId := reqId; blink_Method := MethodPropertyGet;
     blink_Version := DefaultVersion; blink_Timestamp := getCurrentTimestamp;
     blink_Properties := VSlice (VString <$> properties); blink_Events := None;
     blink_Params := None |}.
Definition GenLifecycleReportBlinkData (online : bool) : BlinkData :=
  {| blink_ReqId := reqId; blink_Method := MethodLifecyclePost;
     blink_Version := DefaultVersion; blink_Timestamp := getCurrentTimestamp;
     blink_Properties := VNil; blink_Events := None;
     blink_Params := Some {[KeyOnlineState := VBool online]} |}.

(** [c.genMetadata(info)] *)
Definition genMetadata (c : DmCtx) (info : DeviceInfo) : gomap string :=
  Some (list_to_map
    [(KeyDevice, dev_Name info); (KeyDeviceProduct, dev_DeviceModel info);
     (KeyAccessTemplate, dev_AccessTemplate info); (KeyNode, c_NodeName c);
     (KeyNodeProduct, NodeProduct)]).

(** json.Marshal of a message and of a device; the mqtt client. *)
Context (Marshal : Message BlinkContent -> outcome string).
Context (MarshalDevice : DeviceInfo -> outcome string).
Context (mqtt_Publish : Z -> string -> string -> option error).

Record published := { pub_QOS : Z; pub_Topic : string; pub_Payload : string }.

(** [c.mqtt.Publish(mqtt2.QOS(topic.QOS), topic.Topic, pld, 0, false, false)] *)
Definition publish (topic : QOSTopic) (pld : string) : list published * outcome unit :=
  match mqtt_Publish (toQOS (qt_QOS topic)) (qt_Topic topic) pld with
  | None => ([{| pub_QOS := toQOS (qt_QOS topic); pub_Topic := qt_Topic topic;
                 pub_Payload := pld |}], Ok tt)
  | Some e => ([], Err e)
  end.

Definition device_message (c : DmCtx) (kind : string) (info : DeviceInfo) (b : BlinkData)
    : Message BlinkContent :=
  {| msg_Kind := kind; msg_Metadata := genMetadata c info;
     msg_Content := {| Value := Some {| bcon_Blink := b |}; doc := None |} |}.

Definition send_message (topic : QOSTopic) (msg : Message BlinkContent)
    : list published * outcome unit :=
  match Marshal msg with
  | Ok pld => publish topic pld
  | Err e => ([], Err e)
  | Panic w => ([], Panic w)
  | NoFuel => ([], NoFuel)
  end.

Definition ReportDeviceProperties (c : DmCtx) (info : DeviceInfo) (report : gomap GoVal) :=
  send_message (dt_Report (dev_DeviceTopic info))
    (device_message c MessageDeviceReport info (GenPropertyReportBlinkData report)).
Definition ReportDeviceEvents (c : DmCtx) (info : DeviceInfo) (report : gomap GoVal) :=
  send_message (dt_EventReport (dev_DeviceTopic info))
    (device_message c MessageDeviceEventReport info (GenEventReportBlinkData report)).
Definition Online (c : DmCtx) (info : DeviceInfo) :=
  send_message (dt_LifecycleReport (dev_DeviceTopic info))
    (device_message c MessageDeviceLifecycleReport info (GenLifecycleReportBlinkData true)).
Definition Offline (c : DmCtx) (info : DeviceInfo) :=
  send_message (dt_LifecycleReport (dev_DeviceTopic info))
    (device_message c MessageDeviceLifecycleReport info (GenLifecycleReportBlinkData false)).
Definition ReportCustomMsg (topic : QOSTopic) (data : string) := publish topic data.

(** [ReportDevicePropertiesWithFilter]: the filter, then the report. *)
Definition ReportDevicePropertiesWithFilter float32_text order (c : DmCtx) (device : DeviceInfo)
    (report : gomap GoVal) : DmCtx * (list published * outcome unit) :=
  match filter_report float32_text order now c device report with
  | (c', Ok filtered) => (c', ReportDeviceProperties c' device (Some filtered))
  | (c', Err e) => (c', ([], Err e))
  | (c', Panic w) => (c', ([], Panic w))
  | (c', NoFuel) => (c', ([], NoFuel))
  end.

(** The first half of [GetDeviceProperties]: the request is published before the
    reply's channel is registered. *)
Definition request_properties (info : DeviceInfo) : list published * outcome unit :=
  match MarshalDevice info with
  | Ok pld => publish (dt_Get (dev_DeviceTopic info)) pld
  | Err e => ([], Err e)
  | Panic w => ([], Panic w)
  | NoFuel => ([], NoFuel)
  end.

End blink.

(** ** Examples *)

Definition ctx1 : DmCtx :=
  {| c_NodeName := "node"; eventCb := None; deltaCb := Some (fun _ _ => None);
     propertyGetCb := None; response := {["d"]}; devices := {["d" := device "d" "m"]};
     driverConfig_ := ""; propsConfig := None; accessConfig_ := None;
     deviceModels := model1;
     accessTemplates := Some {["tpl" := {| tpl_Name := "tpl"; tpl_Version := "";
       tpl_Properties := None; tpl_Mappings := Some [{| mm_Attribute := "t"; mm_Type := "value";
         mm_Expression := "x1"; mm_Precision := 2; mm_Deviation := float_of 10;
         mm_SilentWin := 60 |}] |}]};
     lastReportProperties := ∅ |}.

Definition delta_msg : Message BlinkContent :=
  {| msg_Kind := MessageDeviceDelta; msg_Metadata := Some {["device" := "d"]};
     msg_Content := {| Value := None; doc := Some "{}" |} |}.
Definition blink_t21 (_ : LazyValue BlinkContent) : outcome BlinkContent :=
  Ok {| bcon_Blink := GenDeltaBlinkData "id" 0 (Some {["t" := VNumber "21"]}) |}.

Definition process_demo :=
  process_one (fun _ _ => Err "") map_to_list blink_t21 blink_t21 (fun _ => Err "") (fun _ => Err "").

Example delta_delivered :
  fst (process_demo true ctx1 delta_msg) = [CallDelta (device "d" "m") (Some {["t" := VInt KInt16 21]})].
Proof. vm_compute. reflexivity. Qed.

Lemma calls_are_right_witness :
  (length (fst (process_demo true ctx1 delta_msg)) <= 1)%nat /\
  Forall (call_ok (fun _ _ => Err "") map_to_list blink_t21 blink_t21 (fun _ => Err "")
    (fun _ => Err "") ctx1 delta_msg) (fst (process_demo true ctx1 delta_msg)).
Proof.
  apply (calls_are_right (fun _ _ => Err "") map_to_list blink_t21 blink_t21 (fun _ => Err "")
    (fun _ => Err "") true ctx1 delta_msg). reflexivity.
Defined.

(** Ten seconds after device d1 reported 20, device d2 with the same template
    reports 20 for the first time: its report is empty.  A fall to 5 is not
    reported either, a rise to 30 is. *)
Definition reports (v2 : Z) : outcome (gmap string GoVal) :=
  let report v := Some {["t" := VInt KInt v]} in
  let '(c, _) := filter_report Ok map_to_list 0 ctx1 (device "d1" "m") (report 20) in
  snd (filter_report Ok map_to_list (10 * second_ns) c (device "d2" "m") (report v2)).

Example filter_shared :
  reports 20 = Ok ∅ /\ reports 5 = Ok ∅ /\ reports 30 = Ok {["t" := VInt KInt 30]}.
Proof. vm_compute. auto. Qed.

Definition after_first : DmCtx :=
  set_last ctx1 {["t" := {| rp_Time := 0; rp_Value := VInt KInt 20 |}]}.
Definition report20 : gomap GoVal := Some {["t" := VInt KInt 20]}.

Definition tpl1 : AccessTemplate :=
  match entries (accessTemplates ctx1) !! "tpl" with
  | Some t => t
  | None => name_template "" {| tpl_Name := ""; tpl_Version := ""; tpl_Properties := None;
                                tpl_Mappings := None |}
  end.

(** After -20 a value of -21 is a rise by ten percent: -1 is no less than -2. *)
Example negative_falls :
  filter_report Ok map_to_list 5 (set_last ctx1 {["t" := {| rp_Time := 0; rp_Value := VInt KInt (-20) |}]})
    (device "d" "m") (Some {["t" := VInt KInt (-21)]})
  = (set_last ctx1 {["t" := {| rp_Time := 5; rp_Value := VInt KInt (-21) |}]}, Ok {["t" := VInt KInt (-21)]}).
Proof. vm_compute. reflexivity. Qed.

Lemma report_filter_witness :
  (∅ : gmap string GoVal) !! "t" = None /\
  lastReportProperties after_first !! "t" = lastReportProperties after_first !! "t".
Proof.
  assert (Htpl : GetAccessTemplates after_first (device "d2" "m") = Ok tpl1)
    by (vm_compute; reflexivity).
  assert (Hf : filter_report Ok map_to_list 5 after_first (device "d2" "m") report20 =
    (after_first, Ok ∅)) by (vm_compute; reflexivity).
  pose proof (report_filter Ok map_to_list (fun m => reflexivity _) 5 after_first
    (device "d2" "m") report20 tpl1 after_first ∅ Htpl Hf "t") as H.
  vm_compute in H |- *. exact H.
Defined.
