(* ===== verification/DmWait.v ===== *)
(** * dmcontext/context.go: asking a device for its properties

    [GetDeviceProperties] and [processResponse] as one system: any number of callers ask for
    devices, publish, register a channel, wait for a second at most and take their channel
    away again, while the goroutines that process messages load a channel, parse the reply
    and try to send it. Every step of the two is a step here, in any order. *)

From Stdlib Require Import ZArith Lia String SpecFloat.
From stdpp Require Import base option list strings gmap fin_maps fin_sets relations.
From S2P Require Import Prelude MqttPacket GoValue DmTypes SpecMessage DmDevice DmContext.

Local Open Scope string_scope.
Local Open Scope list_scope.

Section wait.
(** The parameters of [processResponse] and of the request, and the context, of which only the map of channels
    changes here. *)
Context (ParseFloat : string -> Z -> outcome float64).
Context (order : gmap string GoVal -> list (string * GoVal)).
Context (exact_shadow : LazyValue BlinkContent -> outcome (option DeviceShadow)).
Context (MarshalDevice : DeviceInfo -> outcome string).
Context (ctx : DmCtx).

Abbreviation message := (Message BlinkContent).

(** Where a call of [GetDeviceProperties] is: it has published and made its channel; it has
    registered the channel and waits; its select is over, by a reply or the timer; it has
    returned. *)
Inductive phase :=
  | Asked
  | Waiting
  | Over (r : option DeviceShadow)
  | Returned (r : outcome DeviceShadow).

(** A call, with the device of its [info]; its channel is its place in the list. *)
Record Caller := { c_device : string; c_phase : phase }.

Record System := {
  requests : list published;
  registered : gmap string nat;             (* c.response *)
  callers : list Caller;
  flights : list (nat * message)            (* responses that have loaded a channel *)
}.

Definition init : System := {| requests := []; registered := ∅; callers := []; flights := [] |}.

Definition set_phase (ch : nat) (p : phase) (s : System) : System :=
  {| requests := requests s; registered := registered s;
     callers := alter (fun c => {| c_device := c_device c; c_phase := p |}) ch (callers s);
     flights := flights s |}.
Definition set_registered (m : gmap string nat) (s : System) : System :=
  {| requests := requests s; registered := m; callers := callers s; flights := flights s |}.
Definition set_flights (l : list (nat * message)) (s : System) : System :=
  {| requests := requests s; registered := registered s; callers := callers s; flights := l |}.

Definition ErrWaiting : error := "waiting for getting properties".

(** The call up to its channel: the request is published, or the call fails. *)
Definition ask (mqtt_Publish : Z -> string -> string -> option error) (info : DeviceInfo)
    (s : System) : System :=
  let '(out, r) := request_properties MarshalDevice mqtt_Publish info in
  {| requests := requests s ++ out; registered := registered s;
     callers := callers s ++ [{| c_device := dev_Name info;
       c_phase := match r with
                  | Ok _ => Asked
                  | Err e => Returned (Err e)
                  | Panic w => Returned (Panic w)
                  | NoFuel => Returned NoFuel
                  end |}];
     flights := flights s |}.

(** [c.response.LoadOrStore(info.Name, ch)], and the test of its result. *)
Definition load_or_store (ch : nat) (device : string) (s : System) : System :=
  match registered s !! device with
  | Some _ => set_phase ch (Returned (Err ErrWaiting)) s
  | None => set_phase ch Waiting (set_registered (<[device := ch]> (registered s)) s)
  end.

(** The result of the select, after the deferred [c.response.Delete(info.Name)]. *)
Definition finish (ch : nat) (device : string) (r : option DeviceShadow) (s : System) : System :=
  set_phase ch (Returned match r with
                         | Some props => Ok props
                         | None => Err ("get device: " +:+ device +:+ " properties timeout")
                         end)
    (set_registered (delete device (registered s)) s).

(** [c.response.Load(deviceName)]: without a channel the response is an error. *)
Definition load (msg : message) (s : System) : System :=
  match registered s !! device_name msg with
  | Some ch => set_flights (flights s ++ [(ch, msg)]) s
  | None => s
  end.

(** The rest of [processResponse], with the map as it was when the channel was loaded;
    [ready] says whether the caller is at its receive. *)
Definition respond (ready : bool) (msg : message) : handled :=
  processResponse ParseFloat order exact_shadow ready
    {| c_NodeName := c_NodeName ctx; eventCb := eventCb ctx; deltaCb := deltaCb ctx;
       propertyGetCb := propertyGetCb ctx; response := {[device_name msg]}; devices := devices ctx;
       driverConfig_ := driverConfig_ ctx; propsConfig := propsConfig ctx;
       accessConfig_ := accessConfig_ ctx; deviceModels := deviceModels ctx;
       accessTemplates := accessTemplates ctx; lastReportProperties := lastReportProperties ctx |} msg.

Definition send (i ch : nat) (ready : bool) (msg : message) (s : System) : System :=
  let s := set_flights (delete i (flights s)) s in
  match respond ready msg with
  | ([Reply _ shad], _) => set_phase ch (Over (Some shad)) s
  | _ => s
  end.

Definition caller_at (s : System) (ch : nat) (device : string) (p : phase) : Prop :=
  callers s !! ch = Some {| c_device := device; c_phase := p |}.

Inductive step (s : System) : System -> Prop :=
  | step_ask mqtt_Publish info : step s (ask mqtt_Publish info s)
  | step_load_or_store ch device : caller_at s ch device Asked -> step s (load_or_store ch device s)
  | step_timeout ch device : caller_at s ch device Waiting -> step s (set_phase ch (Over None) s)
  | step_finish ch device r : caller_at s ch device (Over r) -> step s (finish ch device r s)
  | step_load msg : msg_Kind msg = MessageResponse -> step s (load msg s)
  (* the send finds the caller at its receive, or it does not; a panic ends the program *)
  | step_send i ch device msg : flights s !! i = Some (ch, msg) -> caller_at s ch device Waiting ->
      (forall w, snd (respond true msg) <> Panic w) -> step s (send i ch true msg s)
  | step_missed i ch msg : flights s !! i = Some (ch, msg) ->
      (forall w, snd (respond false msg) <> Panic w) -> step s (send i ch false msg s).

(** ** The invariant *)

Definition live (p : phase) : bool := match p with Waiting | Over _ => true | _ => false end.

(** A reply that is right for a device: that of a response that names it, parsed by the
    model of the device. *)
Definition right (device : string) (shad : DeviceShadow) : Prop :=
  exists msg dev raw, msg_Kind msg = MessageResponse /\ device_name msg = device /\
    devices ctx !! device = Some dev /\ exact_shadow (msg_Content msg) = Ok (Some raw) /\
    parse ParseFloat order ctx dev (shad_Report raw) = Ok (shad_Report shad) /\
    parse ParseFloat order ctx dev (shad_Desire raw) = Ok (shad_Desire shad).

Definition phase_right (device : string) (p : phase) : Prop :=
  match p with Over (Some shad) | Returned (Ok shad) => right device shad | _ => True end.

Record inv (s : System) : Prop := {
  i_registered : forall device ch, registered s !! device = Some ch <->
    exists p, caller_at s ch device p /\ live p = true;
  i_right : forall ch device p, caller_at s ch device p -> phase_right device p;
  i_flights : forall ch msg, (ch, msg) ∈ flights s -> msg_Kind msg = MessageResponse /\
    exists p, caller_at s ch (device_name msg) p
}.

Context (no_model : mget (deviceModels ctx) "" = None).

Lemma respond_right ready msg d shad rest r : msg_Kind msg = MessageResponse ->
  respond ready msg = (Reply d shad :: rest, r) -> right (device_name msg) shad.
Proof.
  intros Hk Hr. unfold respond in Hr. set (c := Build_DmCtx _ _ _ _ _ _ _ _ _ _ _ _) in Hr.
  pose proof (process_one_right ParseFloat order (fun _ => Err "") (fun _ => Err "") (fun _ => Err "")
    exact_shadow ready c msg no_model) as [_ Hall].
  unfold process_one in Hall. rewrite Hk in Hall.
  change (String.eqb MessageResponse MessageDeviceDelta) with false in Hall.
  change (String.eqb MessageResponse MessageDeviceEvent) with false in Hall.
  change (String.eqb MessageResponse MessageResponse) with true in Hall.
  cbv iota in Hall. rewrite Hr in Hall. apply Forall_cons in Hall as [Hok _].
  cbn in Hok. destruct Hok as (_ & -> & _ & dev & raw & Hd & Hs & Hp & Hq).
  by exists msg, dev, raw.
Qed.
Lemma caller_at_fun s ch d d' p p' : caller_at s ch d p -> caller_at s ch d' p' -> d = d' /\ p = p'.
Proof. unfold caller_at. naive_solver. Qed.

Lemma caller_at_set_phase s ch p ch' d q : caller_at (set_phase ch p s) ch' d q <->
  if decide (ch' = ch) then q = p /\ exists p0, caller_at s ch d p0 else caller_at s ch' d q.
Proof.
  unfold caller_at. cbn. destruct (decide (ch' = ch)) as [->|Hne].
  - rewrite list_lookup_alter_eq. destruct (callers s !! ch) as [[d' p']|]; cbn; [|naive_solver].
    split; [intros [= -> ->]; eauto|]. intros (-> & p0 & [= -> ->]). done.
  - by rewrite list_lookup_alter_ne.
Qed.

(** A caller moves on without entering or leaving the map. *)
Lemma wait_inv_set_phase s ch d p q : inv s -> caller_at s ch d p -> live p = live q -> phase_right d q ->
  inv (set_phase ch q s).
Proof.
  intros [Hreg Hr Hf] Hc Hl Hq. split.
  - intros d' ch'. cbn [set_phase registered]. rewrite Hreg. setoid_rewrite caller_at_set_phase.
    case_decide as He; [subst ch'|done]. split.
    + intros (p' & Hp & Hlp). destruct (caller_at_fun _ _ _ _ _ _ Hc Hp) as [-> ->].
      exists q. split; [eauto|congruence].
    + intros (q' & (-> & p' & Hp) & Hlq). destruct (caller_at_fun _ _ _ _ _ _ Hc Hp) as [-> ->].
      exists p'. split; [done|congruence].
  - intros ch' d' p'. rewrite caller_at_set_phase. case_decide; [subst ch'|apply Hr].
    intros (-> & p0 & Hp). by destruct (caller_at_fun _ _ _ _ _ _ Hc Hp) as [<- _].
  - intros ch' msg Hin. destruct (Hf ch' msg Hin) as (Hk & p' & Hp). split; [done|].
    setoid_rewrite caller_at_set_phase. case_decide; [subst ch'|]; eauto.
Qed.

Lemma wait_inv_sub_flights s l : inv s -> l ⊆ flights s -> inv (set_flights l s).
Proof. intros [Hreg Hr Hf] Hl. split; [done..|]. intros ch msg Hin. apply (Hf ch msg), Hl, Hin. Qed.

Lemma wait_inv_ask mqtt_Publish info s : inv s -> inv (ask mqtt_Publish info s).
Proof.
  unfold ask. destruct (request_properties _ _ _) as [out r]. set (s' := Build_System _ _ _ _).
  assert (Hold : forall ch d p, caller_at s ch d p -> caller_at s' ch d p).
  { intros ch d p Hc. apply lookup_app_l_Some, Hc. }
  assert (Hnew : forall ch d p, caller_at s' ch d p ->
    caller_at s ch d p \/ live p = false /\ phase_right d p).
  { intros ch d p [Hc|[_ Hc]]%lookup_app_Some; [by left|].
    apply list_lookup_singleton_Some in Hc as [_ [= <- <-]]. right. by destruct r. }
  intros [Hreg Hr Hf]. split.
  - intros d ch. change (registered s') with (registered s). rewrite Hreg.
    split; intros (p & Hp & Hl); [by eauto|].
    destruct (Hnew _ _ _ Hp) as [|[? _]]; [eauto|congruence].
  - intros ch d p [Hp|[_ ?]]%Hnew; [by eapply Hr|done].
  - intros ch msg Hin. destruct (Hf ch msg Hin) as (Hk & p & Hp). eauto.
Qed.

Lemma wait_inv_load_or_store s ch d : inv s -> caller_at s ch d Asked -> inv (load_or_store ch d s).
Proof.
  intros Hi Hc. unfold load_or_store. destruct (registered s !! d) as [ch0|] eqn:Hd.
  { by eapply wait_inv_set_phase. }
  destruct Hi as [Hreg Hr Hf]. split.
  - intros d' ch'. cbn [set_phase set_registered registered]. setoid_rewrite caller_at_set_phase.
    rewrite lookup_insert_Some, Hreg. case_decide as He; [subst ch'|].
    + split.
      * intros [[<- _]|[_ (p & Hp & Hl)]]; [by eauto|].
        destruct (caller_at_fun _ _ _ _ _ _ Hc Hp) as [_ <-]. done.
      * intros (p & (_ & p0 & Hp) & _). left. by destruct (caller_at_fun _ _ _ _ _ _ Hc Hp).
    + split; [intros [[_ ->]|[_ ?]]; done|]. intros (p & Hp & Hl). right. split; [|eauto].
      intros ->. assert (Hsome : registered s !! d' = Some ch') by (apply Hreg; eauto).
      congruence.
  - intros ch' d' p. rewrite caller_at_set_phase. case_decide; [by intros [-> _]|apply Hr].
  - intros ch' msg Hin. destruct (Hf ch' msg Hin) as (Hk & p & Hp). split; [done|].
    setoid_rewrite caller_at_set_phase. case_decide; [subst ch'|]; eauto.
Qed.

Lemma wait_inv_finish s ch d r : inv s -> caller_at s ch d (Over r) -> inv (finish ch d r s).
Proof.
  intros [Hreg Hr Hf] Hc. assert (Hd : registered s !! d = Some ch) by (apply Hreg; eauto). split.
  - intros d' ch'. cbn [finish set_phase set_registered registered].
    unfold finish. setoid_rewrite caller_at_set_phase.
    rewrite lookup_delete_Some, Hreg. case_decide as He; [subst ch'|].
    + split; [|by intros (p & (-> & _) & Hl); destruct r].
      intros (Hne & p & Hp & _). by destruct (caller_at_fun _ _ _ _ _ _ Hc Hp).
    + split; [naive_solver|]. intros (p & Hp & Hl). split; [|eauto].
      intros <-. assert (Hsome : registered s !! d = Some ch') by (apply Hreg; eauto). congruence.
  - intros ch' d' p. unfold finish. rewrite caller_at_set_phase. case_decide; [subst ch'|apply Hr].
    intros (-> & p0 & Hp). destruct (caller_at_fun _ _ _ _ _ _ Hc Hp) as [<- _].
    pose proof (Hr _ _ _ Hc) as Hq. by destruct r.
  - intros ch' msg Hin. destruct (Hf ch' msg Hin) as (Hk & p & Hp). split; [done|].
    unfold finish. setoid_rewrite caller_at_set_phase. case_decide; [subst ch'|]; eauto.
Qed.

Lemma wait_inv_load s msg : inv s -> msg_Kind msg = MessageResponse -> inv (load msg s).
Proof.
  intros Hi Hk. unfold load. destruct (registered s !! device_name msg) as [ch|] eqn:Hd; [|done].
  destruct Hi as [Hreg Hr Hf]. split; [done..|].
  intros ch' m [Hin|[= -> ->]%list_elem_of_singleton]%elem_of_app; [by apply Hf|].
  split; [done|]. apply Hreg in Hd as (p & Hp & _). by exists p.
Qed.

(** Whatever the response comes to, it only moves a caller that waits for its device. *)
Lemma wait_inv_send s i ch ready msg : inv s -> flights s !! i = Some (ch, msg) ->
  (ready = true -> exists d, caller_at s ch d Waiting) -> inv (send i ch ready msg s).
Proof.
  intros Hi Hfl Hw.
  assert (Hi' : inv (set_flights (delete i (flights s)) s)).
  { apply wait_inv_sub_flights; [done|]. intros x. apply list_elem_of_delete_inv. }
  unfold send. destruct (respond ready msg) as [[|[| | |d shad] [|]] r] eqn:Hr; try done.
  destruct (i_flights _ Hi ch msg) as (Hk & p & Hp); [by eapply list_elem_of_lookup_2|].
  pose proof (respond_right _ _ _ _ _ _ Hk Hr) as Hright.
  destruct ready.
  - destruct Hw as [d' Hd']; [done|]. destruct (caller_at_fun _ _ _ _ _ _ Hp Hd') as [<- ->].
    eapply wait_inv_set_phase; [done|exact Hd'|done|exact Hright].
  - exfalso. revert Hr. unfold respond, processResponse, check. repeat case_match; congruence.
Qed.

Lemma wait_inv_step s s' : step s s' -> inv s -> inv s'.
Proof.
  intros Hs Hi. destruct Hs as [pub info|ch d Hc|ch d Hc|ch d r Hc|msg Hk|i ch d msg Hf Hc _|i ch msg Hf _].
  - by apply wait_inv_ask.
  - by apply wait_inv_load_or_store.
  - by eapply wait_inv_set_phase.
  - by apply wait_inv_finish.
  - by apply wait_inv_load.
  - apply wait_inv_send; eauto.
  - by apply wait_inv_send.
Qed.

Lemma wait_inv_init : inv init.
Proof.
  split.
  - intros d ch. cbn. split; [done|]. by intros (p & Hp & _).
  - by intros ch d p.
  - by intros ch msg ?%elem_of_nil.
Qed.

(** C11. However calls of [GetDeviceProperties], their timers and the responses of devices
    interleave, at most one call waits for a device; a call is refused exactly while another
    one waits for its device; a channel is registered only while its call has not returned;
    and a call that returns properties returns those of a response that names its own device,
    parsed by the model of that device. *)
Theorem replies_reach_their_caller s : rtc step init s ->
  (forall ch ch' device p p', caller_at s ch device p -> caller_at s ch' device p' ->
     live p = true -> live p' = true -> ch = ch') /\
  (forall ch device, caller_at s ch device Asked ->
     caller_at (load_or_store ch device s) ch device (Returned (Err ErrWaiting)) <->
     exists ch' p, caller_at s ch' device p /\ live p = true) /\
  (forall device ch, registered s !! device = Some ch ->
     exists p, caller_at s ch device p /\ live p = true) /\
  (forall ch device shad, caller_at s ch device (Returned (Ok shad)) -> right device shad).
Proof.
  intros Hs. assert (Hi : inv s) by exact (rtc_preserves _ inv wait_inv_step _ _ Hs wait_inv_init).
  destruct Hi as [Hreg Hr _]. split; [|split; [|split]].
  - intros ch ch' d p p' Hp Hp' Hl Hl'.
    assert (Hsome : registered s !! d = Some ch) by (apply Hreg; eauto).
    assert (Hsome' : registered s !! d = Some ch') by (apply Hreg; eauto). congruence.
  - intros ch d Hc. unfold load_or_store. destruct (registered s !! d) as [ch0|] eqn:Hd;
      rewrite caller_at_set_phase, decide_True by done.
    + apply Hreg in Hd as (p & Hp). split; [eauto|]. by eauto.
    + split; [by intros [? _]|]. intros (ch' & p & Hp & Hl).
      assert (Hsome : registered s !! d = Some ch') by (apply Hreg; eauto). congruence.
  - intros d ch Hd. by apply Hreg.
  - intros ch d shad Hc. by apply (Hr _ _ _ Hc).
Qed.
End wait.

(** ** Examples *)

Definition reply_msg (name : string) : Message BlinkContent :=
  {| msg_Kind := MessageResponse; msg_Metadata := Some {[KeyDevice := name]};
     msg_Content := {| Value := None; doc := Some "{}" |} |}.

Definition shadow21 : DeviceShadow :=
  {| shad_Name := "d"; shad_Report := Some {["t" := VNumber "21"]}; shad_Desire := Some ∅ |}.
Definition answer21 : DeviceShadow :=
  {| shad_Name := "d"; shad_Report := Some {["t" := VInt KInt16 21]}; shad_Desire := Some ∅ |}.

Definition demo_step :=
  step (fun _ _ => Err "") map_to_list (fun _ => Ok (Some shadow21)) (fun _ => Ok "{}") ctx1.

Definition final (requests : nat) (reg : gmap string nat) (phases : list phase) : System :=
  {| requests := replicate requests {| pub_QOS := 0; pub_Topic := ""; pub_Payload := "{}" |};
     registered := reg;
     callers := (fun p => {| c_device := "d"; c_phase := p |}) <$> phases; flights := [] |}.

Local Tactic Notation "next" uconstr(c) := eapply rtc_l; [eapply c; try (vm_compute; reflexivity)|].

Local Tactic Notation "there" :=
  match goal with |- rtc _ ?s ?s' => replace s' with s by (vm_compute; reflexivity) end; apply rtc_refl.

Local Abbreviation device_d := (device "d" "m").
Local Abbreviation published_ok := (fun _ _ _ => None).

(** Two calls for a device: the first waits and gets its reply, the second is refused. *)
Lemma second_refused : rtc demo_step init
  (final 2 ∅ [Returned (Ok answer21); Returned (Err ErrWaiting)]).
Proof.
  next (step_ask _ _ _ _ _ _ published_ok device_d).
  next (step_ask _ _ _ _ _ _ published_ok device_d).
  next (step_load_or_store _ _ _ _ _ _ 0 "d").
  next (step_load_or_store _ _ _ _ _ _ 1 "d").
  next (step_load _ _ _ _ _ _ (reply_msg "d")).
  next (step_send _ _ _ _ _ _ 0 0 "d" (reply_msg "d")); [by vm_compute|].
  next (step_finish _ _ _ _ _ _ 0 "d" (Some answer21)).
  there.
Qed.

(** A reply that is processed before the caller has registered its channel is an error for
    the goroutine that processes it, and the caller times out. *)
Example reply_too_early : rtc demo_step init
  (final 1 ∅ [Returned (Err "get device: d properties timeout")]).
Proof.
  next (step_ask _ _ _ _ _ _ published_ok device_d).
  next (step_load _ _ _ _ _ _ (reply_msg "d")).
  next (step_load_or_store _ _ _ _ _ _ 0 "d").
  next (step_timeout _ _ _ _ _ _ 0 "d").
  next (step_finish _ _ _ _ _ _ 0 "d" None).
  there.
Qed.

(** The reply that comes after the first call has timed out goes to the second. *)
Example late_reply : rtc demo_step init
  (final 2 ∅ [Returned (Err "get device: d properties timeout"); Returned (Ok answer21)]).
Proof.
  next (step_ask _ _ _ _ _ _ published_ok device_d).
  next (step_load_or_store _ _ _ _ _ _ 0 "d").
  next (step_timeout _ _ _ _ _ _ 0 "d").
  next (step_finish _ _ _ _ _ _ 0 "d" None).
  next (step_ask _ _ _ _ _ _ published_ok device_d).
  next (step_load_or_store _ _ _ _ _ _ 1 "d").
  next (step_load _ _ _ _ _ _ (reply_msg "d")).
  next (step_send _ _ _ _ _ _ 0 1 "d" (reply_msg "d")); [by vm_compute|].
  next (step_finish _ _ _ _ _ _ 1 "d" (Some answer21)).
  there.
Qed.

Lemma replies_reach_their_caller_witness :
  right (fun _ _ => Err "") map_to_list (fun _ => Ok (Some shadow21)) ctx1 "d" answer21.
Proof.
  destruct (replies_reach_their_caller (fun _ _ => Err "") map_to_list (fun _ => Ok (Some shadow21))
    (fun _ => Ok "{}") ctx1 eq_refl _ second_refused) as (_ & _ & _ & Hright).
  apply (Hright 0). vm_compute. reflexivity.
Defined.
