(* ===== verification/ProtoWire.v ===== *)
(** * The protobuf wire format, as the generated marshallers use it

    What mqtt/mqtt.pb.go and faas/function.pb.go share: varints written into and
    read from a byte buffer at an index, the size of a varint, and the skipping of
    unknown fields.  Indices are Go ints, wrapped where they can overflow; an
    index outside the buffer panics.  The encoders write a buffer backwards; they
    are related to the plain concatenation of the encoded fields. *)

From Stdlib Require Import ZArith Lia String.
From stdpp Require Import base option list.
From S2P Require Import Prelude.

Local Open Scope string_scope.
Local Open Scope Z_scope.
Local Open Scope list_scope.

Definition ErrInvalidLength : error := "proto: negative length found during unmarshaling".
Definition ErrIntOverflow : error := "proto: integer overflow".
Definition ErrUnexpectedEndOfGroup : error := "proto: unexpected end of group".
Definition ErrUnexpectedEOF : error := "unexpected EOF".
Definition ErrWireType : error := "proto: illegal wireType".

Definition index_panic : string := "index out of range".

(** ** Buffers *)

Definition zlen {A} (d : list A) : Z := Z.of_nat (length d).

(** [d[i]], [d[i:j]], [d[i:]] *)
Definition at_index (d : list byte) (i : Z) : outcome Z :=
  if 0 <=? i then
    match d !! Z.to_nat i with Some b => Ok (b2z b) | None => Panic index_panic end
  else Panic index_panic.

Definition slice (d : list byte) (i j : Z) : outcome (list byte) :=
  if (0 <=? i) && (i <=? j) && (j <=? zlen d)
  then Ok (take (Z.to_nat (j - i)) (drop (Z.to_nat i) d)) else Panic index_panic.

(** [d[i] = b] and [copy(d[i:], s)] *)
Definition store (d : list byte) (i : Z) (b : byte) : outcome (list byte) :=
  if (0 <=? i) && (i <? zlen d) then Ok (<[Z.to_nat i := b]> d) else Panic index_panic.

Definition copy_at (d : list byte) (i : Z) (s : list byte) : outcome (list byte) :=
  if (0 <=? i) && (i <=? zlen d) then
    let n := Z.to_nat i in
    Ok (take n d ++ take (length d - n)%nat s ++ drop (n + length s)%nat d)
  else Panic index_panic.

(** The bytes of a slice that may be nil. *)
Definition slice_bytes (s : option (list byte)) : list byte := default [] s.

(** ** Varints *)

(** [sov(x)]: the number of bytes of [x] as a varint. *)
Definition Len64 (x : Z) : Z := if x =? 0 then 0 else Z.log2 x + 1.
Definition sov (x : Z) : Z := (Len64 (Z.lor x 1) + 6) / 7.

(** [encodeVarint(dAtA, offset, v)]: the buffer and the offset it returns. Ten
    rounds are enough for 64 bits. *)
Fixpoint encode_loop (fuel : nat) (d : list byte) (offset v : Z) : outcome (list byte) :=
  match fuel with
  | O => NoFuel
  | S fuel =>
      if 128 <=? v then
        d' ← store d offset (z2b (Z.lor (Z.land v 127) 128));
        encode_loop fuel d' (offset + 1) (Z.shiftr v 7)
      else store d offset (z2b v)
  end.

Definition encodeVarint (d : list byte) (offset v : Z) : outcome (list byte * Z) :=
  let base := offset - sov v in
  d' ← encode_loop 10 d base v;
  Ok (d', base).

(** The marshallers write towards the front: the buffer and the index of the first
    byte written. Their three steps are
    [i -= len(s); copy(dAtA[i:], s)], [i = encodeVarint(dAtA, i, v)] and
    [i--; dAtA[i] = b]; [put_if] is an [if] around some of them. *)
Definition writer : Type := list byte * Z -> outcome (list byte * Z).

Definition put_bytes (s : list byte) : writer := fun '(d, i) =>
  let i := i - zlen s in d' ← copy_at d i s; Ok (d', i).
Definition put_varint (v : Z) : writer := fun '(d, i) => encodeVarint d i v.
Definition put_byte (b : Z) : writer := fun '(d, i) =>
  let i := i - 1 in d' ← store d i (z2b b); Ok (d', i).
Definition put_if (c : bool) (w : writer) : writer := fun di => if c then w di else Ok di.
Definition then_ (w1 w2 : writer) : writer := fun di => di ← w1 di; w2 di.

(** Bytes with their length and tag in front, written from the end. *)
Definition put_lengthed (tag : Z) (s : list byte) : writer :=
  then_ (put_bytes s) (then_ (put_varint (uint64 (zlen s))) (put_byte tag)).
Definition put_number (tag v : Z) : writer := then_ (put_varint v) (put_byte tag).

(** [MarshalToSizedBuffer(dAtA)] around the writer of a message: the number of
    bytes written at the end of the buffer. *)
Definition to_sized_buffer (w : writer) (d : list byte) : outcome (list byte * Z) :=
  '(d, i) ← w (d, zlen d); Ok (d, zlen d - i).

(** A message inside a message: [MarshalToSizedBuffer(dAtA[:i])] and its size. The
    sub-slice shares the buffer. *)
Definition put_message (marshal : list byte -> outcome (list byte * Z)) : writer :=
  fun '(d, i) =>
    sub ← slice d 0 i;
    '(sub, size) ← marshal sub;
    encodeVarint (sub ++ drop (Z.to_nat i) d) (i - size) size.

(** [MarshalTo(dAtA)]: into the first bytes of a buffer that is large enough (its
    capacity taken to be its length); the sub-slice shares the buffer. *)
Definition marshal_to (size : Z) (to_sized : list byte -> outcome (list byte * Z))
    (d : list byte) : outcome (list byte * Z) :=
  sub ← slice d 0 size;
  '(sub, n) ← to_sized sub;
  Ok (sub ++ drop (Z.to_nat size) d, n).

(** [Marshal]: a zeroed buffer of the computed size, [dAtA[:n]]. *)
Definition marshal_with (size : Z) (to_sized : list byte -> outcome (list byte * Z))
    : outcome (list byte) :=
  if size <? 0 then Panic "makeslice: len out of range"
  else
    '(d, n) ← to_sized (replicate (Z.to_nat size) (z2b 0));
    slice d 0 n.

(** [XXX_Marshal(b, deterministic)], of [b[:cap(b)]]: what the library's own marshaller
    gives, or the first bytes of the buffer after it was written from its end. *)
Definition xxx_marshal (info : outcome (list byte)) (to_sized : list byte -> outcome (list byte * Z))
    (b : list byte) (deterministic : bool) : outcome (list byte) :=
  if deterministic then info
  else
    '(b, n) ← to_sized b;
    slice b 0 n.

(** The loop that reads a varint at [idx]: each byte gives seven bits, converted
    to the type of the result by [conv] (as is the union); more than ten bytes are an error.  The
    value and the index after it. *)
Fixpoint varint_loop (fuel : nat) (conv : Z -> Z) (d : list byte) (shift acc idx : Z)
    : outcome (Z * Z) :=
  match fuel with
  | O => NoFuel
  | S fuel =>
      if 64 <=? shift then Err ErrIntOverflow
      else if zlen d <=? idx then Err ErrUnexpectedEOF
      else
        b ← at_index d idx;
        let acc := conv (Z.lor acc (conv (Z.shiftl (Z.land b 127) shift))) in
        if b <? 128 then Ok (acc, idx + 1)
        else varint_loop fuel conv d (shift + 7) acc (idx + 1)
  end.

Definition read_varint (conv : Z -> Z) (d : list byte) (idx : Z) : outcome (Z * Z) :=
  varint_loop 11 conv d 0 0 idx.

(** A length, read as an [int]: the index after the bytes it announces, and these
    bytes. *)
Definition post_index (d : list byte) (length idx : Z) : outcome Z :=
  if length <? 0 then Err ErrInvalidLength
  else
    let postIndex := int64 (idx + length) in
    if postIndex <? 0 then Err ErrInvalidLength
    else if zlen d <? postIndex then Err ErrUnexpectedEOF
    else Ok postIndex.

Definition take_length (d : list byte) (length idx : Z) : outcome (list byte * Z) :=
  postIndex ← post_index d length idx;
  s ← slice d idx postIndex;
  Ok (s, postIndex).

(** The two ways the generated code reads a length: into a [uint64] converted to
    [int] afterwards (strings), or into an [int] directly (bytes, messages). *)
Definition read_string (d : list byte) (idx : Z) : outcome (list byte * Z) :=
  '(stringLen, idx) ← read_varint uint64 d idx;
  take_length d (int64 stringLen) idx.

Definition read_bytes (d : list byte) (idx : Z) : outcome (list byte * Z) :=
  '(byteLen, idx) ← read_varint int64 d idx;
  take_length d byteLen idx.

(** ** Skipping a field *)

(** What follows a tag, by its wire type: the index after it and the number of
    groups open. *)
Definition skip_body (d : list byte) (wireType idx depth : Z) : outcome (Z * Z) :=
  if wireType =? 0 then '(_, idx) ← read_varint uint64 d idx; Ok (idx, depth)
  else if wireType =? 1 then Ok (int64 (idx + 8), depth)
  else if wireType =? 2 then
    '(length, idx) ← read_varint int64 d idx;
    if length <? 0 then Err ErrInvalidLength else Ok (int64 (idx + length), depth)
  else if wireType =? 3 then Ok (idx, depth + 1)
  else if wireType =? 4 then
    if depth =? 0 then Err ErrUnexpectedEndOfGroup else Ok (idx, depth - 1)
  else if wireType =? 5 then Ok (int64 (idx + 4), depth)
  else Err ErrWireType.

(** [skip(dAtA)]: the length of the field, groups included, that starts the
    buffer.  Every round reads at least a byte. *)
Fixpoint skip_loop (fuel : nat) (d : list byte) (idx depth : Z) : outcome Z :=
  match fuel with
  | O => NoFuel
  | S fuel =>
      if zlen d <=? idx then Err ErrUnexpectedEOF
      else
        '(wire, idx) ← read_varint uint64 d idx;
        '(idx, depth) ← skip_body d (Z.land wire 7) idx depth;
        if idx <? 0 then Err ErrInvalidLength
        else if depth =? 0 then Ok idx
        else skip_loop fuel d idx depth
  end.

Definition skip (d : list byte) : outcome Z := skip_loop (S (length d)) d 0 0.

(** The default case of a message: the field that starts at [preIndex]. *)
Definition skip_field (d : list byte) (preIndex : Z) : outcome Z :=
  skippy ← skip (drop (Z.to_nat preIndex) d);
  if skippy <? 0 then Err ErrInvalidLength
  else if int64 (preIndex + skippy) <? 0 then Err ErrInvalidLength
  else if zlen d <? int64 (preIndex + skippy) then Err ErrUnexpectedEOF
  else Ok (int64 (preIndex + skippy)).

(** ** Reading a message *)

Section message.
Context {M : Type}.
(** The cases of a message: for a field number and wire type it knows, how the
    message and the index after the tag change; [None] for an unknown field. *)
Context (field : M -> Z -> Z -> list byte -> Z -> option (outcome (M * Z))).

(** [m.Unmarshal(dAtA)] *)
Fixpoint unmarshal_loop (fuel : nat) (d : list byte) (m : M) (idx : Z) : outcome M :=
  match fuel with
  | O => NoFuel
  | S fuel =>
      if idx <? zlen d then
        '(wire, idx') ← read_varint uint64 d idx;
        let fieldNum := int32 (Z.shiftr wire 3) in
        let wireType := Z.land wire 7 in
        if wireType =? 4 then Err "proto: wiretype end group for non-group"
        else if fieldNum <=? 0 then Err "proto: illegal tag"
        else match field m fieldNum wireType d idx' with
             | Some r => '(m', idx'') ← r; unmarshal_loop fuel d m' idx''
             | None => idx'' ← skip_field d idx; unmarshal_loop fuel d m idx''
             end
      else if zlen d <? idx then Err ErrUnexpectedEOF
      else Ok m
  end.

Definition unmarshal (d : list byte) (m : M) : outcome M :=
  unmarshal_loop (S (length d)) d m 0.
End message.

Definition wrong_wire : error := "proto: wrong wireType".

(** [case n]: the wire type is checked, the field read and set. *)
Definition case_field {A M} (wireType want : Z) (read : outcome (A * Z)) (set : A -> M)
    : option (outcome (M * Z)) :=
  Some (if negb (wireType =? want) then Err wrong_wire
        else '(v, idx) ← read; Ok (set v, idx)).

(** ** Comparing messages *)

(** What the [interface{}] argument of [Equal] can hold. *)
Inductive any (A : Type) : Type :=
  | AnyNil
  | AnyPointer (p : option A)
  | AnyValue (a : A)
  | AnyOther.
Arguments AnyNil {A}.
Arguments AnyPointer {A}.
Arguments AnyValue {A}.
Arguments AnyOther {A}.

(** The preamble of both [Equal]s: nil and the type of the argument. *)
Definition equal_any {A} (eq : A -> A -> bool) (this : option A) (that : any A) : bool :=
  let with_pointer that1 :=
    match that1, this with
    | None, _ => match this with None => true | _ => false end
    | Some _, None => false
    | Some that1, Some this => eq this that1
    end in
  match that with
  | AnyNil => match this with None => true | _ => false end
  | AnyPointer that1 => with_pointer that1
  | AnyValue that2 => with_pointer (Some that2)
  | AnyOther => false
  end.

(** ** What the encoding means *)

(** The varint of [v]: seven bits a byte, least significant first. *)
Fixpoint varint_fuel (fuel : nat) (v : Z) : list byte :=
  match fuel with
  | O => []
  | S fuel =>
      if 128 <=? v then z2b (Z.lor (Z.land v 127) 128) :: varint_fuel fuel (Z.shiftr v 7)
      else [z2b v]
  end.
Definition varint (v : Z) : list byte := varint_fuel 10 v.

(** Bytes with their length in front. *)
Definition lengthed (s : list byte) : list byte := varint (zlen s) ++ s.

#[global] Arguments read_varint : simpl never.
#[global] Arguments skip : simpl never.
#[global] Arguments skip_body : simpl never.
#[global] Arguments skip_field : simpl never.
#[global] Arguments encodeVarint : simpl never.
#[global] Arguments varint : simpl never.

(** ** Lemmas: varints *)

Lemma pow7 k : 2 ^ (7 * Z.of_nat (S k)) = 128 * 2 ^ (7 * Z.of_nat k).
Proof. replace (7 * Z.of_nat (S k)) with (7 + 7 * Z.of_nat k) by lia. by rewrite Z.pow_add_r by lia. Qed.

Lemma shiftr7 v : Z.shiftr v 7 = v / 128.
Proof. by rewrite Z.shiftr_div_pow2 by lia. Qed.

Lemma shiftr7_range v k :
  0 <= v < 2 ^ (7 * Z.of_nat (S k)) -> 0 <= Z.shiftr v 7 < 2 ^ (7 * Z.of_nat k).
Proof.
  rewrite pow7, shiftr7. intros Hv.
  split; [apply Z.div_pos; lia|apply Z.div_lt_upper_bound; lia].
Qed.

Lemma land127 v : Z.land v 127 = v mod 128.
Proof. change 127 with (Z.ones 7). by rewrite Z.land_ones by lia. Qed.

(** Disjoint bits add up. *)
Lemma lor_shift a b n : 0 <= n -> 0 <= a < 2 ^ n -> Z.lor a (Z.shiftl b n) = a + Z.shiftl b n.
Proof.
  intros Hn Ha. destruct (Z.eq_dec a 0) as [->|Hne]; [by rewrite Z.lor_0_l|].
  assert (Hd : Z.land a (Z.shiftl b n) = 0).
  { apply Z.bits_inj'. intros i Hi. rewrite Z.land_spec, Z.bits_0.
    destruct (Z.lt_ge_cases i n) as [Hlt|Hge].
    - by rewrite Z.shiftl_spec_low, andb_false_r by lia.
    - rewrite (Z.bits_above_log2 a i); [done|lia|]. apply Z.log2_lt_pow2; [lia|].
      apply Z.lt_le_trans with (2 ^ n); [lia|]. apply Z.pow_le_mono_r; lia. }
  pose proof (Z.add_lor_land a (Z.shiftl b n)). lia.
Qed.

Lemma byte_high v : Z.lor (Z.land v 127) 128 = v mod 128 + 128.
Proof.
  rewrite land127. change 128 with (Z.shiftl 1 7) at 2.
  rewrite lor_shift; [done|lia|]. apply Z.mod_pos_bound. lia.
Qed.

Lemma b2z_low v : 0 <= v < 128 -> b2z (z2b v) = v.
Proof. intros. rewrite b2z_z2b, Z.mod_small; lia. Qed.

Lemma b2z_high v : b2z (z2b (Z.lor (Z.land v 127) 128)) = v mod 128 + 128.
Proof.
  rewrite byte_high, b2z_z2b. apply Z.mod_small.
  pose proof (Z.mod_pos_bound v 128). lia.
Qed.

Lemma varint_last fuel v : v < 128 -> varint_fuel (S fuel) v = [z2b v].
Proof. intros. cbn [varint_fuel]. by rewrite (proj2 (Z.leb_gt _ _)) by lia. Qed.

Lemma varint_more fuel v : 128 <= v ->
  varint_fuel (S fuel) v =
  z2b (Z.lor (Z.land v 127) 128) :: varint_fuel fuel (Z.shiftr v 7).
Proof. intros. cbn [varint_fuel]. by rewrite (proj2 (Z.leb_le _ _)) by lia. Qed.

Lemma zlen_app {A} (l k : list A) : zlen (l ++ k) = zlen l + zlen k.
Proof. unfold zlen. rewrite length_app. lia. Qed.
Lemma zlen_cons {A} (x : A) l : zlen (x :: l) = 1 + zlen l.
Proof. unfold zlen. cbn. lia. Qed.
Lemma zlen_nonneg {A} (l : list A) : 0 <= zlen l.
Proof. unfold zlen. lia. Qed.

Lemma log2_small v : 0 <= v < 128 -> Z.log2 v / 7 = 0.
Proof.
  intros Hv. pose proof (Z.log2_nonneg v). apply Z.div_small. split; [done|].
  destruct (Z.eq_dec v 0) as [->|]; [done|]. apply Z.log2_lt_pow2; lia.
Qed.

Lemma log2_large v : 128 <= v -> Z.log2 v / 7 = Z.log2 (Z.shiftr v 7) / 7 + 1.
Proof.
  intros Hv. assert (7 <= Z.log2 v) by (apply Z.log2_le_pow2; lia).
  rewrite Z.log2_shiftr, Z.max_r by lia.
  rewrite <- Z.div_add by lia. f_equal. lia.
Qed.

Lemma varint_length k : forall v, 0 <= v < 2 ^ (7 * Z.of_nat (S k)) ->
  zlen (varint_fuel (S k) v) = Z.log2 v / 7 + 1.
Proof.
  induction k as [|k IH]; intros v Hv; (destruct (Z.lt_ge_cases v 128) as [Hs|Hl];
    [rewrite varint_last, log2_small by lia; done|]).
  - exfalso. change (2 ^ (7 * Z.of_nat 1)) with 128 in Hv. lia.
  - rewrite varint_more, zlen_cons, IH, (log2_large v) by (done || by apply shiftr7_range). lia.
Qed.

Lemma sov_log2 v : 0 <= v -> sov v = Z.log2 v / 7 + 1.
Proof.
  intros Hv. unfold sov, Len64.
  assert (Hl : Z.log2 (Z.lor v 1) = Z.log2 v).
  { rewrite Z.log2_lor by lia. pose proof (Z.log2_nonneg v). cbn. lia. }
  assert (Hne : Z.lor v 1 <> 0). { intros H%Z.lor_eq_0_iff. lia. }
  rewrite (proj2 (Z.eqb_neq _ _) Hne), Hl.
  replace (Z.log2 v + 1 + 6) with (Z.log2 v + 1 * 7) by lia. by rewrite Z.div_add by lia.
Qed.

Lemma sov_length v : in_u 64 v -> sov v = zlen (varint v).
Proof.
  intros [Hv Hlt]. rewrite sov_log2 by lia. unfold varint.
  rewrite varint_length; [done|]. split; [done|]. cbn. lia.
Qed.

Lemma sov_pos v : 0 <= v -> 1 <= sov v.
Proof.
  intros. rewrite sov_log2 by done.
  pose proof (Z.div_pos (Z.log2 v) 7 ltac:(apply Z.log2_nonneg)). lia.
Qed.

Lemma varint_small v : v < 128 -> varint v = [z2b v].
Proof. apply varint_last. Qed.

(** *** Reading what was written *)

Lemma at_index_app pre b post : at_index (pre ++ b :: post) (zlen pre) = Ok (b2z b).
Proof.
  unfold at_index, zlen. rewrite (proj2 (Z.leb_le _ _)) by lia.
  rewrite Nat2Z.id, lookup_app_r, Nat.sub_diag by lia. done.
Qed.

(** One round of the reading loop. *)
Lemma varint_loop_byte conv fuel pre b post shift acc :
  shift < 64 ->
  varint_loop (S fuel) conv (pre ++ b :: post) shift acc (zlen pre) =
  (let acc := conv (Z.lor acc (conv (Z.shiftl (Z.land (b2z b) 127) shift))) in
   if b2z b <? 128 then Ok (acc, zlen pre + 1)
   else varint_loop fuel conv ((pre ++ [b]) ++ post) (shift + 7) acc (zlen (pre ++ [b]))).
Proof.
  intros Hs. cbn [varint_loop]. rewrite (proj2 (Z.leb_gt 64 shift)) by done.
  rewrite (proj2 (Z.leb_gt _ _)) by
    (rewrite zlen_app, zlen_cons; pose proof (zlen_nonneg post); lia).
  rewrite at_index_app. cbn [mbind outcome_bind].
  by rewrite <- app_assoc, (zlen_app pre [b]).
Qed.

(** A piece of seven bits put above the [shift] bits read so far. *)
Lemma piece_read conv w v acc shift :
  (forall x, 0 <= x < 2 ^ w -> conv x = x) ->
  0 <= v < 128 -> 0 <= shift -> 0 <= acc < 2 ^ shift -> acc + v * 2 ^ shift < 2 ^ w ->
  conv (Z.lor acc (conv (Z.shiftl v shift))) = acc + v * 2 ^ shift.
Proof.
  intros Hconv Hv Hs Hacc Hlt.
  assert (0 < 2 ^ shift) by (apply Z.pow_pos_nonneg; lia).
  rewrite (Hconv (Z.shiftl v shift)), lor_shift, Z.shiftl_mul_pow2 by
    (try rewrite Z.shiftl_mul_pow2; lia || nia).
  apply Hconv. nia.
Qed.

Lemma varint_loop_read conv w k : forall fuel v pre post shift acc,
  (forall x, 0 <= x < 2 ^ w -> conv x = x) -> 0 <= w <= 64 ->
  (S k <= fuel)%nat -> 0 <= v < 2 ^ (7 * Z.of_nat (S k)) ->
  0 <= shift < 64 -> 0 <= acc < 2 ^ shift -> acc + v * 2 ^ shift < 2 ^ w ->
  varint_loop fuel conv (pre ++ varint_fuel (S k) v ++ post) shift acc (zlen pre) =
  Ok (acc + v * 2 ^ shift, zlen pre + zlen (varint_fuel (S k) v)).
Proof.
  induction k as [|k IH]; intros fuel v pre post shift acc Hconv Hw Hfuel Hv Hs Hacc Hlt;
    (destruct fuel as [|fuel]; [lia|]); (destruct (Z.lt_ge_cases v 128) as [Hsm|Hl]).
  1,3: rewrite varint_last by done; cbn [app]; rewrite varint_loop_byte, b2z_low by lia;
    cbv zeta; rewrite (proj2 (Z.ltb_lt _ _)), land127, (Z.mod_small v 128) by lia;
    by rewrite (piece_read conv w) by (done || lia).
  { exfalso. change (2 ^ (7 * Z.of_nat 1)) with 128 in Hv. lia. }
  rewrite varint_more by done. cbn [app].
  rewrite varint_loop_byte, b2z_high by lia. cbv zeta.
  pose proof (Z.mod_pos_bound v 128 ltac:(lia)). pose proof (Z.div_mod v 128 ltac:(lia)).
  assert (1 <= v / 128) by (apply Z.div_le_lower_bound; lia).
  assert (0 < 2 ^ shift) by (apply Z.pow_pos_nonneg; lia).
  assert (Hp7 : 2 ^ (shift + 7) = 2 ^ shift * 128) by by rewrite Z.pow_add_r by lia.
  assert (Hland : Z.land (v mod 128 + 128) 127 = v mod 128).
  { rewrite land127. replace (v mod 128 + 128) with (v mod 128 + 1 * 128) by lia.
    by rewrite Z.mod_add, Z.mod_mod by lia. }
  rewrite (proj2 (Z.ltb_ge _ _)), Hland, (piece_read conv w) by (done || nia).
  assert (shift + 7 < 64).
  { apply (Z.pow_lt_mono_r_iff 2); [lia..|].
    apply Z.lt_le_trans with (2 ^ w); [nia|apply Z.pow_le_mono_r; lia]. }
  rewrite IH; [|done|done|lia|by apply shiftr7_range|lia|rewrite Hp7; nia|
    rewrite shiftr7, Hp7; nia].
  rewrite shiftr7, Hp7, zlen_app, !zlen_cons. change (zlen (@nil byte)) with 0. f_equal. f_equal; [nia|lia].
Qed.

Lemma read_varint_app conv w v pre post :
  (forall x, 0 <= x < 2 ^ w -> conv x = x) -> 0 <= w <= 64 -> 0 <= v < 2 ^ w ->
  read_varint conv (pre ++ varint v ++ post) (zlen pre) = Ok (v, zlen pre + sov v).
Proof.
  intros Hconv Hw Hv. unfold read_varint, varint.
  assert (v < 2 ^ 64).
  { apply Z.lt_le_trans with (2 ^ w); [lia|]. apply Z.pow_le_mono_r; lia. }
  rewrite (varint_loop_read conv w); [|done|lia|lia| |lia|cbn; lia|cbn; lia].
  - change (varint_fuel 10 v) with (varint v).
    rewrite sov_length by (unfold in_u; lia). do 2 f_equal. change (2 ^ 0) with 1. lia.
  - split; [lia|]. change (7 * Z.of_nat 10) with 70. lia.
Qed.

(** *** Writing backwards *)

(** The end of [d], from index [i], is [t]. *)
Definition wrote (d : list byte) (i : Z) (t : list byte) : Prop :=
  exists pre, d = pre ++ t /\ zlen pre = i.

(** A writer puts [s] in front of what was written, whenever there is room. *)
Definition writes (w : writer) (s : list byte) : Prop :=
  forall d i t, wrote d i t -> zlen s <= i ->
  exists d', w (d, i) = Ok (d', i - zlen s) /\ wrote d' (i - zlen s) (s ++ t) /\
    zlen d' = zlen d.

Lemma writes_then w1 w2 s1 s2 : writes w1 s1 -> writes w2 s2 -> writes (then_ w1 w2) (s2 ++ s1).
Proof.
  intros H1 H2 d i t Hw Hi. rewrite zlen_app in *.
  pose proof (zlen_nonneg s1). pose proof (zlen_nonneg s2).
  destruct (H1 d i t Hw) as (d1 & E1 & Hw1 & Hl1); [lia|].
  destruct (H2 d1 _ _ Hw1) as (d2 & E2 & Hw2 & Hl2); [lia|].
  exists d2. unfold then_. rewrite E1. cbn [mbind outcome_bind]. rewrite E2, <- app_assoc.
  replace (i - (zlen s2 + zlen s1)) with (i - zlen s1 - zlen s2) by lia. split_and!; congruence || done.
Qed.

Lemma writes_if c w s : (c = true -> writes w s) -> writes (put_if c w) (if c then s else []).
Proof.
  intros Hw d i t Hd Hi. destruct c; cbn [put_if]; [by apply Hw|].
  exists d. change (zlen []) with 0. by rewrite Z.sub_0_r.
Qed.

(** Room for [s] in front of [t]. *)
Lemma wrote_room d i t (s : list byte) : wrote d i t -> zlen s <= i ->
  exists pre old, d = pre ++ old ++ t /\ zlen pre = i - zlen s /\ length old = length s.
Proof.
  intros (pre & -> & Hpre) Hi. unfold zlen in *.
  exists (take (length pre - length s) pre), (drop (length pre - length s) pre).
  rewrite app_assoc, take_drop, length_take, length_drop. repeat split; lia.
Qed.

Lemma copy_at_app (pre old s t : list byte) : length old = length s ->
  copy_at (pre ++ old ++ t) (zlen pre) s = Ok (pre ++ s ++ t).
Proof.
  intros Hl. unfold copy_at, zlen. rewrite !length_app.
  rewrite (proj2 (Z.leb_le _ _)), (proj2 (Z.leb_le _ _)) by lia. cbn [andb]. cbv zeta.
  rewrite Nat2Z.id, take_app_length. do 3 f_equal.
  - apply take_ge. lia.
  - rewrite app_assoc. apply drop_app_length'. rewrite length_app. lia.
Qed.

Lemma store_app pre x t b : store (pre ++ x :: t) (zlen pre) b = Ok (pre ++ b :: t).
Proof.
  unfold store. rewrite zlen_app, zlen_cons. unfold zlen.
  rewrite (proj2 (Z.leb_le _ _)), (proj2 (Z.ltb_lt _ _)) by lia. cbn [andb].
  rewrite Nat2Z.id, insert_app_r_alt, Nat.sub_diag by lia. done.
Qed.

Lemma writes_bytes s : writes (put_bytes s) s.
Proof.
  intros d i t Hd Hi. destruct (wrote_room d i t s Hd Hi) as (pre & old & -> & Hpre & Hl).
  exists (pre ++ s ++ t). unfold put_bytes. cbv zeta. rewrite <- Hpre, copy_at_app by done.
  split; [done|]. split; [by exists pre|]. rewrite !zlen_app. unfold zlen. lia.
Qed.

Lemma writes_byte b : writes (put_byte b) [z2b b].
Proof.
  intros d i t Hd Hi. destruct (wrote_room d i t _ Hd Hi) as (pre & old & -> & Hpre & Hl).
  destruct old as [|x [|]]; [done| |done]. exists (pre ++ [z2b b] ++ t).
  unfold put_byte. cbv zeta. change (zlen [z2b b]) with 1 in *. cbn [app].
  rewrite <- Hpre, store_app. split; [done|]. split; [by exists pre|].
  by rewrite !zlen_app, !zlen_cons.
Qed.

Lemma encode_loop_app n : forall fuel v pre old t,
  (S n <= fuel)%nat -> length old = length (varint_fuel (S n) v) ->
  0 <= v < 2 ^ (7 * Z.of_nat (S n)) ->
  encode_loop fuel (pre ++ old ++ t) (zlen pre) v = Ok (pre ++ varint_fuel (S n) v ++ t).
Proof.
  induction n as [|n IH]; intros fuel v pre old t Hf Hl Hv;
    (destruct fuel as [|fuel]; [lia|]); cbn [encode_loop];
    (destruct (Z.lt_ge_cases v 128) as [Hs|Hg];
      [rewrite varint_last in * by done; rewrite (proj2 (Z.leb_gt _ _)) by lia|
       rewrite varint_more in * by done; rewrite (proj2 (Z.leb_le _ _)) by lia]).
  1,3: destruct old as [|x [|]]; [done| |done]; cbn [app]; by rewrite store_app.
  - exfalso. change (2 ^ (7 * Z.of_nat 1)) with 128 in Hv. lia.
  - destruct old as [|x old]; [done|]. cbn [app]. rewrite store_app. cbn [mbind outcome_bind].
    set (b := z2b (Z.lor (Z.land v 127) 128)).
    replace (pre ++ b :: old ++ t) with ((pre ++ [b]) ++ old ++ t) by by rewrite <- app_assoc.
    replace (zlen pre + 1) with (zlen (pre ++ [b])) by by rewrite zlen_app.
    cbn [length] in Hl. rewrite IH; [by rewrite <- app_assoc|lia|lia|by apply shiftr7_range].
Qed.

Lemma writes_varint v : in_u 64 v -> writes (put_varint v) (varint v).
Proof.
  intros Hv d i t Hd Hi. destruct (wrote_room d i t _ Hd Hi) as (pre & old & -> & Hpre & Hl).
  exists (pre ++ varint v ++ t). unfold put_varint, encodeVarint. cbv zeta.
  rewrite sov_length, <- Hpre by done. unfold varint in *.
  rewrite (encode_loop_app 9); [|lia|done|split; [apply Hv|]].
  - split; [done|]. split; [by exists pre|]. rewrite !zlen_app. unfold zlen. lia.
  - destruct Hv. change (7 * Z.of_nat 10) with 70. lia.
Qed.

(** The buffer of exactly the size that is written holds what is written. *)
Lemma sized_buffer w s d : writes w s -> zlen s <= zlen d ->
  exists pre, zlen pre = zlen d - zlen s /\ to_sized_buffer w d = Ok (pre ++ s, zlen s).
Proof.
  intros Hw Hl. destruct (Hw d (zlen d) []) as (d' & E & (pre & -> & Hpre) & Hd').
  { exists d. by rewrite app_nil_r. } { done. }
  rewrite app_nil_r in *. exists pre. split; [done|].
  unfold to_sized_buffer. rewrite E. cbn. rewrite Hd'. do 2 f_equal. lia.
Qed.

Lemma slice_app pre s post : slice (pre ++ s ++ post) (zlen pre) (zlen pre + zlen s) = Ok s.
Proof.
  unfold slice. rewrite !zlen_app. pose proof (zlen_nonneg pre). pose proof (zlen_nonneg s).
  pose proof (zlen_nonneg post). rewrite !(proj2 (Z.leb_le _ _)) by lia. cbn [andb].
  replace (zlen pre + zlen s - zlen pre) with (zlen s) by lia. unfold zlen.
  by rewrite !Nat2Z.id, drop_app_length, take_app_length.
Qed.

Lemma marshal_writes w s : writes w s -> marshal_with (zlen s) (to_sized_buffer w) = Ok s.
Proof.
  intros Hw. unfold marshal_with. rewrite (proj2 (Z.ltb_ge _ _)) by apply zlen_nonneg.
  destruct (sized_buffer w s (replicate (Z.to_nat (zlen s)) (z2b 0)) Hw) as (pre & Hpre & E).
  { unfold zlen. rewrite length_replicate. lia. }
  rewrite E. cbn [mbind outcome_bind].
  assert (pre = []) as -> by
    (destruct pre; [done|]; unfold zlen in Hpre; rewrite length_replicate in Hpre; cbn in Hpre; lia).
  pose proof (slice_app [] s []) as Hs. by rewrite app_nil_r in Hs.
Qed.

(** [XXX_Marshal] gives what is written only if the buffer it is given has the very size:
    of a larger one it gives the beginning, and the end was written. *)
Lemma xxx_marshal_larger info w s b : writes w s -> zlen s <= zlen b ->
  exists pre, zlen pre = zlen b - zlen s /\
    xxx_marshal info (to_sized_buffer w) b false = Ok (take (length s) (pre ++ s)).
Proof.
  intros Hw Hl. destruct (sized_buffer w s b Hw Hl) as (pre & Hpre & E). exists pre. split; [done|].
  unfold xxx_marshal. rewrite E. cbn [mbind outcome_bind]. unfold slice. rewrite zlen_app.
  pose proof (zlen_nonneg pre). pose proof (zlen_nonneg s).
  rewrite !(proj2 (Z.leb_le _ _)) by lia. cbn [andb]. rewrite Z.sub_0_r. unfold zlen. by rewrite Nat2Z.id.
Qed.

Lemma xxx_marshal_exact info w s b : writes w s -> zlen b = zlen s ->
  xxx_marshal info (to_sized_buffer w) b false = Ok s.
Proof.
  intros Hw Hl. destruct (xxx_marshal_larger info w s b Hw) as ([|x pre] & Hpre & ->); [lia|..].
  - cbn [app]. by rewrite take_ge.
  - rewrite zlen_cons in Hpre. pose proof (zlen_nonneg pre). lia.
Qed.

(** A message in a message is written as its bytes with their length in front. *)
Lemma writes_message w s : writes w s -> in_u 64 (zlen s) ->
  writes (put_message (to_sized_buffer w)) (lengthed s).
Proof.
  intros Hw Hs d i t (pre & -> & Hpre) Hi. unfold lengthed in *. rewrite zlen_app in Hi.
  pose proof (zlen_nonneg s). pose proof (zlen_nonneg (varint (zlen s))).
  unfold put_message. rewrite <- Hpre.
  pose proof (slice_app [] pre t) as E. change (zlen []) with 0 in E. cbn [app] in E.
  rewrite Z.add_0_l in E. rewrite E. cbn [mbind outcome_bind].
  destruct (sized_buffer w s pre Hw) as (pre' & Hpre' & ->); [lia|]. cbn [mbind outcome_bind].
  unfold zlen at 1. rewrite Nat2Z.id, drop_app_length, <- app_assoc.
  destruct (writes_varint (zlen s) Hs (pre' ++ s ++ t) (zlen pre') (s ++ t))
    as (d' & Ed & Hd & Hld); [by exists pre'|lia|].
  unfold put_varint in Ed. rewrite <- Hpre', Ed. exists d'.
  rewrite zlen_app, <- app_assoc. replace (zlen pre - (zlen (varint (zlen s)) + zlen s))
    with (zlen pre' - zlen (varint (zlen s))) by lia.
  split_and!; [done|done|]. rewrite Hld, !zlen_app. lia.
Qed.

(** *** Reading lengths and fields *)

Lemma uint64_id x : 0 <= x < 2 ^ 64 -> uint64 x = x.
Proof. intros. by apply uwrap_small. Qed.
Lemma int64_id x : 0 <= x < 2 ^ 63 -> int64 x = x.
Proof. intros. apply swrap_small; [lia|]. unfold in_s. cbn. lia. Qed.

(** [int64] of a sum of indices keeps it or makes it negative. *)
Lemma int64_sum x : 0 <= x < 2 ^ 64 -> int64 x = x \/ int64 x < 0.
Proof.
  intros Hx. unfold int64, swrap. change (64 - 1) with 63.
  destruct (Z.lt_ge_cases x (2 ^ 63)); [left|right].
  - rewrite Z.mod_small by lia. lia.
  - replace (x + 2 ^ 63) with (x - 2 ^ 63 + 1 * 2 ^ 64) by lia.
    rewrite Z.mod_add, Z.mod_small by lia. lia.
Qed.

Lemma post_index_app (pre s post : list byte) : zlen (pre ++ s ++ post) < 2 ^ 63 ->
  post_index (pre ++ s ++ post) (zlen s) (zlen pre) = Ok (zlen pre + zlen s).
Proof.
  intros Hl. rewrite !zlen_app in Hl.
  pose proof (zlen_nonneg pre). pose proof (zlen_nonneg s). pose proof (zlen_nonneg post).
  unfold post_index. cbv zeta. rewrite int64_id by lia.
  by rewrite !(proj2 (Z.ltb_ge _ _)) by (rewrite ?zlen_app; lia).
Qed.

Lemma take_length_app (pre s post : list byte) : zlen (pre ++ s ++ post) < 2 ^ 63 ->
  take_length (pre ++ s ++ post) (zlen s) (zlen pre) = Ok (s, zlen pre + zlen s).
Proof.
  intros Hl. unfold take_length. rewrite post_index_app by done. cbn [mbind outcome_bind].
  by rewrite slice_app.
Qed.

Lemma read_lengthed conv (s pre post : list byte) :
  (forall x, 0 <= x < 2 ^ 63 -> conv x = x) -> zlen (pre ++ lengthed s ++ post) < 2 ^ 63 ->
  read_varint conv (pre ++ lengthed s ++ post) (zlen pre) =
    Ok (zlen s, zlen (pre ++ varint (zlen s))) /\
  take_length (pre ++ lengthed s ++ post) (zlen s) (zlen (pre ++ varint (zlen s))) =
    Ok (s, zlen (pre ++ lengthed s)).
Proof.
  intros Hconv Hl. unfold lengthed in *. pose proof (zlen_nonneg s).
  assert (Hs : zlen s < 2 ^ 63).
  { rewrite !zlen_app in Hl. pose proof (zlen_nonneg pre). pose proof (zlen_nonneg post).
    pose proof (zlen_nonneg (varint (zlen s))). lia. }
  split.
  - rewrite <- app_assoc, (read_varint_app conv 63) by (done || lia).
    rewrite zlen_app, sov_length by (unfold in_u; lia). done.
  - rewrite <- app_assoc, app_assoc in Hl |- *. rewrite take_length_app by done.
    by rewrite <- zlen_app, <- app_assoc.
Qed.

Lemma read_bytes_app (s pre post : list byte) : zlen (pre ++ lengthed s ++ post) < 2 ^ 63 ->
  read_bytes (pre ++ lengthed s ++ post) (zlen pre) = Ok (s, zlen (pre ++ lengthed s)).
Proof.
  intros Hl. destruct (read_lengthed int64 s pre post int64_id Hl) as [E1 E2].
  unfold read_bytes. rewrite E1. cbn [mbind outcome_bind]. by rewrite E2.
Qed.

Lemma read_string_app (s pre post : list byte) : zlen (pre ++ lengthed s ++ post) < 2 ^ 63 ->
  read_string (pre ++ lengthed s ++ post) (zlen pre) = Ok (s, zlen (pre ++ lengthed s)).
Proof.
  intros Hl. destruct (read_lengthed uint64 s pre post) as [E1 E2]; [|done|].
  { intros. apply uint64_id. lia. }
  unfold read_string. rewrite E1. cbn [mbind outcome_bind]. rewrite int64_id; [by rewrite E2|].
  unfold lengthed in Hl. rewrite !zlen_app in Hl. pose proof (zlen_nonneg pre).
  pose proof (zlen_nonneg post). pose proof (zlen_nonneg (varint (zlen s))).
  pose proof (zlen_nonneg s). lia.
Qed.

(** *** Nothing read panics *)

(** A read either fails with an error or moves the index on, inside the buffer; it
    panics only if [may] says it may. *)
Definition advances {A} (may : string -> Prop) (P : A -> Prop) (d : list byte) (idx : Z)
    (r : outcome (A * Z)) : Prop :=
  match r with
  | Ok (a, idx') => P a /\ idx < idx' <= zlen d
  | Err _ => True
  | Panic e => may e
  | NoFuel => False
  end.

Lemma advances_bind {A B} may (P : A -> Prop) (Q : B -> Prop) d idx (r : outcome (A * Z))
    (f : A * Z -> outcome (B * Z)) :
  advances may P d idx r ->
  (forall a idx', P a -> idx < idx' <= zlen d -> advances may Q d idx (f (a, idx'))) ->
  advances may Q d idx (r ≫= f).
Proof. destruct r as [[a i]| | |]; cbn; intuition. Qed.

Lemma at_index_total d idx : 0 <= idx < zlen d ->
  exists b, at_index d idx = Ok b /\ 0 <= b < 256.
Proof.
  intros Hi. unfold at_index, zlen in *. rewrite (proj2 (Z.leb_le _ _)) by lia.
  destruct (lookup_lt_is_Some_2 d (Z.to_nat idx)) as [b Hb]; [lia|]. rewrite Hb.
  exists (b2z b). split; [done|]. apply b2z_range.
Qed.

Lemma varint_loop_advances may conv (P : Z -> Prop) d : (forall x, P (conv x)) ->
  forall fuel shift acc idx,
  0 <= idx <= zlen d -> 64 <= shift + 7 * (Z.of_nat fuel - 1) -> (1 <= fuel)%nat ->
  advances may P d idx (varint_loop fuel conv d shift acc idx).
Proof.
  intros Hconv fuel. induction fuel as [|fuel IH]; [lia|].
  intros shift acc idx Hi Hf _. cbn [varint_loop].
  destruct (64 <=? shift) eqn:Es; [done|]. boolify.
  destruct (zlen d <=? idx) eqn:El; [done|]. boolify.
  destruct (at_index_total d idx) as (b & -> & Hb); [lia|]. cbn [mbind outcome_bind]. cbv zeta.
  destruct (b <? 128); [cbn; split; [apply Hconv|lia]|].
  set (acc' := conv _). pose proof (IH (shift + 7) acc' (idx + 1)) as H.
  destruct (varint_loop _ _ _ _ _ _) as [[a i]| | |]; cbn in *; lia || (apply H; lia) || idtac.
  destruct H as [? ?]; [lia..|]. split; [done|lia].
Qed.

Lemma read_varint_advances may conv (P : Z -> Prop) d idx : (forall x, P (conv x)) ->
  0 <= idx <= zlen d -> advances may P d idx (read_varint conv d idx).
Proof. intros. apply varint_loop_advances; [done|done|cbn; lia|lia]. Qed.

Lemma slice_total d i j : 0 <= i <= j -> j <= zlen d -> exists s, slice d i j = Ok s /\ zlen s = j - i.
Proof.
  intros. unfold slice. rewrite !(proj2 (Z.leb_le _ _)) by lia. cbn [andb].
  eexists. split; [done|]. unfold zlen in *. rewrite length_take, length_drop. lia.
Qed.

Lemma in_s64 x : in_s 64 (int64 x).
Proof. apply swrap_range. lia. Qed.

Lemma post_index_total d len idx : zlen d < 2 ^ 63 -> 0 <= idx <= zlen d -> in_s 64 len ->
  match post_index d len idx with
  | Ok idx' => idx <= idx' <= zlen d
  | Err _ => True
  | _ => False
  end.
Proof.
  intros Hd Hi Hl. unfold post_index. destruct (len <? 0) eqn:E; [done|]. boolify. cbv zeta.
  unfold in_s in Hl. cbn in Hl.
  destruct (int64_sum (idx + len)) as [Hs|Hs]; [lia| |].
  - rewrite Hs. rewrite (proj2 (Z.ltb_ge _ 0)) by lia.
    destruct (zlen d <? idx + len) eqn:E2; [done|]. boolify. lia.
  - by rewrite (proj2 (Z.ltb_lt _ _)) by lia.
Qed.

Lemma take_length_total d len idx : zlen d < 2 ^ 63 -> 0 <= idx <= zlen d -> in_s 64 len ->
  match take_length d len idx with
  | Ok (s, idx') => idx' = idx + zlen s /\ idx' <= zlen d
  | Err _ => True
  | _ => False
  end.
Proof.
  intros Hd Hi Hl. unfold take_length. pose proof (post_index_total d len idx Hd Hi Hl) as H.
  destruct (post_index _ _ _) as [i| | |]; cbn; try done.
  destruct (slice_total d idx i) as (s & -> & Hz); [lia..|]. cbn. lia.
Qed.

Lemma read_bytes_advances may d idx : zlen d < 2 ^ 63 -> 0 <= idx <= zlen d ->
  advances may (fun s => zlen s < 2 ^ 63) d idx (read_bytes d idx).
Proof.
  intros Hd Hi. eapply advances_bind; [apply (read_varint_advances may int64 _ d idx in_s64 Hi)|].
  intros len idx' Hlen Hi'. pose proof (take_length_total d len idx' Hd ltac:(lia) Hlen) as H.
  destruct (take_length _ _ _) as [[s i]| | |]; cbn; try done.
  pose proof (zlen_nonneg s). lia.
Qed.

Lemma read_string_advances may d idx : zlen d < 2 ^ 63 -> 0 <= idx <= zlen d ->
  advances may (fun s => zlen s < 2 ^ 63) d idx (read_string d idx).
Proof.
  intros Hd Hi.
  eapply advances_bind; [apply (read_varint_advances may uint64 (fun _ => True) d idx); done|].
  intros len idx' _ Hi'.
  pose proof (take_length_total d (int64 len) idx' Hd ltac:(lia) (in_s64 len)) as H.
  destruct (take_length _ _ _) as [[s i]| | |]; cbn; try done.
  pose proof (zlen_nonneg s). lia.
Qed.

(** The offset [skip] returns lies behind the tag it starts at, and is an int. *)
Definition moved (idx : Z) (i : Z) : Prop := idx < i < 2 ^ 63.

Lemma jump_moves idx idx1 n : 0 <= idx < idx1 -> idx1 < 2 ^ 63 -> 0 <= n < 2 ^ 63 ->
  moved idx (int64 (idx1 + n)) \/ int64 (idx1 + n) < 0.
Proof.
  intros Hi Hi1 Hn. pose proof (in_s64 (idx1 + n)) as Hs. unfold in_s in Hs. cbn in Hs.
  unfold moved. destruct (int64_sum (idx1 + n)); lia.
Qed.

Lemma skip_body_total d wireType idx idx1 depth :
  zlen d < 2 ^ 63 -> 0 <= idx < idx1 -> idx1 <= zlen d ->
  match skip_body d wireType idx1 depth with
  | Ok (i, _) => moved idx i \/ i < 0 | Err _ => True | _ => False end.
Proof.
  intros Hd Hi Hi1. unfold skip_body.
  pose proof (read_varint_advances (fun _ => False) uint64 (fun _ => True) d idx1 ltac:(done) ltac:(lia)) as Hu.
  pose proof (read_varint_advances (fun _ => False) int64 (in_s 64) d idx1 in_s64 ltac:(lia)) as Hl.
  assert (Hm : moved idx idx1) by (unfold moved; lia).
  destruct (wireType =? 0).
  { destruct (read_varint uint64 d idx1) as [[? i]| | |]; cbn in *; try done.
    left. unfold moved. lia. }
  destruct (wireType =? 1); [apply jump_moves; lia|].
  destruct (wireType =? 2).
  { destruct (read_varint int64 d idx1) as [[len i]| | |]; cbn in *; try done.
    unfold in_s in Hl. cbn in Hl. destruct (len <? 0) eqn:E; [done|]. boolify.
    apply jump_moves; lia. }
  destruct (wireType =? 3); [by left|].
  destruct (wireType =? 4); [by destruct (depth =? 0); [|left]|].
  destruct (wireType =? 5); [apply jump_moves; lia|done].
Qed.

Lemma skip_loop_total fuel : forall d idx depth,
  zlen d < 2 ^ 63 -> 0 <= idx -> zlen d < idx + Z.of_nat fuel -> (1 <= fuel)%nat ->
  match skip_loop fuel d idx depth with Ok n => moved idx n | Err _ => True | _ => False end.
Proof.
  induction fuel as [|fuel IH]; [lia|]. intros d idx depth Hd Hi Hf _. cbn [skip_loop].
  destruct (zlen d <=? idx) eqn:El; [done|]. boolify.
  pose proof (read_varint_advances (fun _ => False) uint64 (fun _ => True) d idx ltac:(done) ltac:(lia)) as Hr.
  destruct (read_varint uint64 d idx) as [[wire idx1]| | |]; cbn in Hr |- *; try done.
  pose proof (skip_body_total d (Z.land wire 7) idx idx1 depth Hd ltac:(lia) ltac:(lia)) as Hb.
  destruct (skip_body _ _ _ _) as [[idx2 depth2]| | |]; cbn; try done.
  destruct (idx2 <? 0) eqn:E0; [done|]. boolify. destruct Hb as [Hb|]; [|lia].
  destruct (depth2 =? 0); [done|]. unfold moved in *.
  destruct fuel as [|fuel]; [lia|].
  pose proof (IH d idx2 depth2 Hd ltac:(lia) ltac:(lia) ltac:(lia)) as H.
  destruct (skip_loop _ d idx2 depth2); [lia|done..].
Qed.

Lemma skip_total d : 0 < zlen d < 2 ^ 63 ->
  match skip d with Ok n => moved 0 n | Err _ => True | _ => False end.
Proof. intros. apply skip_loop_total; unfold zlen in *; lia. Qed.

Lemma skip_field_total d idx : zlen d < 2 ^ 63 -> 0 <= idx < zlen d ->
  match skip_field d idx with
  | Ok idx' => idx < idx' <= zlen d | Err _ => True | _ => False end.
Proof.
  intros Hd Hi. unfold skip_field.
  assert (Hz : zlen (drop (Z.to_nat idx) d) = zlen d - idx) by
    (unfold zlen in *; rewrite length_drop; lia).
  pose proof (skip_total (drop (Z.to_nat idx) d) ltac:(lia)) as H.
  destruct (skip _) as [n| | |]; cbn; try done. unfold moved in H.
  rewrite (proj2 (Z.ltb_ge n 0)) by lia.
  destruct (int64_sum (idx + n)) as [->|Hn]; [lia| |by rewrite (proj2 (Z.ltb_lt _ _))].
  rewrite (proj2 (Z.ltb_ge _ 0)) by lia. destruct (zlen d <? idx + n) eqn:E; [done|].
  boolify. lia.
Qed.

(** *** Messages *)

Section message_lemmas.
Context {M : Type} (field : M -> Z -> Z -> list byte -> Z -> option (outcome (M * Z))).

(** Fields that move the index on and keep an invariant, and panic only if [may]. *)
Definition fields_total (may : string -> Prop) (I : M -> Prop) : Prop := forall m n wt d idx,
  I m -> zlen d < 2 ^ 63 -> 0 <= idx <= zlen d ->
  match field m n wt d idx with Some r => advances may I d idx r | None => True end.

Lemma unmarshal_loop_total may I fuel : fields_total may I -> forall d m idx,
  I m -> zlen d < 2 ^ 63 -> 0 <= idx <= zlen d -> zlen d < idx + Z.of_nat fuel ->
  match unmarshal_loop field fuel d m idx with
  | Ok m' => I m' | Err _ => True | Panic e => may e | NoFuel => False end.
Proof.
  intros Hfield. induction fuel as [|fuel IH]; [lia|]. intros d m idx HI Hd Hi Hf.
  cbn [unmarshal_loop]. destruct (idx <? zlen d) eqn:El; [|by destruct (zlen d <? idx)]. boolify.
  pose proof (read_varint_advances (fun _ => False) uint64 (fun _ => True) d idx ltac:(done) ltac:(lia)) as Hr.
  destruct (read_varint uint64 d idx) as [[wire idx1]| | |]; cbn in Hr |- *; try done.
  destruct (Z.land wire 7 =? 4); [done|]. destruct (int32 _ <=? 0); [done|].
  pose proof (Hfield m (int32 (Z.shiftr wire 3)) (Z.land wire 7) d idx1 HI Hd ltac:(lia)) as H.
  destruct (field _ _ _ _ _) as [r|].
  - destruct r as [[m' i]| | |]; cbn in *; try done. apply IH; lia || apply H.
  - pose proof (skip_field_total d idx Hd ltac:(lia)) as Hs.
    destruct (skip_field d idx); cbn in Hs |- *; try done. apply IH; lia || done.
Qed.

Lemma unmarshal_total may I d m : fields_total may I -> I m -> zlen d < 2 ^ 63 ->
  match unmarshal field d m with
  | Ok m' => I m' | Err _ => True | Panic e => may e | NoFuel => False end.
Proof.
  intros Hf HI Hd. pose proof (zlen_nonneg d).
  apply unmarshal_loop_total; [exact Hf|exact HI|lia|lia|unfold zlen; lia].
Qed.

(** The bytes [s] turn the message [m] into [m'], wherever they stand. *)
Definition reads (m : M) (s : list byte) (m' : M) : Prop :=
  forall pre post, zlen (pre ++ s ++ post) < 2 ^ 63 ->
  exists n, (n <= length s)%nat /\ forall fuel,
    unmarshal_loop field (n + fuel) (pre ++ s ++ post) m (zlen pre) =
    unmarshal_loop field fuel (pre ++ s ++ post) m' (zlen (pre ++ s)).

Lemma reads_nil m : reads m [] m.
Proof. intros pre post _. exists 0%nat. split; [lia|]. intros. by rewrite app_nil_r. Qed.

Lemma reads_app m1 s1 m2 s2 m3 : reads m1 s1 m2 -> reads m2 s2 m3 -> reads m1 (s1 ++ s2) m3.
Proof.
  intros H1 H2 pre post Hl.
  assert (D1 : pre ++ (s1 ++ s2) ++ post = pre ++ s1 ++ s2 ++ post) by by rewrite <- app_assoc.
  assert (D2 : (pre ++ s1) ++ s2 ++ post = pre ++ s1 ++ s2 ++ post) by by rewrite <- app_assoc.
  rewrite D1 in *. destruct (H1 pre (s2 ++ post) Hl) as (n1 & Hn1 & E1).
  destruct (H2 (pre ++ s1) post) as (n2 & Hn2 & E2); [by rewrite D2|]. rewrite D2 in E2.
  exists (n1 + n2)%nat. rewrite length_app. split; [lia|]. intros fuel.
  by rewrite <- Nat.add_assoc, E1, E2, <- app_assoc.
Qed.

(** A field of the message: its tag, number and wire type in one byte, and its
    body. *)
Lemma reads_field m num wt body m' :
  1 <= num < 16 -> 0 <= wt < 8 -> wt <> 4 ->
  (forall pre post, zlen (pre ++ body ++ post) < 2 ^ 63 ->
    field m num wt (pre ++ body ++ post) (zlen pre) = Some (Ok (m', zlen (pre ++ body)))) ->
  reads m (z2b (num * 8 + wt) :: body) m'.
Proof.
  intros Hnum Hwt H4 Hf pre post Hl. set (tag := num * 8 + wt). exists 1%nat.
  split; [cbn; lia|]. intros fuel. cbn [Nat.add unmarshal_loop]. cbn [app] in *.
  assert (Hi : zlen pre < zlen (pre ++ z2b tag :: body ++ post)).
  { rewrite zlen_app, zlen_cons. pose proof (zlen_nonneg (body ++ post)). lia. }
  rewrite (proj2 (Z.ltb_lt _ _)) by done.
  pose proof (read_varint_app uint64 64 tag pre (body ++ post) uint64_id) as Hr.
  rewrite varint_small in Hr by lia. cbn [app] in Hr. rewrite Hr by lia.
  cbn [mbind outcome_bind].
  assert (Hland : Z.land tag 7 = wt).
  { change 7 with (Z.ones 3). rewrite Z.land_ones by lia. subst tag.
    change (2 ^ 3) with 8. rewrite Z.add_comm, Z.mod_add by lia. apply Z.mod_small. lia. }
  assert (Hshift : int32 (Z.shiftr tag 3) = num).
  { rewrite Z.shiftr_div_pow2 by lia. change (2 ^ 3) with 8. subst tag.
    rewrite Z.div_add_l, Z.div_small, Z.add_0_r by lia.
    apply swrap_small; [lia|]. unfold in_s. cbn. lia. }
  cbv zeta. rewrite Hland, Hshift, (proj2 (Z.eqb_neq wt 4)), (proj2 (Z.leb_gt num 0)) by lia.
  assert (Hsplit : pre ++ z2b tag :: body ++ post = (pre ++ [z2b tag]) ++ body ++ post)
    by by rewrite <- app_assoc.
  replace (zlen pre + sov tag) with (zlen (pre ++ [z2b tag])) by
    (rewrite zlen_app, sov_length, varint_small by (unfold in_u; lia); reflexivity).
  change (num * 8 + wt) with tag in Hl. rewrite Hsplit in Hl |- *. rewrite Hf by done. cbn [mbind outcome_bind].
  by replace ((pre ++ [z2b tag]) ++ body) with (pre ++ z2b tag :: body) by (by rewrite <- app_assoc).
Qed.

Lemma reads_unmarshal m s m' : reads m s m' -> zlen s < 2 ^ 63 -> unmarshal field s m = Ok m'.
Proof.
  intros Hr Hl. destruct (Hr [] []) as (n & Hn & E); [by rewrite app_nil_r|].
  rewrite app_nil_r in E. cbn [app] in E. unfold unmarshal.
  replace (S (length s)) with (n + (S (length s - n)))%nat by lia.
  rewrite E. cbn [unmarshal_loop]. by rewrite Z.ltb_irrefl.
Qed.
End message_lemmas.

(** *** The fields of a message *)

Lemma reads_if {M} field (m m' : M) (c : bool) s :
  (c = true -> reads field m s m') -> (c = false -> m' = m) ->
  reads field m (if c then s else []) m'.
Proof. intros Ht Hf. destruct c; [by apply Ht|]. rewrite (Hf eq_refl). apply reads_nil. Qed.

Lemma case_field_read {A M} want (read : outcome (A * Z)) (set : A -> M) v i m' :
  read = Ok (v, i) -> set v = m' -> case_field want want read set = Some (Ok (m', i)).
Proof. intros -> <-. unfold case_field. by rewrite Z.eqb_refl. Qed.

Lemma case_field_total {A M} may (P : A -> Prop) (I : M -> Prop) wt want d idx read set :
  advances may P d idx read -> (forall v, P v -> I (set v)) ->
  match @case_field A M wt want read set with Some r => advances may I d idx r | None => True end.
Proof.
  intros Hr Hset. unfold case_field. destruct (wt =? want); cbn; [|done].
  eapply advances_bind; [exact Hr|]. intros v i Hv Hi. by split; [apply Hset|].
Qed.

Lemma writes_lengthed tag s : zlen s < 2 ^ 63 ->
  writes (put_lengthed tag s) (z2b tag :: lengthed s).
Proof.
  intros Hs. pose proof (zlen_nonneg s). unfold put_lengthed, lengthed.
  rewrite uint64_id by lia.
  change (z2b tag :: varint (zlen s) ++ s) with (([z2b tag] ++ varint (zlen s)) ++ s).
  apply writes_then; [apply writes_bytes|]. apply writes_then; [|apply writes_byte].
  apply writes_varint. unfold in_u. lia.
Qed.

Lemma writes_number tag v : in_u 64 v -> writes (put_number tag v) (z2b tag :: varint v).
Proof.
  intros Hv. change (z2b tag :: varint v) with ([z2b tag] ++ varint v).
  apply writes_then; [by apply writes_varint|apply writes_byte].
Qed.

(** A number field of at most 64 bits, and bytes with their length, are read back
    where they stand. *)
Lemma read_number_field conv w v pre post :
  (forall x, 0 <= x < 2 ^ w -> conv x = x) -> 0 <= w <= 64 -> in_u w v ->
  read_varint conv (pre ++ varint v ++ post) (zlen pre) = Ok (v, zlen (pre ++ varint v)).
Proof.
  intros Hconv Hw Hv. rewrite (read_varint_app conv w) by done.
  rewrite zlen_app, sov_length; [done|]. unfold in_u in *. split; [lia|].
  apply Z.lt_le_trans with (2 ^ w); [lia|]. apply Z.pow_le_mono_r; lia.
Qed.

Lemma zlen_lengthed s : in_u 64 (zlen s) -> zlen (lengthed s) = zlen s + sov (zlen s).
Proof. intros. unfold lengthed. rewrite zlen_app, <- sov_length by done. lia. Qed.

Lemma zlen_number tag v : in_u 64 v -> zlen (tag :: varint v) = 1 + sov v.
Proof. intros. by rewrite zlen_cons, sov_length. Qed.

(** [MarshalTo] leaves what follows the message in the buffer. *)
Lemma marshal_to_writes w s d : writes w s -> zlen s <= zlen d ->
  marshal_to (zlen s) (to_sized_buffer w) d = Ok (s ++ drop (length s) d, zlen s).
Proof.
  intros Hw Hl. unfold marshal_to. pose proof (zlen_nonneg s).
  destruct (slice_total d 0 (zlen s)) as (sub & -> & Hsub); [lia..|]. cbn [mbind outcome_bind].
  destruct (sized_buffer w s sub Hw) as (pre & Hpre & ->); [lia|].
  destruct pre as [|x pre]; [|rewrite zlen_cons in Hpre; pose proof (zlen_nonneg pre); lia].
  cbn [mbind outcome_bind app].
  by replace (Z.to_nat (zlen s)) with (length s) by (unfold zlen; lia).
Qed.

(** A tag of one byte. *)
Lemma read_tag tag (pre rest : list byte) : 0 <= tag < 128 ->
  read_varint uint64 (pre ++ z2b tag :: rest) (zlen pre) = Ok (tag, zlen (pre ++ [z2b tag])).
Proof.
  intros Ht. pose proof (read_varint_app uint64 64 tag pre rest uint64_id) as Hr.
  rewrite varint_small in Hr by lia. cbn [app] in Hr. rewrite Hr by lia.
  by rewrite zlen_app, sov_length, varint_small by (unfold in_u; lia).
Qed.

(** Before the start of a buffer there is nothing to read. *)
Lemma read_varint_negative conv d idx : idx < 0 ->
  read_varint conv d idx = Panic index_panic.
Proof.
  intros Hi. unfold read_varint. cbn [varint_loop Z.leb Z.compare].
  pose proof (zlen_nonneg d). rewrite (proj2 (Z.leb_gt (zlen d) idx)) by lia.
  unfold at_index. by rewrite (proj2 (Z.leb_gt 0 idx)) by lia.
Qed.
