(* ===== verification/MqttPb.v ===== *)
(** * The protobuf codec of mqtt messages

    mqtt/mqtt.pb.go: a [Context] (identifier, time stamp, QOS, flags, topic) and a
    [Message] (a context and content), their comparison, size, marshalling into a
    buffer from its end, and unmarshalling. Go strings are the bytes they hold;
    the content may be a nil slice. A failing [Unmarshal] leaves the receiver
    partly written; the model returns only the error. *)

From Stdlib Require Import ZArith Lia String.
From stdpp Require Import base option list.
From S2P Require Import Prelude ProtoWire.

Local Open Scope string_scope.
Local Open Scope Z_scope.
Local Open Scope list_scope.

(** ** Data *)

Record Context := {
  ID : Z;            (* uint64 *)
  TS : Z;            (* uint64 *)
  QOS : Z;           (* uint32 *)
  Flags : Z;         (* uint32 *)
  Topic : list byte
}.
Record Message := { Context_ : Context; Content : option (list byte) }.

Definition zero_Context : Context := {| ID := 0; TS := 0; QOS := 0; Flags := 0; Topic := [] |}.
Definition zero_Message : Message := {| Context_ := zero_Context; Content := None |}.

#[export] Instance Context_eq_dec : EqDecision Context.
Proof. solve_decision. Defined.
#[export] Instance Message_eq_dec : EqDecision Message.
Proof. solve_decision. Defined.

(** ** Equal *)

Definition Context_Equal : option Context -> any Context -> bool :=
  equal_any (fun this that1 =>
    if negb (ID this =? ID that1) then false
    else if negb (TS this =? TS that1) then false
    else if negb (QOS this =? QOS that1) then false
    else if negb (Flags this =? Flags that1) then false
    else if negb (bool_decide (Topic this = Topic that1)) then false
    else true).

Definition Message_Equal : option Message -> any Message -> bool :=
  equal_any (fun this that1 =>
    if negb (Context_Equal (Some (Context_ this)) (AnyPointer (Some (Context_ that1)))) then false
    else if negb (bool_decide (slice_bytes (Content this) = slice_bytes (Content that1)))
    then false
    else true).

(** ** Size *)

Definition Context_Size (m : option Context) : Z :=
  match m with
  | None => 0
  | Some m =>
      let l := zlen (Topic m) in
      int64 (
        (if negb (ID m =? 0) then 1 + sov (ID m) else 0) +
        (if negb (TS m =? 0) then 1 + sov (TS m) else 0) +
        (if negb (QOS m =? 0) then 1 + sov (QOS m) else 0) +
        (if negb (Flags m =? 0) then 1 + sov (Flags m) else 0) +
        (if 0 <? l then 1 + l + sov (uint64 l) else 0))
  end.

Definition Message_Size (m : option Message) : Z :=
  match m with
  | None => 0
  | Some m =>
      let l := Context_Size (Some (Context_ m)) in
      let n := 1 + l + sov (uint64 l) in
      let l := zlen (slice_bytes (Content m)) in
      int64 (n + (if 0 <? l then 1 + l + sov (uint64 l) else 0))
  end.

(** ** Marshalling *)

Definition context_writer (m : Context) : writer :=
  then_ (put_if (0 <? zlen (Topic m)) (put_lengthed 42 (Topic m)))
  (then_ (put_if (negb (Flags m =? 0)) (put_number 32 (Flags m)))
  (then_ (put_if (negb (QOS m =? 0)) (put_number 24 (QOS m)))
  (then_ (put_if (negb (TS m =? 0)) (put_number 16 (TS m)))
  (put_if (negb (ID m =? 0)) (put_number 8 (ID m)))))).

Definition Context_MarshalToSizedBuffer (m : Context) : list byte -> outcome (list byte * Z) :=
  to_sized_buffer (context_writer m).
Definition Context_MarshalTo (m : Context) : list byte -> outcome (list byte * Z) :=
  marshal_to (Context_Size (Some m)) (Context_MarshalToSizedBuffer m).
Definition Context_Marshal (m : Context) : outcome (list byte) :=
  marshal_with (Context_Size (Some m)) (Context_MarshalToSizedBuffer m).

Definition message_writer (m : Message) : writer :=
  let content := slice_bytes (Content m) in
  then_ (put_if (0 <? zlen content) (put_lengthed 18 content))
  (then_ (put_message (Context_MarshalToSizedBuffer (Context_ m)))
  (put_byte 10)).

Definition Message_MarshalToSizedBuffer (m : Message) : list byte -> outcome (list byte * Z) :=
  to_sized_buffer (message_writer m).
Definition Message_MarshalTo (m : Message) : list byte -> outcome (list byte * Z) :=
  marshal_to (Message_Size (Some m)) (Message_MarshalToSizedBuffer m).
Definition Message_Marshal (m : Message) : outcome (list byte) :=
  marshal_with (Message_Size (Some m)) (Message_MarshalToSizedBuffer m).

(** [info] is what the library's own marshaller gives. *)
Definition Context_XXX_Marshal (info : outcome (list byte)) (m : Context) : list byte -> bool -> outcome (list byte) :=
  xxx_marshal info (Context_MarshalToSizedBuffer m).
Definition Message_XXX_Marshal (info : outcome (list byte)) (m : Message) : list byte -> bool -> outcome (list byte) :=
  xxx_marshal info (Message_MarshalToSizedBuffer m).
Definition Context_XXX_Size (m : option Context) : Z := Context_Size m.
Definition Message_XXX_Size (m : option Message) : Z := Message_Size m.

(** ** Unmarshalling *)

Definition context_field (m : Context) (fieldNum wireType : Z) (d : list byte) (idx : Z)
    : option (outcome (Context * Z)) :=
  if fieldNum =? 1 then
    case_field wireType 0 (read_varint uint64 d idx) (fun v =>
      {| ID := v; TS := TS m; QOS := QOS m; Flags := Flags m; Topic := Topic m |})
  else if fieldNum =? 2 then
    case_field wireType 0 (read_varint uint64 d idx) (fun v =>
      {| ID := ID m; TS := v; QOS := QOS m; Flags := Flags m; Topic := Topic m |})
  else if fieldNum =? 3 then
    case_field wireType 0 (read_varint uint32 d idx) (fun v =>
      {| ID := ID m; TS := TS m; QOS := v; Flags := Flags m; Topic := Topic m |})
  else if fieldNum =? 4 then
    case_field wireType 0 (read_varint uint32 d idx) (fun v =>
      {| ID := ID m; TS := TS m; QOS := QOS m; Flags := v; Topic := Topic m |})
  else if fieldNum =? 5 then
    case_field wireType 2 (read_string d idx) (fun v =>
      {| ID := ID m; TS := TS m; QOS := QOS m; Flags := Flags m; Topic := v |})
  else None.

Definition Context_Unmarshal (m : Context) (dAtA : list byte) : outcome Context :=
  unmarshal context_field dAtA m.
Definition Context_XXX_Unmarshal (m : Context) (b : list byte) : outcome Context := Context_Unmarshal m b.

(** A repeated context is read into the one already there. The content is copied,
    so it never stays nil. *)
Definition message_field (m : Message) (fieldNum wireType : Z) (d : list byte) (idx : Z)
    : option (outcome (Message * Z)) :=
  if fieldNum =? 1 then
    case_field wireType 2
      ('(sub, postIndex) ← read_bytes d idx;
       c ← Context_Unmarshal (Context_ m) sub;
       Ok (c, postIndex))
      (fun c => {| Context_ := c; Content := Content m |})
  else if fieldNum =? 2 then
    case_field wireType 2 (read_bytes d idx) (fun v =>
      {| Context_ := Context_ m; Content := Some v |})
  else None.

Definition Message_Unmarshal (m : Message) (dAtA : list byte) : outcome Message :=
  unmarshal message_field dAtA m.
Definition Message_XXX_Unmarshal (m : Message) (b : list byte) : outcome Message := Message_Unmarshal m b.

#[global] Arguments Context_Unmarshal : simpl never.
#[global] Arguments Message_Unmarshal : simpl never.

(** ** What is encoded *)

(** The encoding as a concatenation of fields, zero values left out. *)
Definition context_bytes (m : Context) : list byte :=
  (if negb (ID m =? 0) then z2b 8 :: varint (ID m) else []) ++
  (if negb (TS m =? 0) then z2b 16 :: varint (TS m) else []) ++
  (if negb (QOS m =? 0) then z2b 24 :: varint (QOS m) else []) ++
  (if negb (Flags m =? 0) then z2b 32 :: varint (Flags m) else []) ++
  (if 0 <? zlen (Topic m) then z2b 42 :: lengthed (Topic m) else []).

Definition message_bytes (m : Message) : list byte :=
  let content := slice_bytes (Content m) in
  z2b 10 :: lengthed (context_bytes (Context_ m)) ++
  (if 0 <? zlen content then z2b 18 :: lengthed content else []).

(** The widths of the fields; a slice is no longer than an int says. *)
Definition wf_context (m : Context) : Prop :=
  in_u 64 (ID m) /\ in_u 64 (TS m) /\ in_u 32 (QOS m) /\ in_u 32 (Flags m) /\
  zlen (Topic m) < 2 ^ 63.
Definition wf_message (m : Message) : Prop :=
  wf_context (Context_ m) /\ zlen (slice_bytes (Content m)) < 2 ^ 63.

(** ** Lemmas *)

Lemma u32_u64 v : in_u 32 v -> in_u 64 v.
Proof. unfold in_u. cbn. lia. Qed.

Lemma context_writes m : wf_context m -> writes (context_writer m) (context_bytes m).
Proof.
  intros (Hid & Hts & Hq%u32_u64 & Hf%u32_u64 & Ht). unfold context_writer, context_bytes.
  rewrite !app_assoc.
  repeat apply writes_then; apply writes_if; intros _; auto using writes_number, writes_lengthed.
Qed.

Lemma context_size m : wf_context m -> zlen (context_bytes m) < 2 ^ 63 ->
  Context_Size (Some m) = zlen (context_bytes m).
Proof.
  intros (Hid & Hts & Hq%u32_u64 & Hf%u32_u64 & Ht) Hl. unfold Context_Size.
  pose proof (zlen_nonneg (Topic m)).
  match goal with |- int64 ?n = _ => assert (n = zlen (context_bytes m)) as -> end.
  { unfold context_bytes. rewrite !zlen_app, uint64_id by lia.
    assert (Hnum : forall (c : bool) t v, in_u 64 v ->
      zlen (if c then z2b t :: varint v else []) = if c then 1 + sov v else 0).
    { intros [] t v Hv; [by apply zlen_number|done]. }
    rewrite !Hnum by done. destruct (0 <? zlen (Topic m)); [|change (zlen []) with 0; lia].
    rewrite zlen_cons, zlen_lengthed by (unfold in_u; lia). lia. }
  apply int64_id. split; [apply zlen_nonneg|done].
Qed.

(** The context read from its encoding, one field after the other. *)
Lemma context_reads m : wf_context m -> reads context_field zero_Context (context_bytes m) m.
Proof.
  intros (Hid & Hts & Hq & Hf & Ht). pose proof uint64_id as H64.
  assert (H32 : forall x, 0 <= x < 2 ^ 32 -> uint32 x = x) by (intros; by apply uwrap_small).
  destruct m as [id ts q f t].
  cbn [ID TS QOS Flags Topic] in *. unfold context_bytes. cbn [ID TS QOS Flags Topic].
  assert (Hnil : (0 <? zlen t) = false -> t = []).
  { intros H. boolify. destruct t; [done|]. rewrite zlen_cons in H.
    pose proof (zlen_nonneg t). lia. }
  assert (Hz : forall x, negb (x =? 0) = false -> x = 0) by (intros; boolify; lia).
  apply (reads_app _ _ _ (Build_Context id 0 0 0 [])); [|
  apply (reads_app _ _ _ (Build_Context id ts 0 0 [])); [|
  apply (reads_app _ _ _ (Build_Context id ts q 0 [])); [|
  apply (reads_app _ _ _ (Build_Context id ts q f []))]]].
  all: apply reads_if; intros Hc; [|by rewrite ?(Hz _ Hc), ?(Hnil Hc)].
  - apply (reads_field _ _ 1 0); [lia..|]. intros pre post Hl.
    eapply case_field_read; [|done]. by apply (read_number_field _ 64).
  - apply (reads_field _ _ 2 0); [lia..|]. intros pre post Hl.
    eapply case_field_read; [|done]. by apply (read_number_field _ 64).
  - apply (reads_field _ _ 3 0); [lia..|]. intros pre post Hl.
    eapply case_field_read; [|done]. by apply (read_number_field _ 32).
  - apply (reads_field _ _ 4 0); [lia..|]. intros pre post Hl.
    eapply case_field_read; [|done]. by apply (read_number_field _ 32).
  - apply (reads_field _ _ 5 2); [lia..|]. intros pre post Hl.
    eapply case_field_read; [|done]. by apply read_string_app.
Qed.

Lemma message_writes m : wf_message m -> zlen (message_bytes m) < 2 ^ 63 ->
  writes (message_writer m) (message_bytes m).
Proof.
  intros [Hc Hl] Hm. unfold message_writer, message_bytes in *.
  set (sub := context_bytes (Context_ m)) in *.
  assert (Hs : in_u 64 (zlen sub)).
  { unfold lengthed in Hm. rewrite !zlen_cons, !zlen_app in Hm. pose proof (zlen_nonneg sub).
    pose proof (zlen_nonneg (varint (zlen sub))). cbv zeta in Hm.
    match type of Hm with _ + (_ + ?x) < _ => assert (0 <= x) by
      (destruct (0 <? _); apply zlen_nonneg) end. unfold in_u. lia. }
  match goal with |- writes _ (_ :: lengthed sub ++ ?s) =>
    change (writes (message_writer m) (([z2b 10] ++ lengthed sub) ++ s)) end.
  apply writes_then; [apply writes_if; intros _; by apply writes_lengthed|].
  apply writes_then; [|apply writes_byte].
  apply writes_message; [by apply context_writes|done].
Qed.

Lemma message_size m : wf_message m -> zlen (message_bytes m) < 2 ^ 63 ->
  Message_Size (Some m) = zlen (message_bytes m).
Proof.
  intros [Hc Hl] Hm. unfold Message_Size, message_bytes in *. cbv zeta in *.
  set (sub := context_bytes (Context_ m)) in *. set (c := slice_bytes (Content m)) in *.
  pose proof (zlen_nonneg sub). pose proof (zlen_nonneg c).
  pose proof (zlen_nonneg (varint (zlen sub))).
  rewrite zlen_cons, zlen_app in Hm |- *.
  set (rest := zlen (if 0 <? zlen c then _ else _)) in *.
  assert (0 <= rest) by (subst rest; apply zlen_nonneg).
  assert (Hs : zlen sub < 2 ^ 63) by (unfold lengthed in Hm; rewrite zlen_app in Hm; lia).
  rewrite context_size by done. fold sub. rewrite uint64_id by lia.
  rewrite zlen_lengthed in * by (unfold in_u; lia).
  assert (Hr : rest = if 0 <? zlen c then 1 + zlen c + sov (uint64 (zlen c)) else 0).
  { subst rest. rewrite uint64_id by lia. destruct (0 <? zlen c); [|done].
    rewrite zlen_cons, zlen_lengthed by (unfold in_u; lia). lia. }
  rewrite <- Hr. pose proof (sov_pos (zlen sub)). rewrite int64_id; lia.
Qed.

(** The content comes back as a copy, or nil when it is empty. *)
Definition normal_message (m : Message) : Message :=
  {| Context_ := Context_ m;
     Content := if 0 <? zlen (slice_bytes (Content m)) then Some (slice_bytes (Content m)) else None |}.

Lemma message_reads m : wf_message m -> zlen (message_bytes m) < 2 ^ 63 ->
  reads message_field zero_Message (message_bytes m) (normal_message m).
Proof.
  intros [Hc Hl] Hm. unfold message_bytes, normal_message. cbv zeta.
  set (c := slice_bytes (Content m)) in *.
  change (z2b 10 :: ?x ++ ?y) with ((z2b (1 * 8 + 2) :: x) ++ y).
  apply (reads_app _ _ _ (Build_Message (Context_ m) None)).
  - apply reads_field; [lia..|]. intros pre post Hp.
    eapply case_field_read; [|done]. rewrite read_bytes_app by done. cbn [mbind outcome_bind].
    unfold Context_Unmarshal. erewrite reads_unmarshal; [done|by apply context_reads|].
    unfold lengthed in Hp. rewrite !zlen_app in Hp.
    pose proof (zlen_nonneg pre). pose proof (zlen_nonneg post).
    pose proof (zlen_nonneg (varint (zlen (context_bytes (Context_ m))))). lia.
  - apply reads_if; intros E; rewrite E; [|done].
    apply (reads_field _ _ 2 2); [lia..|]. intros pre post Hp.
    eapply case_field_read; [|done]. by apply read_bytes_app.
Qed.

Lemma uint32_range x : in_u 32 (uint32 x).
Proof. by apply uwrap_range. Qed.
Lemma uint64_range x : in_u 64 (uint64 x).
Proof. by apply uwrap_range. Qed.

Lemma context_fields_total : fields_total context_field (fun _ => False) wf_context.
Proof.
  intros m n wt d idx (Hid & Hts & Hq & Hf & Ht) Hd Hi. unfold context_field.
  pose proof uint32_range. pose proof uint64_range.
  repeat match goal with |- context [if ?c then _ else _] => destruct c end; try done.
  1,2: eapply case_field_total; [by apply (read_varint_advances (fun _ => False) uint64 (in_u 64))|].
  3,4: eapply case_field_total; [by apply (read_varint_advances (fun _ => False) uint32 (in_u 32))|].
  5: eapply case_field_total; [by apply read_string_advances|].
  all: intros v Hv; unfold wf_context; cbn; by split_and!.
Qed.

Lemma message_fields_total : fields_total message_field (fun _ => False) wf_message.
Proof.
  intros m n wt d idx [Hc Hl] Hd Hi. unfold message_field.
  repeat match goal with |- context [if ?c then _ else _] => destruct c end; [| |done].
  - apply (case_field_total (fun _ => False) wf_context); [|by split].
    eapply advances_bind; [by apply read_bytes_advances|]. intros sub i Hs Hi'. cbn.
    pose proof (unmarshal_total context_field (fun _ => False) wf_context sub (Context_ m)
      context_fields_total Hc Hs) as H. unfold Context_Unmarshal.
    destruct (unmarshal _ _ _); done.
  - eapply case_field_total; [by apply read_bytes_advances|]. intros v Hv. by split.
Qed.

(** ** Properties *)

(** C24. A message that is marshalled is the concatenation of its fields, in a buffer
    of exactly the computed size (the encoding is written from the end and every
    byte of the buffer is used); [MarshalTo] puts it at the front of a larger
    buffer and leaves the rest, and [XXX_Marshal], which the proto library calls, gives
    it in a buffer of its size; and unmarshalling it gives an equal message, with nil for
    an empty content. *)
Theorem mqtt_message_roundtrip m : wf_message m -> zlen (message_bytes m) < 2 ^ 63 ->
  let s := message_bytes m in
  Message_Marshal m = Ok s /\ Message_Size (Some m) = zlen s /\
  (forall d, zlen s <= zlen d ->
     Message_MarshalTo m d = Ok (s ++ drop (length s) d, zlen s)) /\
  (forall info b, zlen b = Message_XXX_Size (Some m) -> Message_XXX_Marshal info m b false = Ok s) /\
  exists m', Message_Unmarshal zero_Message s = Ok m' /\
    Context_ m' = Context_ m /\ slice_bytes (Content m') = slice_bytes (Content m) /\
    Message_Equal (Some m') (AnyPointer (Some m)) = true.
Proof.
  intros Hwf Hl s. unfold Message_Marshal, Message_MarshalTo, Message_XXX_Size. rewrite message_size by done.
  assert (Hw : writes (message_writer m) s) by by apply message_writes.
  split; [by apply marshal_writes|]. split; [done|].
  split; [intros d; by apply marshal_to_writes|].
  split; [intros info b; by apply xxx_marshal_exact|].
  exists (normal_message m).
  split; [apply reads_unmarshal; [by apply message_reads|done]|].
  assert (Hb : slice_bytes (Content (normal_message m)) = slice_bytes (Content m)).
  { unfold normal_message. cbn. destruct (slice_bytes (Content m)); [done|].
    rewrite zlen_cons, (proj2 (Z.ltb_lt _ _)) by (pose proof (zlen_nonneg l); lia). done. }
  split; [done|]. split; [done|]. unfold Message_Equal, Context_Equal, equal_any.
  by rewrite Hb, !Z.eqb_refl, !bool_decide_eq_true_2.
Qed.

(** C25. Whatever the bytes, unmarshalling a message ends without a panic, and what
    it accepts has fields of their widths, also when the receiver was not empty. *)
Theorem mqtt_unmarshal_safe d m : wf_message m -> zlen d < 2 ^ 63 ->
  match Message_Unmarshal m d with
  | Ok m' => wf_message m'
  | Err _ => True
  | Panic _ | NoFuel => False
  end.
Proof. intros. by apply unmarshal_total; [apply message_fields_total| |]. Qed.

(** ** Witnesses *)

Definition sample_message : Message :=
  {| Context_ := {| ID := 300; TS := 2 ^ 64 - 1; QOS := 1; Flags := 0;
                    Topic := [z2b 116; z2b 47; z2b 98] |};
     Content := Some [z2b 0; z2b 255] |}.

Lemma sample_wf : wf_message sample_message.
Proof. unfold wf_message, wf_context, in_u. by vm_compute. Qed.

(** A buffer with three bytes to spare gives a message without its end behind them. *)
Example larger_buffer :
  Message_XXX_Marshal NoFuel sample_message (replicate 30 (z2b 0)) false =
  Ok (take 27 (replicate 3 (z2b 0) ++ message_bytes sample_message)) /\
  is_ok (Message_Unmarshal zero_Message (take 27 (replicate 3 (z2b 0) ++ message_bytes sample_message))) = false.
Proof. split; by vm_compute. Qed.

Lemma mqtt_message_roundtrip_witness :
  Message_Marshal sample_message = Ok (message_bytes sample_message) /\
  zlen (message_bytes sample_message) = 27 /\
  Message_Unmarshal zero_Message (message_bytes sample_message) = Ok sample_message.
Proof.
  split; [refine (proj1 (mqtt_message_roundtrip sample_message sample_wf _)); by vm_compute|].
  split; by vm_compute.
Defined.

Lemma mqtt_unmarshal_safe_witness :
  Message_Unmarshal zero_Message [z2b 10; z2b 5; z2b 8] = Err ErrUnexpectedEOF /\
  match Message_Unmarshal zero_Message [z2b 10; z2b 2; z2b 8; z2b 7; z2b 34; z2b 1; z2b 9] with
  | Ok m' => wf_message m'
  | Err _ => True
  | Panic _ | NoFuel => False
  end.
Proof.
  split; [by vm_compute|].
  apply (mqtt_unmarshal_safe _ zero_Message).
  - unfold wf_message, wf_context, in_u. by vm_compute.
  - by vm_compute.
Defined.

(** A context that comes twice is merged; fields of another wire type are refused. *)
Example context_merged :
  Message_Unmarshal zero_Message
    [z2b 10; z2b 2; z2b 8; z2b 7; z2b 10; z2b 2; z2b 16; z2b 9] =
  Ok {| Context_ := {| ID := 7; TS := 9; QOS := 0; Flags := 0; Topic := [] |}; Content := None |}.
Proof. by vm_compute. Qed.
Example wrong_type_refused : Message_Unmarshal zero_Message [z2b 8; z2b 7] = Err wrong_wire.
Proof. by vm_compute. Qed.
