(* ===== verification/FunctionPb.v ===== *)
(** * The protobuf codec of function messages

    faas/function.pb.go: a [Message] (identifier, a metadata map, payload), its
    comparison, size, marshalling and unmarshalling. The metadata is a Go map,
    nil or not; a range over it takes an order of its entries, a parameter here,
    and each range (the one of [Size], the one of [Marshal]) has its own. *)

From Stdlib Require Import ZArith Lia String.
From stdpp Require Import base option list strings gmap fin_maps.
From S2P Require Import Prelude ProtoWire.

Local Open Scope string_scope.
Local Open Scope Z_scope.
Local Open Scope list_scope.

(** ** Data *)

Abbreviation bytes := (list byte).

Record Message := {
  ID : Z;                                   (* uint64 *)
  Metadata : option (gmap bytes bytes);
  Payload : option bytes
}.

Definition zero_Message : Message := {| ID := 0; Metadata := None; Payload := None |}.

#[export] Instance Message_eq_dec : EqDecision Message.
Proof. solve_decision. Defined.

(** The entries of a map that may be nil, and the orders a range can take. *)
Definition map_entries (m : option (gmap bytes bytes)) : gmap bytes bytes := default ∅ m.
Definition order_of (m : Message) (l : list (bytes * bytes)) : Prop :=
  l ≡ₚ map_to_list (map_entries (Metadata m)).

(** ** Equal *)

(** [for i := range this.Metadata]: a key the other map lacks reads as the empty
    string there. *)
Definition Message_Equal (l : list (bytes * bytes)) : option Message -> any Message -> bool :=
  equal_any (fun this that1 =>
    if negb (ID this =? ID that1) then false
    else if negb (bool_decide (size (map_entries (Metadata this)) =
                               size (map_entries (Metadata that1)))) then false
    else if negb (forallb (fun '(k, v) =>
                    bool_decide (v = default [] (map_entries (Metadata that1) !! k))) l)
    then false
    else if negb (bool_decide (slice_bytes (Payload this) = slice_bytes (Payload that1)))
    then false
    else true).

(** ** Size *)

Definition mapEntrySize (e : bytes * bytes) : Z :=
  1 + zlen (fst e) + sov (uint64 (zlen (fst e))) +
  1 + zlen (snd e) + sov (uint64 (zlen (snd e))).

Fixpoint metadata_size (l : list (bytes * bytes)) (n : Z) : Z :=
  match l with
  | [] => n
  | e :: l =>
      metadata_size l (int64 (n + (mapEntrySize e + 1 + sov (uint64 (mapEntrySize e)))))
  end.

(** [l] is the order of the range over the metadata. *)
Definition Message_Size (l : list (bytes * bytes)) (m : option Message) : Z :=
  match m with
  | None => 0
  | Some m =>
      let n := if negb (ID m =? 0) then 1 + sov (ID m) else 0 in
      let n := metadata_size l n in
      let l := zlen (slice_bytes (Payload m)) in
      int64 (n + (if 0 <? l then 1 + l + sov (uint64 l) else 0))
  end.

(** ** Marshalling *)

(** An entry: its value and key, and the length of what was written since [baseI]. *)
Definition put_entry (e : bytes * bytes) : writer := fun '(d, baseI) =>
  '(d, i) ← then_ (put_lengthed 18 (snd e)) (put_lengthed 10 (fst e)) (d, baseI);
  then_ (put_varint (uint64 (baseI - i))) (put_byte 18) (d, i).

Fixpoint put_entries (l : list (bytes * bytes)) : writer :=
  match l with
  | [] => fun di => Ok di
  | e :: l => then_ (put_entry e) (put_entries l)
  end.

Definition message_writer (l : list (bytes * bytes)) (m : Message) : writer :=
  let payload := slice_bytes (Payload m) in
  then_ (put_if (0 <? zlen payload) (put_lengthed 26 payload))
  (then_ (put_entries l)
  (put_if (negb (ID m =? 0)) (put_number 8 (ID m)))).

Definition MarshalToSizedBuffer (l : list (bytes * bytes)) (m : Message)
    : list byte -> outcome (list byte * Z) :=
  to_sized_buffer (message_writer l m).
(** [l1] is the order of the range in [Size], [l2] of the one that writes. *)
Definition MarshalTo (l1 l2 : list (bytes * bytes)) (m : Message)
    : list byte -> outcome (list byte * Z) :=
  marshal_to (Message_Size l1 (Some m)) (MarshalToSizedBuffer l2 m).
Definition Marshal (l1 l2 : list (bytes * bytes)) (m : Message) : outcome (list byte) :=
  marshal_with (Message_Size l1 (Some m)) (MarshalToSizedBuffer l2 m).
(** [info] is what the library's own marshaller gives. *)
Definition XXX_Marshal (info : outcome (list byte)) (l : list (bytes * bytes)) (m : Message)
    : list byte -> bool -> outcome (list byte) :=
  xxx_marshal info (MarshalToSizedBuffer l m).
Definition XXX_Size (l : list (bytes * bytes)) (m : option Message) : Z := Message_Size l m.

(** ** Unmarshalling *)

(** The generator writes [skip] into each of its files, word for word. *)
Definition skipFunction (dAtA : list byte) : outcome Z := skip dAtA.

(** The fields of a map entry, up to [postIndex]. The wire type of a key or value is
    not looked at; an unknown field is skipped without the check of the sum that a
    message makes. Every round moves the index on or is the last, so the length of
    the buffer is fuel enough. *)
Fixpoint entry_loop (fuel : nat) (d : list byte) (postIndex : Z) (mapkey mapvalue : bytes)
    (idx : Z) : outcome (bytes * bytes) :=
  match fuel with
  | O => NoFuel
  | S fuel =>
      if idx <? postIndex then
        '(wire, idx') ← read_varint uint64 d idx;
        let fieldNum := int32 (Z.shiftr wire 3) in
        if fieldNum =? 1 then
          '(mapkey, idx') ← read_string d idx';
          entry_loop fuel d postIndex mapkey mapvalue idx'
        else if fieldNum =? 2 then
          '(mapvalue, idx') ← read_string d idx';
          entry_loop fuel d postIndex mapkey mapvalue idx'
        else
          rest ← slice d idx (zlen d);
          skippy ← skipFunction rest;
          if skippy <? 0 then Err ErrInvalidLength
          else if postIndex <? int64 (idx + skippy) then Err ErrUnexpectedEOF
          else entry_loop fuel d postIndex mapkey mapvalue (int64 (idx + skippy))
      else Ok (mapkey, mapvalue)
  end.

(** A metadata entry: its length, its fields. *)
Definition read_entry (d : list byte) (idx : Z) : outcome ((bytes * bytes) * Z) :=
  '(msglen, idx) ← read_varint int64 d idx;
  postIndex ← post_index d msglen idx;
  e ← entry_loop (S (S (length d))) d postIndex [] [] idx;
  Ok (e, postIndex).

Definition message_field (m : Message) (fieldNum wireType : Z) (d : list byte) (idx : Z)
    : option (outcome (Message * Z)) :=
  if fieldNum =? 1 then
    case_field wireType 0 (read_varint uint64 d idx) (fun v =>
      {| ID := v; Metadata := Metadata m; Payload := Payload m |})
  else if fieldNum =? 2 then
    case_field wireType 2 (read_entry d idx) (fun '(mapkey, mapvalue) =>
      {| ID := ID m; Metadata := Some (<[mapkey := mapvalue]> (map_entries (Metadata m)));
         Payload := Payload m |})
  else if fieldNum =? 3 then
    case_field wireType 2 (read_bytes d idx) (fun v =>
      {| ID := ID m; Metadata := Metadata m; Payload := Some v |})
  else None.

Definition Unmarshal (m : Message) (dAtA : list byte) : outcome Message :=
  unmarshal message_field dAtA m.
Definition XXX_Unmarshal (m : Message) (b : list byte) : outcome Message := Unmarshal m b.

#[global] Arguments Unmarshal : simpl never.
#[global] Arguments read_entry : simpl never.

(** ** What is encoded *)

Definition entry_bytes (e : bytes * bytes) : list byte :=
  (z2b 10 :: lengthed (fst e)) ++ (z2b 18 :: lengthed (snd e)).

(** The entries stand in the reverse of the order they were ranged over. *)
Fixpoint metadata_bytes (l : list (bytes * bytes)) : list byte :=
  match l with
  | [] => []
  | e :: l => metadata_bytes l ++ (z2b 18 :: lengthed (entry_bytes e))
  end.

Definition message_bytes (l : list (bytes * bytes)) (m : Message) : list byte :=
  let payload := slice_bytes (Payload m) in
  ((if negb (ID m =? 0) then z2b 8 :: varint (ID m) else []) ++
   metadata_bytes l) ++
  (if 0 <? zlen payload then z2b 26 :: lengthed payload else []).

(** ** The unchecked jump in a map entry *)

(** A metadata entry with an unknown field 3 whose length takes the offset past the
    largest int: the sum wraps to a negative index, which passes the test against
    the end of the entry, and the next read panics. *)
Definition overflowing_message : list byte :=
  map z2b [18; 11; 26; 245; 255; 255; 255; 255; 255; 255; 255; 127; 0].

Example entry_jump_panics : Unmarshal zero_Message overflowing_message = Panic index_panic.
Proof. by vm_compute. Qed.

(** ** Lemmas: sizes *)

Lemma zlen_entry e : zlen (entry_bytes e) < 2 ^ 63 ->
  zlen (fst e) < 2 ^ 63 /\ zlen (snd e) < 2 ^ 63 /\ mapEntrySize e = zlen (entry_bytes e).
Proof.
  destruct e as [k v]. unfold entry_bytes, mapEntrySize. cbn [fst snd].
  rewrite zlen_app, !zlen_cons. unfold lengthed at 1 2. rewrite !zlen_app. intros Hl.
  pose proof (zlen_nonneg k). pose proof (zlen_nonneg v).
  pose proof (zlen_nonneg (varint (zlen k))). pose proof (zlen_nonneg (varint (zlen v))).
  split_and!; [lia|lia|].
  rewrite !uint64_id, !zlen_lengthed by (unfold in_u; lia). lia.
Qed.

Lemma zlen_metadata_cons e l :
  zlen (metadata_bytes (e :: l)) = zlen (metadata_bytes l) + 1 + zlen (lengthed (entry_bytes e)).
Proof. cbn [metadata_bytes]. rewrite zlen_app, zlen_cons. lia. Qed.

Lemma lengthed_bound s n : zlen (lengthed s) < n -> zlen s < n.
Proof. unfold lengthed. rewrite zlen_app. pose proof (zlen_nonneg (varint (zlen s))). lia. Qed.

Lemma metadata_size_bytes l : forall n, 0 <= n -> n + zlen (metadata_bytes l) < 2 ^ 63 ->
  metadata_size l n = n + zlen (metadata_bytes l).
Proof.
  induction l as [|e l IH]; intros n Hn Hl; [change (n = n + 0); lia|]. rewrite zlen_metadata_cons in *.
  pose proof (zlen_nonneg (metadata_bytes l)). pose proof (zlen_nonneg (lengthed (entry_bytes e))).
  assert (He : zlen (entry_bytes e) < 2 ^ 63) by (apply lengthed_bound; lia).
  destruct (zlen_entry e He) as (_ & _ & Hs). pose proof (zlen_nonneg (entry_bytes e)).
  cbn [metadata_size]. rewrite Hs, uint64_id by lia.
  rewrite zlen_lengthed in * by (unfold in_u; lia).
  rewrite int64_id by lia. rewrite IH; lia.
Qed.

(** The size does not depend on the order of the range. *)
Lemma metadata_bytes_perm l l' : l ≡ₚ l' -> zlen (metadata_bytes l) = zlen (metadata_bytes l').
Proof. induction 1; rewrite ?zlen_metadata_cons; lia. Qed.

Lemma message_bytes_perm l l' m : l ≡ₚ l' ->
  zlen (message_bytes l m) = zlen (message_bytes l' m).
Proof. intros H%metadata_bytes_perm. unfold message_bytes. rewrite !zlen_app. lia. Qed.

(** A message that fits an int has parts that do. *)
Lemma message_parts l m : zlen (message_bytes l m) < 2 ^ 63 ->
  zlen (metadata_bytes l) < 2 ^ 63 /\ zlen (slice_bytes (Payload m)) < 2 ^ 63.
Proof.
  unfold message_bytes. cbv zeta. rewrite !zlen_app. set (p := slice_bytes (Payload m)).
  pose proof (zlen_nonneg (if negb (ID m =? 0) then z2b 8 :: varint (ID m) else [])).
  pose proof (zlen_nonneg (metadata_bytes l)). pose proof (zlen_nonneg p).
  destruct (0 <? zlen p) eqn:E; [|boolify; change (zlen (@nil byte)) with 0; lia].
  rewrite zlen_cons. intros Hl. pose proof (zlen_nonneg (lengthed p)).
  split; [lia|]. apply lengthed_bound. lia.
Qed.

Lemma function_size l m : in_u 64 (ID m) -> zlen (message_bytes l m) < 2 ^ 63 ->
  Message_Size l (Some m) = zlen (message_bytes l m).
Proof.
  intros Hid Hl. destruct (message_parts l m Hl) as [Hm Hp]. unfold Message_Size.
  unfold message_bytes in *. cbv zeta in *. set (p := slice_bytes (Payload m)) in *.
  rewrite !zlen_app in *. pose proof (zlen_nonneg p). pose proof (zlen_nonneg (metadata_bytes l)).
  assert (E1 : zlen (if negb (ID m =? 0) then z2b 8 :: varint (ID m) else []) =
               if negb (ID m =? 0) then 1 + sov (ID m) else 0).
  { destruct (negb _); [by apply zlen_number|done]. }
  assert (E2 : zlen (if 0 <? zlen p then z2b 26 :: lengthed p else []) =
               if 0 <? zlen p then 1 + zlen p + sov (uint64 (zlen p)) else 0).
  { rewrite uint64_id by lia. destruct (0 <? zlen p); [|done].
    rewrite zlen_cons, zlen_lengthed by (unfold in_u; lia). lia. }
  rewrite E1, E2 in *. clear E1 E2. set (n1 := if negb _ then _ else _) in *.
  set (n2 := if 0 <? _ then _ else _) in *.
  assert (0 <= n1) by (subst n1; pose proof (sov_pos (ID m)); unfold in_u in Hid; case_match; lia).
  assert (0 <= n2).
  { subst n2. destruct (0 <? zlen p); [|lia]. rewrite uint64_id by lia.
    pose proof (sov_pos (zlen p)). lia. }
  rewrite metadata_size_bytes, int64_id by lia. done.
Qed.

(** ** Lemmas: writing *)

Lemma entry_writes e : zlen (entry_bytes e) < 2 ^ 63 ->
  writes (put_entry e) (z2b 18 :: lengthed (entry_bytes e)).
Proof.
  intros He d i t Hd Hi. destruct (zlen_entry e He) as (Hk & Hv & _).
  assert (Hw : writes (then_ (put_lengthed 18 (snd e)) (put_lengthed 10 (fst e))) (entry_bytes e))
    by (apply writes_then; by apply writes_lengthed).
  pose proof (zlen_nonneg (entry_bytes e)).
  assert (Hw2 : writes (then_ (put_varint (uint64 (zlen (entry_bytes e)))) (put_byte 18))
                       ([z2b 18] ++ varint (zlen (entry_bytes e)))).
  { rewrite uint64_id by lia. apply writes_then; [|apply writes_byte].
    apply writes_varint. unfold in_u. lia. }
  assert (Hb : z2b 18 :: lengthed (entry_bytes e) =
               ([z2b 18] ++ varint (zlen (entry_bytes e))) ++ entry_bytes e) by done.
  rewrite Hb, zlen_app in *. set (h := [z2b 18] ++ _) in *. pose proof (zlen_nonneg h).
  destruct (Hw d i t Hd) as (d1 & E1 & Hd1 & Hl1); [lia|].
  unfold put_entry. rewrite E1. cbn [mbind outcome_bind].
  replace (i - (i - zlen (entry_bytes e))) with (zlen (entry_bytes e)) by lia.
  destruct (Hw2 d1 _ _ Hd1) as (d2 & E2 & Hd2 & Hl2); [lia|]. rewrite E2. exists d2.
  replace (i - (zlen h + zlen (entry_bytes e))) with (i - zlen (entry_bytes e) - zlen h) by lia.
  rewrite <- app_assoc. split_and!; [done|done|lia].
Qed.

Lemma entries_write l : zlen (metadata_bytes l) < 2 ^ 63 ->
  writes (put_entries l) (metadata_bytes l).
Proof.
  induction l as [|e l IH]; intros Hl.
  { intros d i t Hd _. exists d. cbn. by rewrite Z.sub_0_r. }
  rewrite zlen_metadata_cons in Hl. cbn [put_entries metadata_bytes].
  pose proof (zlen_nonneg (metadata_bytes l)). pose proof (zlen_nonneg (lengthed (entry_bytes e))).
  apply writes_then; [apply entry_writes, lengthed_bound; lia|apply IH; lia].
Qed.

Lemma function_writes l m : in_u 64 (ID m) -> zlen (message_bytes l m) < 2 ^ 63 ->
  writes (message_writer l m) (message_bytes l m).
Proof.
  intros Hid Hl. destruct (message_parts l m Hl) as [Hm Hp].
  apply writes_then; [apply writes_if; intros _; by apply writes_lengthed|].
  apply writes_then; [by apply entries_write|].
  apply writes_if; intros _; by apply writes_number.
Qed.

(** ** Lemmas: reading *)

(** A round that reads a key ([num] is 1) or a value (2). *)
Lemma entry_loop_string num fuel postIndex k v (s pre post : list byte) :
  num = 1 \/ num = 2 ->
  zlen (pre ++ (z2b (num * 8 + 2) :: lengthed s) ++ post) < 2 ^ 63 -> zlen pre < postIndex ->
  entry_loop (S fuel) (pre ++ (z2b (num * 8 + 2) :: lengthed s) ++ post) postIndex k v (zlen pre) =
  entry_loop fuel (pre ++ (z2b (num * 8 + 2) :: lengthed s) ++ post) postIndex
    (if num =? 1 then s else k) (if num =? 1 then v else s)
    (zlen (pre ++ z2b (num * 8 + 2) :: lengthed s)).
Proof.
  intros Hnum Hl Hi. cbn [entry_loop]. rewrite (proj2 (Z.ltb_lt _ _)) by done.
  set (tag := num * 8 + 2) in *. cbn [app] in *.
  rewrite read_tag by (destruct Hnum; subst; lia). cbn [mbind outcome_bind]. cbv zeta.
  assert (D : pre ++ z2b tag :: lengthed s ++ post = (pre ++ [z2b tag]) ++ lengthed s ++ post)
    by by rewrite <- app_assoc.
  assert (D' : pre ++ z2b tag :: lengthed s = (pre ++ [z2b tag]) ++ lengthed s)
    by by rewrite <- app_assoc.
  rewrite D, D' in *. rewrite read_string_app by done.
  destruct Hnum as [-> | ->]; reflexivity.
Qed.

(** The three rounds that read an entry. *)
Lemma entry_loop_entry fuel e (pre post : list byte) :
  zlen (pre ++ entry_bytes e ++ post) < 2 ^ 63 ->
  entry_loop (S (S (S fuel))) (pre ++ entry_bytes e ++ post) (zlen (pre ++ entry_bytes e)) [] []
    (zlen pre) = Ok e.
Proof.
  destruct e as [k v]. unfold entry_bytes. cbn [fst snd].
  pose proof (entry_loop_string 1 (S (S fuel)) (zlen (pre ++ entry_bytes (k, v))) [] [] k pre
    ((z2b 18 :: lengthed v) ++ post)) as E1.
  pose proof (entry_loop_string 2 (S fuel) (zlen (pre ++ entry_bytes (k, v))) k [] v
    (pre ++ z2b 10 :: lengthed k) post) as E2.
  change (z2b (1 * 8 + 2)) with (z2b 10) in E1. change (z2b (2 * 8 + 2)) with (z2b 18) in E2.
  unfold entry_bytes in E1, E2. cbn [fst snd] in E1, E2.
  set (kb := z2b 10 :: lengthed k) in *. set (vb := z2b 18 :: lengthed v) in *.
  assert (1 <= zlen kb) by (subst kb; rewrite zlen_cons; pose proof (zlen_nonneg (lengthed k)); lia).
  assert (1 <= zlen vb) by (subst vb; rewrite zlen_cons; pose proof (zlen_nonneg (lengthed v)); lia).
  rewrite <- !app_assoc in *. intros Hl.
  rewrite E1 by (auto || (rewrite !zlen_app; lia)). cbn [Z.eqb Pos.eqb].
  rewrite E2 by (auto || (rewrite !zlen_app; lia)). cbn [Z.eqb Pos.eqb entry_loop].
  by rewrite Z.ltb_irrefl.
Qed.

Lemma read_entry_app e (pre post : list byte) :
  zlen (pre ++ lengthed (entry_bytes e) ++ post) < 2 ^ 63 ->
  read_entry (pre ++ lengthed (entry_bytes e) ++ post) (zlen pre) =
  Ok (e, zlen (pre ++ lengthed (entry_bytes e))).
Proof.
  intros Hl. unfold read_entry.
  destruct (read_lengthed int64 _ pre post int64_id Hl) as [E1 E2]. rewrite E1.
  cbn [mbind outcome_bind]. unfold take_length in E2.
  destruct (post_index _ _ _) as [i| | |]; try done. cbn [mbind outcome_bind] in E2 |- *.
  destruct (slice _ _ _); try done. injection E2 as _ ->. clear E1.
  set (P := pre ++ varint (zlen (entry_bytes e))) in *.
  assert (D1 : pre ++ lengthed (entry_bytes e) ++ post = P ++ entry_bytes e ++ post)
    by (subst P; unfold lengthed; by rewrite <- !app_assoc).
  assert (D2 : pre ++ lengthed (entry_bytes e) = P ++ entry_bytes e)
    by (subst P; unfold lengthed; by rewrite <- !app_assoc).
  rewrite D1, D2 in *.
  destruct (length (P ++ entry_bytes e ++ post)) as [|n] eqn:En.
  { rewrite !length_app in En. unfold entry_bytes in En. rewrite !length_app in En. cbn in En. lia. }
  by rewrite entry_loop_entry.
Qed.

(** Reading the entries inserts them, from the last one ranged over to the first. *)
Definition inserted (l : list (bytes * bytes)) : option (gmap bytes bytes) :=
  match l with [] => None | _ => Some (list_to_map l) end.

Lemma map_entries_inserted l : map_entries (inserted l) = list_to_map l.
Proof. by destruct l. Qed.

Lemma entries_read id l :
  reads message_field {| ID := id; Metadata := None; Payload := None |} (metadata_bytes l)
    {| ID := id; Metadata := inserted l; Payload := None |}.
Proof.
  induction l as [|e l IH]; [apply reads_nil|]. cbn [metadata_bytes].
  eapply reads_app; [exact IH|]. apply (reads_field _ _ 2 2); [lia..|]. intros pre post Hl.
  eapply case_field_read; [by apply read_entry_app|]. destruct e as [k v].
  cbn [Metadata]. by rewrite map_entries_inserted.
Qed.

(** What comes back: an empty map or payload as nil. *)
Definition normal_message (l : list (bytes * bytes)) (m : Message) : Message :=
  {| ID := ID m; Metadata := inserted l;
     Payload := if 0 <? zlen (slice_bytes (Payload m)) then Some (slice_bytes (Payload m)) else None |}.

Lemma function_reads l m : in_u 64 (ID m) ->
  reads message_field zero_Message (message_bytes l m) (normal_message l m).
Proof.
  intros Hid. unfold message_bytes, normal_message. cbv zeta.
  set (p := slice_bytes (Payload m)).
  eapply reads_app; [eapply reads_app; [|apply (entries_read (ID m))]|].
  - apply reads_if; [intros _|intros ?; boolify; unfold zero_Message; congruence].
    apply (reads_field _ _ 1 0); [lia..|]. intros pre post Hl.
    eapply case_field_read; [|done]. by apply (read_number_field _ 64); [apply uint64_id|lia|].
  - apply reads_if; intros E; rewrite E; [|done].
    apply (reads_field _ _ 3 2); [lia..|]. intros pre post Hl.
    eapply case_field_read; [|done]. by apply read_bytes_app.
Qed.

(** ** Lemmas: what can go wrong *)

Lemma entry_loop_negative fuel d postIndex k v idx : idx < 0 <= postIndex ->
  entry_loop (S fuel) d postIndex k v idx = Panic index_panic.
Proof.
  intros Hi. cbn [entry_loop]. rewrite (proj2 (Z.ltb_lt _ _)) by lia.
  by rewrite read_varint_negative by lia.
Qed.

(** The loop over an entry ends; where it panics, an index is out of range. *)
Lemma entry_loop_total fuel : forall d postIndex k v idx,
  zlen d < 2 ^ 63 -> 0 <= idx <= zlen d -> postIndex <= zlen d ->
  zlen d + 1 < idx + Z.of_nat fuel ->
  match entry_loop fuel d postIndex k v idx with
  | Ok _ | Err _ => True
  | Panic e => e = index_panic
  | NoFuel => False
  end.
Proof.
  induction fuel as [|fuel IH]; [lia|]. intros d postIndex k v idx Hd Hi Hp Hf.
  cbn [entry_loop]. destruct (idx <? postIndex) eqn:El; [|done]. boolify.
  pose proof (read_varint_advances (fun _ => False) uint64 (fun _ => True) d idx ltac:(done) Hi) as Hr.
  destruct (read_varint uint64 d idx) as [[wire idx1]| | |]; cbn in Hr |- *; try done.
  pose proof (read_string_advances (fun _ => False) d idx1 Hd ltac:(lia)) as Hs.
  destruct (_ =? 1); [|destruct (_ =? 2)].
  1,2: destruct (read_string d idx1) as [[s idx2]| | |]; cbn in Hs |- *; try done; apply IH; lia.
  assert (Hdrop : slice d idx (zlen d) = Ok (drop (Z.to_nat idx) d)).
  { unfold slice. rewrite !(proj2 (Z.leb_le _ _)) by lia. cbn [andb]. f_equal.
    apply take_ge. rewrite length_drop. unfold zlen. lia. }
  rewrite Hdrop. cbn [mbind outcome_bind].
  assert (Hz : zlen (drop (Z.to_nat idx) d) = zlen d - idx) by
    (unfold zlen in *; rewrite length_drop; lia).
  unfold skipFunction. pose proof (skip_total (drop (Z.to_nat idx) d) ltac:(lia)) as Hk.
  destruct (skip _) as [n| | |]; cbn; try done. unfold moved in Hk.
  rewrite (proj2 (Z.ltb_ge n 0)) by lia.
  destruct (postIndex <? int64 (idx + n)) eqn:E; [done|]. boolify.
  destruct (int64_sum (idx + n)) as [Hn|Hn]; [lia| |].
  - rewrite Hn in *. apply IH; lia.
  - destruct fuel as [|fuel]; [lia|]. by rewrite entry_loop_negative by lia.
Qed.

Lemma function_fields_total :
  fields_total message_field (fun e => e = index_panic) (fun m => in_u 64 (ID m)).
Proof.
  intros m n wt d idx Hm Hd Hi. unfold message_field.
  assert (Hr : forall x, in_u 64 (uint64 x)) by (intros; by apply uwrap_range).
  destruct (n =? 1); [|destruct (n =? 2); [|destruct (n =? 3); [|done]]].
  - eapply case_field_total; [by apply (read_varint_advances _ uint64 (in_u 64))|]. by intros v Hv.
  - apply (case_field_total _ (fun _ => True)); [|by intros []]. unfold read_entry.
    eapply advances_bind; [by apply (read_varint_advances _ int64 (in_s 64)); [apply in_s64|]|].
    intros len i Hlen Hi'. cbn beta iota.
    pose proof (post_index_total d len i Hd ltac:(lia) Hlen) as Hp.
    destruct (post_index _ _ _) as [j| | |]; cbn [mbind outcome_bind]; [|exact Hp || destruct Hp..].
    pose proof (entry_loop_total (S (S (length d))) d j [] [] i Hd ltac:(lia) ltac:(lia)
      ltac:(unfold zlen in *; lia)) as He.
    destruct (entry_loop _ _ _ _ _ _) as [e| | |]; cbn [mbind outcome_bind]; [|exact He..].
    split; [done|lia].
  - eapply case_field_total; [by apply read_bytes_advances|]. by intros v Hv.
Qed.

(** ** Properties *)

(** C26. Whatever orders the ranges over the metadata take in [Size] and in the
    marshaller, a message is marshalled into its fields in a buffer of exactly the
    computed size, and unmarshalling gives back the identifier, every metadata entry
    and the payload; the result is [Equal] to the message. *)
Theorem function_message_roundtrip m l1 l2 :
  in_u 64 (ID m) -> order_of m l1 -> order_of m l2 -> zlen (message_bytes l2 m) < 2 ^ 63 ->
  let s := message_bytes l2 m in
  Marshal l1 l2 m = Ok s /\ Message_Size l1 (Some m) = zlen s /\
  (forall d, zlen s <= zlen d -> MarshalTo l1 l2 m d = Ok (s ++ drop (length s) d, zlen s)) /\
  (forall info b, zlen b = XXX_Size l1 (Some m) -> XXX_Marshal info l2 m b false = Ok s) /\
  exists m', Unmarshal zero_Message s = Ok m' /\ ID m' = ID m /\
    map_entries (Metadata m') = map_entries (Metadata m) /\
    slice_bytes (Payload m') = slice_bytes (Payload m) /\
    forall l', order_of m' l' -> Message_Equal l' (Some m') (AnyPointer (Some m)) = true.
Proof.
  intros Hid H1 H2 Hl s. unfold order_of in *.
  assert (Hperm : l1 ≡ₚ l2) by by rewrite H1, H2.
  assert (Hsize : Message_Size l1 (Some m) = zlen s).
  { subst s. rewrite <- (message_bytes_perm l1) by done. apply function_size; [done|].
    by rewrite (message_bytes_perm l1 l2). }
  assert (Hw : writes (message_writer l2 m) s) by by apply function_writes.
  unfold Marshal, MarshalTo, XXX_Size. rewrite Hsize. split; [by apply marshal_writes|]. split; [done|].
  split; [intros d; by apply marshal_to_writes|]. split; [intros info b; by apply xxx_marshal_exact|]. exists (normal_message l2 m).
  split; [apply reads_unmarshal; [by apply function_reads|done]|]. split; [done|].
  assert (Hm : map_entries (Metadata (normal_message l2 m)) = map_entries (Metadata m)).
  { cbn [normal_message Metadata]. rewrite map_entries_inserted.
    rewrite <- (list_to_map_to_list (map_entries (Metadata m))). apply list_to_map_proper; [|done].
    rewrite H2. apply NoDup_fst_map_to_list. }
  assert (Hp : slice_bytes (Payload (normal_message l2 m)) = slice_bytes (Payload m)).
  { cbn. destruct (slice_bytes (Payload m)) as [|x p]; [done|].
    rewrite zlen_cons, (proj2 (Z.ltb_lt _ _)) by (pose proof (zlen_nonneg p); lia). done. }
  split; [done|]. split; [done|]. intros l' Hl'. unfold Message_Equal, equal_any.
  rewrite Hm, Hp in *. rewrite Z.eqb_refl, !bool_decide_eq_true_2 by done. cbn [negb].
  assert (Hall : forallb (fun '(k, v) =>
    bool_decide (v = default [] (map_entries (Metadata m) !! k))) l' = true); [|by rewrite Hall].
  apply forallb_forall. intros [k v] Hin%list_elem_of_In. apply bool_decide_eq_true_2.
  rewrite Hl' in Hin. apply elem_of_map_to_list in Hin. by rewrite Hin.
Qed.

(** Unmarshalling any bytes ends; what it accepts has an identifier of 64 bits;
    and it panics only with an index out of range, which bytes can be made to do. *)
Theorem function_unmarshal_ends d m : in_u 64 (ID m) -> zlen d < 2 ^ 63 ->
  match Unmarshal m d with
  | Ok m' => in_u 64 (ID m')
  | Err _ => True
  | Panic e => e = index_panic
  | NoFuel => False
  end.
Proof.
  intros Hm Hd.
  exact (unmarshal_total message_field _ (fun m => in_u 64 (ID m)) d m function_fields_total Hm Hd).
Qed.

(** ** Witnesses *)

Definition sample_metadata : gmap bytes bytes :=
  <[[z2b 107] := [z2b 118; z2b 49]]> (<[[] := []]> ∅).
Definition sample_message : Message :=
  {| ID := 2 ^ 63; Metadata := Some sample_metadata; Payload := Some [] |}.
Definition one_order : list (bytes * bytes) := [([], []); ([z2b 107], [z2b 118; z2b 49])].
Definition other_order : list (bytes * bytes) := [([z2b 107], [z2b 118; z2b 49]); ([], [])].

Lemma one_order_of : order_of sample_message one_order.
Proof.
  unfold order_of.
  assert (H : map_to_list (map_entries (Metadata sample_message)) = one_order \/
              map_to_list (map_entries (Metadata sample_message)) = other_order)
    by (vm_compute; auto).
  destruct H as [-> | ->]; [done|apply perm_swap].
Qed.

Lemma other_order_of : order_of sample_message other_order.
Proof.
  unfold order_of. rewrite <- one_order_of. apply perm_swap.
Qed.

Lemma function_message_roundtrip_witness :
  Marshal one_order other_order sample_message = Ok (message_bytes other_order sample_message) /\
  zlen (message_bytes other_order sample_message) = 26 /\
  Unmarshal zero_Message (message_bytes other_order sample_message) =
    Ok {| ID := 2 ^ 63; Metadata := Some sample_metadata; Payload := None |}.
Proof.
  split.
  - refine (proj1 (function_message_roundtrip sample_message one_order other_order _ one_order_of other_order_of _));
      [unfold in_u; by vm_compute|by vm_compute].
  - split; vm_compute; reflexivity.
Defined.

Lemma function_unmarshal_ends_witness :
  match Unmarshal zero_Message overflowing_message with
  | Ok m' => in_u 64 (ID m')
  | Err _ => True
  | Panic e => e = index_panic
  | NoFuel => False
  end /\ Unmarshal zero_Message overflowing_message = Panic index_panic.
Proof.
  split; [|by vm_compute]. apply (function_unmarshal_ends overflowing_message zero_Message).
  - unfold in_u. by vm_compute.
  - by vm_compute.
Defined.

(** [Equal] takes a missing key for an empty value. *)
Example equal_missing_key :
  let a := {| ID := 0; Metadata := Some (<[[z2b 97] := []]> ∅); Payload := None |} in
  let b := {| ID := 0; Metadata := Some (<[[z2b 98] := []]> ∅); Payload := None |} in
  Message_Equal [([z2b 97], [])] (Some a) (AnyPointer (Some b)) = true.
Proof. by vm_compute. Qed.
