(* ===== verification/Native.v ===== *)
(** * Ports of native services

    native/port.go: the allocator that probes a range of ports round robin.
    native/mapping.go: the mapping from services to their ports, kept in memory and
    in a file, read back when the file is written, and asked for the next port of a
    service. The file system is a record of what its calls answer; yaml.v2 and the
    test whether a port is free are parameters. *)

From Stdlib Require Import ZArith Lia String.
From stdpp Require Import base option list strings gmap fin_maps relations.
From S2P Require Import Prelude.

Local Open Scope string_scope.
Local Open Scope Z_scope.
Local Open Scope list_scope.

(** ** native/port.go *)

Section allocator.
(** [utils.CheckPortAvailable("127.0.0.1", port)] asked for the [t]-th time. *)
Context (CheckPortAvailable : nat -> Z -> bool).

Record PortAllocator := { base : Z; size : Z; offset : Z }.

Definition NewPortAllocator (start end_ : Z) : outcome PortAllocator :=
  if (start <? 1024) || (65535 <? end_) || (end_ <=? start) then Err "port range is not valid"
  else Ok {| base := start; size := end_ - start + 1; offset := 0 |}.

(** One round of the loop in [Allocate]: the port it probes, the allocator after. *)
Definition probe (p : PortAllocator) : Z * PortAllocator :=
  (base p + offset p,
   {| base := base p; size := size p; offset := Z.rem (offset p + 1) (size p) |}).

Fixpoint allocate_loop (fuel : nat) (times : Z) (t : nat) (p : PortAllocator)
    : outcome Z * PortAllocator :=
  match fuel with
  | O => (NoFuel, p)
  | S fuel =>
      if times =? size p then (Err "no available ports in range", p)
      else
        let '(port, p) := probe p in
        if CheckPortAvailable t port then (Ok port, p)
        else allocate_loop fuel (times + 1) (S t) p
  end.

(** [Allocate], whose first probe is the [t]-th. It probes at most [size] ports. *)
Definition Allocate (t : nat) (p : PortAllocator) : outcome Z * PortAllocator :=
  allocate_loop (S (Z.to_nat (size p))) 0 t p.

(** *** Lemmas *)

Definition wf_allocator (p : PortAllocator) : Prop :=
  1024 <= base p /\ base p + size p <= 65536 /\ 0 < size p /\ 0 <= offset p < size p.

Lemma new_allocator_wf start end_ p : NewPortAllocator start end_ = Ok p ->
  wf_allocator p /\ base p = start /\ base p + size p - 1 = end_.
Proof.
  unfold NewPortAllocator. intros H. case_match eqn:E; [done|]. simplify_eq. boolify.
  unfold wf_allocator. cbn. lia.
Qed.

(** The port probed [k] rounds on, and the allocator before that round. *)
Definition port_at (p : PortAllocator) (k : Z) : Z := base p + (offset p + k) mod size p.
Definition advanced (p : PortAllocator) (k : Z) : PortAllocator :=
  {| base := base p; size := size p; offset := (offset p + k) mod size p |}.

Lemma advanced_0 p : wf_allocator p -> advanced p 0 = p.
Proof.
  intros (_ & _ & _ & Ho). destruct p. unfold advanced. cbn in *.
  by rewrite Z.add_0_r, Z.mod_small.
Qed.

Lemma probe_advanced p k : wf_allocator p ->
  probe (advanced p k) = (port_at p k, advanced p (k + 1)).
Proof.
  intros (_ & _ & Hs & _). unfold probe, port_at, advanced. cbn. f_equal. f_equal.
  pose proof (Z.mod_pos_bound (offset p + k) (size p) Hs).
  rewrite Z.rem_mod_nonneg, Z.add_mod_idemp_l by lia. f_equal. lia.
Qed.

(** What the loop does from its [k]-th round on. *)
Lemma allocate_loop_spec p t : wf_allocator p -> forall fuel k,
  0 <= k <= size p -> size p - k < Z.of_nat fuel ->
  let r := allocate_loop fuel k (t + Z.to_nat k) (advanced p k) in
  (exists n, k <= n < size p /\
     (forall j, k <= j < n -> CheckPortAvailable (t + Z.to_nat j) (port_at p j) = false) /\
     CheckPortAvailable (t + Z.to_nat n) (port_at p n) = true /\
     r = (Ok (port_at p n), advanced p (n + 1))) \/
  (forall j, k <= j < size p -> CheckPortAvailable (t + Z.to_nat j) (port_at p j) = false) /\
  r = (Err "no available ports in range", advanced p (size p)).
Proof.
  intros Hwf. induction fuel as [|fuel IH]; intros k Hk Hf r; [lia|]. subst r.
  cbn [allocate_loop advanced size]. destruct (k =? size p) eqn:E; boolify.
  { subst k. right. split; [lia|done]. }
  change {| base := base p; size := size p; offset := (offset p + k) mod size p |}
    with (advanced p k). rewrite probe_advanced by done. cbv beta iota.
  destruct (CheckPortAvailable (t + Z.to_nat k) (port_at p k)) eqn:Ea.
  - left. exists k. split_and!; [lia|lia|lia|done|done].
  - specialize (IH (k + 1) ltac:(lia) ltac:(lia)). cbv zeta in IH.
    replace (t + Z.to_nat (k + 1))%nat with (S (t + Z.to_nat k)) in IH by lia.
    assert (Hext : forall m, (forall j, k + 1 <= j < m ->
        CheckPortAvailable (t + Z.to_nat j) (port_at p j) = false) ->
      forall j, k <= j < m -> CheckPortAvailable (t + Z.to_nat j) (port_at p j) = false).
    { intros m Hm j Hj. destruct (Z.eq_dec j k) as [->|]; [done|]. apply Hm. lia. }
    destruct IH as [(n & Hn & Hj & Hav & Hr) | [Hj Hr]].
    + left. exists n. split_and!; [lia|lia|by apply Hext|done|done].
    + right. split; [by apply Hext|done].
Qed.

(** The [size] rounds probe every port of the range, each once. *)
Lemma ports_covered p q : wf_allocator p -> base p <= q < base p + size p ->
  exists k, 0 <= k < size p /\ port_at p k = q /\
    forall j, 0 <= j < size p -> port_at p j = q -> j = k.
Proof.
  intros (_ & _ & Hs & Ho) Hq. exists ((q - base p - offset p) mod size p).
  pose proof (Z.mod_pos_bound (q - base p - offset p) (size p) Hs).
  assert (Hport : forall j, port_at p j = base p + (offset p + j) mod size p) by done.
  split; [done|]. split.
  - rewrite Hport, Z.add_mod_idemp_r by lia.
    replace (offset p + (q - base p - offset p)) with (q - base p) by lia.
    rewrite Z.mod_small; lia.
  - intros j Hj. rewrite Hport. intros Hjq.
    assert (Hm : (offset p + j) mod size p = q - base p) by lia.
    rewrite <- (Z.mod_small j (size p)) by lia. rewrite <- Hm.
    rewrite <- Zminus_mod_idemp_l, Z.mod_mod, Zminus_mod_idemp_l by lia. f_equal. lia.
Qed.
End allocator.

(** ** native/mapping.go *)

Record portsInfo := { Ports : list Z; info_offset : Z }.

(** [i.Next()], in place. *)
Definition Next (i : portsInfo) : outcome Z * portsInfo :=
  match Ports i with
  | [] => (Err "ports of service are empty in services mapping file", i)
  | _ =>
      match (if info_offset i <? 0 then None else Ports i !! Z.to_nat (info_offset i)) with
      | None => (Panic "index out of range", i)
      | Some port =>
          (Ok port, {| Ports := Ports i;
                       info_offset := Z.rem (info_offset i + 1) (Z.of_nat (length (Ports i))) |})
      end
  end.

(** The map holds pointers, which can be nil. *)
Abbreviation Services := (gmap string (option portsInfo)).
Definition services_ports (s : Services) : gmap string (option (list Z)) :=
  fmap (M:=gmap string) (fmap (M:=option) Ports) s.

(** What the calls to the operating system answer: the environment (an error of
    [HostPathLib], if any), whether the
    mapping file exists and what reading it gives, whether its directory exists and
    can be made, and whether it can be written. *)
Record World := {
  host_error : option error;
  mapping_file : option string;
  read_error : option error;
  dir_exists : bool;
  mkdir_error : option error;
  write_error : option error
}.

Definition with_dir (w : World) : World :=
  {| host_error := host_error w; mapping_file := mapping_file w; read_error := read_error w;
     dir_exists := true; mkdir_error := mkdir_error w; write_error := write_error w |}.
Definition with_file (w : World) (data : string) : World :=
  {| host_error := host_error w; mapping_file := Some data; read_error := read_error w;
     dir_exists := dir_exists w; mkdir_error := mkdir_error w; write_error := write_error w |}.

Record ServiceMapping := { services : Services; error_ : option error }.

Section mapping.
(** [yaml.Marshal] of the ports by service, and [yaml.Unmarshal] into a map: the
    entries it sets before it ends and how it ends. Entries it does not set stay, and
    the offset, which is not exported, is zero in the ones it sets. *)
Context (yaml_Marshal : gmap string (option (list Z)) -> outcome string).
Context (yaml_Unmarshal : string -> gmap string (option (list Z)) * option error).

Definition fresh_info (ports : list Z) : portsInfo := {| Ports := ports; info_offset := 0 |}.

(** [s.load()] *)
Definition load (w : World) (s : ServiceMapping) : ServiceMapping * option error :=
  match host_error w with
  | Some e => (s, Some e)
  | None =>
      match mapping_file w with
      | None => (s, Some "services mapping file doesn't exist")
      | Some data =>
          match read_error w with
          | Some e => (s, Some e)
          | None =>
              let '(set, err) := yaml_Unmarshal data in
              ({| services := fmap (M:=gmap string) (fmap (M:=option) fresh_info) set ∪ services s; error_ := error_ s |}, err)
          end
      end
  end.

(** [s.save()] *)
Definition save (w : World) (s : ServiceMapping) : World * option error :=
  match host_error w with
  | Some e => (w, Some e)
  | None =>
      match yaml_Marshal (services_ports (services s)) with
      | Ok data =>
          let write w := match write_error w with
                         | Some e => (w, Some e) | None => (with_file w data, None) end in
          if dir_exists w then write w
          else match mkdir_error w with
               | Some e => (w, Some e)
               | None => write (with_dir w)
               end
      | Err e => (w, Some e)
      | _ => (w, Some "yaml")
      end
  end.

Definition NewServiceMapping (w : World) : World * (outcome ServiceMapping) :=
  let m := {| services := ∅; error_ := None |} in
  match host_error w with
  | Some e => (w, Err e)
  | None =>
      match mapping_file w with
      | Some _ => (w, Ok m)
      | None =>
          match save w m with
          | (w, Some e) => (w, Err e)
          | (w, None) => (w, Ok m)
          end
      end
  end.

(** The entry is set and stays when the file cannot be written. *)
Definition SetServicePorts (w : World) (s : ServiceMapping) (serviceName : string)
    (ports : list Z) : World * ServiceMapping * option error :=
  let s := {| services := <[serviceName := Some (fresh_info ports)]> (services s);
              error_ := error_ s |} in
  let '(w, err) := save w s in (w, s, err).

Definition DeleteServicePorts (w : World) (s : ServiceMapping) (serviceName : string)
    : World * ServiceMapping * option error :=
  match services s !! serviceName with
  | None => (w, s, None)
  | Some _ =>
      let s := {| services := delete serviceName (services s); error_ := error_ s |} in
      let '(w, err) := save w s in (w, s, err)
  end.

Definition GetServiceNextPort (s : ServiceMapping) (serviceName : string)
    : outcome Z * ServiceMapping :=
  match error_ s with
  | Some e => (Err e, s)
  | None =>
      match services s !! serviceName with
      | None => (Err "no such service in services mapping file", s)
      | Some None => (Panic "nil pointer dereference", s)
      | Some (Some info) =>
          match Ports info with
          | [] => (Err "no ports info in services mapping file", s)
          | _ =>
              let '(port, info) := Next info in
              (port, {| services := <[serviceName := Some info]> (services s);
                        error_ := error_ s |})
          end
      end
  end.

(** What the goroutine of [WatchFile] can receive. *)
Inductive watch_event : Type :=
  | FileWritten              (* an event with the Write bit *)
  | OtherEvent
  | EventsClosed
  | WatcherError (e : error)
  | ErrorsClosed
  | Dying.

(** One round of its loop: the mapping, and whether the loop goes on. *)
Definition watch_round (w : World) (s : ServiceMapping) (ev : watch_event)
    : ServiceMapping * bool :=
  match ev with
  | FileWritten =>
      match load w s with
      | (s, Some e) => ({| services := services s; error_ := Some e |}, true)
      | (s, None) => (s, true)
      end
  | OtherEvent => (s, true)
  | WatcherError e => ({| services := services s; error_ := Some e |}, false)
  | EventsClosed | ErrorsClosed | Dying => (s, false)
  end.

(** [WatchFile]: [watcher] is what [fsnotify.NewWatcher] answers and [add] what
    [watcher.Add] does; whether the goroutine was started, and the error. *)
Definition WatchFile (w : World) (watcher add : option error) (s : ServiceMapping)
    : ServiceMapping * bool * option error :=
  match host_error w with
  | Some e => (s, false, Some e)
  | None =>
      match watcher with
      | Some e => (s, false, Some e)
      | None =>
          match add with
          | Some e => (s, true, Some e)
          | None => let '(s, err) := load w s in (s, true, err)
          end
      end
  end.

(** Each operation holds the lock, so a run is a sequence of them, in a world that
    changes at will. *)
Inductive step : ServiceMapping -> ServiceMapping -> Prop :=
  | step_set w s name ports : step s (snd (fst (SetServicePorts w s name ports)))
  | step_delete w s name : step s (snd (fst (DeleteServicePorts w s name)))
  | step_get s name : step s (snd (GetServiceNextPort s name))
  | step_watch w s ev : step s (fst (watch_round w s ev))
  | step_watch_file w watcher add s : step s (fst (fst (WatchFile w watcher add s))).

Definition new_mapping (s : ServiceMapping) : Prop :=
  exists w w', NewServiceMapping w = (w', Ok s).

(** *** Lemmas *)

(** The offset of every entry is an index of its ports. *)
Definition wf_info (i : portsInfo) : Prop :=
  0 <= info_offset i /\ (Ports i <> [] -> info_offset i < Z.of_nat (length (Ports i))).
Definition wf_services (s : Services) : Prop :=
  forall name i, s !! name = Some (Some i) -> wf_info i.

Lemma wf_fresh ports : wf_info (fresh_info ports).
Proof.
  split; [done|]. intros Hne. cbn. destruct ports as [|p ports]; [by destruct Hne|].
  cbn [length]. lia.
Qed.

Lemma wf_insert s name i : wf_services s -> wf_info i -> wf_services (<[name := Some i]> s).
Proof. intros Hs Hi n j. rewrite lookup_insert. case_decide; intros; simplify_eq; eauto. Qed.

Lemma Next_spec i : wf_info i -> Ports i <> [] ->
  exists port, Ports i !! Z.to_nat (info_offset i) = Some port /\
    Next i = (Ok port, {| Ports := Ports i;
      info_offset := (info_offset i + 1) mod Z.of_nat (length (Ports i)) |}).
Proof.
  intros [Hnn Hlt] Hne. specialize (Hlt Hne). unfold Next.
  destruct (lookup_lt_is_Some_2 (Ports i) (Z.to_nat (info_offset i))) as [port Hp]; [lia|].
  exists port. split; [done|]. rewrite (proj2 (Z.ltb_ge _ 0)), Hp by lia.
  destruct (Ports i) eqn:E; [done|]. by rewrite Z.rem_mod_nonneg by (cbn [length] in *; lia).
Qed.

Lemma load_wf w s : wf_services (services s) -> wf_services (services (fst (load w s))).
Proof.
  intros Hs. unfold load. destruct (host_error w); [exact Hs|];
    (destruct (mapping_file w); [|exact Hs]); (destruct (read_error w); [exact Hs|]).
  all: destruct (yaml_Unmarshal _) as [set err]; cbn; intros name i;
    rewrite lookup_union, lookup_fmap.
  all: destruct (set !! name) as [[ports|]|], (services s !! name) as [j|] eqn:E; cbn; intros H;
    simplify_eq/=; try apply wf_fresh; by eapply Hs.
Qed.

Lemma load_error w s : error_ (fst (load w s)) = error_ s.
Proof. unfold load. by repeat case_match. Qed.

Lemma GetServiceNextPort_error s name : error_ (snd (GetServiceNextPort s name)) = error_ s.
Proof. unfold GetServiceNextPort. by repeat case_match. Qed.

Lemma step_wf s s' : step s s' -> wf_services (services s) -> wf_services (services s').
Proof.
  intros Hstep Hs. destruct Hstep as [w s name ports|w s name|s name|w s ev|w watcher add s].
  - unfold SetServicePorts. case_match. cbn. apply wf_insert; auto using wf_fresh.
  - unfold DeleteServicePorts. repeat case_match; cbn; try done.
    intros n i. rewrite lookup_delete. case_decide; [done|]. apply Hs.
  - unfold GetServiceNextPort. repeat case_match; cbn; try done. apply wf_insert; [done|].
    assert (Hi : wf_info p) by eauto.
    destruct (Next_spec p) as (? & _ & E); [done|congruence|].
    match goal with H : Next p = (_, ?q) |- wf_info ?q => rewrite E in H; simplify_eq end.
    assert (0 < Z.of_nat (length (Ports p))) by (destruct (Ports p); cbn [length]; [done|lia]).
    pose proof (Z.mod_pos_bound (info_offset p + 1) (Z.of_nat (length (Ports p))) ltac:(done)).
    unfold wf_info. cbn [info_offset Ports]. lia.
  - pose proof (load_wf w s Hs). unfold watch_round.
    destruct ev; try done. by destruct (load w s) as [? []].
  - pose proof (load_wf w s Hs). unfold WatchFile. repeat case_match; cbn in *; simplify_eq; done.
Qed.

Lemma reachable_wf s s' : new_mapping s -> rtc step s s' -> wf_services (services s').
Proof.
  intros (w & w' & Hn) Hr. refine (rtc_preserves step (fun s => wf_services (services s)) _ s s' Hr _).
  { intros. by eapply step_wf. }
  assert (services s = ∅) as ->.
  { unfold NewServiceMapping in Hn. repeat case_match; simplify_eq; done. }
  intros name i. by rewrite lookup_empty.
Qed.

(** Calls for the services in [names], one after the other. *)
Fixpoint next_ports (s : ServiceMapping) (names : list string)
    : list (string * outcome Z) * ServiceMapping :=
  match names with
  | [] => ([], s)
  | name :: names =>
      let '(r, s) := GetServiceNextPort s name in
      let '(rs, s) := next_ports s names in
      ((name, r) :: rs, s)
  end.

(** The answers for one of them. *)
Definition answers_for (name : string) (rs : list (string * outcome Z)) : list (outcome Z) :=
  snd <$> filter (fun r => fst r = name) rs.

(** The [n] ports from offset [o] on, round the list. *)
Definition cycle (ports : list Z) (o : Z) (n : nat) : list Z :=
  (fun i => ports !!! Z.to_nat ((o + Z.of_nat i) mod Z.of_nat (length ports))) <$> seq 0 n.

Lemma cycle_S ports o n : ports <> [] -> 0 <= o < Z.of_nat (length ports) ->
  cycle ports o (S n) =
  ports !!! Z.to_nat o :: cycle ports ((o + 1) mod Z.of_nat (length ports)) n.
Proof.
  intros Hne Ho. unfold cycle. cbn [seq fmap list_fmap]. f_equal.
  { f_equal. f_equal. rewrite Z.mod_small; lia. }
  rewrite <- fmap_S_seq, <- list_fmap_compose. apply list_fmap_ext. intros _ i _. cbn.
  f_equal. f_equal.
  rewrite Z.add_mod_idemp_l by lia. f_equal. lia.
Qed.

(** Once round the list, from an offset to the end and from the start up to it. *)
Lemma cycle_round ports o : ports <> [] -> 0 <= o < Z.of_nat (length ports) ->
  cycle ports o (length ports) = drop (Z.to_nat o) ports ++ take (Z.to_nat o) ports.
Proof.
  intros Hne Ho. set (L := length ports). apply list_eq. intros i. unfold cycle.
  rewrite list_lookup_fmap. destruct (decide (i < L)%nat) as [Hi|Hi].
  - rewrite lookup_seq_lt by done. cbn [fmap option_fmap option_map Nat.add]. fold L.
    destruct (decide (Z.to_nat o + i < L)%nat) as [Hw|Hw].
    + rewrite lookup_app_l, lookup_drop by (rewrite length_drop; fold L; lia).
      rewrite Z.mod_small, Z2Nat.inj_add, Nat2Z.id by lia.
      symmetry. apply list_lookup_lookup_total_lt. done.
    + rewrite lookup_app_r, length_drop by (rewrite length_drop; fold L; lia). fold L.
      rewrite lookup_take_lt by lia.
      replace ((o + Z.of_nat i) mod Z.of_nat L) with (o + Z.of_nat i - Z.of_nat L)
        by (apply Z.mod_unique_pos with 1; lia).
      replace (i - (L - Z.to_nat o))%nat with (Z.to_nat (o + Z.of_nat i - Z.of_nat L)) by lia.
      symmetry. apply list_lookup_lookup_total_lt. fold L. lia.
  - rewrite lookup_seq_ge by lia. symmetry. apply lookup_ge_None_2.
    rewrite length_app, length_drop, length_take. fold L. lia.
Qed.

Lemma get_other s name other : other <> name ->
  services (snd (GetServiceNextPort s other)) !! name = services s !! name.
Proof.
  intros Hne. unfold GetServiceNextPort. repeat case_match; try done.
  cbn. by rewrite lookup_insert_ne.
Qed.

Lemma get_same s name i : error_ s = None -> services s !! name = Some (Some i) ->
  wf_info i -> Ports i <> [] ->
  exists i', GetServiceNextPort s name =
    (Ok (Ports i !!! Z.to_nat (info_offset i)),
     {| services := <[name := Some i']> (services s); error_ := None |}) /\
    Ports i' = Ports i /\
    info_offset i' = (info_offset i + 1) mod Z.of_nat (length (Ports i)).
Proof.
  intros He Hs Hi Hne. destruct (Next_spec i Hi Hne) as (port & Hp & E).
  exists {| Ports := Ports i; info_offset := (info_offset i + 1) mod Z.of_nat (length (Ports i)) |}.
  split; [|done]. unfold GetServiceNextPort. rewrite He, Hs, E.
  rewrite (list_lookup_total_correct _ _ _ Hp). by destruct (Ports i).
Qed.

Lemma answers_cons name n r rs :
  answers_for name ((n, r) :: rs) = if decide (n = name) then r :: answers_for name rs
                                    else answers_for name rs.
Proof. unfold answers_for. rewrite filter_cons. cbn. by case_decide. Qed.

(** The calls for one service go round its ports, whatever is called between. *)
Lemma next_ports_cycle names : forall s name i,
  error_ s = None -> services s !! name = Some (Some i) -> wf_info i -> Ports i <> [] ->
  answers_for name (fst (next_ports s names)) =
  Ok <$> cycle (Ports i) (info_offset i) (length (filter (eq name) names)).
Proof.
  induction names as [|n names IH]; intros s name i He Hs Hi Hne; [done|].
  cbn [next_ports]. destruct (GetServiceNextPort s n) as [r s1] eqn:Eg.
  destruct (next_ports s1 names) as [rs s2] eqn:En. cbn [fst].
  rewrite answers_cons, filter_cons. destruct (decide (n = name)) as [->|Hn].
  - rewrite decide_True by done. cbn [length].
    destruct (get_same s name i He Hs Hi Hne) as (i' & E & Hp & Ho).
    rewrite Eg in E. simplify_eq. destruct Hi as [H0 Hlt]. specialize (Hlt Hne).
    rewrite cycle_S by done. cbn [fmap list_fmap]. f_equal.
    rewrite <- Hp, <- Ho in *.
    specialize (IH {| services := <[name := Some i']> (services s); error_ := None |} name i').
    rewrite En in IH. rewrite <- IH; [done|done|cbn; by rewrite lookup_insert_eq| |done].
    unfold wf_info. rewrite Ho.
    pose proof (Z.mod_pos_bound (info_offset i + 1) (Z.of_nat (length (Ports i'))) ltac:(lia)).
    lia.
  - rewrite decide_False by congruence.
    pose proof (GetServiceNextPort_error s n) as He1. pose proof (get_other s name n Hn) as Hs1.
    rewrite Eg in He1, Hs1. cbn [snd] in He1, Hs1.
    rewrite <- (IH s1 name i) by congruence. by rewrite En.
Qed.

Lemma step_error s s' : step s s' -> is_Some (error_ s) -> is_Some (error_ s').
Proof.
  intros Hstep He. destruct Hstep as [w s name ports|w s name|s name|w s ev|w watcher add s].
  - unfold SetServicePorts. by case_match.
  - unfold DeleteServicePorts. by repeat case_match.
  - by rewrite GetServiceNextPort_error.
  - pose proof (load_error w s) as Hl. unfold watch_round.
    destruct ev; try done. destruct (load w s) as [? []]; cbn in *; [done|congruence].
  - pose proof (load_error w s) as Hl. unfold WatchFile.
    repeat case_match; cbn in *; simplify_eq; done || congruence.
Qed.
End mapping.

(** ** Properties *)

(** The allocators a program can hold: a new one, or one that allocated. *)
Inductive allocator_of (start end_ : Z) : PortAllocator -> Prop :=
  | allocator_new p : NewPortAllocator start end_ = Ok p -> allocator_of start end_ p
  | allocator_used avail t p :
      allocator_of start end_ p -> allocator_of start end_ (snd (Allocate avail t p)).

Lemma Allocate_spec avail t p : wf_allocator p ->
  (exists n, 0 <= n < size p /\
     (forall j, 0 <= j < n -> avail (t + Z.to_nat j)%nat (port_at p j) = false) /\
     avail (t + Z.to_nat n)%nat (port_at p n) = true /\
     Allocate avail t p = (Ok (port_at p n), advanced p (n + 1))) \/
  (forall j, 0 <= j < size p -> avail (t + Z.to_nat j)%nat (port_at p j) = false) /\
  Allocate avail t p = (Err "no available ports in range", p).
Proof.
  intros Hwf. pose proof Hwf as (_ & _ & Hs & Ho).
  pose proof (allocate_loop_spec avail p t Hwf (S (Z.to_nat (size p))) 0 ltac:(lia) ltac:(lia)) as H.
  cbv zeta in H. rewrite advanced_0, Nat.add_0_r in H by done. fold (Allocate avail t p) in H.
  destruct H as [H|[Hj Hr]]; [by left|right]. split; [done|]. rewrite Hr. f_equal.
  destruct p. unfold advanced. cbn in *. f_equal.
  replace (offset0 + size0) with (offset0 + 1 * size0) by lia.
  by rewrite Z.mod_add, Z.mod_small by lia.
Qed.

Lemma allocator_of_wf start end_ p : allocator_of start end_ p ->
  wf_allocator p /\ base p = start /\ base p + size p - 1 = end_.
Proof.
  induction 1 as [p Hnew|avail t p _ (Hwf & Hb & He)]; [by apply new_allocator_wf|].
  destruct (Allocate_spec avail t p Hwf) as [(n & _ & _ & _ & ->) | [_ ->]]; [|done].
  split; [|done]. unfold wf_allocator in *. unfold advanced. cbn [base size offset snd].
  pose proof (Z.mod_pos_bound (offset p + (n + 1)) (size p)). lia.
Qed.

(** C38. [Allocate] returns the first free port from where the last call stopped, going
    round the range and probing each port before it once; it fails only when every
    port of the range was probed, once, and found taken, and then stays where it was.
    Its ports are in the range of the allocator and never below 1024. *)
Theorem allocate_round_robin avail start end_ p t : allocator_of start end_ p ->
  let '(r, p') := Allocate avail t p in
  (exists n, 0 <= n < size p /\ r = Ok (port_at p n) /\
     start <= port_at p n <= end_ /\ 1024 <= port_at p n <= 65535 /\
     avail (t + Z.to_nat n)%nat (port_at p n) = true /\
     (forall j, 0 <= j < n -> avail (t + Z.to_nat j)%nat (port_at p j) = false) /\
     base p' + offset p' = (if port_at p n =? end_ then start else port_at p n + 1)) \/
  (r = Err "no available ports in range" /\ p' = p /\
   forall q, start <= q <= end_ ->
     exists j, 0 <= j < size p /\ port_at p j = q /\ avail (t + Z.to_nat j)%nat q = false).
Proof.
  intros Hp. destruct (allocator_of_wf _ _ _ Hp) as (Hwf & Hb & He).
  pose proof Hwf as (Hlo & Hhi & Hs & Ho).
  destruct (Allocate_spec avail t p Hwf) as [(n & Hn & Hj & Hav & ->) | [Hj ->]].
  - left. exists n. unfold port_at in *. cbn [base offset advanced].
    pose proof (Z.mod_pos_bound (offset p + n) (size p) Hs) as Hm.
    split_and!; try done; try lia.
    replace (offset p + (n + 1)) with (offset p + n + 1) by lia.
    rewrite <- Z.add_mod_idemp_l by lia. set (m := (offset p + n) mod size p) in *.
    destruct (_ =? _) eqn:E; boolify.
    + replace (m + 1) with (0 + 1 * size p) by lia. rewrite Z.mod_add, Z.mod_0_l by lia. lia.
    + rewrite Z.mod_small by lia. lia.
  - right. split_and!; [done..|]. intros q Hq.
    destruct (ports_covered p q Hwf) as (k & Hk & Hkq & _); [lia|].
    exists k. split_and!; [lia|lia|done|]. rewrite <- Hkq. by apply Hj.
Qed.

(** The ports of a service are given out round robin: whatever other services are
    asked for in between, the calls for a service answer its ports in turn from its
    offset on, and as many calls as it has ports answer each of them once. *)
Theorem ports_round_robin marshal unmarshal s0 s names name info :
  new_mapping marshal s0 -> rtc (step marshal unmarshal) s0 s ->
  error_ s = None -> services s !! name = Some (Some info) -> Ports info <> [] ->
  let answers := answers_for name (fst (next_ports s names)) in
  let calls := length (filter (eq name) names) in
  let o := Z.to_nat (info_offset info) in
  answers = Ok <$> cycle (Ports info) (info_offset info) calls /\
  (calls = length (Ports info) -> answers = Ok <$> (drop o (Ports info) ++ take o (Ports info))).
Proof.
  intros Hnew Hr He Hs Hne. cbv zeta.
  assert (Hi : wf_info info) by (eapply reachable_wf; eauto).
  rewrite (next_ports_cycle names s name info) by done. split; [done|].
  intros ->. rewrite cycle_round; [done|done|]. destruct Hi as [? Hlt]. split; [done|by apply Hlt].
Qed.

(** Once the file could not be reloaded, or the watcher reported an error, no call
    for a port ever succeeds again: neither a reload that works nor setting the ports
    of the service clears the error. *)
Theorem watch_error_sticky marshal unmarshal w s ev e s' :
  match ev with
  | FileWritten => snd (load unmarshal w s) = Some e
  | WatcherError e' => e' = e
  | _ => False
  end ->
  let s1 := fst (watch_round unmarshal w s ev) in
  error_ s1 = Some e /\
  (rtc (step marshal unmarshal) s1 s' ->
   exists e', forall name, GetServiceNextPort s' name = (Err e', s')).
Proof.
  intros Hev s1. assert (He : error_ s1 = Some e).
  { subst s1. unfold watch_round. destruct ev; try done; [|by cbn; f_equal].
    destruct (load unmarshal w s) as [? []]; cbn in *; [done|discriminate]. }
  split; [done|]. intros Hr.
  assert (His : is_Some (error_ s')).
  { refine (rtc_preserves _ (fun s => is_Some (error_ s)) _ s1 s' Hr _); [|by rewrite He].
    intros. by eapply step_error. }
  destruct His as [e' He']. exists e'. intros name. unfold GetServiceNextPort. by rewrite He'.
Qed.

(** ** Witnesses *)

Lemma allocate_round_robin_witness :
  let avail (t : nat) port := negb (port =? 2001) in
  let p := {| base := 2000; size := 3; offset := 0 |} in
  let p1 := snd (Allocate avail 0 p) in
  Allocate avail 1 p1 = (Ok 2002, p) /\
  let '(r, p') := Allocate avail 1 p1 in
  (exists n, 0 <= n < size p1 /\ r = Ok (port_at p1 n) /\
     2000 <= port_at p1 n <= 2002 /\ 1024 <= port_at p1 n <= 65535 /\
     avail (1 + Z.to_nat n)%nat (port_at p1 n) = true /\
     (forall j, 0 <= j < n -> avail (1 + Z.to_nat j)%nat (port_at p1 j) = false) /\
     base p' + offset p' = (if port_at p1 n =? 2002 then 2000 else port_at p1 n + 1)) \/
  (r = Err "no available ports in range" /\ p' = p1 /\
   forall q, 2000 <= q <= 2002 ->
     exists j, 0 <= j < size p1 /\ port_at p1 j = q /\ avail (1 + Z.to_nat j)%nat q = false).
Proof.
  intros avail p p1. split; [by vm_compute|].
  apply (allocate_round_robin avail 2000 2002 p1 1). apply allocator_used, allocator_new. done.
Defined.

(** A file system where everything works. *)
Definition good_world (file : option string) : World :=
  {| host_error := None; mapping_file := file; read_error := None;
     dir_exists := true; mkdir_error := None; write_error := None |}.

(** A decoder that knows two documents, and an encoder that writes one. *)
Definition two_documents (d : string) : gmap string (option (list Z)) * option error :=
  if bool_decide (d = "A") then (<["a" := Some [7; 8]]> ∅, None)
  else if bool_decide (d = "nil") then (<["a" := None]> ∅, None)
  else (∅, Some "yaml: not a mapping").
Definition write_A (_ : gmap string (option (list Z))) : outcome string := Ok "A".

Definition set_a (s : ServiceMapping) (ports : list Z) : ServiceMapping :=
  snd (fst (SetServicePorts write_A (good_world (Some "A")) s "a" ports)).
Definition empty_mapping : ServiceMapping := {| services := ∅; error_ := None |}.
Definition two_services : ServiceMapping :=
  snd (GetServiceNextPort
    (snd (fst (SetServicePorts write_A (good_world (Some "A")) (set_a empty_mapping [1; 2; 3])
       "b" [9]))) "a").

Lemma ports_round_robin_witness :
  fst (next_ports two_services ["a"; "b"; "a"; "b"; "a"]) =
    [("a", Ok 2); ("b", Ok 9); ("a", Ok 3); ("b", Ok 9); ("a", Ok 1)] /\
  answers_for "a" (fst (next_ports two_services ["a"; "b"; "a"; "b"; "a"])) =
    Ok <$> cycle [1; 2; 3] 1 3.
Proof.
  split; [by vm_compute|].
  apply (ports_round_robin write_A two_documents empty_mapping two_services
           ["a"; "b"; "a"; "b"; "a"] "a" {| Ports := [1; 2; 3]; info_offset := 1 |});
    [|unfold two_services|by vm_compute..].
  - exists (good_world (Some "A")), (good_world (Some "A")). reflexivity.
  - eapply rtc_l; [apply step_set with (w := good_world (Some "A")) (name := "a")|].
    eapply rtc_l; [apply step_set with (w := good_world (Some "A")) (name := "b")|].
    apply rtc_once, step_get.
Defined.

(** The document comes back, and still no port is given out. *)
Lemma watch_error_sticky_witness :
  let bad := good_world (Some "?") in
  let s1 := fst (watch_round two_documents bad (set_a empty_mapping [1]) FileWritten) in
  let s2 := fst (watch_round two_documents (good_world (Some "A")) s1 FileWritten) in
  services s2 !! "a" = Some (Some (fresh_info [7; 8])) /\
  GetServiceNextPort s2 "a" = (Err "yaml: not a mapping", s2) /\
  exists e', forall name, GetServiceNextPort s2 name = (Err e', s2).
Proof.
  intros bad s1 s2. split; [vm_compute; reflexivity|]. split; [vm_compute; reflexivity|].
  apply (watch_error_sticky write_A two_documents bad (set_a empty_mapping [1]) FileWritten
           "yaml: not a mapping" s2); [reflexivity|]. apply rtc_once, step_watch.
Defined.

(** An entry without ports in the file (null in yaml) is a nil pointer. *)
Example null_entry_panics :
  let s := fst (watch_round two_documents (good_world (Some "nil")) empty_mapping FileWritten) in
  fst (GetServiceNextPort s "a") = Panic "nil pointer dereference".
Proof. vm_compute. reflexivity. Qed.

(** A service the file no longer names is still served after a reload. *)
Example reload_keeps_removed :
  let s := fst (watch_round two_documents (good_world (Some "A"))
    (snd (fst (SetServicePorts write_A (good_world None) empty_mapping "b" [9]))) FileWritten) in
  fst (GetServiceNextPort s "b") = Ok 9.
Proof. vm_compute. reflexivity. Qed.
