(* ===== verification/PubSub.v ===== *)
(** * The in-memory publish and subscribe

    pubsub/pubsub.go: topics with the channels of their subscribers. The map of the
    channels of a topic is shared: [Publish] takes a reference to it under the read
    lock and ranges over it without the lock, while [Subscribe], [Unsubscribe] and
    [Close] change it. The model keeps these maps in a heap, gives every running
    [Publish] the reference and the channels its range has visited, and makes each
    visit a step that interleaves with everything else. A log records what happened. *)

From Stdlib Require Import ZArith Lia String.
From stdpp Require Import base option list strings gmap fin_maps sets relations.
From S2P Require Import Prelude.

Local Open Scope string_scope.
Local Open Scope list_scope.

Section pubsub.
Context {V : Type}.
(** The size of the channels, [NewPubsub(size)]. *)
Context (size : nat).

Abbreviation chan := nat.
Abbreviation map_ref := nat.
Abbreviation publish_id := nat.

Inductive event : Type :=
  | Subscribed (topic : string) (ch : chan)
  | Published (p : publish_id) (topic : string) (msg : V)     (* [Publish] begins *)
  | Delivered (p : publish_id) (ch : chan) (msg : V)
  | TimedOut (p : publish_id) (ch : chan)
  | Received (ch : chan) (msg : V)
  | Returned (p : publish_id) (failed : bool).                (* [Publish] returns *)

(** A running [Publish]: its topic and message, the map it ranges over and what that
    held when the range began, the channels the range has given, the one it waits for,
    and how many waits timed out. *)
Record Flight := {
  topic_of : string;
  msg_of : V;
  ranges_over : map_ref;
  at_start : gset chan;
  visited : gset chan;
  current : option chan;
  errs : nat
}.

(** A map of channels in the heap carries the topic it was made for; the program
    does not read it. *)
Record State := {
  channels : gmap string map_ref;
  maps : gmap map_ref (string * gset chan);
  queues : gmap chan (list V);
  flights : gmap publish_id Flight;
  fresh_id : nat;
  log : list event
}.

Definition NewPubsub : State :=
  {| channels := ∅; maps := ∅; queues := ∅; flights := ∅; fresh_id := 0; log := [] |}.

(** ** Operations under the lock *)

Definition Subscribe (topic : string) (s : State) : State * chan :=
  let ch := fresh_id s in
  let r := S (fresh_id s) in
  let '(channels', r', chs) :=
    match channels s !! topic with
    | Some r' => (channels s, r', from_option snd ∅ (maps s !! r'))
    | None => (<[topic := r]> (channels s), r, ∅)
    end in
  ({| channels := channels';
      maps := <[r' := (topic, {[ch]} ∪ chs)]> (maps s);
      queues := <[ch := []]> (queues s);
      flights := flights s;
      fresh_id := S (S (fresh_id s));
      log := log s ++ [Subscribed topic ch] |}, ch).

Definition Unsubscribe (topic : string) (ch : chan) (s : State) : State :=
  match channels s !! topic with
  | None => s
  | Some r =>
      {| channels := channels s;
         maps := alter (fun '(t, chs) => (t, chs ∖ {[ch]})) r (maps s);
         queues := queues s; flights := flights s; fresh_id := fresh_id s; log := log s |}
  end.

(** Every map that a topic names is emptied. *)
Definition Close (s : State) : State :=
  {| channels := ∅;
     maps := map_imap (fun r '(t, chs) =>
               Some (t, if decide (channels s !! t = Some r) then ∅ else chs)) (maps s);
     queues := queues s; flights := flights s; fresh_id := fresh_id s; log := log s |}.

(** [getChannel] *)
Definition getChannel (topic : string) (s : State) : option map_ref := channels s !! topic.

(** ** Publish *)

(** The channels a range over the map can still give. *)
Definition members (r : map_ref) (s : State) : gset chan := from_option snd ∅ (maps s !! r).

Definition begin_publish (topic : string) (msg : V) (s : State) : State :=
  let p := fresh_id s in
  let log := log s ++ [Published p topic msg] in
  match getChannel topic s with
  | None =>
      {| channels := channels s; maps := maps s; queues := queues s; flights := flights s;
         fresh_id := S p; log := log ++ [Returned p false] |}
  | Some r =>
      {| channels := channels s; maps := maps s; queues := queues s;
         flights := <[p := {| topic_of := topic; msg_of := msg; ranges_over := r;
                              at_start := members r s; visited := ∅; current := None;
                              errs := 0 |}]> (flights s);
         fresh_id := S p; log := log |}
  end.

(** The range gives the channel [ch]; [publish] waits to send to it. *)
Definition visit (f : Flight) (ch : chan) : Flight :=
  {| topic_of := topic_of f; msg_of := msg_of f; ranges_over := ranges_over f; at_start := at_start f;
     visited := {[ch]} ∪ visited f; current := Some ch; errs := errs f |}.

(** [publish] ends, having sent or not. *)
Definition visit_done (f : Flight) (sent : bool) : Flight :=
  {| topic_of := topic_of f; msg_of := msg_of f; ranges_over := ranges_over f; at_start := at_start f;
     visited := visited f; current := None; errs := if sent then errs f else S (errs f) |}.

Definition set_flight (p : publish_id) (f : Flight) (s : State) : State :=
  {| channels := channels s; maps := maps s; queues := queues s;
     flights := <[p := f]> (flights s); fresh_id := fresh_id s; log := log s |}.

Definition set_queue (ch : chan) (q : list V) (s : State) : State :=
  {| channels := channels s; maps := maps s; queues := <[ch := q]> (queues s);
     flights := flights s; fresh_id := fresh_id s; log := log s |}.

Definition record (evs : list event) (s : State) : State :=
  {| channels := channels s; maps := maps s; queues := queues s; flights := flights s;
     fresh_id := fresh_id s; log := log s ++ evs |}.

Definition end_publish (p : publish_id) (f : Flight) (s : State) : State :=
  {| channels := channels s; maps := maps s; queues := queues s;
     flights := delete p (flights s); fresh_id := fresh_id s;
     log := log s ++ [Returned p (negb (Nat.eqb (errs f) 0))] |}.

Inductive step : State -> State -> Prop :=
  | step_subscribe topic s : step s (fst (Subscribe topic s))
  | step_unsubscribe topic ch s : step s (Unsubscribe topic ch s)
  | step_close s : step s (Close s)
  | step_begin topic msg s : step s (begin_publish topic msg s)
  | step_visit p f ch s :
      flights s !! p = Some f -> current f = None ->
      ch ∈ members (ranges_over f) s -> ch ∉ visited f ->
      step s (set_flight p (visit f ch) s)
  (* the channel has room *)
  | step_send p f ch q s :
      flights s !! p = Some f -> current f = Some ch ->
      queues s !! ch = Some q -> length q < size ->
      step s (record [Delivered p ch (msg_of f)]
               (set_queue ch (q ++ [msg_of f]) (set_flight p (visit_done f true) s)))
  (* or a receiver waits on it *)
  | step_handoff p f ch s :
      flights s !! p = Some f -> current f = Some ch -> queues s !! ch = Some [] ->
      step s (record [Delivered p ch (msg_of f); Received ch (msg_of f)]
               (set_flight p (visit_done f true) s))
  | step_timeout p f ch s :
      flights s !! p = Some f -> current f = Some ch ->
      step s (record [TimedOut p ch] (set_flight p (visit_done f false) s))
  (* a range must give what was there all along; it may skip what was added *)
  | step_end p f s :
      flights s !! p = Some f -> current f = None ->
      members (ranges_over f) s ∩ at_start f ⊆ visited f ->
      step s (end_publish p f s)
  | step_receive ch m q s :
      queues s !! ch = Some (m :: q) ->
      step s (record [Received ch m] (set_queue ch q s)).

(** ** What the log says *)

Definition delivered (ch : chan) (l : list event) : list V :=
  omap (fun e => match e with Delivered _ c m => if decide (c = ch) then Some m else None
                            | _ => None end) l.
Definition received (ch : chan) (l : list event) : list V :=
  omap (fun e => match e with Received c m => if decide (c = ch) then Some m else None
                            | _ => None end) l.
(** The visits that ended, by [Publish] and channel, and whether they sent. *)
Definition visits (l : list event) : list (publish_id * chan) :=
  omap (fun e => match e with Delivered p c _ | TimedOut p c => Some (p, c) | _ => None end) l.

(** A publish id an event mentions. *)
Definition mentions (e : event) : option nat :=
  match e with
  | Published p _ _ | Delivered p _ _ | TimedOut p _ | Returned p _ => Some p
  | _ => None
  end.
Definition timeouts (p : publish_id) (l : list event) : list chan :=
  omap (fun e => match e with TimedOut q c => if decide (q = p) then Some c else None
                            | _ => None end) l.

(** ** Lemmas *)

Lemma delivered_app ch l k : delivered ch (l ++ k) = delivered ch l ++ delivered ch k.
Proof. apply omap_app. Qed.
Lemma received_app ch l k : received ch (l ++ k) = received ch l ++ received ch k.
Proof. apply omap_app. Qed.
Lemma visits_app l k : visits (l ++ k) = visits l ++ visits k.
Proof. apply omap_app. Qed.
Lemma timeouts_app p l k : timeouts p (l ++ k) = timeouts p l ++ timeouts p k.
Proof. apply omap_app. Qed.

Lemma visits_log l p ch :
  (p, ch) ∈ visits l <-> (exists m, Delivered p ch m ∈ l) \/ TimedOut p ch ∈ l.
Proof.
  unfold visits. rewrite list_elem_of_omap. split.
  - intros (e & He & Heq). destruct e; simplify_eq; eauto.
  - intros [[m H]|H]; eexists; (split; [exact H|done]).
Qed.

Lemma timeouts_log p l ch : ch ∈ timeouts p l <-> TimedOut p ch ∈ l.
Proof.
  unfold timeouts. rewrite list_elem_of_omap. split.
  - intros (e & He & Heq). destruct e; simplify_eq. case_decide; simplify_eq. done.
  - intros H. exists (TimedOut p ch). split; [done|]. by rewrite decide_True.
Qed.

(** What the queues and the log say of each other. *)
Record queues_ok (s : State) : Prop := {
  q_queue : forall ch q, queues s !! ch = Some q ->
    delivered ch (log s) = received ch (log s) ++ q /\ length q <= size;
  q_none : forall ch, queues s !! ch = None ->
    delivered ch (log s) = [] /\ received ch (log s) = [];
  q_fresh : forall ch, is_Some (queues s !! ch) -> ch < fresh_id s
}.

(** Who subscribed to what. *)
Record routes_ok (s : State) : Prop := {
  r_members : forall r t chs ch, maps s !! r = Some (t, chs) -> ch ∈ chs ->
    Subscribed t ch ∈ log s;
  r_channels : forall t r, channels s !! t = Some r -> exists chs, maps s !! r = Some (t, chs);
  r_fresh : forall r, is_Some (maps s !! r) -> r < fresh_id s
}.

(** The running calls of [Publish]. *)
Record flight_ok (s : State) (p : publish_id) (f : Flight) : Prop := {
  f_published : Published p (topic_of f) (msg_of f) ∈ log s;
  f_map : exists chs, maps s !! ranges_over f = Some (topic_of f, chs);
  f_visited : forall ch, ch ∈ visited f -> Subscribed (topic_of f) ch ∈ log s;
  f_current : forall ch, current f = Some ch -> ch ∈ visited f;
  f_visits : forall ch, (p, ch) ∈ visits (log s) <-> ch ∈ visited f /\ current f <> Some ch;
  f_errs : errs f = length (timeouts p (log s));
  f_msg : forall ch m, Delivered p ch m ∈ log s -> m = msg_of f
}.
Record flights_ok (s : State) : Prop := {
  p_flight : forall p f, flights s !! p = Some f -> flight_ok s p f;
  p_fresh : forall e p, e ∈ log s -> mentions e = Some p -> p < fresh_id s;
  p_delivered : forall p ch m, Delivered p ch m ∈ log s ->
    exists t, Published p t m ∈ log s /\ Subscribed t ch ∈ log s;
  p_once : NoDup (visits (log s))
}.

Definition inv (s : State) : Prop := queues_ok s /\ routes_ok s /\ flights_ok s.

Lemma pubsub_inv_new : inv NewPubsub.
Proof.
  split_and!; constructor; cbn; intros; try done; try set_solver; try (by constructor).
  all: try (by match goal with H : is_Some (∅ !! _) |- _ => destruct H end).
Qed.

(** *** Queues *)

(** Steps that touch no queue. *)
Lemma queues_same s t :
  queues t = queues s -> fresh_id s <= fresh_id t ->
  (forall ch, delivered ch (log t) = delivered ch (log s)) ->
  (forall ch, received ch (log t) = received ch (log s)) ->
  queues_ok s -> queues_ok t.
Proof.
  intros Hq Hf Hd Hr [Hqueue Hnone Hfresh]. constructor; intros ch; rewrite Hq, ?Hd, ?Hr.
  - apply Hqueue.
  - apply Hnone.
  - intros H%Hfresh. lia.
Qed.

(** A step at one channel. *)
Lemma queues_at s t ch q q' ds rs :
  queues s !! ch = Some q -> queues t = <[ch := q']> (queues s) -> fresh_id t = fresh_id s ->
  (forall c, delivered c (log t) = delivered c (log s) ++ (if decide (c = ch) then ds else [])) ->
  (forall c, received c (log t) = received c (log s) ++ (if decide (c = ch) then rs else [])) ->
  q ++ ds = rs ++ q' -> length q' <= size ->
  queues_ok s -> queues_ok t.
Proof.
  intros Hq Hq' Hf Hd Hr Heq Hl [Hqueue Hnone Hfresh].
  constructor; intros c; rewrite Hq', ?Hd, ?Hr, ?Hf, lookup_insert; case_decide; subst.
  - rewrite !decide_True by done. intros ? [= <-]. destruct (Hqueue _ _ Hq) as [-> _].
    split; [by rewrite <- !app_assoc, Heq|done].
  - rewrite !decide_False, !app_nil_r by congruence. apply Hqueue.
  - done.
  - rewrite !decide_False, !app_nil_r by congruence. apply Hnone.
  - intros _. apply Hfresh. by exists q.
  - apply Hfresh.
Qed.

Lemma one_delivered p ch m c : delivered c [Delivered p ch m] = if decide (c = ch) then [m] else [].
Proof. cbn. repeat case_decide; congruence. Qed.
Lemma one_received ch m c : received c [Received ch m] = if decide (c = ch) then [m] else [].
Proof. cbn. repeat case_decide; congruence. Qed.

Ltac untouched :=
  eapply queues_same; [..|eassumption];
  cbn [queues fresh_id log record set_flight end_publish Close]; try done; try lia;
  intros; rewrite ?delivered_app, ?received_app; cbn; by rewrite ?app_nil_r.

Lemma queues_step s t : step s t -> queues_ok s -> queues_ok t.
Proof.
  intros Hstep Hok.
  destruct Hstep as [topic s|topic ch s|s|topic msg s|p f ch s Hf Hc Hm Hv|p f ch q s Hf Hc Hq Hl
    |p f ch s Hf Hc Hq|p f ch s Hf Hc|p f s Hf Hc Hm|ch m q s Hq].
  - pose proof (q_none s Hok) as Hnone. pose proof (q_fresh s Hok) as Hfresh.
    assert (Hno : queues s !! fresh_id s = None).
    { apply eq_None_not_Some. intros H%Hfresh. lia. }
    unfold Subscribe. destruct (channels s !! topic); cbn [fst].
    all: constructor; cbn [queues log fresh_id]; intros c; rewrite ?delivered_app, ?received_app;
      cbn [delivered received omap list_omap]; rewrite ?app_nil_r, lookup_insert; case_decide.
    all: try done; subst; try (by apply Hok); try (intros ?%Hfresh; lia); try (intros; lia).
    all: intros ? [= <-]; destruct (Hnone _ Hno) as [-> ->]; cbn; split; done || lia.
  - unfold Unsubscribe. case_match; [|done]. untouched.
  - untouched.
  - unfold begin_publish. case_match; untouched.
  - untouched.
  - eapply (queues_at s _ ch q _ [msg_of f] []); [done|done|done| | | | |exact Hok].
    + intros c. cbn [record log set_queue set_flight]. by rewrite delivered_app, one_delivered.
    + intros c. cbn [record log set_queue set_flight]. rewrite received_app. cbn. by case_decide.
    + done.
    + rewrite length_app. cbn. lia.
  - eapply (queues_at s _ ch [] [] [msg_of f] [msg_of f]); [done| |done| | | | |exact Hok].
    + cbn. by rewrite insert_id.
    + intros c. cbn [record log set_flight]. rewrite delivered_app.
      f_equal. apply (one_delivered p).
    + intros c. cbn [record log set_flight]. rewrite received_app.
      f_equal. apply one_received.
    + done.
    + cbn. lia.
  - untouched.
  - untouched.
  - destruct (q_queue s Hok _ _ Hq) as [_ Hl]. cbn in Hl.
    eapply (queues_at s _ ch (m :: q) q [] [m]); [done|done|done| | | | |exact Hok].
    + intros c. cbn [record log set_queue]. rewrite delivered_app. cbn. by case_decide.
    + intros c. cbn [record log set_queue]. rewrite received_app. f_equal. apply one_received.
    + by rewrite app_nil_r.
    + lia.
Qed.

(** *** Subscriptions *)

Lemma log_grows s t e : step s t -> e ∈ log s -> e ∈ log t.
Proof.
  intros Hstep He. destruct Hstep as [topic s|topic ch s|s|topic msg s| | | | | |];
    cbn [log record set_queue set_flight end_publish Close]; try set_solver.
  - unfold Subscribe. destruct (channels s !! topic); cbn; set_solver.
  - unfold Unsubscribe. by case_match.
  - unfold begin_publish. case_match; cbn; set_solver.
Qed.

(** Steps that change no map of channels. *)
Lemma routes_same s t :
  maps t = maps s -> channels t = channels s -> fresh_id s <= fresh_id t ->
  (forall e, e ∈ log s -> e ∈ log t) -> routes_ok s -> routes_ok t.
Proof.
  intros Hm Hc Hf Hl [Hmem Hch Hfr]. constructor; rewrite ?Hm, ?Hc; eauto.
  intros r Hr%Hfr. lia.
Qed.

Lemma routes_subscribe topic s : routes_ok s -> routes_ok (fst (Subscribe topic s)).
Proof.
  intros [Hmem Hch Hfr]. unfold Subscribe.
  destruct (channels s !! topic) as [r'|] eqn:E; cbn [fst].
  - destruct (Hch _ _ E) as [chs Hr']. rewrite Hr'. cbn [from_option snd].
    constructor; cbn [maps channels log fresh_id].
    + intros r t cs ch. rewrite lookup_insert. case_decide; intros Hr Hin.
      * simplify_eq. apply elem_of_union in Hin as [->%elem_of_singleton|Hin]; [set_solver|].
        apply elem_of_app. left. eauto.
      * apply elem_of_app. left. eauto.
    + intros t r Ht. destruct (Hch _ _ Ht) as [cs Hr]. rewrite lookup_insert.
      case_decide; simplify_eq; eauto.
    + intros r. rewrite lookup_insert. case_decide; [|intros ?%Hfr; lia].
      subst. intros _. assert (r < fresh_id s) by (apply Hfr; eauto). lia.
  - constructor; cbn [maps channels log fresh_id].
    + intros r t cs ch. rewrite lookup_insert. case_decide; intros Hr Hin.
      * simplify_eq. set_solver.
      * apply elem_of_app. left. eauto.
    + intros t r. rewrite lookup_insert. case_decide; intros Ht; simplify_eq.
      * rewrite lookup_insert_eq. eauto.
      * destruct (Hch _ _ Ht) as [cs Hr]. rewrite lookup_insert_ne; [eauto|].
        intros <-. assert (S (fresh_id s) < fresh_id s) by (apply Hfr; eauto). lia.
    + intros r. rewrite lookup_insert. case_decide; [subst; intros _; lia|intros ?%Hfr; lia].
Qed.

Lemma routes_step s t : step s t -> routes_ok s -> routes_ok t.
Proof.
  intros Hstep Hok. pose proof (fun e => log_grows s t e Hstep) as Hlog.
  destruct Hstep as [topic s|topic ch s|s|topic msg s| | | | | |];
    try (eapply routes_same; [..|exact Hok]; try done; cbn; lia).
  - by apply routes_subscribe.
  - destruct Hok as [Hmem Hch Hfr]. unfold Unsubscribe in *. case_match; [|done].
    constructor; cbn [maps channels log fresh_id]; intros *.
    + rewrite lookup_alter. case_decide; [|apply Hmem].
      destruct (maps s !! _) as [[t' cs]|] eqn:E; cbn; [|done]. intros [= <- <-] Hin.
      eapply Hmem; [exact E|set_solver].
    + intros Ht. destruct (Hch _ _ Ht) as [cs Hr]. rewrite lookup_alter.
      case_decide; simplify_eq; rewrite Hr; cbn; eauto.
    + rewrite lookup_alter. case_decide; [|apply Hfr].
      intros [x Hx]. apply Hfr. destruct (maps s !! _) eqn:E; [|done]. subst. by rewrite E.
  - destruct Hok as [Hmem Hch Hfr]. constructor; cbn [Close maps channels log fresh_id]; intros *.
    + rewrite map_lookup_imap. destruct (maps s !! r) as [[t' cs]|] eqn:E; cbn; [|done].
      intros [= <- <-] Hin. case_decide; [set_solver|eauto].
    + by rewrite lookup_empty.
    + rewrite map_lookup_imap. intros [x Hx]. apply Hfr. by destruct (maps s !! r).
  - eapply routes_same; [..|exact Hok]; try done.
    all: unfold begin_publish; case_match; cbn; done || lia.
Qed.

(** *** Running publishes *)

(** A map of channels keeps the topic it was made for. *)
Lemma maps_topic s t r tp chs : step s t -> routes_ok s ->
  maps s !! r = Some (tp, chs) -> exists chs', maps t !! r = Some (tp, chs').
Proof.
  intros Hstep [Hmem Hch Hfr] Hr.
  destruct Hstep as [topic s|topic ch s|s|topic msg s| | | | | |]; try (by eexists).
  - unfold Subscribe. destruct (channels s !! topic) as [r'|] eqn:E; cbn [fst maps];
      rewrite lookup_insert; case_decide; eauto.
    + subst. destruct (Hch _ _ E) as [cs E']. simplify_eq. eauto.
    + subst. assert (S (fresh_id s) < fresh_id s) by (apply Hfr; eauto). lia.
  - unfold Unsubscribe. case_match; [|eauto]. cbn [maps]. rewrite lookup_alter.
    case_decide; [|eauto]. subst. rewrite Hr. cbn. eauto.
  - cbn [Close maps]. rewrite map_lookup_imap, Hr. cbn. eauto.
  - unfold begin_publish. case_match; eauto.
Qed.

Lemma flight_ok_same s t p f :
  (forall e, e ∈ log s -> e ∈ log t) ->
  (forall ch, (p, ch) ∈ visits (log t) <-> (p, ch) ∈ visits (log s)) ->
  timeouts p (log t) = timeouts p (log s) ->
  (exists chs, maps t !! ranges_over f = Some (topic_of f, chs)) ->
  (forall ch m, Delivered p ch m ∈ log t -> Delivered p ch m ∈ log s) ->
  flight_ok s p f -> flight_ok t p f.
Proof.
  intros Hl Hv Ht Hm Hd [Hp _ Hvis Hcur Hvi He]. constructor; eauto.
  - intros ch. by rewrite Hv.
  - by rewrite Ht.
Qed.

(** Events that end no visit. *)
Definition no_visit (evs : list event) : Prop := visits evs = [] /\ forall p, timeouts p evs = [].

(** Steps that end no visit and start no publish. *)
Lemma flights_same s t evs :
  log t = log s ++ evs -> no_visit evs ->
  (forall p f, flights t !! p = Some f -> flights s !! p = Some f) ->
  (forall e p, e ∈ evs -> mentions e = Some p -> p < fresh_id t) ->
  fresh_id s <= fresh_id t ->
  (forall p f, flights s !! p = Some f ->
     exists chs, maps t !! ranges_over f = Some (topic_of f, chs)) ->
  flights_ok s -> flights_ok t.
Proof.
  intros Hl [Hv Ht] Hf Hev Hfr Hm [Hflight Hfresh Hdel Honce].
  assert (Hvis : visits (log t) = visits (log s)) by by rewrite Hl, visits_app, Hv, app_nil_r.
  constructor.
  - intros p f Hp%Hf. eapply (flight_ok_same s); eauto.
    + intros e He. rewrite Hl. set_solver.
    + intros ch. by rewrite Hvis.
    + by rewrite Hl, timeouts_app, Ht, app_nil_r.
    + intros ch m Hd. rewrite Hl in Hd. apply elem_of_app in Hd as [Hd|Hd]; [done|].
      assert (Hin : (p, ch) ∈ visits evs) by (apply visits_log; eauto).
      rewrite Hv in Hin. set_solver.
  - intros e p He Hp. rewrite Hl in He. apply elem_of_app in He as [He|He]; [|eauto].
    pose proof (Hfresh e p He Hp). lia.
  - intros p ch m Hd. rewrite Hl in Hd |- *. apply elem_of_app in Hd as [Hd|Hd].
    + destruct (Hdel _ _ _ Hd) as (tp & ? & ?). exists tp. set_solver.
    + exfalso. assert (Hin : (p, ch) ∈ visits evs) by (apply visits_log; eauto).
      rewrite Hv in Hin. set_solver.
  - by rewrite Hvis.
Qed.

Lemma no_visit_one e :
  match e with Delivered _ _ _ | TimedOut _ _ => False | _ => True end -> no_visit [e].
Proof. by destruct e. Qed.

Lemma flight_visit s p f ch : flights_ok s -> flights s !! p = Some f -> current f = None ->
  ch ∉ visited f -> Subscribed (topic_of f) ch ∈ log s -> flights_ok (set_flight p (visit f ch) s).
Proof.
  intros [Hflight Hfresh Hdel Honce] Hp Hc Hv Hs. constructor; cbn [set_flight flights log]; eauto.
  intros p' f'. rewrite lookup_insert. case_decide; [|by intros Hp'%Hflight; destruct Hp'].
  intros [= <-]. subst p'. destruct (Hflight _ _ Hp) as [H1 H2 H3 H4 H5 H6 H7].
  constructor; cbn [visit topic_of msg_of ranges_over visited current errs set_flight log maps].
  - done.
  - done.
  - intros c [->%elem_of_singleton|Hc']%elem_of_union; eauto.
  - intros c [= ->]. set_solver.
  - intros c. rewrite H5, Hc. split; [|].
    + intros [Hin _]. split; [set_solver|]. intros [= ->]. done.
    + intros [[->%elem_of_singleton|Hin]%elem_of_union Hne]; [done|]. by split.
  - done.
  - done.
Qed.

(** What the end of a visit adds to the log. *)
Lemma visit_done_log s t p f ch (sent : bool) evs :
  log t = log s ++ (if sent then Delivered p ch (msg_of f) else TimedOut p ch) :: evs ->
  visits evs = [] -> (forall q, timeouts q evs = []) -> (forall e, e ∈ evs -> mentions e = None) ->
  (forall q c m, Delivered q c m ∈ log t -> Delivered q c m ∈ log s \/ (q = p /\ m = msg_of f)) /\
  visits (log t) = visits (log s) ++ [(p, ch)] /\
  (forall q, timeouts q (log t) =
     timeouts q (log s) ++ (if decide (q = p) then if sent then [] else [ch] else [])).
Proof.
  intros Hl Hev1 Hev2 Hmen. split; [|split].
  - intros q c m Hd. rewrite Hl in Hd. apply elem_of_app in Hd as [Hd|[Hd|Hd]%elem_of_cons].
    + by left.
    + destruct sent; simplify_eq. by right.
    + pose proof (Hmen _ Hd). done.
  - rewrite Hl, visits_app. f_equal. destruct sent; cbn; by f_equal.
  - intros q. rewrite Hl, timeouts_app. f_equal.
    match goal with |- timeouts q (?e :: evs) = _ => change (e :: evs) with ([e] ++ evs) end.
    rewrite timeouts_app, Hev2, app_nil_r. destruct sent; cbn; repeat case_decide; congruence.
Qed.

(** A visit ends: the message was sent, perhaps received at once, or not. *)
Lemma flight_done s t p f ch (sent : bool) evs :
  flights s !! p = Some f -> current f = Some ch ->
  flights t = <[p := visit_done f sent]> (flights s) -> maps t = maps s ->
  fresh_id t = fresh_id s -> no_visit evs -> (forall e, e ∈ evs -> mentions e = None) ->
  log t = log s ++ (if sent then Delivered p ch (msg_of f) else TimedOut p ch) :: evs ->
  flights_ok s -> flights_ok t.
Proof.
  intros Hp Hc Hft Hm Hfr [Hev1 Hev2] Hmen Hl [Hflight Hfresh Hdel Honce].
  destruct (Hflight _ _ Hp) as [H1 H2 H3 H4 H5 H6 H7].
  destruct (visit_done_log _ _ _ _ _ _ _ Hl Hev1 Hev2 Hmen) as (Hdt & Hvis & Htime).
  assert (Hnew : (p, ch) ∉ visits (log s)) by (rewrite H5; intros [_ Hn]; congruence).
  constructor.
  - intros p' f'. rewrite Hft, lookup_insert. case_decide as Hpp.
    + intros [= <-]. subst p'.
      constructor; cbn [visit_done topic_of msg_of ranges_over visited current errs];
        rewrite ?Hl, ?Hm; try done.
      * set_solver.
      * intros c Hin. apply elem_of_app. left. auto.
      * intros c. rewrite <- Hl, Hvis, elem_of_app, H5, list_elem_of_singleton.
        split; [intros [[? _]|[= ->]]; by auto|]. intros [Hin _].
        destruct (decide (c = ch)) as [->|Hne]; [by right|left]. split; [done|congruence].
      * rewrite <- Hl, Htime, decide_True, length_app, <- H6 by done. destruct sent; cbn; lia.
      * intros c m. rewrite <- Hl. intros [Hd|[_ ->]]%Hdt; [by eapply H7|done].
    + intros Hp'. eapply (flight_ok_same s); [..|by apply Hflight].
      * intros e He. rewrite Hl. set_solver.
      * intros c. rewrite Hvis, elem_of_app, list_elem_of_singleton.
        split; [intros [?|[= ? ?]]; [done|congruence]|by left].
      * by rewrite Htime, decide_False, app_nil_r by congruence.
      * rewrite Hm. by eapply f_map, Hflight.
      * intros c m [Hd|[? _]]%Hdt; [done|congruence].
  - intros e q He Hq. rewrite Hl in He. rewrite Hfr.
    apply elem_of_app in He as [He|[->|He]%elem_of_cons]; [by eauto| |].
    + assert (q = p) as -> by (destruct sent; cbn in Hq; congruence). by eapply Hfresh.
    + by rewrite (Hmen e He) in Hq.
  - intros q c m Hd. rewrite Hl in Hd |- *.
    apply elem_of_app in Hd as [Hd|[Hd|Hd]%elem_of_cons].
    + destruct (Hdel _ _ _ Hd) as (tp & ? & ?). exists tp. set_solver.
    + destruct sent; [|done]. simplify_eq. exists (topic_of f).
      split; apply elem_of_app; left; [done|]. auto.
    + pose proof (Hmen _ Hd). done.
  - rewrite Hvis. apply NoDup_app. split_and!; [done| |apply NoDup_singleton].
    intros x Hx ->%list_elem_of_singleton. done.
Qed.

(** The log knows nothing of a publish that has not begun. *)
Lemma fresh_flight s : flights_ok s ->
  (forall ch, (fresh_id s, ch) ∉ visits (log s)) /\ timeouts (fresh_id s) (log s) = [].
Proof.
  intros [_ Hfresh _ _]. split.
  - intros ch Hin. apply visits_log in Hin as [[m Hin]|Hin];
      pose proof (Hfresh _ _ Hin eq_refl); lia.
  - destruct (timeouts (fresh_id s) (log s)) as [|c l] eqn:Et; [done|].
    assert (Hc : c ∈ timeouts (fresh_id s) (log s)) by (rewrite Et; set_solver).
    apply timeouts_log in Hc. pose proof (Hfresh _ _ Hc eq_refl). lia.
Qed.

Lemma flight_begin topic msg s : routes_ok s -> flights_ok s ->
  flights_ok (begin_publish topic msg s).
Proof.
  intros Hr Hok. pose proof Hok as [Hflight Hfresh Hdel Honce]. unfold begin_publish, getChannel.
  destruct (channels s !! topic) as [r|] eqn:E.
  - destruct (r_channels s Hr _ _ E) as [chs Hm].
    destruct (fresh_flight s Hok) as [Hnone Ht].
    assert (Hv : visits (log s ++ [Published (fresh_id s) topic msg]) = visits (log s)).
    { by rewrite visits_app, app_nil_r. }
    constructor; cbn [flights log fresh_id].
    + intros p f. rewrite lookup_insert. case_decide.
      * intros [= <-]. subst p. constructor; cbn [topic_of msg_of ranges_over visited current errs log maps].
        -- set_solver.
        -- eauto.
        -- set_solver.
        -- done.
        -- intros ch. rewrite Hv. set_solver.
        -- by rewrite timeouts_app, Ht.
        -- intros ch m [Hd|Hd%list_elem_of_singleton]%elem_of_app; [|done].
           exfalso. apply (Hnone ch), visits_log. eauto.
      * intros Hp. eapply (flight_ok_same s); [..|by apply Hflight]; cbn [log maps].
        -- set_solver.
        -- intros ch. by rewrite Hv.
        -- by rewrite timeouts_app, app_nil_r.
        -- by eapply f_map, Hflight.
        -- intros ch m [Hd|Hd%list_elem_of_singleton]%elem_of_app; done.
    + intros e p [He|He%list_elem_of_singleton]%elem_of_app Hp.
      * pose proof (Hfresh _ _ He Hp). lia.
      * subst e. cbn in Hp. simplify_eq. lia.
    + intros p ch m [Hd|Hd%list_elem_of_singleton]%elem_of_app; [|done].
      destruct (Hdel _ _ _ Hd) as (tp & ? & ?). exists tp. set_solver.
    + by rewrite Hv.
  - eapply (flights_same s _ [Published (fresh_id s) topic msg; Returned (fresh_id s) false]);
      cbn [log flights fresh_id maps]; [by rewrite <- app_assoc|done|done| |lia| |done].
    + intros e p [->|[->|He]%elem_of_cons]%elem_of_cons Hp; cbn in *; simplify_eq; try lia.
      set_solver.
    + intros p f Hp. by eapply f_map, Hflight.
Qed.

Lemma flights_step s t : step s t -> routes_ok s -> flights_ok s -> flights_ok t.
Proof.
  intros Hstep Hr Hok. pose proof (p_flight s Hok) as Hflight.
  assert (Hmaps : forall p f, flights s !! p = Some f ->
    exists chs, maps t !! ranges_over f = Some (topic_of f, chs)).
  { intros p f Hp. destruct (f_map _ _ _ (Hflight _ _ Hp)) as [chs Hm].
    by eapply maps_topic. }
  assert (Hno : no_visit []) by done.
  destruct Hstep as [topic s|topic ch s|s|topic msg s|p f ch s Hf Hc Hm Hv|p f ch q s Hf Hc Hq Hl
    |p f ch s Hf Hc Hq|p f ch s Hf Hc|p f s Hf Hc Hm|ch m q s Hq].
  - unfold Subscribe in *. destruct (channels s !! topic);
      (eapply (flights_same s _ [Subscribed topic (fresh_id s)]); [..|exact Hok]);
      cbn [fst log flights fresh_id]; try done; try lia;
      intros e p ->%list_elem_of_singleton; done.
  - unfold Unsubscribe in *. case_match; [|done].
    eapply (flights_same s _ []); [..|exact Hok]; cbn [log flights fresh_id];
      rewrite ?app_nil_r; try done; try lia; set_solver.
  - eapply (flights_same s _ []); [..|exact Hok]; cbn [Close log flights fresh_id];
      rewrite ?app_nil_r; try done; try lia; set_solver.
  - by apply flight_begin.
  - apply flight_visit; try done. unfold members in Hm.
    destruct (f_map _ _ _ (Hflight _ _ Hf)) as [chs E]. rewrite E in Hm. cbn in Hm.
    by eapply r_members.
  - eapply (flight_done s _ p f ch true []); try done. set_solver.
  - eapply (flight_done s _ p f ch true [Received ch (msg_of f)]); try done.
    by intros e ->%list_elem_of_singleton.
  - eapply (flight_done s _ p f ch false []); try done. set_solver.
  - eapply (flights_same s _ [Returned p (negb (Nat.eqb (errs f) 0))]); [done|done| | |done|done|done].
    + intros p' f'. cbn [end_publish flights]. rewrite lookup_delete. by case_decide.
    + intros e p' ->%list_elem_of_singleton [= <-]. cbn [end_publish fresh_id].
      eapply (p_fresh s Hok _ _ (f_published _ _ _ (Hflight _ _ Hf))). done.
  - eapply (flights_same s _ [Received ch m]); [..|exact Hok]; cbn; try done.
    by intros e p ->%list_elem_of_singleton.
Qed.

Lemma pubsub_inv s : rtc step NewPubsub s -> inv s.
Proof.
  intros Hr. refine (rtc_preserves step inv _ _ _ Hr pubsub_inv_new).
  intros a b Hstep (Hq & Hro & Hf).
  split_and!; [by eapply queues_step|by eapply routes_step|by eapply flights_step].
Qed.

(** *** A publish can end *)

(** What the range must still give. *)
Definition unvisited (f : Flight) (s : State) : gset chan :=
  (members (ranges_over f) s ∩ at_start f) ∖ visited f.

(** A visit can be started and given up, which leaves less to visit. *)
Lemma publish_can_end n : forall s p f, flights s !! p = Some f -> current f = None ->
  base.size (unvisited f s) < n -> exists t, rtc step s t /\ flights t !! p = None.
Proof.
  induction n as [|n IH]; intros s p f Hp Hc Hn; [lia|].
  destruct (set_choose_or_empty (unvisited f s)) as [[ch Hin]|He].
  - set (s1 := set_flight p (visit f ch) s).
    set (s2 := record [TimedOut p ch] (set_flight p (visit_done (visit f ch) false) s1)).
    assert (Hp1 : flights s1 !! p = Some (visit f ch)) by apply lookup_insert_eq.
    assert (Hp2 : flights s2 !! p = Some (visit_done (visit f ch) false)) by apply lookup_insert_eq.
    destruct (IH s2 p _ Hp2 eq_refl) as (t & Hr & Ht).
    { assert (unvisited (visit_done (visit f ch) false) s2 ⊂ unvisited f s); [|apply subset_size in H; lia].
      unfold unvisited in *. cbn [visit_done visit ranges_over at_start visited].
      change (members (ranges_over f) s2) with (members (ranges_over f) s). set_solver. }
    exists t. split; [|done]. eapply rtc_l; [eapply (step_visit p f ch s); [done|done| |]|].
    1,2: unfold unvisited in Hin; set_solver.
    eapply rtc_l; [|exact Hr]. by eapply (step_timeout p (visit f ch) ch).
  - exists (end_publish p f s). split; [|apply lookup_delete_eq].
    apply rtc_once, step_end; [done|done|]. unfold unvisited in He. set_solver.
Qed.

(** ** Properties *)

(** C12. In every interleaving of subscribing, publishing, closing and receiving, what a
    subscriber received and what waits in its channel is, in order, exactly what was
    delivered to it, and the channel never holds more than its size; every delivery
    is of the message of a [Publish] to a topic the channel was subscribed to; and a
    [Publish] visits a channel at most once. *)
Theorem pubsub_delivery s : rtc step NewPubsub s ->
  (forall ch q, queues s !! ch = Some q ->
     delivered ch (log s) = received ch (log s) ++ q /\ length q <= size) /\
  (forall p ch m, Delivered p ch m ∈ log s ->
     exists topic, Published p topic m ∈ log s /\ Subscribed topic ch ∈ log s) /\
  NoDup (visits (log s)).
Proof.
  intros Hr. destruct (pubsub_inv s Hr) as (Hq & _ & Hf).
  split; [apply Hq|]. split; apply Hf.
Qed.

(** C13. When a [Publish] can return, every channel that its topic had when it began and
    still has got the message or timed out, and it returns an error exactly when one
    timed out; and however the others behave, a [Publish] can always come to its end:
    a full channel does not block it. *)
Theorem publish_returns s p f : rtc step NewPubsub s -> flights s !! p = Some f ->
  (current f = None -> members (ranges_over f) s ∩ at_start f ⊆ visited f ->
   (forall ch, ch ∈ members (ranges_over f) s ∩ at_start f ->
      Delivered p ch (msg_of f) ∈ log s \/ TimedOut p ch ∈ log s) /\
   exists failed, log (end_publish p f s) = log s ++ [Returned p failed] /\
     (failed = true <-> exists ch, TimedOut p ch ∈ log s)) /\
  exists t, rtc step s t /\ flights t !! p = None.
Proof.
  intros Hr Hp. destruct (pubsub_inv s Hr) as (_ & _ & Hf).
  destruct (p_flight s Hf _ _ Hp) as [_ _ _ Hcur Hvis Herr Hmsg]. split.
  - intros Hc Hall. split.
    + intros ch Hch. assert (Hv : (p, ch) ∈ visits (log s)).
      { apply Hvis. split; [set_solver|]. by rewrite Hc. }
      apply visits_log in Hv as [[m Hd]|Ht]; [left|by right]. by rewrite <- (Hmsg ch m).
    + eexists. split; [done|]. rewrite Herr, negb_true_iff, Nat.eqb_neq. split.
      * destruct (timeouts p (log s)) as [|ch l] eqn:E; [done|]. intros _. exists ch.
        apply timeouts_log. rewrite E. set_solver.
      * intros [ch Ht%timeouts_log]. destruct (timeouts p (log s)); [set_solver|done].
  - destruct (current f) as [ch|] eqn:Hc;
      [|by eapply (publish_can_end _ s p f Hp Hc (Nat.lt_succ_diag_r _))].
    set (s1 := record [TimedOut p ch] (set_flight p (visit_done f false) s)).
    assert (Hp1 : flights s1 !! p = Some (visit_done f false)) by apply lookup_insert_eq.
    destruct (publish_can_end _ s1 p _ Hp1 eq_refl (Nat.lt_succ_diag_r _)) as (t & Hst & Ht).
    exists t. split; [|done]. eapply rtc_l; [|exact Hst]. by eapply step_timeout.
Qed.
End pubsub.

(** ** Witnesses *)

(** A subscriber with a channel of one place, two messages, and one received. *)
Definition subscribed : State (V := nat) := fst (Subscribe "t" NewPubsub).
Definition publishing : State := begin_publish "t" 7 subscribed.
Definition the_flight : Flight :=
  {| topic_of := "t"; msg_of := 7; ranges_over := 1; at_start := {[0]}; visited := {[0]};
     current := Some 0; errs := 0 |}.
Definition visiting : State := set_flight 2 the_flight publishing.
Definition sent : State :=
  record [Delivered 2 0 7]
    (set_queue 0 [7] (set_flight 2 (visit_done the_flight true) visiting)).

Lemma visiting_reachable : rtc (step 1) NewPubsub visiting.
Proof.
  eapply rtc_l; [apply (step_subscribe _ "t")|].
  eapply rtc_l; [apply (step_begin _ "t" 7)|].
  eapply rtc_l; [|apply rtc_refl].
  change visiting with (set_flight 2 (visit {| topic_of := "t"; msg_of := 7; ranges_over := 1;
    at_start := {[0]}; visited := ∅; current := None; errs := 0 |} 0) publishing).
  apply step_visit; [done|done| |set_solver].
  change (0 ∈ ({[0]} ∪ ∅ : gset nat)). set_solver.
Qed.

Lemma sent_reachable : rtc (step 1) NewPubsub sent.
Proof.
  eapply rtc_r; [exact visiting_reachable|].
  apply (step_send 1 2 the_flight 0 [] visiting); done || (cbn; lia).
Qed.

Lemma pubsub_delivery_witness :
  queues sent !! 0 = Some [7] /\
  (delivered 0 (log sent) = received 0 (log sent) ++ [7] /\ length [7] <= 1).
Proof.
  split; [reflexivity|]. apply (pubsub_delivery 1 sent sent_reachable). reflexivity.
Defined.

Lemma publish_returns_witness :
  exists t, rtc (step 1) sent t /\ flights t !! 2 = None.
Proof.
  apply (publish_returns 1 sent 2 (visit_done the_flight true) sent_reachable). reflexivity.
Defined.

(** [Publish] ranges without the lock over a map that [Subscribe] writes to. *)
Definition range_races {V} (s : State (V := V)) (topic : string) : Prop :=
  exists p f, flights s !! p = Some f /\ current f = None /\
    channels s !! topic = Some (ranges_over f).

Example subscribe_races : rtc (step 1) NewPubsub publishing /\ range_races publishing "t".
Proof.
  split.
  - eapply rtc_l; [apply (step_subscribe _ "t")|]. eapply rtc_l; [apply (step_begin _ "t" 7)|].
    apply rtc_refl.
  - eexists 2, _. split; [reflexivity|]. split; reflexivity.
Qed.

(** A map of channels is reached by [Unsubscribe] too; after it a visit that was under
    way may still deliver to the channel. *)
Example delivery_after_unsubscribe :
  exists s, rtc (step 1) (Unsubscribe "t" 0 visiting) s /\ Delivered 2 0 7 ∈ log s.
Proof.
  eexists. split.
  - apply rtc_once, (step_send 1 2 the_flight 0 []); done || (cbn; lia).
  - cbn. set_solver.
Qed.
