(* ===== verification/GoStrings.v ===== *)
(** * More of package strings

    The functions on strings that the smaller components use beside those of Prelude:
    case mapping, trimming and searching, with their lemmas. *)

From Stdlib Require Import ZArith Lia Ascii String.
From stdpp Require Import base option list strings.
From S2P Require Import Prelude.

Local Open Scope string_scope.
Local Open Scope Z_scope.
Local Open Scope list_scope.

(** ** Characters *)

Definition is_upper (c : ascii) : bool := (65 <=? b2z c) && (b2z c <=? 90).
Definition is_lower (c : ascii) : bool := (97 <=? b2z c) && (b2z c <=? 122).
Definition is_digit (c : ascii) : bool := (48 <=? b2z c) && (b2z c <=? 57).
Definition is_ascii (c : ascii) : bool := b2z c <? 128.

Fixpoint str_forall (p : ascii -> bool) (s : string) : bool :=
  match s with EmptyString => true | String c s => p c && str_forall p s end.
Fixpoint str_map (f : ascii -> ascii) (s : string) : string :=
  match s with EmptyString => EmptyString | String c s => String (f c) (str_map f s) end.

Lemma str_forall_app p s t : str_forall p (s +:+ t) = str_forall p s && str_forall p t.
Proof.
  induction s as [|c s IH]; [done|].
  change (String c s +:+ t) with (String c (s +:+ t)). cbn [str_forall]. by rewrite IH, andb_assoc.
Qed.

Lemma str_forall_impl (p q : ascii -> bool) s :
  (forall c, p c = true -> q c = true) -> str_forall p s = true -> str_forall q s = true.
Proof.
  intros H. induction s as [|c s IH]; [done|]. cbn.
  rewrite !andb_true_iff. intros [??]. auto.
Qed.

(** ** Case *)

Definition lower_char (c : ascii) : ascii := if is_upper c then z2b (b2z c + 32) else c.

(** [strings.ToLower(s)]; what Unicode does to a string that is not ASCII is the
    argument. *)
Definition ToLower (unicode_lower : string -> string) (s : string) : string :=
  if str_forall is_ascii s then str_map lower_char s else unicode_lower s.

Lemma lower_char_not_upper c : is_upper (lower_char c) = false.
Proof.
  unfold lower_char. destruct (is_upper c) eqn:E; [|done].
  unfold is_upper in *. apply andb_true_iff in E as [?%Z.leb_le ?%Z.leb_le].
  rewrite b2z_z2b, Z.mod_small by lia. apply andb_false_iff. lia.
Qed.

Lemma lower_char_ascii c : is_ascii c = true -> is_ascii (lower_char c) = true.
Proof.
  unfold lower_char. destruct (is_upper c) eqn:E; [|done].
  unfold is_upper, is_ascii in *. apply andb_true_iff in E as [?%Z.leb_le ?%Z.leb_le].
  intros _. rewrite b2z_z2b, Z.mod_small by lia. lia.
Qed.

(** The lower case of an ASCII string has no upper case letter. *)
Lemma ToLower_no_upper ul s : str_forall is_ascii s = true ->
  str_forall (fun c => negb (is_upper c)) (ToLower ul s) = true.
Proof.
  unfold ToLower. intros ->. induction s as [|c s IH]; [done|].
  cbn. by rewrite lower_char_not_upper, IH.
Qed.

Lemma ToLower_id ul s : str_forall is_ascii s = true ->
  str_forall (fun c => negb (is_upper c)) s = true -> ToLower ul s = s.
Proof.
  unfold ToLower. intros ->. induction s as [|c s IH]; [done|].
  cbn. rewrite andb_true_iff. intros [Hc Hs]. rewrite IH by done. unfold lower_char.
  by destruct (is_upper c).
Qed.

Lemma ToLower_idemp ul s : str_forall is_ascii s = true -> ToLower ul (ToLower ul s) = ToLower ul s.
Proof.
  intros Hs. apply ToLower_id; [|by apply ToLower_no_upper].
  unfold ToLower. rewrite Hs. induction s as [|c s IH]; [done|].
  cbn in *. apply andb_true_iff in Hs as [Hc Hs]. rewrite lower_char_ascii by done. by apply IH.
Qed.

(** ** Replacing and trimming *)

(** [strings.ReplaceAll(s, old, new)] for an [old] that is not empty: from left to right,
    [skip] characters of a replaced occurrence still to be passed. *)
Fixpoint replace_from (old new : string) (skip : nat) (s : string) : string :=
  match s with
  | EmptyString => ""
  | String c s' =>
      match skip with
      | S k => replace_from old new k s'
      | O => if HasPrefix s old then new +:+ replace_from old new (String.length old - 1) s'
             else String c (replace_from old new 0 s')
      end
  end.
Definition ReplaceAll (s old new : string) : string := replace_from old new 0 s.

(** [strings.TrimRight(s, c)] and [strings.Trim(s, c)] for one character. *)
Fixpoint TrimRight (s : string) (c : ascii) : string :=
  match s with
  | EmptyString => ""
  | String d s => match TrimRight s c with
                  | EmptyString => if Ascii.eqb d c then "" else String d ""
                  | t => String d t
                  end
  end.
Fixpoint TrimLeft (s : string) (c : ascii) : string :=
  match s with
  | String d s' => if Ascii.eqb d c then TrimLeft s' c else s
  | EmptyString => ""
  end.
Definition Trim (s : string) (c : ascii) : string := TrimLeft (TrimRight s c) c.

Lemma TrimRight_id s c : has_char c s = false -> TrimRight s c = s.
Proof.
  induction s as [|d s IH]; [done|]. cbn. intros [Hd Hs]%orb_false_iff.
  rewrite IH by done. rewrite Ascii.eqb_sym, Hd. by destruct s.
Qed.
Lemma TrimLeft_id s c : has_char c s = false -> TrimLeft s c = s.
Proof. destruct s as [|d s]; [done|]. cbn. intros [Hd _]%orb_false_iff. by rewrite Ascii.eqb_sym, Hd. Qed.
Lemma Trim_id s c : has_char c s = false -> Trim s c = s.
Proof. intros H. unfold Trim. by rewrite TrimRight_id, TrimLeft_id. Qed.
