(* ===== verification/GoEncoding.v ===== *)
(** * base64 and queries

    [encoding/base64] with its two padded alphabets and the query part of [net/url], as
    the log configuration, the cache keys and the file helpers use them, with the round
    trips they rely on. *)

From Stdlib Require Import ZArith Lia Ascii String.
From stdpp Require Import base option list strings.
From S2P Require Import Prelude GoStrings GoStrconv.

Local Open Scope string_scope.
Local Open Scope Z_scope.
Local Open Scope list_scope.

(** ** base64 *)

Section base64.
(** The two last characters of the alphabet: - and _ for URLs, + and / otherwise. *)
Context (c62 c63 : ascii).

Definition enc_char (n : Z) : ascii :=
  if n <? 26 then z2b (65 + n)
  else if n <? 52 then z2b (97 + (n - 26))
  else if n <? 62 then z2b (48 + (n - 52))
  else if n =? 62 then c62 else c63.

Definition dec_char (c : ascii) : option Z :=
  if is_upper c then Some (b2z c - 65)
  else if is_lower c then Some (b2z c - 97 + 26)
  else if is_digit c then Some (b2z c - 48 + 52)
  else if Ascii.eqb c c62 then Some 62
  else if Ascii.eqb c c63 then Some 63
  else None.

Definition pad : ascii := "=".

Fixpoint EncodeToString (s : string) : string :=
  match s with
  | EmptyString => ""
  | String a EmptyString =>
      String (enc_char (b2z a / 4)) (String (enc_char (b2z a mod 4 * 16)) (String pad (String pad "")))
  | String a (String b EmptyString) =>
      String (enc_char (b2z a / 4)) (String (enc_char (b2z a mod 4 * 16 + b2z b / 16))
        (String (enc_char (b2z b mod 16 * 4)) (String pad "")))
  | String a (String b (String c s)) =>
      String (enc_char (b2z a / 4)) (String (enc_char (b2z a mod 4 * 16 + b2z b / 16))
        (String (enc_char (b2z b mod 16 * 4 + b2z c / 64)) (String (enc_char (b2z c mod 64))
          (EncodeToString s))))
  end.

Definition CorruptInput : error := "illegal base64 data".

(** The decoder reads quanta of four characters; padding ends the input; the bits that
    padding leaves over are not looked at. *)
Fixpoint decode_quanta (s : string) : outcome string :=
  match s with
  | EmptyString => Ok ""
  | String c1 (String c2 (String c3 (String c4 s))) =>
      match dec_char c1, dec_char c2 with
      | Some x, Some y =>
          let b1 := z2b (x * 4 + y / 16) in
          if Ascii.eqb c3 pad
          then if Ascii.eqb c4 pad && String.eqb s "" then Ok (String b1 "") else Err CorruptInput
          else match dec_char c3 with
          | None => Err CorruptInput
          | Some z =>
              let b2 := z2b (y mod 16 * 16 + z / 4) in
              if Ascii.eqb c4 pad
              then if String.eqb s "" then Ok (String b1 (String b2 "")) else Err CorruptInput
              else match dec_char c4 with
              | None => Err CorruptInput
              | Some w =>
                  rest ← decode_quanta s;
                  Ok (String b1 (String b2 (String (z2b (z mod 4 * 64 + w)) rest)))
              end
          end
      | _, _ => Err CorruptInput
      end
  | _ => Err CorruptInput
  end.

(** Line ends are skipped wherever they are. *)
Fixpoint skip_newlines (s : string) : string :=
  match s with
  | EmptyString => ""
  | String c s => if Ascii.eqb c "010" || Ascii.eqb c "013" then skip_newlines s
                  else String c (skip_newlines s)
  end.
Definition DecodeString (s : string) : outcome string := decode_quanta (skip_newlines s).

(** The two characters are none of the others. *)
Definition alphabet_ok : bool :=
  forallb (fun c => negb (is_upper c || is_lower c || is_digit c || Ascii.eqb c pad
                          || Ascii.eqb c "010" || Ascii.eqb c "013")) [c62; c63]
  && negb (Ascii.eqb c62 c63).

Hypothesis Hok : alphabet_ok = true.

Ltac alphabet :=
  unfold alphabet_ok in Hok; cbn [forallb] in Hok;
  repeat match goal with
    | H : _ && _ = true |- _ => apply andb_true_iff in H as [? H]
    | H : _ && _ = true |- _ => apply andb_true_iff in H as [H ?]
    | H : negb _ = true |- _ => apply negb_true_iff in H
    | H : _ || _ = false |- _ => apply orb_false_iff in H as [? H]
    | H : _ || _ = false |- _ => apply orb_false_iff in H as [H ?]
    end.

Lemma b2z_chars n : 0 <= n < 256 -> b2z (z2b n) = n.
Proof. intros. by rewrite b2z_z2b, Z.mod_small. Qed.

Lemma dec_enc_char n : 0 <= n < 64 -> dec_char (enc_char n) = Some n.
Proof.
  intros Hn. unfold enc_char.
  repeat match goal with |- context [?a <? ?b] => destruct (Z.ltb_spec a b) end;
    try (unfold dec_char, is_upper, is_lower, is_digit; rewrite !b2z_chars by lia;
         repeat match goal with |- context [?a <=? ?b] => destruct (Z.leb_spec a b); try lia end;
         cbn; f_equal; lia).
  unfold dec_char. alphabet. destruct (Z.eqb_spec n 62) as [->|]; [|assert (n = 63) as -> by lia].
  all: repeat match goal with H : _ = false |- _ => rewrite H end.
  1: by rewrite Ascii.eqb_refl.
  rewrite (Ascii.eqb_sym c63 c62), Hok, Ascii.eqb_refl. done.
Qed.

Lemma dec_char_none c : c = pad \/ c = "010"%char \/ c = "013"%char -> dec_char c = None.
Proof.
  intros Hc. alphabet. unfold dec_char.
  repeat destruct Hc as [Hc|Hc]; subst c;
    rewrite (Ascii.eqb_sym _ c62), (Ascii.eqb_sym _ c63);
    repeat match goal with H : _ = false |- _ => rewrite H end; reflexivity.
Qed.

(** No character of the alphabet is padding or a line end. *)
Lemma enc_char_plain n c : 0 <= n < 64 -> c = pad \/ c = "010"%char \/ c = "013"%char ->
  Ascii.eqb (enc_char n) c = false.
Proof.
  intros Hn Hc. apply Ascii.eqb_neq. intros E.
  pose proof (dec_enc_char n Hn) as Hd. by rewrite E, dec_char_none in Hd.
Qed.

Lemma string_ind3 (P : string -> Prop) :
  P "" -> (forall a, P (String a "")) -> (forall a b, P (String a (String b ""))) ->
  (forall a b c s, P s -> P (String a (String b (String c s)))) -> forall s, P s.
Proof.
  intros H0 H1 H2 H3.
  fix IH 1. intros [|a [|b [|c s]]]; [done|done|done|]. apply H3, IH.
Qed.

Lemma skip_newlines_encoded s : skip_newlines (EncodeToString s) = EncodeToString s.
Proof.
  induction s as [|a|a b|a b c s IH] using string_ind3; [done|..];
    pose proof (b2z_range a); try pose proof (b2z_range b); try pose proof (b2z_range c);
    cbn [EncodeToString skip_newlines];
    rewrite !(enc_char_plain _ "010"), !(enc_char_plain _ "013")
      by (auto || (Z.div_mod_to_equations; lia)); cbn -[EncodeToString];
    by rewrite ?IH.
Qed.

Lemma decode_encode_quanta s : decode_quanta (EncodeToString s) = Ok s.
Proof.
  induction s as [|a|a b|a b c s IH] using string_ind3; [done|..];
    pose proof (b2z_range a); try pose proof (b2z_range b); try pose proof (b2z_range c);
    cbn [EncodeToString decode_quanta];
    rewrite !dec_enc_char by (Z.div_mod_to_equations; lia);
    rewrite ?(enc_char_plain _ pad) by (auto || (Z.div_mod_to_equations; lia));
    rewrite ?dec_enc_char by (Z.div_mod_to_equations; lia).
  - rewrite Ascii.eqb_refl. cbn. repeat f_equal. rewrite <- (z2b_b2z a) at 3. f_equal.
    Z.div_mod_to_equations; lia.
  - rewrite Ascii.eqb_refl. cbn. repeat f_equal.
    + rewrite <- (z2b_b2z a) at 3. f_equal. Z.div_mod_to_equations; lia.
    + rewrite <- (z2b_b2z b) at 3. f_equal. Z.div_mod_to_equations; lia.
  - rewrite IH. cbn [mbind outcome_bind]. repeat f_equal.
    + rewrite <- (z2b_b2z a) at 3. f_equal. Z.div_mod_to_equations; lia.
    + rewrite <- (z2b_b2z b) at 3. f_equal. Z.div_mod_to_equations; lia.
    + rewrite <- (z2b_b2z c) at 3. f_equal. Z.div_mod_to_equations; lia.
Qed.

Lemma base64_roundtrip s : DecodeString (EncodeToString s) = Ok s.
Proof. unfold DecodeString. by rewrite skip_newlines_encoded, decode_encode_quanta. Qed.
End base64.

Lemma std_alphabet : alphabet_ok "+" "/" = true.
Proof. reflexivity. Qed.
Lemma url_alphabet : alphabet_ok "-" "_" = true.
Proof. reflexivity. Qed.

(** ** net/url: queries *)

Definition hex_val (c : ascii) : option Z :=
  if is_digit c then Some (b2z c - 48)
  else if (97 <=? b2z c) && (b2z c <=? 102) then Some (b2z c - 97 + 10)
  else if (65 <=? b2z c) && (b2z c <=? 70) then Some (b2z c - 65 + 10)
  else None.

(** [url.QueryUnescape(s)]; [None] is its error. *)
Fixpoint QueryUnescape (s : string) : option string :=
  match s with
  | EmptyString => Some ""
  | String c s' =>
      if Ascii.eqb c "%" then
        match s' with
        | String h (String l s'') =>
            h ← hex_val h; l ← hex_val l; r ← QueryUnescape s'';
            Some (String (z2b (16 * h + l)) r)
        | _ => None
        end
      else r ← QueryUnescape s'; Some (String (if Ascii.eqb c "+" then " "%char else c) r)
  end.

(** [strings.Cut(s, sep)]: before and after the first [sep]; all of [s] without one. *)
Fixpoint Cut (s : string) (sep : ascii) : string * string :=
  match s with
  | EmptyString => ("", "")
  | String c s => if Ascii.eqb c sep then ("", s)
                  else let '(b, a) := Cut s sep in (String c b, a)
  end.

(** [u.Query()]: the pairs that can be read, in order; the others are left out. *)
Definition parse_pair (p : string) : option (string * string) :=
  if has_char ";" p || String.eqb p "" then None
  else let '(k, v) := Cut p "=" in
       k ← QueryUnescape k; v ← QueryUnescape v; Some (k, v).
Definition Query (raw : string) : list (string * string) := omap parse_pair (Split raw "&").

(** [values.Get(key)] *)
Definition Get (vs : list (string * string)) (key : string) : string :=
  match list_find (fun kv => kv.1 = key) vs with Some (_, (_, v)) => v | None => "" end.

(** A text that stands for itself in a query. *)
Definition plain_char (c : ascii) : bool :=
  negb (Ascii.eqb c "&" || Ascii.eqb c ";" || Ascii.eqb c "%" || Ascii.eqb c "+" || Ascii.eqb c "#").
Definition plain (s : string) : bool := str_forall plain_char s.

Lemma QueryUnescape_plain s : plain s = true -> QueryUnescape s = Some s.
Proof.
  unfold plain. induction s as [|c s IH]; [done|]. cbn [str_forall QueryUnescape].
  intros [Hc Hs]%andb_true_iff. unfold plain_char in Hc. rewrite IH by done. cbn [mbind option_bind].
  repeat (destruct (Ascii.eqb c _); [done|]). done.
Qed.

Lemma plain_no_char c s : plain s = true -> c = "&"%char \/ c = ";"%char \/ c = "#"%char ->
  has_char c s = false.
Proof.
  unfold plain, plain_char. intros Hs Hc. induction s as [|d s IH]; [done|]. cbn in *.
  apply andb_true_iff in Hs as [Hd Hs]. rewrite IH, orb_false_r by done.
  rewrite Ascii.eqb_sym. repeat destruct Hc as [Hc|Hc]; subst c; boolify; done.
Qed.

Lemma plain_app s t : plain (s +:+ t) = plain s && plain t.
Proof. apply str_forall_app. Qed.

Lemma Cut_app k sep v : has_char sep k = false -> Cut (k +:+ String sep v) sep = (k, v).
Proof.
  induction k as [|c k IH]; cbn [has_char].
  - intros _. rewrite append_nil. cbn. by rewrite Ascii.eqb_refl.
  - intros [Hc Hk]%orb_false_iff. rewrite append_cons. cbn [Cut].
    by rewrite Ascii.eqb_sym, Hc, IH.
Qed.

Lemma Cut_length s sep : (String.length (Cut s sep).2 <= String.length s)%nat.
Proof.
  induction s as [|c s IH]; [done|]. cbn. destruct (Ascii.eqb c sep); [cbn; lia|].
  destruct (Cut s sep). cbn in *. lia.
Qed.

Lemma Cut_shorter s sep : has_char sep s = true ->
  (String.length (Cut s sep).2 < String.length s)%nat.
Proof.
  induction s as [|c s IH]; [done|]. cbn. rewrite (Ascii.eqb_sym sep c).
  destruct (Ascii.eqb c sep); [cbn; lia|]. cbn. intros Hs. specialize (IH Hs).
  destruct (Cut s sep). cbn in *. lia.
Qed.

Definition pair_text (kv : string * string) : string := kv.1 +:+ String "=" kv.2.

Lemma parse_pair_text kv : plain kv.1 = true -> has_char "=" kv.1 = false -> plain kv.2 = true ->
  parse_pair (pair_text kv) = Some kv.
Proof.
  destruct kv as [k v]. unfold parse_pair, pair_text. cbn [fst snd]. intros Hk He Hv.
  rewrite has_char_app. cbn [has_char].
  rewrite !(plain_no_char ";") by auto. change (Ascii.eqb ";" "=") with false. rewrite Cut_app by done.
  rewrite !QueryUnescape_plain by done.
  replace (String.eqb _ "") with false; [done|].
  symmetry. apply String.eqb_neq. by destruct k.
Qed.

(** A query written from plain pairs is read back as those pairs. *)
Lemma Query_pairs kvs : kvs <> [] ->
  Forall (fun kv => plain kv.1 = true /\ has_char "=" kv.1 = false /\ plain kv.2 = true) kvs ->
  Query (Join (map pair_text kvs) (char_str "&")) = kvs.
Proof.
  intros Hne HF. unfold Query. rewrite Split_Join.
  - clear Hne. induction HF as [|kv kvs (Hk & He & Hv) _ IH]; [done|].
    cbn. by rewrite parse_pair_text, IH.
  - by destruct kvs.
  - apply Forall_map. eapply Forall_impl; [done|]. intros kv (Hk & He & Hv).
    unfold pair_text. rewrite has_char_app. cbn [has_char].
    change (Ascii.eqb "&" "=") with false. by rewrite !(plain_no_char "&") by auto.
Qed.

(** Numbers in base64 and in decimal are plain, and have no control character. *)
Definition safe_char (c : ascii) : bool := plain_char c && (32 <=? b2z c) && negb (b2z c =? 127).

Lemma safe_plain s : str_forall safe_char s = true -> plain s = true.
Proof. apply str_forall_impl. intros c. unfold safe_char. intros. by boolify. Qed.

Lemma enc_char_safe n : 0 <= n < 64 -> safe_char (enc_char "-" "_" n) = true.
Proof.
  intros Hn. assert (H : forallb (fun k => safe_char (enc_char "-" "_" (Z.of_nat k))) (seq 0 64) = true).
  { vm_compute. reflexivity. }
  rewrite forallb_forall in H. specialize (H (Z.to_nat n)).
  rewrite Z2Nat.id in H by lia. apply H, in_seq. lia.
Qed.

Lemma base64_safe s : str_forall safe_char (EncodeToString "-" "_" s) = true.
Proof.
  induction s as [|a|a b|a b c s IH] using string_ind3; [done|..];
    pose proof (b2z_range a); try pose proof (b2z_range b); try pose proof (b2z_range c);
    cbn [EncodeToString str_forall];
    rewrite !enc_char_safe by (Z.div_mod_to_equations; lia); cbn -[EncodeToString str_forall]; done.
Qed.

(** What holds of the ten digits and of the minus sign holds of a formatted number. *)
Lemma FormatInt_forall (p : ascii -> bool) z :
  forallb (fun k => p (digit (Z.of_nat k))) (seq 0 10) = true -> p "-"%char = true ->
  str_forall p (FormatInt z) = true.
Proof.
  intros Hp Hm. rewrite forallb_forall in Hp.
  assert (Hd : forall d, 0 <= d < 10 -> p (digit d) = true).
  { intros d Hd. rewrite <- (Z2Nat.id d) by lia. apply Hp, in_seq. lia. }
  assert (Hf : forall fuel n acc, str_forall p acc = true ->
    str_forall p (format_digits fuel n acc) = true).
  { induction fuel as [|fuel IH]; intros n acc Hacc; [done|]. cbn [format_digits].
    assert (H : str_forall p (String (digit (n mod 10)) acc) = true).
    { cbn. by rewrite Hd by (Z.div_mod_to_equations; lia). }
    destruct (n <? 10); auto. }
  unfold FormatInt, FormatUint. destruct (z <? 0); [cbn [str_forall]; rewrite Hm|]; by rewrite Hf.
Qed.

Lemma FormatInt_safe z : str_forall safe_char (FormatInt z) = true.
Proof. by apply FormatInt_forall; vm_compute. Qed.

Lemma str_forall_no_char p c s : p c = false -> str_forall p s = true -> has_char c s = false.
Proof.
  intros Hc. induction s as [|d s IH]; [done|]. cbn. intros [Hd Hs]%andb_true_iff.
  rewrite IH, orb_false_r by done. apply Ascii.eqb_neq. congruence.
Qed.
