(* ===== verification/Reflect.v ===== *)
(** * Calls by reflection

    What reflect's [TypeOf], [Kind] and [Call] do with the values of GoValue, for the
    components that call registered functions (Task, Trigger): types, which values a
    parameter takes, and a call. Functions are not variadic. *)

From Stdlib Require Import ZArith Lia String.
From stdpp Require Import base option list strings gmap.
From S2P Require Import Prelude GoValue.

Local Open Scope string_scope.
Local Open Scope Z_scope.
Local Open Scope list_scope.

(** ** Types of values and functions *)

Inductive GoType :=
  | TBasic (k : Kind)                 (* bool, string and the numbers *)
  | TSliceAny                         (* []interface{} *)
  | TMapAny                           (* map[string]interface{} *)
  | TAny                              (* interface{} *)
  | TNamed (name : string) (under : GoType)
  | TOpaque (k : Kind) (name : string).

#[export] Instance GoType_eq_dec : EqDecision GoType.
Proof. solve_decision. Defined.

(** [t.Kind()]; an interface has a kind of its own, written [None]. *)
Fixpoint type_kind (t : GoType) : option Kind :=
  match t with
  | TBasic k | TOpaque k _ => Some k
  | TSliceAny => Some KSlice
  | TMapAny => Some KMap
  | TAny => None
  | TNamed _ t => type_kind t
  end.

(** [reflect.TypeOf(v)] of a value that is not nil. *)
Definition type_of (v : GoVal) : option GoType :=
  match v with
  | VNil => None
  | VBool _ => Some (TBasic KBool)
  | VInt k _ => Some (TBasic k)
  | VFloat32 _ => Some (TBasic KFloat32)
  | VFloat64 _ => Some (TBasic KFloat64)
  | VString _ => Some (TBasic KString)
  | VNumber _ => Some (TNamed "json.Number" (TBasic KString))
  | VSlice _ => Some TSliceAny
  | VMap _ => Some TMapAny
  | VOther k name => Some (TOpaque k name)
  | v => (fun k => TOpaque k "") <$> kind v
  end.

(** Whether a value of type [t] can be passed for a parameter of type [p]: the same
    type, any interface{}, or a defined type with the same slice or map beneath. *)
Definition assignable (t p : GoType) : bool :=
  bool_decide (t = p) || bool_decide (p = TAny) ||
  match p with
  | TNamed _ u => bool_decide (t = u) && (bool_decide (u = TSliceAny) || bool_decide (u = TMapAny))
  | _ => false
  end.

(** What a function returns, with the static types: a value, or an error. *)
Inductive RetVal :=
  | RVal (t : GoType) (v : GoVal)
  | RErr (e : option error).

(** A registered function: the types of its parameters, and its body. *)
Record GoFunc := { ins : list GoType; body : list GoVal -> outcome (list RetVal) }.

(** Whether [v] can be passed for a parameter of type [p]; an untyped nil cannot. *)
Definition well_typed (p : GoType) (v : GoVal) : bool :=
  match type_of v with Some t => assignable t p | None => false end.

Fixpoint forallb2 {A B} (f : A -> B -> bool) (l : list A) (k : list B) : bool :=
  match l, k with
  | [], [] => true
  | a :: l, b :: k => f a b && forallb2 f l k
  | _, _ => false
  end.

(** [f.Call(params)]: a panic for another number of parameters or for one of a wrong type. *)
Definition Call (f : GoFunc) (params : list GoVal) : outcome (list RetVal) :=
  if forallb2 well_typed (ins f) params then body f params
  else Panic "reflect: Call using wrong type".

Lemma forallb2_Forall2 {A B} (f : A -> B -> bool) l k :
  forallb2 f l k = true <-> Forall2 (fun a b => f a b = true) l k.
Proof.
  revert k. induction l as [|a l IH]; intros [|b k]; cbn.
  - by split.
  - split; [done|inversion 1].
  - split; [done|inversion 1].
  - rewrite andb_true_iff, IH. split; [intros [??]; by constructor|by inversion 1].
Qed.

Lemma forallb2_length {A B} (f : A -> B -> bool) l k : forallb2 f l k = true -> length l = length k.
Proof. rewrite forallb2_Forall2. apply Forall2_length. Qed.
