(* ===== verification/Task.v ===== *)
(** * Tasks: producer, broker, worker and backend

    task/: a producer puts encoded task messages into the channel of a broker; a
    worker takes one on every tick, decodes it, calls the registered function or
    task object and stores the result in a backend, from which the producer takes it.
    Calls go through reflection, so what a call accepts depends on the types of the
    function. JSON is an interface with its law, the base64 around it is GoEncoding's; the
    worker's goroutine has no recover, so a panic is the end of the process. *)

From Stdlib Require Import ZArith Lia Ascii String SpecFloat.
From stdpp Require Import base option list strings gmap fin_maps relations.
From S2P Require Import Prelude GoStrings GoEncoding GoValue Reflect.

Local Open Scope string_scope.
Local Open Scope Z_scope.
Local Open Scope list_scope.

(** ** task/message.go *)

Definition TaskSuccess : string := "success".
Definition TaskFail : string := "fail".

(** Times are nanoseconds. *)
Record TaskMessage := {
  tm_ID : string;
  tm_Name : string;
  tm_Args : option (list GoVal);
  tm_Kwargs : gomap GoVal;
  tm_Retries : Z;
  tm_Expires : option Z
}.
Record ResultMessage := {
  rm_ID : string;
  rm_Status : string;
  rm_Traceback : string;
  rm_Result : GoVal
}.
Record BrokerMessage := { bm_ID : string; bm_Value : string }.

(** encoding/json on messages. What it does to a value is [json_value] (every number
    becomes a float64), to a map [json_map], to a string [json_string] (what is not UTF-8
    is replaced); a nil slice stays nil. *)
Class TaskCodec := {
  json_Marshal : TaskMessage -> outcome string;
  json_Unmarshal : string -> outcome TaskMessage;
  json_string : string -> string;
  json_value : GoVal -> GoVal;
  json_map : gomap GoVal -> gomap GoVal
}.
Definition json_message `{TaskCodec} (m : TaskMessage) : TaskMessage :=
  {| tm_ID := json_string (tm_ID m); tm_Name := json_string (tm_Name m);
     tm_Args := map json_value <$> tm_Args m;
     tm_Kwargs := json_map (tm_Kwargs m);
     tm_Retries := tm_Retries m; tm_Expires := tm_Expires m |}.
Class TaskCodecLaws `{TaskCodec} : Prop := {
  json_law m s : json_Marshal m = Ok s -> json_Unmarshal s = Ok (json_message m)
}.

(** [tm.Encode()] and [bm.Decode()], with base64.StdEncoding. *)
Definition Encode `{TaskCodec} (tm : TaskMessage) : outcome string :=
  jsonData ← json_Marshal tm; Ok (EncodeToString "+"%char "/"%char jsonData).
Definition Decode `{TaskCodec} (Value : string) : outcome TaskMessage :=
  body ← DecodeString "+"%char "/"%char Value; json_Unmarshal body.

Lemma decode_encode `{TaskCodecLaws} m s : Encode m = Ok s -> Decode s = Ok (json_message m).
Proof.
  unfold Encode, Decode. intros (j & Hj & [= <-])%outcome_bind_ok.
  rewrite (base64_roundtrip "+"%char "/"%char std_alphabet). by apply json_law.
Qed.

(** ** task/channel_broker.go *)

Record channelBroker := { broker : list BrokerMessage; cache : nat; closed : bool }.
Definition NewChannelBroker (cache : nat) : channelBroker :=
  {| broker := []; cache := cache; closed := false |}.

Definition SendMsgTimeout : error := "failed to send message".
Definition GetMsgTimeout : error := "failed to get message".

(** A channel that stays full for a millisecond is an error; [taker] is whether a
    [GetMessage] waits for the message meanwhile, to which an empty channel hands it over,
    even one of no capacity. *)
Definition SendMessage (taker : bool) (b : channelBroker) (msg : BrokerMessage)
    : outcome unit * channelBroker :=
  if closed b then (Panic "send on closed channel", b)
  else if (length (broker b) <? cache b)%nat || (taker && (length (broker b) =? 0)%nat)
  then (Ok tt, {| broker := broker b ++ [msg]; cache := cache b; closed := closed b |})
  else (Err SendMsgTimeout, b).

(** A closed channel gives a nil message when it is empty. *)
Definition GetMessage (b : channelBroker) : outcome (option BrokerMessage) * channelBroker :=
  match broker b with
  | msg :: q => (Ok (Some msg), {| broker := q; cache := cache b; closed := closed b |})
  | [] => if closed b then (Ok None, b) else (Err GetMsgTimeout, b)
  end.

Definition Close (b : channelBroker) : outcome unit * channelBroker :=
  if closed b then (Panic "close of closed channel", b)
  else (Ok tt, {| broker := broker b; cache := cache b; closed := true |}).

(** ** task/map_backend.go *)

Definition mapBackend : Type := gmap string ResultMessage.
Definition ErrResultNotFound : error := "failed to find result".

(** A result is given out once. *)
Definition GetResult (m : mapBackend) (taskId : string) : outcome ResultMessage * mapBackend :=
  match (m : gmap string ResultMessage) !! taskId with
  | None => (Err ErrResultNotFound, m)
  | Some r => (Ok r, delete taskId (m : gmap string ResultMessage))
  end.
Definition SetResult (m : mapBackend) (taskID : string) (r : ResultMessage) : mapBackend :=
  <[taskID := r]> (m : gmap string ResultMessage).

(** ** Numbers and results of a call *)

(** [int(f)]: towards zero; out of range it is what amd64 gives, the language leaves
    it open. [float32(f)] and [float64(f)] round to nearest even. *)
Definition float_to_int (f : spec_float) : Z :=
  let v := match f with
           | S754_finite s m e =>
               let a := if 0 <=? e then Zpos m * 2 ^ e else Zpos m / 2 ^ (- e) in
               if s then - a else a
           | S754_zero _ => 0
           | _ => 2 ^ 63
           end in
  if (- 2 ^ 63 <=? v) && (v <? 2 ^ 63) then v else - 2 ^ 63.
Definition round_to (prec emax : Z) (f : spec_float) : spec_float :=
  match f with
  | S754_finite s m e => binary_normalize prec emax (if s then Zneg m else Zpos m) e s
  | f => f
  end.
Definition to_float32 := round_to 24 128.
Definition to_float64 := round_to 53 1024.

(** [GetRealValue(val)], by the kind of the static type; a nil slice or map keeps its
    type, so it is not a nil interface. *)
Definition GetRealValue (r : RetVal) : GoVal :=
  match r with
  | RErr _ => VNil
  | RVal t v =>
      match type_kind t with
      | Some (KInt | KInt8 | KInt16 | KInt32 | KInt64) =>
          match v with VInt _ z => VInt KInt64 z | v => v end
      | Some (KUint | KUint8 | KUint16 | KUint32 | KUint64) =>
          match v with VInt _ z => VInt KUint64 z | v => v end
      | Some (KFloat32 | KFloat64) =>
          match v with
          | VFloat32 f => VFloat64 (to_float64 f)
          | v => v
          end
      | Some (KString | KBool) => v
      | Some KSlice => match v with VNil => VSlice [] | v => v end
      | Some KMap => match v with VNil => VMap None | v => v end
      | _ => VNil
      end
  end.

(** [v.IsNil()], a panic for a kind that has no nil; then [v.Interface().(error)]. *)
Definition error_result (r : RetVal) : outcome (option error) :=
  match r with
  | RErr e => Ok e
  | RVal t v =>
      match type_kind t with
      | None | Some (KSlice | KMap | KPtr | KFunc) =>
          match v with VNil => Ok None | _ => Panic conversion_panic end
      | _ => Panic "reflect: call of reflect.Value.IsNil"
      end
  end.

(** ** task/worker.go *)

Definition ErrInvalidArgs : error := "failed to exec task, due to invalid args".

(** The conversion of one argument: JSON makes every number a float64. *)
Definition convert_arg (p : GoType) (arg : GoVal) : outcome GoVal :=
  match kind arg with
  | None => Panic "invalid memory address or nil pointer dereference"
  | Some msgType =>
      let arg := match arg with
                 | VFloat64 f => if bool_decide (type_kind p = Some KInt)
                                 then VInt KInt (float_to_int f) else arg
                 | _ => arg
                 end in
      Ok (match arg with
          | VFloat64 f => if bool_decide (type_kind p = Some KFloat32)
                          then VFloat32 (to_float32 f) else arg
          | _ => arg
          end)
  end.

Fixpoint convert_args (ps : list GoType) (args : list GoVal) : outcome (list GoVal) :=
  match ps, args with
  | p :: ps, arg :: args =>
      a ← convert_arg p arg;
      rest ← convert_args ps args;
      Ok (a :: rest)
  | _, _ => Ok []
  end.

Definition runTaskFunc (f : GoFunc) (id : string) (args : list GoVal) : outcome ResultMessage :=
  if negb (length (ins f) =? length args)%nat then Err ErrInvalidArgs
  else
    params ← convert_args (ins f) args;
    res ← Call f params;
    match res with
    | [] => Ok {| rm_ID := id; rm_Status := TaskSuccess; rm_Traceback := ""; rm_Result := VNil |}
    | [_] => Panic "index out of range"
    | r0 :: r1 :: _ =>
        e ← error_result r1;
        Ok {| rm_ID := id;
              rm_Status := match e with Some _ => TaskFail | None => TaskSuccess end;
              rm_Traceback := default "" e;
              rm_Result := GetRealValue r0 |}
    end.

(** ** What a function is called with *)

(** The values JSON decodes to. *)
Definition json_decoded (v : GoVal) : bool :=
  match v with
  | VNil | VBool _ | VFloat64 _ | VString _ | VSlice _ | VMap _ => true
  | _ => false
  end.

(** The parameters a decoded argument can be passed for, by its type alone. *)
Definition json_accepts (p : GoType) (v : GoVal) : bool :=
  match v, p with
  | (VBool _ | VFloat64 _ | VString _ | VSlice _ | VMap _), TAny => true
  | VBool _, TBasic KBool => true
  | VString _, TBasic KString => true
  | VFloat64 _, TBasic (KInt | KFloat32 | KFloat64) => true
  | VSlice _, (TSliceAny | TNamed _ TSliceAny) => true
  | VMap _, (TMapAny | TNamed _ TMapAny) => true
  | _, _ => false
  end.

(** Converting a decoded argument makes it well typed exactly when it is accepted. *)
Lemma convert_arg_well_typed p v : json_decoded v = true -> v <> VNil ->
  exists a, convert_arg p v = Ok a /\ well_typed p a = json_accepts p v.
Proof.
  intros Hj Hn. unfold convert_arg.
  destruct v; try done; cbn [kind]; eexists; (split; [reflexivity|]);
    destruct p as [k| | | |n u|k n]; try destruct k; try reflexivity;
    unfold well_typed, assignable; repeat (case_bool_decide; simplify_eq/=; try done);
    destruct u; done.
Qed.

Lemma convert_arg_nil p : exists e, convert_arg p VNil = Panic e.
Proof. by eexists. Qed.

Lemma convert_args_well_typed ps args :
  length ps = length args -> forallb json_decoded args = true ->
  (exists ys, convert_args ps args = Ok ys /\ length ys = length ps /\
     forallb2 well_typed ps ys = forallb2 json_accepts ps args) \/
  ((exists e, convert_args ps args = Panic e) /\ forallb2 json_accepts ps args = false).
Proof.
  revert args. induction ps as [|p ps IH]; intros [|v args] Hlen Hj; try done.
  { left. by exists []. }
  cbn in Hlen, Hj. apply andb_true_iff in Hj as [Hv Hj].
  assert (v = VNil \/ v <> VNil) as [->|Hn] by (destruct v; auto).
  { right. split; [by eexists|done]. }
  destruct (convert_arg_well_typed p v Hv Hn) as (a & Ha & Hw).
  cbn [convert_args forallb2]. rewrite Ha. cbn [mbind outcome_bind].
  destruct (IH args) as [(ys & -> & Hl & Hf)|[[e ->] Hf]]; [lia|done| |].
  - left. exists (a :: ys). cbn. by rewrite Hl, Hw, Hf.
  - right. rewrite Hf, andb_false_r. by split; [eexists|].
Qed.

(** The parameter a decoded argument becomes. *)
Definition passed_as (p : GoType) (v : GoVal) : GoVal :=
  match p, v with
  | TBasic KInt, VFloat64 f => VInt KInt (float_to_int f)
  | TBasic KFloat32, VFloat64 f => VFloat32 (to_float32 f)
  | _, _ => v
  end.

Lemma convert_arg_accepted p v : json_accepts p v = true -> convert_arg p v = Ok (passed_as p v).
Proof.
  destruct v; try done; destruct p as [k| | | |n u|k n]; try done; try (by destruct k); by destruct u.
Qed.

Lemma convert_args_accepted ps args : forallb2 json_accepts ps args = true ->
  convert_args ps args = Ok (zip_with passed_as ps args).
Proof.
  revert args. induction ps as [|p ps IH]; intros [|v args]; cbn; try done.
  intros [Hv Hvs]%andb_true_iff. by rewrite (convert_arg_accepted p v Hv), (IH args Hvs).
Qed.

(** The result made of what a function returns first: numbers in their widest types, an
    interface and what has no text is nothing. *)
Definition shown (r : RetVal) (x : GoVal) : Prop :=
  match r with
  | RErr _ => x = VNil
  | RVal t v =>
      match type_kind t, v with
      | Some (KInt | KInt8 | KInt16 | KInt32 | KInt64), VInt _ z => x = VInt KInt64 z
      | Some (KUint | KUint8 | KUint16 | KUint32 | KUint64), VInt _ z => x = VInt KUint64 z
      | Some KFloat32, VFloat32 f => x = VFloat64 (to_float64 f)
      | Some KFloat64, VFloat64 f => x = VFloat64 f
      | Some KString, VString s => x = VString s
      | Some KBool, VBool b => x = VBool b
      | Some KSlice, VSlice l => x = VSlice l
      | Some KSlice, VNil => x = VSlice []
      | Some KMap, VMap m => x = VMap m
      | Some KMap, VNil => x = VMap None
      | (None | Some (KStruct | KPtr | KFunc)), _ => x = VNil
      | _, _ => True               (* no value of the type *)
      end
  end.

Lemma GetRealValue_shown r : shown r (GetRealValue r).
Proof. destruct r as [t v|e]; cbn; [|done]. by destruct (type_kind t) as [[]|], v. Qed.

(** What the worker makes of what a function returned: nothing is a success, one result a
    panic; of more the second is the error, a panic if it is of a type without nil, or not
    nil and no error. *)
Definition answered (id : string) (rs : list RetVal) (out : outcome ResultMessage) : Prop :=
  let result st tb x := {| rm_ID := id; rm_Status := st; rm_Traceback := tb; rm_Result := x |} in
  match rs with
  | [] => out = Ok (result "success" "" VNil)
  | [_] => exists w, out = Panic w
  | r :: RErr None :: _ => exists x, shown r x /\ out = Ok (result "success" "" x)
  | r :: RErr (Some e) :: _ => exists x, shown r x /\ out = Ok (result "fail" e x)
  | r :: RVal t v :: _ =>
      match v, type_kind t with
      | VNil, (None | Some (KSlice | KMap | KPtr | KFunc)) =>
          exists x, shown r x /\ out = Ok (result "success" "" x)
      | _, _ => exists w, out = Panic w
      end
  end.

(** C39. A call from a task. With as many arguments as the function has parameters, all
    from JSON: when every argument fits its parameter (a number an int, float32, float64 or
    any; nil nothing) the function is called with them, numbers converted to the type of
    the parameter, and its results are answered as above, the error as a failure with its
    text; a panic of the function is one of the worker, and so is a function with a
    single result. When some argument does not fit, the call panics, in the worker's
    goroutine. With another number of arguments nothing is called. *)
Theorem task_call_types f id args :
  forallb json_decoded args = true ->
  if (length (ins f) =? length args)%nat then
    if forallb2 json_accepts (ins f) args then
      forallb2 well_typed (ins f) (zip_with passed_as (ins f) args) = true /\
      match body f (zip_with passed_as (ins f) args) with
      | Ok rs => answered id rs (runTaskFunc f id args)
      | Panic w => runTaskFunc f id args = Panic w
      | Err e => runTaskFunc f id args = Err e
      | NoFuel => runTaskFunc f id args = NoFuel
      end
    else exists e, runTaskFunc f id args = Panic e
  else runTaskFunc f id args = Err ErrInvalidArgs.
Proof.
  intros Hj. unfold runTaskFunc.
  destruct (Nat.eqb_spec (length (ins f)) (length args)) as [Hlen|]; [|done]. cbn [negb].
  destruct (convert_args_well_typed _ _ Hlen Hj) as [(ys & Hys & Hl & Hf)|[[e ->] ->]]; [|by eexists].
  rewrite Hys. cbn [mbind outcome_bind]. unfold Call. rewrite <- Hf.
  destruct (forallb2 well_typed (ins f) ys) eqn:Hw; [|by eexists].
  rewrite (convert_args_accepted _ _ (eq_sym Hf)) in Hys. injection Hys as ->. split; [done|].
  destruct (body f ys) as [[|r [|r' rs]]| | |]; cbn; try done; [by eexists|].
  pose proof (GetRealValue_shown r). destruct r' as [t v|[e|]]; cbn; eauto.
  destruct v, (type_kind t) as [[]|]; cbn; eauto.
Qed.

Section worker.
(** The state of a task object. *)
Context {St : Type}.

(** An [AsyncTask]; its methods work on the one registered object. *)
Record AsyncTask := {
  ParseKwargs : St -> gomap GoVal -> St * outcome unit;
  RunTask : St -> St * (GoVal * option error)
}.

Inductive Registered :=
  | RAsync (ops : AsyncTask) (st : St)
  | RFunc (f : GoFunc)
  | RNil                               (* a nil interface *)
  | ROther.                            (* what is neither *)

Definition tasks := gmap string Registered.

(** [runTask(msg)] at time [now], and the registry after it. *)
Definition runTask (now : Z) (reg : tasks) (msg : TaskMessage) : outcome ResultMessage * tasks :=
  let expired := match tm_Expires msg with Some t => t <? now | None => false end in
  if expired then (Err "task is expired", reg)
  else match tm_Args msg with
  | None => (Err "task is malformed - args cannot be nil", reg)
  | Some args =>
      match (reg : gmap string Registered) !! tm_Name msg with
      | None | Some RNil => (Err "task is not registered", reg)
      | Some (RAsync ops st) =>
          let '(st, parsed) := ParseKwargs ops st (tm_Kwargs msg) in
          let set st := <[tm_Name msg := RAsync ops st]> (reg : gmap string Registered) in
          match parsed with
          | Ok _ =>
              let '(st, (val, err)) := RunTask ops st in
              (Ok {| rm_ID := tm_ID msg;
                     rm_Status := match err with Some _ => TaskFail | None => TaskSuccess end;
                     rm_Traceback := default "" err;
                     rm_Result := val |}, set st)
          | Err e => (Err e, set st)
          | Panic e => (Panic e, set st)
          | NoFuel => (NoFuel, set st)
          end
      | Some (RFunc f) => (runTaskFunc f (tm_ID msg) args, reg)
      | Some ROther => (Panic "reflect: NumIn of non-func type", reg)
      end
  end.

(** ** The system: producer, broker, worker, backend *)

Context `{TaskCodec}.

Record System := { sys_broker : channelBroker; sys_tasks : tasks; sys_backend : mapBackend }.

(** [AddTask(name, args...)] with the identifier it draws: no arguments make a nil
    slice. [AddTaskWithKey] makes an empty one. *)
Definition task_of (id name : string) (args : list GoVal) : TaskMessage :=
  {| tm_ID := id; tm_Name := name; tm_Args := match args with [] => None | _ => Some args end;
     tm_Kwargs := Some ∅; tm_Retries := 0; tm_Expires := None |}.
Definition task_with_key (id name : string) (args : gomap GoVal) : TaskMessage :=
  {| tm_ID := id; tm_Name := name; tm_Args := Some []; tm_Kwargs := args; tm_Retries := 0;
     tm_Expires := None |}.

Definition submit (taker : bool) (s : System) (task : TaskMessage) : outcome unit * System :=
  match Encode task with
  | Ok encodedMsg =>
      let '(r, b) := SendMessage taker (sys_broker s) {| bm_ID := tm_ID task; bm_Value := encodedMsg |} in
      (r, {| sys_broker := b; sys_tasks := sys_tasks s; sys_backend := sys_backend s |})
  | Err e => (Err e, s)
  | Panic e => (Panic e, s)
  | NoFuel => (NoFuel, s)
  end.
Definition AddTask (taker : bool) (s : System) (id name : string) (args : list GoVal)
    : outcome unit * System :=
  submit taker s (task_of id name args).
Definition AddTaskWithKey (taker : bool) (s : System) (id name : string) (args : gomap GoVal)
    : outcome unit * System :=
  submit taker s (task_with_key id name args).

(** One tick of the worker: an error skips the message, a panic ends the process. A
    nil result is not stored. *)
Definition tick (now : Z) (s : System) : outcome System :=
  let '(got, b) := GetMessage (sys_broker s) in
  let s := {| sys_broker := b; sys_tasks := sys_tasks s; sys_backend := sys_backend s |} in
  match got with
  | Ok (Some taskMsg) =>
      match Decode (bm_Value taskMsg) with
      | Ok decodedMsg =>
          let '(r, reg) := runTask now (sys_tasks s) decodedMsg in
          match r with
          | Ok resultMsg =>
              Ok {| sys_broker := b; sys_tasks := reg;
                    sys_backend := if is_nil (rm_Result resultMsg) then sys_backend s
                                   else SetResult (sys_backend s) (bm_ID taskMsg) resultMsg |}
          | Panic e => Panic e
          | _ => Ok {| sys_broker := b; sys_tasks := reg; sys_backend := sys_backend s |}
          end
      | Panic e => Panic e
      | _ => Ok s
      end
  | _ => Ok s
  end.

(** [tr.AsyncGet()]: the field [result] is never set. *)
Definition AsyncGet (s : System) (id : string) : outcome ResultMessage * System :=
  let '(r, m) := GetResult (sys_backend s) id in
  (r, {| sys_broker := sys_broker s; sys_tasks := sys_tasks s; sys_backend := m |}).

(** [tr.Get(timeout)]: the ticks before the timeout, what the others do to the system
    in between being [between]. The backend has no error but [ErrResultNotFound]. *)
Fixpoint Get (ticks : nat) (between : nat -> System -> System) (s : System) (id : string)
    : outcome ResultMessage * System :=
  match ticks with
  | O => (Err "timeout result", s)
  | S n =>
      let '(r, s) := AsyncGet (between n s) id in
      match r with
      | Err _ => Get n between s id
      | r => (r, s)
      end
  end.

Definition Register (s : System) (name : string) (t : Registered) : System :=
  {| sys_broker := sys_broker s; sys_tasks := <[name := t]> (sys_tasks s : gmap string Registered);
     sys_backend := sys_backend s |}.

(** ** The abstract system

    Tasks wait in the order they were submitted, with the values JSON makes of their
    arguments; the first is run and its result kept until it is taken, once. There is
    no encoding, no channel and no broker message. *)
Record Spec := {
  sp_pending : list TaskMessage;
  sp_tasks : tasks;
  sp_results : gmap string ResultMessage
}.

Inductive label :=
  | LSubmit (t : TaskMessage)
  | LRun (t : TaskMessage) (stored : option ResultMessage)
  | LTake (id : string) (r : option ResultMessage)
  | LRegister (name : string) (t : Registered).

(** What running a task leaves to be taken: a result that is not nil. *)
Definition kept (r : outcome ResultMessage) : option ResultMessage :=
  match r with Ok m => if is_nil (rm_Result m) then None else Some m | _ => None end.

Inductive spec_step : Spec -> label -> Spec -> Prop :=
  | spec_submit p reg res t :
      spec_step (Build_Spec p reg res) (LSubmit t) (Build_Spec (p ++ [json_message t]) reg res)
  | spec_run now t p reg res r reg' :
      runTask now reg t = (r, reg') -> (forall e, r <> Panic e) ->
      spec_step (Build_Spec (t :: p) reg res) (LRun t (kept r))
        (Build_Spec p reg' (match kept r with Some m => <[tm_ID t := m]> res | None => res end))
  | spec_take p reg res id :
      spec_step (Build_Spec p reg res) (LTake id (res !! id)) (Build_Spec p reg (delete id res))
  | spec_register p reg res name t :
      spec_step (Build_Spec p reg res) (LRegister name t)
        (Build_Spec p (<[name := t]> (reg : gmap string Registered)) res).

Inductive spec_run_of : Spec -> list label -> Spec -> Prop :=
  | spec_done a : spec_run_of a [] a
  | spec_more a l b tr c : spec_step a l b -> spec_run_of b tr c -> spec_run_of a (l :: tr) c.

(** The steps of the system, a label where the abstract system has one. An identifier
    is a UUID, which JSON leaves as it is. *)
Inductive sys_step : System -> option label -> System -> Prop :=
  | sys_submit taker s t s' : json_string (tm_ID t) = tm_ID t ->
      submit taker s t = (Ok tt, s') -> sys_step s (Some (LSubmit t)) s'
  | sys_submit_fails taker s t e s' : submit taker s t = (Err e, s') -> sys_step s None s'
  | sys_idle now s s' : broker (sys_broker s) = [] -> tick now s = Ok s' -> sys_step s None s'
  | sys_tick now s s' bm q t r reg :
      broker (sys_broker s) = bm :: q -> Decode (bm_Value bm) = Ok t ->
      runTask now (sys_tasks s) t = (r, reg) -> tick now s = Ok s' ->
      sys_step s (Some (LRun t (kept r))) s'
  | sys_take s id r s' : AsyncGet s id = (r, s') ->
      sys_step s (Some (LTake id (match r with Ok m => Some m | _ => None end))) s'
  | sys_register s name t : sys_step s (Some (LRegister name t)) (Register s name t)
  | sys_close s b : Close (sys_broker s) = (Ok tt, b) ->
      sys_step s None {| sys_broker := b; sys_tasks := sys_tasks s; sys_backend := sys_backend s |}.

Inductive sys_run_of : System -> list label -> System -> Prop :=
  | sys_done s : sys_run_of s [] s
  | sys_more s l t tr u : sys_step s l t -> sys_run_of t tr u ->
      sys_run_of s (match l with Some l => l :: tr | None => tr end) u.

(** A broker message stands for the task it decodes to, under the same identifier. *)
Definition stands_for (bm : BrokerMessage) (t : TaskMessage) : Prop :=
  Decode (bm_Value bm) = Ok t /\ bm_ID bm = tm_ID t.
Record abstracts (s : System) (a : Spec) : Prop := {
  abs_pending : Forall2 stands_for (broker (sys_broker s)) (sp_pending a);
  abs_tasks : sys_tasks s = sp_tasks a;
  abs_results : sys_backend s = sp_results a
}.

Lemma submit_abstracts `{!TaskCodecLaws} taker s t s' a :
  json_string (tm_ID t) = tm_ID t -> submit taker s t = (Ok tt, s') -> abstracts s a ->
  abstracts s' (Build_Spec (sp_pending a ++ [json_message t]) (sp_tasks a) (sp_results a)).
Proof.
  unfold submit, SendMessage. intros Hid Hs [Hp Ht Hr].
  destruct (Encode t) as [v| | |] eqn:E; try done.
  destruct (closed _); [done|]. destruct (_ || _); [|done]. simplify_eq.
  constructor; [|done|done]. cbn. apply Forall2_app; [done|].
  constructor; [|done]. split; [by apply decode_encode|done].
Qed.

Lemma submit_fails taker s t e s' a : submit taker s t = (Err e, s') -> abstracts s a -> abstracts s' a.
Proof.
  unfold submit, SendMessage. intros Hs [Hp Ht Hr].
  destruct (Encode t); try (by simplify_eq; constructor).
  destruct (closed _); [done|]. destruct (_ || _); simplify_eq. by constructor.
Qed.

Lemma tick_abstracts now s s' bm q t r reg a :
  broker (sys_broker s) = bm :: q -> Decode (bm_Value bm) = Ok t ->
  runTask now (sys_tasks s) t = (r, reg) -> tick now s = Ok s' -> abstracts s a ->
  exists a', spec_step a (LRun t (kept r)) a' /\ abstracts s' a'.
Proof.
  intros Hq Hd Hrun Ht [Hp Htasks Hres]. destruct a as [p reg0 res]. cbn in *. subst reg0 res.
  rewrite Hq in Hp. inversion Hp as [|? t' ? p' [Hd' Hid] Hp']; subst.
  assert (t' = t) as -> by congruence.
  unfold tick, GetMessage in Ht. rewrite Hq in Ht. cbn in Ht. rewrite Hd, Hrun in Ht.
  eexists. split.
  - apply spec_run with (now := now) (reg' := reg); [done|]. by intros e ->.
  - unfold kept. rewrite <- Hid. destruct r as [m| | |]; simplify_eq; constructor; try done.
    cbn. unfold SetResult. by destruct (is_nil (rm_Result m)).
Qed.

Lemma sys_step_refines `{!TaskCodecLaws} s l s' a : sys_step s l s' -> abstracts s a ->
  exists a', abstracts s' a' /\
    match l with Some l => spec_step a l a' | None => a' = a end.
Proof.
  intros Hstep Ha. destruct Hstep as [taker s t s' Hs|taker s t e s' Hs|now s s' Hq Ht|now s s' bm q t r reg Hq Hd Hr Ht
    |s id r s' Hg|s name t|s b Hb].
  - eexists. split; [by eapply submit_abstracts|]. destruct a. constructor.
  - exists a. split; [by eapply submit_fails|done].
  - exists a. split; [|done]. destruct Ha as [Hp Htasks Hres].
    unfold tick, GetMessage in Ht. rewrite Hq in Ht.
    destruct (closed _); simplify_eq; constructor; cbn; by rewrite ?Hq in *.
  - edestruct tick_abstracts as (a' & Hstep & Ha'); eauto.
  - destruct a as [p reg res], Ha as [Hp Htasks Hres]. cbn in *.
    unfold AsyncGet, GetResult in Hg. rewrite Hres in Hg.
    exists (Build_Spec p reg (delete id res)).
    assert (Hl : match r with Ok m => Some m | _ => None end = res !! id).
    { by destruct (res !! id); simplify_eq. }
    rewrite Hl. split; [|constructor].
    destruct (res !! id) eqn:E; simplify_eq; constructor; cbn; try done.
    by rewrite delete_id.
  - destruct a as [p reg res], Ha as [Hp Htasks Hres]. cbn in *. subst.
    eexists. split; [|constructor]. by constructor.
  - exists a. split; [|done]. unfold Close in Hb. destruct (closed _); simplify_eq.
    destruct Ha. by constructor.
Qed.

(** C4. The task system refines a queue: whatever is submitted, run, taken, registered
    or closed, in any order, from a system with an empty channel, the same submissions, runs and results, in the same
    order, are a run of the abstract system, which has neither encoding nor broker: tasks
    run first in first out, each with its arguments as JSON gives them, and a result is given to
    the first who asks for it and to nobody after. *)
Theorem task_system_refines `{!TaskCodecLaws} cache (reg : tasks) tr s :
  sys_run_of {| sys_broker := NewChannelBroker cache; sys_tasks := reg; sys_backend := ∅ |} tr s ->
  exists a, spec_run_of (Build_Spec [] reg ∅) tr a /\ abstracts s a.
Proof.
  intros Hrun.
  assert (Hab : abstracts {| sys_broker := NewChannelBroker cache; sys_tasks := reg;
                             sys_backend := ∅ |} (Build_Spec [] reg ∅)) by (by constructor).
  revert Hab. generalize (Build_Spec [] reg ∅).
  induction Hrun as [s|s l t tr u Hstep _ IH]; intros a Ha.
  - exists a. split; [constructor|done].
  - destruct (sys_step_refines _ _ _ _ Hstep Ha) as (b & Hb & Hl).
    destruct (IH b Hb) as (c & Hc & Hu). exists c. split; [|done].
    destruct l; [by eapply spec_more|by subst].
Qed.
End worker.

(** ** Witnesses and examples *)

(** A codec that knows one task. *)
Definition ping : TaskMessage := task_of "id-1" "ping" [VString "a"].
Definition toy_codec : TaskCodec := {|
  json_Marshal m :=
    match tm_Args m, tm_Kwargs m, tm_Expires m with
    | Some [VString a], Some kw, None =>
        if (base.size kw =? 0)%nat && bool_decide (tm_ID m = "id-1") && bool_decide (tm_Name m = "ping")
           && bool_decide (tm_Retries m = 0) then Ok a else Err "unsupported"
    | _, _, _ => Err "unsupported"
    end;
  json_Unmarshal a := Ok (task_of "id-1" "ping" [VString a]);
  json_string s := s; json_value v := v; json_map m := m
|}.

Lemma toy_codec_laws : @TaskCodecLaws toy_codec.
Proof.
  constructor. intros [i n a kw r e] s. cbn -[base.size].
  destruct a as [[|[] [|]]|]; try done. destruct kw as [kw|]; [|done]. destruct e; [done|].
  destruct (Nat.eqb_spec (base.size kw) 0) as [Hkw|]; [|done].
  repeat case_bool_decide; cbn; try done. intros [= ->]. subst.
  apply map_size_empty_inv in Hkw. by subst.
Qed.

(** What the one task of the witness does: it returns its argument. *)
Definition echo : GoFunc :=
  {| ins := [TBasic KString];
     body ps := Ok [RVal (TBasic KString) (nth 0 ps VNil); RErr None] |}.
Definition echo_tasks : @tasks unit := {["ping" := RFunc echo]}.
Definition pong : ResultMessage :=
  {| rm_ID := "id-1"; rm_Status := TaskSuccess; rm_Traceback := ""; rm_Result := VString "a" |}.
Definition echo_trace : list (@label unit) :=
  [LSubmit ping; LRun ping (Some pong); LTake "id-1" (Some pong); LTake "id-1" None].

Lemma task_system_refines_witness :
  exists s a, @sys_run_of unit toy_codec
      {| sys_broker := NewChannelBroker 1; sys_tasks := echo_tasks; sys_backend := ∅ |} echo_trace s /\
    @spec_run_of unit toy_codec (Build_Spec [] echo_tasks ∅) echo_trace a /\ @abstracts unit toy_codec s a.
Proof.
  assert (Hrun : exists s, @sys_run_of unit toy_codec
      {| sys_broker := NewChannelBroker 1; sys_tasks := echo_tasks; sys_backend := ∅ |} echo_trace s).
  { eexists. unfold echo_trace.
    eapply (sys_more _ (Some _)); [apply (sys_submit false); [done|vm_compute; reflexivity]|].
    eapply (sys_more _ (Some (LRun ping (Some pong)))).
    { eapply (@sys_tick unit toy_codec 0 _ _ _ _ ping (Ok pong) echo_tasks);
        [reflexivity|reflexivity|vm_compute; reflexivity|vm_compute; reflexivity]. }
    eapply (sys_more _ (Some (LTake "id-1" (Some pong)))).
    { by apply (@sys_take unit toy_codec _ "id-1" (Ok pong)). }
    eapply (sys_more _ (Some (LTake "id-1" None))).
    { by apply (@sys_take unit toy_codec _ "id-1" (Err ErrResultNotFound)). }
    constructor. }
  destruct Hrun as [s Hrun].
  destruct (@task_system_refines unit toy_codec toy_codec_laws 1 echo_tasks echo_trace s Hrun) as [a Ha].
  exists s, a. split; [exact Hrun|exact Ha].
Defined.

Lemma task_call_types_witness :
  answered "id-1" [RVal (TBasic KString) (VString "a"); RErr None] (runTaskFunc echo "id-1" [VString "a"]) /\
  (exists e, runTaskFunc echo "id-1" [VNil] = Panic e) /\
  runTaskFunc echo "id-1" [] = Err ErrInvalidArgs.
Proof.
  split; [|split].
  - exact (proj2 (task_call_types echo "id-1" [VString "a"] eq_refl)).
  - exact (task_call_types echo "id-1" [VNil] eq_refl).
  - exact (task_call_types echo "id-1" [] eq_refl).
Defined.

(** A function of an int64 ends the process, whatever number it is given. *)
Example int64_parameter_panics f64 :
  exists e, runTaskFunc {| ins := [TBasic KInt64]; body _ := Ok [] |} "id" [VFloat64 f64] = Panic e.
Proof. by eexists. Qed.

(** A function with one result ends it as well. *)
Example single_result_panics :
  exists e, runTaskFunc {| ins := []; body _ := Ok [RErr None] |} "id" [] = Panic e.
Proof. by eexists. Qed.

(** [AddTask] with no arguments is never run: its nil slice is taken for malformed. *)
Lemma no_argument_task_never_runs {St} `{TaskCodecLaws} now (reg : @tasks St) id name :
  exists e, runTask now reg (json_message (task_of id name [])) = (Err e, reg).
Proof. by eexists. Qed.

(** The failure of a function whose value is an interface leaves nothing to be taken. *)
Example failure_lost :
  kept (runTaskFunc {| ins := []; body _ := Ok [RVal TAny VNil; RErr (Some "failed")] |} "id" [])
  = None.
Proof. reflexivity. Qed.
