(* ===== verification/TaskWorkers.v ===== *)
(** * task/worker.go: the workers as goroutines

    [StartWorker], [StopWorker] and the loop between them, for any number of workers on one
    broker and one backend, with producers, takers and registrations in between. The broker,
    the backend and the calls are those of Task; a registered object is shared by the
    workers that run it, so its two methods are two steps. *)

From Stdlib Require Import ZArith Lia String SpecFloat Permutation.
From stdpp Require Import base option list strings gmap fin_maps relations.
From S2P Require Import Prelude GoValue Reflect Task.

Local Open Scope string_scope.
Local Open Scope Z_scope.
Local Open Scope list_scope.

Section workers.
Context {St : Type} `{TaskCodec}.

(** What is registered: an object by its address, or a function. *)
Inductive entry := EAsync (o : nat) | EFunc (f : GoFunc) | ENil | EOther.
Context (methods : nat -> @AsyncTask St) (no_object : St).

(** Where the goroutine of a worker is: at its select, with a decoded message, with the task
    it looked up, between [ParseKwargs] and [RunTask], with a result to store, or returned. *)
Inductive phase :=
  | Waiting
  | Taken (bm : BrokerMessage) (t : TaskMessage)
  | Found (bm : BrokerMessage) (t : TaskMessage) (e : entry)
  | Parsed (bm : BrokerMessage) (t : TaskMessage) (o : nat)
  | Storing (bm : BrokerMessage) (r : ResultMessage)
  | Gone.

Record Worker := { cancelled : bool; at_ : phase }.

Inductive event :=
  | Registered_ (name : string) (e : entry)
  | Sent (bm : BrokerMessage)
  | Took (w : nat) (bm : BrokerMessage)
  | Finished (w : nat) (bm : BrokerMessage) (r : option ResultMessage)   (* nothing when it failed *)
  | Given (id : string) (r : ResultMessage).

Record System := {
  broker_ : channelBroker;
  registry : gmap string entry;
  objects : gmap nat St;
  backend : mapBackend;
  workers : list Worker;
  cancel : option nat;             (* the worker the field [cancel] cancels *)
  crashed : bool;
  log : list event
}.

Definition init (cache : nat) (objs : gmap nat St) : System :=
  {| broker_ := NewChannelBroker cache; registry := ∅; objects := objs; backend := (∅ : gmap string ResultMessage); workers := [];
     cancel := None; crashed := false; log := [] |}.

(** ** Operations *)

Definition add_log (es : list event) (s : System) : System :=
  {| broker_ := broker_ s; registry := registry s; objects := objects s; backend := backend s;
     workers := workers s; cancel := cancel s; crashed := crashed s; log := log s ++ es |}.
Definition set_broker (b : channelBroker) (s : System) : System :=
  {| broker_ := b; registry := registry s; objects := objects s; backend := backend s;
     workers := workers s; cancel := cancel s; crashed := crashed s; log := log s |}.
Definition set_backend (m : mapBackend) (s : System) : System :=
  {| broker_ := broker_ s; registry := registry s; objects := objects s; backend := m;
     workers := workers s; cancel := cancel s; crashed := crashed s; log := log s |}.
Definition set_object (o : nat) (x : St) (s : System) : System :=
  {| broker_ := broker_ s; registry := registry s; objects := <[o := x]> (objects s);
     backend := backend s; workers := workers s; cancel := cancel s; crashed := crashed s;
     log := log s |}.
Definition set_workers (ws : list Worker) (s : System) : System :=
  {| broker_ := broker_ s; registry := registry s; objects := objects s; backend := backend s;
     workers := ws; cancel := cancel s; crashed := crashed s; log := log s |}.
Definition crash (s : System) : System :=
  {| broker_ := broker_ s; registry := registry s; objects := objects s; backend := backend s;
     workers := workers s; cancel := cancel s; crashed := true; log := log s |}.

(** The goroutine [i] moves on. *)
Definition move (i : nat) (p : phase) (s : System) : System :=
  set_workers (alter (fun w => {| cancelled := cancelled w; at_ := p |}) i (workers s)) s.
(** It is done with a message. *)
Definition finish (i : nat) (bm : BrokerMessage) (r : option ResultMessage) (s : System) : System :=
  add_log [Finished i bm r] (move i Waiting s).

(** [StartWorker(ctx)]: the field [cancel] is overwritten. *)
Definition StartWorker (s : System) : System :=
  {| broker_ := broker_ s; registry := registry s; objects := objects s; backend := backend s;
     workers := workers s ++ [{| cancelled := false; at_ := Waiting |}];
     cancel := Some (length (workers s)); crashed := crashed s; log := log s |}.

Definition cancel_worker (i : nat) (s : System) : System :=
  set_workers (alter (fun w => {| cancelled := true; at_ := at_ w |}) i (workers s)) s.

(** [StopWorker()]; the field is nil before any start. *)
Definition StopWorker (s : System) : System :=
  match cancel s with Some i => cancel_worker i s | None => crash s end.

(** [Register(name, task)] *)
Definition Register (name : string) (e : entry) (s : System) : System :=
  add_log [Registered_ name e]
    {| broker_ := broker_ s; registry := <[name := e]> (registry s); objects := objects s;
       backend := backend s; workers := workers s; cancel := cancel s; crashed := crashed s;
       log := log s |}.

(** [getTask(name)] *)
Definition getTask (s : System) (name : string) : option entry :=
  match registry s !! name with
  | None | Some ENil => None
  | Some e => Some e
  end.

(** The tick: a message is taken and decoded. *)
Definition take (i : nat) (s : System) : System :=
  let '(got, b) := GetMessage (broker_ s) in
  match got with
  | Ok (Some bm) =>
      let s := add_log [Took i bm] (set_broker b s) in
      match Decode (bm_Value bm) with
      | Ok t => move i (Taken bm t) s
      | Panic _ => crash s
      | _ => finish i bm None s
      end
  | _ => s
  end.

(** [runTask] up to the task. *)
Definition look (i : nat) (now : Z) (bm : BrokerMessage) (t : TaskMessage) (s : System) : System :=
  let expired := match tm_Expires t with Some e => e <? now | None => false end in
  if expired then finish i bm None s
  else match tm_Args t with
  | None => finish i bm None s
  | Some _ =>
      match getTask s (tm_Name t) with
      | None => finish i bm None s
      | Some e => move i (Found bm t e) s
      end
  end.

Definition object (o : nat) (s : System) : St := default no_object (objects s !! o).

(** A result is stored unless its value is nil. *)
Definition ran (i : nat) (bm : BrokerMessage) (r : outcome ResultMessage) (s : System) : System :=
  match r with
  | Ok r => move i (Storing bm r) s
  | Panic _ => crash s
  | _ => finish i bm None s
  end.

(** The call of a function, or [ParseKwargs] of an object. *)
Definition call (i : nat) (bm : BrokerMessage) (t : TaskMessage) (e : entry) (s : System) : System :=
  match e with
  | EFunc f => ran i bm (runTaskFunc f (tm_ID t) (default [] (tm_Args t))) s
  | EAsync o =>
      let '(x, parsed) := ParseKwargs (methods o) (object o s) (tm_Kwargs t) in
      let s := set_object o x s in
      match parsed with
      | Ok _ => move i (Parsed bm t o) s
      | Panic _ => crash s
      | _ => finish i bm None s
      end
  | ENil | EOther => crash s
  end.

(** [RunTask] of the object. *)
Definition run_object (i : nat) (bm : BrokerMessage) (t : TaskMessage) (o : nat) (s : System) : System :=
  let '(x, (val, err)) := RunTask (methods o) (object o s) in
  move i (Storing bm {| rm_ID := tm_ID t;
                        rm_Status := match err with Some _ => TaskFail | None => TaskSuccess end;
                        rm_Traceback := default "" err; rm_Result := val |}) (set_object o x s).

Definition store (i : nat) (bm : BrokerMessage) (r : ResultMessage) (s : System) : System :=
  finish i bm (Some r)
    (if is_nil (rm_Result r) then s else set_backend (SetResult (backend s) (bm_ID bm) r) s).

(** [AsyncGet()] of a producer's result. *)
Definition give (id : string) (s : System) : System :=
  match GetResult (backend s) id with
  | (Ok r, m) => add_log [Given id r] (set_backend m s)
  | _ => s
  end.

(** [AddTask] and [AddTaskWithKey], with the encoded message; [taker] as in [SendMessage]. *)
Definition send (taker : bool) (bm : BrokerMessage) (s : System) : System :=
  match SendMessage taker (broker_ s) bm with
  | (Ok _, b) => add_log [Sent bm] (set_broker b s)
  | (Panic _, _) => crash s
  | _ => s
  end.

Definition phase_of (i : nat) (s : System) : option phase := at_ <$> workers s !! i.

Inductive step (s : System) : System -> Prop :=
  | step_send taker t v : crashed s = false -> Encode t = Ok v ->
      (taker = true -> exists i, phase_of i s = Some Waiting) ->
      step s (send taker {| bm_ID := tm_ID t; bm_Value := v |} s)
  | step_register name e : crashed s = false -> step s (Register name e s)
  | step_give id : crashed s = false -> step s (give id s)
  | step_start : crashed s = false -> step s (StartWorker s)
  | step_stop : crashed s = false -> step s (StopWorker s)
  (* the context given to StartWorker ends *)
  | step_cancel i : crashed s = false -> step s (cancel_worker i s)
  | step_close b : crashed s = false -> Close (broker_ s) = (Ok tt, b) -> step s (set_broker b s)
  (* the select of the loop; a cancelled worker may still take a tick *)
  | step_gone i w : crashed s = false -> workers s !! i = Some w -> at_ w = Waiting ->
      cancelled w = true -> step s (move i Gone s)
  | step_take i : crashed s = false -> phase_of i s = Some Waiting -> step s (take i s)
  | step_look i now bm t : crashed s = false -> phase_of i s = Some (Taken bm t) -> step s (look i now bm t s)
  | step_call i bm t e : crashed s = false -> phase_of i s = Some (Found bm t e) -> step s (call i bm t e s)
  | step_run i bm t o : crashed s = false -> phase_of i s = Some (Parsed bm t o) -> step s (run_object i bm t o s)
  | step_store i bm r : crashed s = false -> phase_of i s = Some (Storing bm r) -> step s (store i bm r s).

Definition reachable (s : System) : Prop := exists cache objs, rtc step (init cache objs) s.

(** ** What the log says *)

Definition sent (l : list event) : list BrokerMessage :=
  omap (fun e => match e with Sent bm => Some bm | _ => None end) l.
Definition took (l : list event) : list BrokerMessage :=
  omap (fun e => match e with Took _ bm => Some bm | _ => None end) l.
Definition finished (l : list event) : list BrokerMessage :=
  omap (fun e => match e with Finished _ bm _ => Some bm | _ => None end) l.
Definition given (l : list event) : list string :=
  omap (fun e => match e with Given id _ => Some id | _ => None end) l.

(** The message a goroutine works on. *)
Definition held (p : phase) : list BrokerMessage :=
  match p with
  | Taken bm _ | Found bm _ _ | Parsed bm _ _ | Storing bm _ => [bm]
  | Waiting | Gone => []
  end.
Definition in_progress (s : System) : list BrokerMessage := mjoin (held ∘ at_ <$> workers s).

(** A result is right for a message: it is that of a function registered under the name of
    the task, with its arguments, or an object was registered under the name. *)
Definition right (l : list event) (bm : BrokerMessage) (r : ResultMessage) : Prop :=
  exists t, Decode (bm_Value bm) = Ok t /\
    ((exists f args, Registered_ (tm_Name t) (EFunc f) ∈ l /\ tm_Args t = Some args /\
        runTaskFunc f (tm_ID t) args = Ok r) \/
     exists o, Registered_ (tm_Name t) (EAsync o) ∈ l).

#[local] Arguments sent : simpl never.
#[local] Arguments took : simpl never.
#[local] Arguments finished : simpl never.
#[local] Arguments given : simpl never.
#[local] Arguments SetResult : simpl never.

(** ** The invariant *)

(** What a goroutine holds comes from its message. *)
Definition phase_ok (l : list event) (p : phase) : Prop :=
  match p with
  | Taken bm t => Decode (bm_Value bm) = Ok t
  | Found bm t e => Decode (bm_Value bm) = Ok t /\ tm_Args t <> None /\ Registered_ (tm_Name t) e ∈ l
  | Parsed bm t o => Decode (bm_Value bm) = Ok t /\ Registered_ (tm_Name t) (EAsync o) ∈ l
  | Storing bm r => right l bm r
  | Waiting | Gone => True
  end.

(** A result under [id] is one a worker finished a message of that id with. *)
Definition earned (l : list event) (id : string) (r : ResultMessage) : Prop :=
  exists w bm, Finished w bm (Some r) ∈ l /\ bm_ID bm = id.

(** What the parts of a state owe to the log. *)
Record sound (l : list event) (reg : gmap string entry) (ws : list Worker) (m : mapBackend) : Prop := {
  i_registry : forall name e, reg !! name = Some e -> Registered_ name e ∈ l;
  i_phases : Forall (fun w => phase_ok l (at_ w)) ws;
  i_finished : forall w bm r, Finished w bm (Some r) ∈ l -> right l bm r;
  i_backend : forall id r, (m : gmap string ResultMessage) !! id = Some r -> earned l id r;
  i_given : forall id r, Given id r ∈ l -> earned l id r
}.

Record inv (s : System) : Prop := {
  i_fifo : sent (log s) = took (log s) ++ broker (broker_ s);
  i_perm : crashed s = false -> took (log s) ≡ₚ in_progress s ++ finished (log s);
  i_sound : sound (log s) (registry s) (workers s) (backend s);
  (* a result is in the backend or has been given, not both, when identifiers differ *)
  i_once : crashed s = false -> NoDup (bm_ID <$> sent (log s)) ->
    NoDup (given (log s)) /\ forall id, id ∈ given (log s) -> (backend s : gmap string ResultMessage) !! id = None
}.

Lemma w_sent_app l k : sent (l ++ k) = sent l ++ sent k.
Proof. apply omap_app. Qed.
Lemma took_app l k : took (l ++ k) = took l ++ took k.
Proof. apply omap_app. Qed.
Lemma finished_app l k : finished (l ++ k) = finished l ++ finished k.
Proof. apply omap_app. Qed.
Lemma given_app l k : given (l ++ k) = given l ++ given k.
Proof. apply omap_app. Qed.

Lemma right_mono l k bm r : right l bm r -> right (l ++ k) bm r.
Proof.
  intros (t & Ht & [(f & args & Hr & H1 & H2)|(o & Ho)]); exists t; (split; [done|]);
    [left; exists f, args|right; exists o]; set_solver.
Qed.
Lemma phase_ok_mono l k p : phase_ok l p -> phase_ok (l ++ k) p.
Proof.
  destruct p; cbn; try done; try (intuition; set_solver). apply right_mono.
Qed.
Lemma earned_mono l k id r : earned l id r -> earned (l ++ k) id r.
Proof. intros (w & bm & Hf & Hi). exists w, bm. split; [set_solver|done]. Qed.
Lemma phases_mono l k (ws : list Worker) :
  Forall (fun w => phase_ok l (at_ w)) ws -> Forall (fun w => phase_ok (l ++ k) (at_ w)) ws.
Proof. intros Hf. eapply Forall_impl; [exact Hf|]. intros w. apply phase_ok_mono. Qed.

Lemma finished_in l w bm r : Finished w bm r ∈ l -> bm ∈ finished l.
Proof. intros Hf. apply list_elem_of_omap. eexists. split; [exact Hf|done]. Qed.
Lemma given_in l id : id ∈ given l -> exists r, Given id r ∈ l.
Proof.
  intros (e & He & Hs)%list_elem_of_omap. destruct e; simplify_eq. eauto.
Qed.

(** Events that give no result change nothing. *)
Lemma sound_more l k reg ws m : sound l reg ws m ->
  (forall w bm r, Finished w bm (Some r) ∉ k) -> (forall id r, Given id r ∉ k) -> sound (l ++ k) reg ws m.
Proof.
  intros [] Hf Hg. constructor.
  - intros name e He. apply elem_of_app. left. auto.
  - by apply phases_mono.
  - intros w bm r [Hin|Hin]%elem_of_app; [apply right_mono; eauto|by apply Hf in Hin].
  - intros id r Hr. apply earned_mono. auto.
  - intros id r [Hin|Hin]%elem_of_app; [apply earned_mono; auto|by apply Hg in Hin].
Qed.

Lemma sound_phases l reg ws ws' m : sound l reg ws m -> Forall (fun w => phase_ok l (at_ w)) ws' -> sound l reg ws' m.
Proof. intros [] H1. by constructor. Qed.

Lemma w_inv_init cache objs : inv (init cache objs).
Proof.
  constructor; cbn; try done. constructor; try done.
  - intros w bm r Hin. by apply elem_of_nil in Hin.
  - intros id r Hin. by apply elem_of_nil in Hin.
Qed.

(** The work of one goroutine among that of all. *)
Lemma in_progress_split i p s : phase_of i s = Some p -> exists rest,
  in_progress s ≡ₚ held p ++ rest /\
  forall q, in_progress (move i q s) ≡ₚ held q ++ rest.
Proof.
  unfold phase_of. intros (w & Hw & ->)%fmap_Some.
  apply list_elem_of_split_length in Hw as (l1 & l2 & Hws & ->).
  exists (mjoin (held ∘ at_ <$> l1) ++ mjoin (held ∘ at_ <$> l2)). unfold in_progress. split.
  - rewrite Hws, fmap_app, join_app. cbn. by rewrite !app_assoc, (Permutation_app_comm (held _)).
  - intros q. cbn [move set_workers workers]. rewrite Hws.
    replace (length l1) with (length l1 + 0)%nat by lia. rewrite alter_app_r.
    rewrite fmap_app, join_app. cbn. by rewrite !app_assoc, (Permutation_app_comm (held _)).
Qed.

Lemma phase_ok_at i p s : inv s -> phase_of i s = Some p -> phase_ok (log s) p.
Proof.
  intros Hi (w & Hw & ->)%fmap_Some. by apply (Forall_lookup_1 _ _ _ _ (i_phases _ _ _ _ (i_sound s Hi)) Hw).
Qed.

Lemma move_phases l i q s : Forall (fun w => phase_ok l (at_ w)) (workers s) -> phase_ok l q ->
  Forall (fun w => phase_ok l (at_ w)) (workers (move i q s)).
Proof.
  intros Hw Hq. cbn. apply Forall_lookup. intros j w. rewrite list_lookup_alter. case_decide.
  - intros (w' & _ & ->)%fmap_Some. done.
  - intros Hj. exact (Forall_lookup_1 _ _ _ _ Hw Hj).
Qed.

(** *** Moves *)

Lemma w_inv_move i p q s : inv s -> phase_of i s = Some p -> held q = held p -> phase_ok (log s) q ->
  inv (move i q s).
Proof.
  intros Hi Hp Hq Hok. destruct (in_progress_split i p s Hp) as (rest & H1 & H2).
  destruct Hi. constructor; try done.
  - intros Hc. cbn [log]. rewrite (H2 q), Hq, <- H1. auto.
  - eapply sound_phases; [done|]. apply move_phases; [apply i_sound0|done].
Qed.

Lemma w_inv_crash s : inv s -> inv (crash s).
Proof. intros []. by constructor. Qed.

Lemma w_inv_set_object o x s : inv s -> inv (set_object o x s).
Proof. intros []. by constructor. Qed.

(** *** The end of a message *)

(** No result was given under the identifier of a message that is still worked on. *)
Lemma held_not_given s bm rest : inv s -> crashed s = false -> NoDup (bm_ID <$> sent (log s)) ->
  in_progress s ≡ₚ bm :: rest -> bm_ID bm ∉ given (log s).
Proof.
  intros Hi Hc Hn Hp Hg. apply given_in in Hg as (r & Hg).
  destruct (i_given _ _ _ _ (i_sound s Hi) _ _ Hg) as (w & bm' & Hf & Hid). apply finished_in in Hf.
  rewrite (i_fifo s Hi), fmap_app, NoDup_app in Hn. destruct Hn as [Hn _].
  rewrite (i_perm s Hi Hc), Hp in Hn. cbn in Hn. apply NoDup_cons in Hn as [Hn _].
  apply Hn. rewrite fmap_app, elem_of_app. right. rewrite <- Hid.
  by apply list_elem_of_fmap_2.
Qed.

Lemma log_finish i bm r s : log (finish i bm r s) = log s ++ [Finished i bm r].
Proof. done. Qed.

(** The result of a held message is stored, or there is none to store. *)
Lemma w_inv_finish i p bm r m s : inv s -> phase_of i s = Some p -> held p = [bm] ->
  (forall r', r = Some r' -> right (log s) bm r') ->
  (m = backend s \/ exists r', r = Some r' /\ m = SetResult (backend s) (bm_ID bm) r') ->
  crashed s = false -> inv (finish i bm r (set_backend m s)).
Proof.
  intros Hi Hp Hh Hr Hm Hc. destruct (in_progress_split i p s Hp) as (rest & H1 & H2).
  rewrite Hh in H1.
  assert (Hnew : forall id r', (m : gmap string ResultMessage) !! id = Some r' ->
    (backend s : gmap string ResultMessage) !! id = Some r' \/ r = Some r' /\ bm_ID bm = id).
  { intros id r'. destruct Hm as [->|(r0 & -> & ->)]; [auto|]. unfold SetResult.
    rewrite lookup_insert. case_decide; [|auto]. intros [= ->]. auto. }
  pose proof (held_not_given s bm rest Hi Hc) as Hng.
  destruct Hi. constructor; rewrite ?log_finish; cbn [broker_ registry backend crashed finish add_log move set_workers set_backend].
  - rewrite w_sent_app, took_app, !app_nil_r. done.
  - intros _. rewrite took_app, finished_app, app_nil_r, i_perm0, H1 by done.
    change (in_progress (finish i bm r (set_backend m s))) with (in_progress (move i Waiting s)).
    rewrite (H2 Waiting). cbn. by rewrite app_assoc, (Permutation_app_comm _ [bm]).
  - destruct i_sound0. constructor.
    + intros name e He. apply elem_of_app. left. auto.
    + apply phases_mono, (move_phases _ i Waiting s i_phases0 I).
    + intros w bm' r' [Hf|Hf%list_elem_of_singleton]%elem_of_app; apply right_mono; [eauto|].
      injection Hf as -> -> <-. by apply Hr.
    + intros id r' [Hb|[-> Hid]]%Hnew; [apply earned_mono; auto|].
      exists i, bm. split; [set_solver|done].
    + intros id r' Hg. apply earned_mono, i_given0. set_solver.
  - intros _. rewrite w_sent_app, given_app, !app_nil_r. intros Hn. destruct (i_once0 Hc Hn) as [Hg Hb].
    split; [done|]. intros id Hin. apply eq_None_not_Some. intros (r' & [Hs|[_ Hid]]%Hnew).
    + by rewrite Hb in Hs.
    + subst id. by apply (Hng Hn H1).
Qed.

Lemma w_inv_finish_none i p bm s : inv s -> phase_of i s = Some p -> held p = [bm] ->
  crashed s = false -> inv (finish i bm None s).
Proof.
  intros Hi Hp Hh Hc.
  assert (Hs : inv (finish i bm None (set_backend (backend s) s))) by
    (eapply w_inv_finish; eauto; done).
  destruct s; exact Hs.
Qed.

(** *** Messages in and out *)

(** A message is taken: it is worked on, or finished with at once. *)
Lemma w_inv_took i bm b es q s : inv s -> phase_of i s = Some Waiting -> crashed s = false ->
  broker (broker_ s) = bm :: broker b -> phase_ok (log s ++ es) q ->
  (es = [Took i bm] /\ held q = [bm] \/ es = [Took i bm; Finished i bm None] /\ held q = []) ->
  inv (add_log es (move i q (set_broker b s))).
Proof.
  intros Hi Hp Hc Hb Hq Hes. destruct (in_progress_split i Waiting s Hp) as (rest & H1 & H2).
  assert (He : sent es = [] /\ took es = [bm] /\ given es = [] /\ finished es ++ held q = [bm] /\
    (forall w bm' r, Finished w bm' (Some r) ∉ es) /\ (forall id r, Given id r ∉ es)).
  { destruct Hes as [[-> ->]|[-> ->]]; repeat split; try set_solver. }
  destruct He as (E1 & E2 & E3 & E4 & E5 & E6). destruct Hi.
  constructor; cbn [broker_ registry backend crashed log add_log move set_workers set_broker].
  - rewrite w_sent_app, took_app, E1, E2, i_fifo0, Hb, app_nil_r, <- app_assoc. done.
  - intros _. rewrite took_app, finished_app, E2, i_perm0 by done.
    change (in_progress (add_log es (move i q (set_broker b s)))) with (in_progress (move i q s)).
    rewrite (H2 q), H1. cbn [held app]. rewrite <- E4.
    rewrite (Permutation_app_comm (held q) rest), <- !app_assoc. apply Permutation_app_head.
    rewrite (app_assoc (held q)), (Permutation_app_comm (held q)), <- app_assoc.
    apply Permutation_app_head, Permutation_app_comm.
  - eapply sound_phases; [by apply sound_more|]. apply (move_phases _ i q s); [|done].
    apply phases_mono, i_sound0.
  - intros _. rewrite w_sent_app, given_app, E1, E3, !app_nil_r. auto.
Qed.

Lemma w_inv_take i s : inv s -> crashed s = false -> phase_of i s = Some Waiting -> inv (take i s).
Proof.
  intros Hi Hc Hp. unfold take, GetMessage. destruct (broker (broker_ s)) as [|bm q] eqn:Hb.
  { by destruct (closed (broker_ s)). }
  set (b := {| broker := q; cache := cache (broker_ s); closed := closed (broker_ s) |}).
  assert (Hfail : inv (finish i bm None (add_log [Took i bm] (set_broker b s)))).
  { pose proof (w_inv_took i bm b [Took i bm; Finished i bm None] Waiting s Hi Hp Hc Hb I
      (or_intror (conj eq_refl eq_refl))) as Ht.
    unfold finish, add_log, move, set_workers in *. cbn in *. by rewrite <- app_assoc. }
  destruct (Decode (bm_Value bm)) as [t|e|e|] eqn:Hd; try exact Hfail.
  - apply (w_inv_took i bm b [Took i bm] (Taken bm t) s); auto.
  - apply w_inv_crash in Hfail. destruct Hi. constructor; cbn; try done.
    + rewrite w_sent_app, took_app, app_nil_r, i_fifo0, Hb, <- app_assoc. done.
    + apply sound_more; [done|set_solver..].
Qed.

Lemma w_inv_send taker bm s : inv s -> inv (send taker bm s).
Proof.
  intros Hi. unfold send, SendMessage. destruct (closed (broker_ s)); [by apply w_inv_crash|].
  destruct (_ || _); [|done]. destruct Hi. constructor; cbn; try done.
  - rewrite w_sent_app, took_app, app_nil_r, i_fifo0, <- app_assoc. done.
  - intros Hc. rewrite took_app, finished_app, !app_nil_r. auto.
  - apply sound_more; [done|set_solver..].
  - intros Hc. rewrite w_sent_app, given_app, app_nil_r, fmap_app. intros [Hn _]%NoDup_app. auto.
Qed.

Lemma w_inv_register name e s : inv s -> inv (Register name e s).
Proof.
  intros []. constructor; cbn; try done.
  - rewrite w_sent_app, took_app, !app_nil_r. done.
  - intros Hc. rewrite took_app, finished_app, !app_nil_r. auto.
  - destruct (sound_more (log s) [Registered_ name e] (registry s) (workers s) (backend s) i_sound0)
      as [Hr Hw Hf Hb Hg]; [set_solver..|].
    constructor; try done. intros n e'. destruct (decide (name = n)) as [->|Hne].
    + rewrite lookup_insert_eq. intros [= ->]. set_solver.
    + rewrite lookup_insert_ne by done. auto.
  - intros Hc. rewrite w_sent_app, given_app, !app_nil_r. auto.
Qed.

Lemma w_inv_give id s : inv s -> inv (give id s).
Proof.
  intros Hi. unfold give, GetResult.
  destruct ((backend s : gmap string ResultMessage) !! id) as [r|] eqn:Hb; [|done].
  destruct Hi. constructor; cbn; try done.
  - rewrite w_sent_app, took_app, !app_nil_r. done.
  - intros Hc. rewrite took_app, finished_app, !app_nil_r. auto.
  - destruct i_sound0. constructor.
    + intros n e He. apply elem_of_app. left. auto.
    + by apply phases_mono.
    + intros w bm' r' [Hf|[=]%list_elem_of_singleton]%elem_of_app. apply right_mono. eauto.
    + intros id' r' [_ Hr]%lookup_delete_Some. apply earned_mono. auto.
    + intros id' r' [Hg|Hg%list_elem_of_singleton]%elem_of_app; apply earned_mono; [auto|].
      injection Hg as -> ->. auto.
  - intros Hc. rewrite w_sent_app, given_app, app_nil_r. intros Hn. destruct (i_once0 Hc Hn) as [Hg Hd].
    split.
    + apply NoDup_app. split; [done|]. split; [|apply NoDup_singleton].
      intros x Hx ->%list_elem_of_singleton. by rewrite (Hd _ Hx) in Hb.
    + intros x [Hx|Hx%list_elem_of_singleton]%elem_of_app.
      * apply lookup_delete_None. auto.
      * subst x. apply lookup_delete_eq.
Qed.

(** *** The loop of a worker *)

Lemma w_inv_ran i p bm r s : inv s -> crashed s = false -> phase_of i s = Some p -> held p = [bm] ->
  (forall r', r = Ok r' -> right (log s) bm r') -> inv (ran i bm r s).
Proof.
  intros Hi Hc Hp Hh Hr. destruct r as [r|e|e|]; cbn.
  - apply (w_inv_move i p); [done|done|by rewrite Hh|by apply Hr].
  - eapply w_inv_finish_none; eauto.
  - by apply w_inv_crash.
  - eapply w_inv_finish_none; eauto.
Qed.

Lemma w_inv_look i now bm t s : inv s -> crashed s = false -> phase_of i s = Some (Taken bm t) ->
  inv (look i now bm t s).
Proof.
  intros Hi Hc Hp. pose proof (phase_ok_at i _ s Hi Hp) as Hd. cbn in Hd. unfold look, getTask.
  destruct (match tm_Expires t with Some e => e <? now | None => false end);
    [by eapply w_inv_finish_none|].
  destruct (tm_Args t) as [args|] eqn:Ha; [|by eapply w_inv_finish_none].
  destruct (registry s !! tm_Name t) as [e|] eqn:Hr; [|by eapply w_inv_finish_none].
  pose proof (i_registry _ _ _ _ (i_sound s Hi) _ _ Hr) as Hin.
  assert (Hok : inv (move i (Found bm t e) s)).
  { eapply w_inv_move; [done|done|done|]. cbn. by rewrite Ha. }
  destruct e; try exact Hok. by eapply w_inv_finish_none.
Qed.

Lemma w_inv_call i bm t e s : inv s -> crashed s = false -> phase_of i s = Some (Found bm t e) ->
  inv (call i bm t e s).
Proof.
  intros Hi Hc Hp. destruct (phase_ok_at i _ s Hi Hp) as (Hd & Ha & Hin).
  destruct e as [o|f| |]; cbn; try by apply w_inv_crash.
  - destruct (ParseKwargs _ _ _) as [x [u|e|e|]].
    + eapply w_inv_move; [by apply w_inv_set_object|exact Hp|done|by split].
    + eapply w_inv_finish_none; [by apply w_inv_set_object|exact Hp|done|done].
    + by apply w_inv_crash, w_inv_set_object.
    + eapply w_inv_finish_none; [by apply w_inv_set_object|exact Hp|done|done].
  - eapply w_inv_ran; eauto. intros r' Hr. exists t. split; [done|]. left.
    destruct (tm_Args t) as [args|] eqn:Ht; [|done]. exists f, args. done.
Qed.

Lemma w_inv_run_object i bm t o s : inv s -> phase_of i s = Some (Parsed bm t o) ->
  inv (run_object i bm t o s).
Proof.
  intros Hi Hp. destruct (phase_ok_at i _ s Hi Hp) as (Hd & Hin). unfold run_object.
  destruct (RunTask _ _) as [x [val err]].
  eapply w_inv_move; [by apply w_inv_set_object|exact Hp|done|].
  cbn. exists t. split; [done|]. right. eauto.
Qed.

Lemma w_inv_store i bm r s : inv s -> crashed s = false -> phase_of i s = Some (Storing bm r) ->
  inv (store i bm r s).
Proof.
  intros Hi Hc Hp. pose proof (phase_ok_at i _ s Hi Hp) as Hr. cbn in Hr. unfold store.
  destruct (is_nil (rm_Result r)).
  - assert (Hs : inv (finish i bm (Some r) (set_backend (backend s) s))).
    { apply (w_inv_finish i (Storing bm r)); auto. by intros r' [= <-]. }
    by destruct s.
  - apply (w_inv_finish i (Storing bm r)); eauto. by intros r' [= <-].
Qed.

Lemma w_inv_start s : inv s -> inv (StartWorker s).
Proof.
  intros []. constructor; try done.
  - intros Hc. unfold in_progress. cbn. rewrite fmap_app, join_app. cbn. rewrite app_nil_r. auto.
  - eapply sound_phases; [done|]. cbn. apply Forall_app. split; [apply i_sound0|by constructor].
Qed.

Lemma w_inv_cancel i s : inv s -> inv (cancel_worker i s).
Proof.
  intros Hi. unfold cancel_worker.
  assert (Hp : at_ <$> alter (fun w => {| cancelled := true; at_ := at_ w |}) i (workers s) = at_ <$> workers s).
  { apply list_eq. intros j. rewrite !list_lookup_fmap, list_lookup_alter.
    case_decide as Hj; [subst j|done]. by destruct (workers s !! i). }
  destruct Hi. constructor; try done.
  - intros Hc. unfold in_progress. cbn. rewrite list_fmap_compose, Hp, <- list_fmap_compose. auto.
  - eapply sound_phases; [done|]. cbn. apply Forall_lookup. intros j w.
    rewrite list_lookup_alter. pose proof (i_phases _ _ _ _ i_sound0) as Hw.
    case_decide; [intros (w' & Hj & ->)%fmap_Some|intros Hj]; exact (Forall_lookup_1 _ _ _ _ Hw Hj).
Qed.

Lemma w_inv_step s s' : step s s' -> inv s -> inv s'.
Proof.
  destruct 1 as [t v Hc He|name e Hc|id Hc|Hc|Hc|i Hc|b Hc Hb|i w Hc Hw Ha Hca|i Hc Hp|i now bm t Hc Hp
    |i bm t e Hc Hp|i bm t o Hc Hp|i bm r Hc Hp]; intros Hi;
    eauto using w_inv_send, w_inv_register, w_inv_give, w_inv_start, w_inv_cancel, w_inv_take, w_inv_look, w_inv_call,
      w_inv_run_object, w_inv_store.
  - unfold StopWorker. destruct (cancel s); [by apply w_inv_cancel|by apply w_inv_crash].
  - unfold Close in Hb. destruct (closed (broker_ s)); simplify_eq. by destruct Hi.
  - apply (w_inv_move i Waiting); try done. unfold phase_of. rewrite Hw. cbn. by rewrite Ha.
Qed.

Lemma workers_inv s : reachable s -> inv s.
Proof.
  intros (cache & objs & Hr). exact (rtc_preserves step inv w_inv_step _ _ Hr (w_inv_init cache objs)).
Qed.

(** C5. However many workers share a broker and however they interleave with producers,
    registrations, takers and stops: messages leave the broker in the order they were sent,
    each to one worker; while the process lives every message taken is being worked on or
    finished with, once; a result is that of a function registered under the name of the
    task, called with its arguments, or comes of an object registered under it; and every
    result a taker is given is such a result for its identifier, given once when
    identifiers differ. *)
Theorem workers_run_once s : reachable s ->
  sent (log s) = took (log s) ++ broker (broker_ s) /\
  (crashed s = false -> took (log s) ≡ₚ in_progress s ++ finished (log s)) /\
  (forall id r, Given id r ∈ log s -> exists w bm, Finished w bm (Some r) ∈ log s /\ bm_ID bm = id /\
     right (log s) bm r) /\
  (crashed s = false -> NoDup (bm_ID <$> sent (log s)) -> NoDup (given (log s))).
Proof.
  intros Hi%workers_inv. split; [apply Hi|]. split; [apply Hi|]. split.
  - intros id r Hg. destruct (i_given _ _ _ _ (i_sound s Hi) _ _ Hg) as (w & bm & Hf & Hid).
    exists w, bm. split; [done|]. split; [done|]. exact (i_finished _ _ _ _ (i_sound s Hi) _ _ _ Hf).
  - intros Hc Hn. apply (i_once s Hi Hc Hn).
Qed.
End workers.

(** ** Witness and examples *)

#[local] Existing Instance toy_codec.

(** No objects. *)
Definition no_methods (o : nat) : @AsyncTask unit :=
  {| ParseKwargs x _ := (x, Ok tt); RunTask x := (x, (VNil, None)) |}.
Abbreviation estep := (step no_methods tt).

Definition ping_message : BrokerMessage :=
  {| bm_ID := "id-1"; bm_Value := match Encode ping with Ok v => v | _ => "" end |}.
Definition begun : @System unit := send false ping_message (StartWorker (Register "ping" (EFunc echo) (init 1 ∅))).
Definition taken : @System unit := look 0 0 ping_message ping (take 0 begun).
Definition stored : @System unit :=
  store 0 ping_message pong (call no_methods tt 0 ping_message ping (EFunc echo) taken).
Definition answered : @System unit := give "id-1" stored.

Tactic Notation "next" uconstr(c) := eapply rtc_l; [eapply c; vm_compute; solve [reflexivity|discriminate]|].

Lemma answered_reachable : reachable no_methods tt answered.
Proof.
  exists 1%nat, ∅. next (step_register no_methods tt (init 1 ∅) "ping" (EFunc echo)).
  next (step_start no_methods tt). next (step_send no_methods tt _ false ping (bm_Value ping_message)).
  next (step_take no_methods tt begun 0%nat). next (step_look no_methods tt _ 0%nat 0 ping_message ping).
  next (step_call no_methods tt taken 0%nat ping_message ping (EFunc echo)).
  next (step_store no_methods tt _ 0%nat ping_message pong). next (step_give no_methods tt stored "id-1").
  apply rtc_refl.
Qed.

Lemma workers_run_once_witness :
  log answered = log stored ++ [Given "id-1" pong] /\
  (exists w bm, Finished w bm (Some pong) ∈ log answered /\ bm_ID bm = "id-1" /\ right (log answered) bm pong).
Proof.
  split; [vm_compute; reflexivity|].
  apply (workers_run_once no_methods tt answered answered_reachable).
  apply list_elem_of_lookup_2 with 4%nat. vm_compute. reflexivity.
Defined.

(** Two starts: the first worker is not stopped by [StopWorker], and takes the message. *)
Example first_worker_survives :
  let s := StopWorker (StartWorker (StartWorker (Register "ping" (EFunc echo) (init 1 ∅)))) in
  cancelled <$> workers s = [false; true] /\
  exists s', rtc estep s s' /\ took (log s') = [ping_message].
Proof.
  split; [reflexivity|]. eexists. split.
  - next (step_send no_methods tt _ false ping). next (step_take no_methods tt _ 0%nat). apply rtc_refl.
  - vm_compute. reflexivity.
Qed.

(** Tasks of one registered object, which keeps what [ParseKwargs] was given. *)
Definition remembering (o : nat) : @AsyncTask GoVal :=
  {| ParseKwargs _ kw := (default VNil (mget kw "k"), Ok tt); RunTask x := (x, (x, None)) |}.
Definition keyed (id : string) : TaskMessage := task_with_key id "remember" (Some {["k" := VString id]}).
Definition keyed_codec : TaskCodec := {|
  json_Marshal m := Ok (tm_ID m);
  json_Unmarshal id := Ok (keyed id);
  json_string s := s; json_value v := v; json_map m := m
|}.
Definition keyed_message (id : string) : BrokerMessage :=
  {| bm_ID := id; bm_Value := match @Encode keyed_codec (keyed id) with Ok v => v | _ => "" end |}.

(** Two workers run tasks of one object at the same time: the first gets the arguments of
    the second. *)
Example workers_mix_arguments :
  exists s, @reachable GoVal keyed_codec remembering VNil s /\
    exists w r, Finished w (keyed_message "a") (Some r) ∈ log s /\ rm_Result r = VString "b".
Proof.
  eexists. split.
  - exists 2%nat, ∅.
    next (@step_register GoVal keyed_codec remembering VNil (init 2 ∅) "remember" (EAsync 0)).
    next (@step_start GoVal keyed_codec). next (@step_start GoVal keyed_codec).
    next (@step_send GoVal keyed_codec remembering VNil _ false (keyed "a")).
    next (@step_send GoVal keyed_codec remembering VNil _ false (keyed "b")).
    next (@step_take GoVal keyed_codec remembering VNil _ 0%nat).
    next (@step_take GoVal keyed_codec remembering VNil _ 1%nat).
    next (@step_look GoVal keyed_codec remembering VNil _ 0%nat 0).
    next (@step_look GoVal keyed_codec remembering VNil _ 1%nat 0).
    next (@step_call GoVal keyed_codec remembering VNil _ 0%nat).
    next (@step_call GoVal keyed_codec remembering VNil _ 1%nat).
    next (@step_run GoVal keyed_codec remembering VNil _ 0%nat).
    next (@step_store GoVal keyed_codec remembering VNil _ 0%nat). apply rtc_refl.
  - eexists 0%nat, _. split; [apply list_elem_of_lookup_2 with 5%nat; vm_compute; reflexivity|reflexivity].
Qed.

(** A broker of no capacity: a message is handed over to a worker that waits for one. *)
Example handed_over :
  exists s, reachable no_methods tt s /\ cache (broker_ s) = 0%nat /\ took (log s) = [ping_message].
Proof.
  eexists. split; [exists 0%nat, ∅|].
  - next (step_start no_methods tt (init 0 ∅)).
    eapply rtc_l; [apply (step_send no_methods tt _ true ping (bm_Value ping_message)); [done|vm_compute; reflexivity|by exists 0%nat]|].
    next (step_take no_methods tt _ 0%nat). apply rtc_refl.
  - split; vm_compute; reflexivity.
Qed.
