(* ===== verification/Trigger.v ===== *)
(** * Event triggers

    trigger/trigger.go: functions registered by name with some of their arguments, and
    executed by reflection with the others, in the caller's goroutine or in one of its
    own, where a panic is recovered. *)

From Stdlib Require Import ZArith Lia String.
From stdpp Require Import base option list strings gmap fin_maps.
From S2P Require Import Prelude GoValue Reflect.

Local Open Scope string_scope.
Local Open Scope list_scope.

(** What [EventFunc.Event] may hold: a function, a nil function, anything else. *)
Inductive Event := EFunc (f : GoFunc) | ENilFunc (params : list GoType) | EOther.
Record EventFunc := { ef_Args : list GoVal; ef_Event : Event }.

Definition eventTrigger : Type := gmap string EventFunc.

Definition Register (l : eventTrigger) (triggerName : string) (e : EventFunc)
    : outcome unit * eventTrigger :=
  match ef_Event e with
  | EOther => (Err "eventFuc is not func", l)
  | _ => (Ok tt, <[triggerName := e]> (l : gmap string EventFunc))
  end.

Definition NumIn (e : Event) : outcome nat :=
  match e with
  | EFunc f => Ok (length (ins f))
  | ENilFunc ps => Ok (length ps)
  | EOther => Panic "reflect: NumIn of non-func type"
  end.

(** What is called, with what, is part of the result. *)
Definition Exec (l : eventTrigger) (triggerName : string) (params : list GoVal)
    : outcome (list RetVal) :=
  match (l : gmap string EventFunc) !! triggerName with
  | None => Err "event func not exit"
  | Some f =>
      paramsNum ← NumIn (ef_Event f);
      if negb (length params + length (ef_Args f) =? paramsNum)%nat
      then Err "event params not enough"
      else match ef_Event f with
           | EFunc fn => Call fn (ef_Args f ++ params)
           | _ => Panic "reflect: call of nil function"
           end
  end.

(** [SyncExec] hands its parameters on as one slice; a panic ends its goroutine only. *)
Definition SyncExec (l : eventTrigger) (event : string) (params : list GoVal)
    : outcome (list RetVal) :=
  match Exec l event [VSlice params] with
  | Panic _ => Err "sync exec trigger error"
  | r => r
  end.

(** Only functions are ever registered. *)
Definition trigger_ok (l : eventTrigger) : Prop :=
  map_Forall (fun _ e => ef_Event e <> EOther) (l : gmap string EventFunc).

Lemma register_ok l n e : trigger_ok l -> trigger_ok (Register l n e).2.
Proof.
  unfold Register. intros Hl. destruct (ef_Event e) eqn:E; [| |done]; cbn;
    (apply map_Forall_insert_2; [by rewrite E|done]).
Qed.

Definition registers (l : eventTrigger) (es : list (string * EventFunc)) : eventTrigger :=
  foldl (fun l e => (Register l e.1 e.2).2) l es.

Lemma registers_ok l es : trigger_ok l -> trigger_ok (registers l es).
Proof. revert l. induction es as [|e es IH]; intros l Hl; [done|]. by apply IH, register_ok. Qed.

(** The last function registered under a name. *)
Lemma registers_lookup l es n e :
  ef_Event e <> EOther ->
  (registers l (es ++ [(n, e)]) : gmap string EventFunc) !! n = Some e.
Proof.
  intros He. unfold registers. rewrite foldl_app. cbn. unfold Register.
  destruct (ef_Event e); [| |done]; apply lookup_insert_eq.
Qed.

(** Exec from registered functions: the function is called, with the bound arguments
    before the others, exactly when the arguments are as many as its parameters; it
    panics only where the call panics. *)
Lemma exec_calls es n f args params :
  Exec (registers ∅ (es ++ [(n, {| ef_Args := args; ef_Event := EFunc f |})])) n params =
  if (length params + length args =? length (ins f))%nat
  then Call f (args ++ params) else Err "event params not enough".
Proof.
  unfold Exec. rewrite registers_lookup by done. cbn [ef_Event ef_Args NumIn mbind outcome_bind].
  by destruct (_ =? _)%nat.
Qed.

Lemma exec_unknown es n params : Forall (fun e => e.1 <> n) es ->
  Exec (registers ∅ es) n params = Err "event func not exit".
Proof.
  intros Hes. unfold Exec.
  assert (Hn : (registers ∅ es : gmap string EventFunc) !! n = None); [|by rewrite Hn].
  assert (Hl : ((∅ : eventTrigger) : gmap string EventFunc) !! n = None) by apply lookup_empty.
  revert Hl. generalize (∅ : eventTrigger).
  induction Hes as [|[m e] es Hm _ IH]; intros l Hl; [done|]. cbn. apply IH. unfold Register.
  destruct (ef_Event e); cbn; try done; by rewrite lookup_insert_ne.
Qed.

(** Whatever is registered, SyncExec does not panic; and with any number of parameters
    but one, parameters that Exec accepts are an error for SyncExec, which calls
    nothing. *)
Lemma sync_exec_never_panics l n params : panics (SyncExec l n params) = false.
Proof. unfold SyncExec. by destruct (Exec _ _ _). Qed.

Lemma sync_exec_arity es n f args params :
  (length params + length args = length (ins f))%nat -> length params <> 1%nat ->
  SyncExec (registers ∅ (es ++ [(n, {| ef_Args := args; ef_Event := EFunc f |})])) n params
  = Err "event params not enough".
Proof.
  intros Hlen Hne. unfold SyncExec. rewrite exec_calls.
  destruct (Nat.eqb_spec (length [VSlice params] + length args) (length (ins f))) as [E|]; [|done].
  cbn in E. lia.
Qed.

(** With one parameter, it is a slice of it that the function is given. *)
Lemma sync_exec_one es n f args v :
  (1 + length args = length (ins f))%nat ->
  SyncExec (registers ∅ (es ++ [(n, {| ef_Args := args; ef_Event := EFunc f |})])) n [v]
  = match Call f (args ++ [VSlice [v]]) with Panic _ => Err "sync exec trigger error" | r => r end.
Proof.
  intros Hlen. unfold SyncExec. rewrite exec_calls. cbn [length].
  by rewrite (proj2 (Nat.eqb_eq (1 + length args) _) Hlen).
Qed.

(** The functions of the package's test. *)
Definition sum : GoFunc :=
  {| ins := [TBasic KInt; TBasic KInt];
     body ps := match ps with
                | [VInt _ a; VInt _ b] => Ok [RVal (TBasic KInt) (VInt KInt (int64 (a + b)%Z))]
                | _ => Panic "unreachable"
                end |}.

Example exec_sum :
  Exec (registers ∅ [("addFunc", {| ef_Args := [VInt KInt 1]; ef_Event := EFunc sum |})])
    "addFunc" [VInt KInt 2] = Ok [RVal (TBasic KInt) (VInt KInt 3)].
Proof. vm_compute. reflexivity. Qed.

Example sync_exec_sum :
  SyncExec (registers ∅ [("addFuncB", {| ef_Args := []; ef_Event := EFunc sum |})])
    "addFuncB" [VInt KInt 2; VInt KInt 4] = Err "event params not enough".
Proof. vm_compute. reflexivity. Qed.
