(* ===== verification/Plugin.v ===== *)
(** * Plugins

    plugin/register.go: factories by name and the plugins they made, in two concurrent
    maps. The callers of RegisterFactory, GetPlugin and ClosePlugins are threads that take one map
    operation, factory call or Close at a time, in any order; every plugin made has a
    number of its own. *)

From Stdlib Require Import ZArith Lia String Permutation.
From stdpp Require Import base option list strings gmap fin_maps relations.
From S2P Require Import Prelude GoStrings.

Local Open Scope string_scope.
Local Open Scope list_scope.

Section plugin.
(** The lower case of a string that is not ASCII, and the factories. *)
Context (unicode_lower : string -> string) {Factory : Type}.

Abbreviation plugin := nat.

(** The two maps, and what happened to the plugins: how many were made, which GetPlugin
    closed again, and which ClosePlugins closed, in order. *)
Record Shared := {
  pluginFactory : gmap string Factory;
  plugins : gmap string plugin;
  made : nat;
  discarded : list plugin;
  shut : list plugin
}.

(** Where a caller is. *)
Inductive Caller :=
  | RLoad (name : string) (f : Factory)
  | RStore (name : string) (f : Factory)
  | RDone
  | GLoad (name : string)
  | GFactory (name : string)
  | GCreate (name : string) (f : Factory)
  | GStore (name : string) (p : plugin)
  | GClose (name : string) (p act : plugin)
  | GDone (name : string) (r : outcome plugin)
  | CRange (todo seen : gset string)
  | CDone.

Definition RegisterFactory (name : string) (f : Factory) : Caller := RLoad name f.
Definition GetPlugin (name : string) : Caller := GLoad (ToLower unicode_lower name).
Definition ClosePlugins (s : Shared) : Caller := CRange (dom (plugins s)) ∅.

(** ** One operation of a caller *)

Definition load_factory (s : Shared) (name : string) (f : Factory) : Caller :=
  match pluginFactory s !! name with Some _ => RDone | None => RStore name f end.
Definition store_factory (s : Shared) (name : string) (f : Factory) : Shared :=
  {| pluginFactory := <[name := f]> (pluginFactory s); plugins := plugins s; made := made s;
     discarded := discarded s; shut := shut s |}.

Definition load_plugin (s : Shared) (name : string) : Caller :=
  match plugins s !! name with Some p => GDone name (Ok p) | None => GFactory name end.
Definition find_factory (s : Shared) (name : string) : Caller :=
  match pluginFactory s !! name with
  | Some f => GCreate name f
  | None => GDone name (Err "plugin not found")
  end.
Definition create (s : Shared) (name : string) (err : option error) : Caller * Shared :=
  match err with
  | Some e => (GDone name (Err e), s)
  | None => (GStore name (made s),
      {| pluginFactory := pluginFactory s; plugins := plugins s; made := S (made s);
         discarded := discarded s; shut := shut s |})
  end.
(** [plugins.LoadOrStore(name, p)] *)
Definition load_or_store (s : Shared) (name : string) (p : plugin) : Caller * Shared :=
  match plugins s !! name with
  | Some act => (GClose name p act, s)
  | None => (GDone name (Ok p),
      {| pluginFactory := pluginFactory s; plugins := <[name := p]> (plugins s); made := made s;
         discarded := discarded s; shut := shut s |})
  end.
Definition close_extra (s : Shared) (name : string) (p act : plugin) : Caller * Shared :=
  (GDone name (Ok act),
   {| pluginFactory := pluginFactory s; plugins := plugins s; made := made s;
      discarded := discarded s ++ [p]; shut := shut s |}).
(** Range visits a key of the map it has not seen; it ends when it has seen all that
    were there at its beginning. *)
Definition close_one (s : Shared) (todo seen : gset string) (name : string) (p : plugin)
    : Caller * Shared :=
  (CRange (todo ∖ {[name]}) ({[name]} ∪ seen),
   {| pluginFactory := pluginFactory s; plugins := plugins s; made := made s;
      discarded := discarded s; shut := shut s ++ [p] |}).

Inductive operation : Shared -> Caller -> Caller * Shared -> Prop :=
  | op_load_factory s n f : operation s (RLoad n f) (load_factory s n f, s)
  | op_store_factory s n f : operation s (RStore n f) (RDone, store_factory s n f)
  | op_load_plugin s n : operation s (GLoad n) (load_plugin s n, s)
  | op_find_factory s n : operation s (GFactory n) (find_factory s n, s)
  | op_create s n f err : operation s (GCreate n f) (create s n err)
  | op_load_or_store s n p : operation s (GStore n p) (load_or_store s n p)
  | op_close_extra s n p act : operation s (GClose n p act) (close_extra s n p act)
  | op_close_one s todo seen n p :
      plugins s !! n = Some p -> n ∉ seen ->
      operation s (CRange todo seen) (close_one s todo seen n p)
  | op_close_end s seen : operation s (CRange ∅ seen) (CDone, s).

(** ** The callers together *)

Record System := { shared : Shared; callers : gmap nat Caller }.
Definition start : System :=
  {| shared := {| pluginFactory := ∅; plugins := ∅; made := 0; discarded := []; shut := [] |};
     callers := ∅ |}.

Inductive step : System -> System -> Prop :=
  | step_register s t name f : callers s !! t = None ->
      step s {| shared := shared s; callers := <[t := RegisterFactory name f]> (callers s) |}
  | step_get s t name : callers s !! t = None ->
      step s {| shared := shared s; callers := <[t := GetPlugin name]> (callers s) |}
  | step_close s t : callers s !! t = None ->
      step s {| shared := shared s; callers := <[t := ClosePlugins (shared s)]> (callers s) |}
  | step_operation s t c r : callers s !! t = Some c -> operation (shared s) c r ->
      step s {| shared := r.2; callers := <[t := r.1]> (callers s) |}.
Definition reachable : System -> Prop := rtc step start.

(** The plugin a caller has made and not yet given away. *)
Definition held (c : Caller) : option plugin :=
  match c with GStore _ p | GClose _ p _ => Some p | _ => None end.
Definition held_by (cs : gmap nat Caller) : list plugin := omap held ((map_to_list cs).*2).
Definition registered (s : Shared) : list plugin := (map_to_list (plugins s)).*2.

(** What a caller knows: a plugin it has returned, or found, is the one of its name. *)
Definition caller_ok (s : Shared) (c : Caller) : Prop :=
  match c with
  | GClose n _ act | GDone n (Ok act) => plugins s !! n = Some act
  | _ => True
  end.

(** Every plugin made is in one place: the map, a caller's hands, or discarded. *)
Record Inv (s : System) : Prop := {
  inv_places : registered (shared s) ++ discarded (shared s) ++ held_by (callers s)
               ≡ₚ seq 0 (made (shared s));
  inv_callers : map_Forall (fun _ => caller_ok (shared s)) (callers s);
  inv_shut p : p ∈ shut (shared s) -> p ∈ registered (shared s)
}.

Lemma held_by_insert cs t c : cs !! t = None -> held_by (<[t := c]> cs) ≡ₚ option_list (held c) ++ held_by cs.
Proof.
  intros Ht. unfold held_by. rewrite map_to_list_insert by done. cbn. by destruct (held c).
Qed.

Lemma held_by_split cs t c : cs !! t = Some c ->
  held_by cs ≡ₚ option_list (held c) ++ held_by (delete t cs).
Proof.
  intros Ht. rewrite <- (insert_delete_id cs t c Ht) at 1.
  apply held_by_insert, lookup_delete_eq.
Qed.

Lemma held_by_update cs t c : held_by (<[t := c]> cs) ≡ₚ option_list (held c) ++ held_by (delete t cs).
Proof. rewrite <- insert_delete_eq. apply held_by_insert, lookup_delete_eq. Qed.

Lemma caller_ok_mono s s' c : plugins s ⊆ plugins s' -> caller_ok s c -> caller_ok s' c.
Proof.
  intros Hsub. destruct c as [| | | | | | | |n r| |]; cbn; try done.
  - intros. by eapply lookup_weaken.
  - destruct r; [|done..]. intros. by eapply lookup_weaken.
Qed.

Lemma elem_of_registered s p : p ∈ registered s <-> exists n, plugins s !! n = Some p.
Proof.
  unfold registered. rewrite list_elem_of_fmap. split.
  - intros ([n q] & -> & H%elem_of_map_to_list). eauto.
  - intros [n H]. exists (n, p). by rewrite elem_of_map_to_list.
Qed.

(** An operation keeps the places: with what the caller held before, and after. *)
Lemma operation_places s c c' s' rest : operation s c (c', s') ->
  registered s ++ discarded s ++ option_list (held c) ++ rest ≡ₚ seq 0 (made s) ->
  registered s' ++ discarded s' ++ option_list (held c') ++ rest ≡ₚ seq 0 (made s').
Proof.
  intros Hop Hp. inversion Hop; subst; cbn in *; try done.
  - unfold load_factory. by destruct (_ !! _).
  - unfold load_plugin. by destruct (_ !! _).
  - unfold find_factory. by destruct (_ !! _).
  - unfold create in *. destruct err; simplify_eq; [done|]. cbn [registered plugins discarded held option_list made].
    rewrite seq_S. cbn [Nat.add]. rewrite <- Hp, !app_assoc. cbn. solve_Permutation.
  - unfold load_or_store in *. destruct (plugins s !! n) eqn:E; simplify_eq; [done|].
    unfold registered in *. cbn [plugins discarded held option_list made].
    rewrite map_to_list_insert by done. cbn. rewrite <- Hp. solve_Permutation.
  - rewrite <- Hp. solve_Permutation.
Qed.

Lemma operation_plugins s c c' s' : operation s c (c', s') -> plugins s ⊆ plugins s'.
Proof.
  intros Hop. inversion Hop; subst; cbn in *; try done.
  - unfold create in *. by destruct err; simplify_eq.
  - unfold load_or_store in *. destruct (plugins s !! n) eqn:E; simplify_eq; [done|].
    by apply insert_subseteq.
Qed.

Lemma operation_caller s c c' s' : operation s c (c', s') -> caller_ok s c -> caller_ok s' c'.
Proof.
  intros Hop Hc. inversion Hop; subst; cbn in *; try done.
  - unfold load_factory. by destruct (_ !! _).
  - unfold load_plugin. by destruct (_ !! _) eqn:E.
  - unfold find_factory. by destruct (_ !! _).
  - unfold create in *. by destruct err; simplify_eq.
  - unfold load_or_store in *. destruct (plugins s !! n) eqn:E; simplify_eq; [done|].
    apply lookup_insert_eq.
Qed.

Lemma operation_shut s c c' s' : operation s c (c', s') ->
  (forall p, p ∈ shut s -> p ∈ registered s) -> forall p, p ∈ shut s' -> p ∈ registered s'.
Proof.
  intros Hop Hs p. pose proof (operation_plugins _ _ _ _ Hop) as Hsub.
  assert (Hreg : p ∈ registered s -> p ∈ registered s').
  { rewrite !elem_of_registered. intros [n Hn]. exists n. by eapply lookup_weaken. }
  inversion Hop; subst; cbn in *; auto.
  - unfold create in *. destruct err; simplify_eq; auto.
  - unfold load_or_store in *. destruct (plugins s !! n); simplify_eq; auto.
  - intros [Hp|Hp]%elem_of_app; [auto|].
    apply list_elem_of_singleton in Hp as ->. apply elem_of_registered. eauto.
Qed.

Lemma spawn_inv s t c : Inv s -> callers s !! t = None -> held c = None -> caller_ok (shared s) c ->
  Inv {| shared := shared s; callers := <[t := c]> (callers s) |}.
Proof.
  intros [Hp Hc Hs] Ht Hh Hok. constructor; cbn; [|by apply map_Forall_insert_2|done].
  by rewrite held_by_insert, Hh by done.
Qed.

Lemma plugin_step_inv s s' : step s s' -> Inv s -> Inv s'.
Proof.
  intros Hstep Hi. destruct Hstep as [s t n f Ht|s t n Ht|s t Ht|s t c [c' sh] Ht Hop].
  1-3: by apply spawn_inv.
  destruct Hi as [Hp Hc Hs]. constructor; cbn.
  - rewrite held_by_update. eapply operation_places; [done|]. by rewrite <- held_by_split.
  - apply map_Forall_insert_2.
    + eapply operation_caller; [done|]. by apply (Hc t).
    + intros u d Hd. eapply caller_ok_mono; [by eapply operation_plugins|by apply (Hc u)].
  - by eapply operation_shut.
Qed.

Lemma plugin_reachable_inv s : reachable s -> Inv s.
Proof.
  intros Hr. apply (rtc_preserves step Inv) with start; [apply plugin_step_inv|done|].
  constructor; cbn; [done|apply map_Forall_empty|]. intros p Hp. by apply not_elem_of_nil in Hp.
Qed.

(** C20. However the callers of RegisterFactory, GetPlugin and ClosePlugins interleave: callers that got a plugin under one
    name, in any case, got the same one, which GetPlugin has not closed; no plugin is
    discarded twice; ClosePlugins closes only plugins in use; and when no caller is between making a
    plugin and returning, each plugin made is either in use or was discarded. *)
Theorem plugin_once s : reachable s ->
  (forall t u n p q, callers s !! t = Some (GDone n (Ok p)) -> callers s !! u = Some (GDone n (Ok q)) ->
     p = q /\ plugins (shared s) !! n = Some p /\ p ∉ discarded (shared s)) /\
  NoDup (discarded (shared s)) /\
  (forall p, p ∈ shut (shared s) -> p ∈ registered (shared s) /\ p ∉ discarded (shared s)) /\
  (held_by (callers s) = [] ->
     forall p, p < made (shared s) <-> p ∈ registered (shared s) \/ p ∈ discarded (shared s)).
Proof.
  intros [Hp Hc Hs]%plugin_reachable_inv.
  assert (Hnd : NoDup (registered (shared s) ++ discarded (shared s) ++ held_by (callers s))).
  { rewrite Hp. apply NoDup_seq. }
  apply NoDup_app in Hnd as (_ & Hdisj & [Hnd _]%NoDup_app).
  assert (Hreg : forall p, p ∈ registered (shared s) -> p ∉ discarded (shared s)).
  { intros p Hr Hd. apply (Hdisj p Hr), elem_of_app. by left. }
  split; [|split; [done|split]].
  - intros t u n p q Ht Hu. pose proof (Hc _ _ Ht) as Hn. pose proof (Hc _ _ Hu) as Hm. cbn in *.
    simplify_eq. split; [done|split; [done|]]. apply Hreg, elem_of_registered. eauto.
  - eauto.
  - intros Hh p. rewrite Hh, app_nil_r in Hp.
    rewrite <- elem_of_app, Hp, elem_of_seq. lia.
Qed.

(** A factory registered under a name with an upper case letter is never found: names
    are looked up in lower case. *)
Lemma upper_case_unreachable name asked :
  str_forall is_ascii asked = true -> str_forall (fun c => negb (is_upper c)) name = false ->
  match GetPlugin asked with GLoad n => n <> name | _ => False end.
Proof.
  cbn. intros Ha Hn <-. by rewrite ToLower_no_upper in Hn.
Qed.
End plugin.

(** ** Witness: two callers race, the second discards its plugin *)

Definition no_unicode (s : string) : string := s.
Definition race_end : @System unit :=
  {| shared := {| pluginFactory := {["kv" := tt]}; plugins := {["kv" := 0%nat]}; made := 2;
                  discarded := [1%nat]; shut := [] |};
     callers := {[0%nat := RDone; 1%nat := GDone "kv" (Ok 0%nat); 2%nat := GDone "kv" (Ok 0%nat)]} |}.

Tactic Notation "plugin_step" constr(t) uconstr(op) :=
  eapply rtc_l; [eapply (step_operation _ _ t); [vm_compute; reflexivity|eapply op]|cbn].

Lemma plugin_once_witness :
  reachable no_unicode race_end /\
  (forall p, (p < 2)%nat <-> p ∈ registered (shared race_end) \/ p ∈ discarded (shared race_end)).
Proof.
  assert (Hr : reachable no_unicode race_end).
  { unfold reachable, start.
    eapply rtc_l; [apply (step_register _ _ 0 "kv" tt); done|cbn].
    plugin_step 0%nat @op_load_factory. plugin_step 0%nat @op_store_factory.
    eapply rtc_l; [apply (step_get _ _ 1 "KV"); done|cbn].
    eapply rtc_l; [apply (step_get _ _ 2 "kv"); done|cbn].
    plugin_step 1%nat @op_load_plugin. plugin_step 2%nat @op_load_plugin.
    plugin_step 1%nat @op_find_factory. plugin_step 2%nat @op_find_factory.
    plugin_step 1%nat (@op_create _ _ _ _ None). plugin_step 2%nat (@op_create _ _ _ _ None).
    plugin_step 1%nat @op_load_or_store. plugin_step 2%nat @op_load_or_store.
    plugin_step 2%nat @op_close_extra.
    vm_compute. apply rtc_refl. }
  split; [exact Hr|].
  exact (proj2 (proj2 (proj2 (plugin_once no_unicode race_end Hr))) eq_refl).
Defined.
