(* ===== verification/LogConfig.v ===== *)
(** * Logging configuration

    log/config.go and log/logger.go: the configuration, the text it has in the URL of
    the log file's sink and its reading back, and what Init makes zap build. Zap, the
    file system and lumberjack are parameters. *)

From Stdlib Require Import ZArith Lia Ascii String.
From stdpp Require Import base option list strings.
From S2P Require Import Prelude GoStrings GoStrconv GoEncoding.

Local Open Scope string_scope.
Local Open Scope Z_scope.
Local Open Scope list_scope.

Record Config := {
  Level : string;
  Encoding : string;
  Filename : string;
  Compress : bool;
  MaxAge : Z;
  MaxSize : Z;
  MaxBackups : Z;
  EncodeTime : string;
  EncodeLevel : string
}.

Definition format_bool (b : bool) : string := if b then "true" else "false".

(** [c.String()] *)
Definition String_ (c : Config) : string :=
  "level=" +:+ Level c +:+ "&encoding=" +:+ Encoding c
  +:+ "&filename=" +:+ EncodeToString "-" "_" (Filename c)
  +:+ "&compress=" +:+ format_bool (Compress c)
  +:+ "&maxAge=" +:+ FormatInt (MaxAge c)
  +:+ "&maxSize=" +:+ FormatInt (MaxSize c)
  +:+ "&maxBackups=" +:+ FormatInt (MaxBackups c).

(** [strconv.ParseBool] *)
Definition ParseBool (s : string) : outcome bool :=
  if existsb (String.eqb s) ["1"; "t"; "T"; "TRUE"; "true"; "True"] then Ok true
  else if existsb (String.eqb s) ["0"; "f"; "F"; "FALSE"; "false"; "False"] then Ok false
  else Err ErrSyntax.
Definition Atoi (s : string) : outcome Z := ParseInt s 64.

(** [FromURL(u)], of the query of the URL. *)
Definition FromURL (rawQuery : string) : outcome Config :=
  let args := Query rawQuery in
  filename ← DecodeString "-" "_" (Get args "filename");
  compress ← ParseBool (Get args "compress");
  maxAge ← Atoi (Get args "maxAge");
  maxSize ← Atoi (Get args "maxSize");
  maxBackups ← Atoi (Get args "maxBackups");
  Ok {| Level := Get args "level"; Encoding := Get args "encoding"; Filename := filename;
        Compress := compress; MaxAge := maxAge; MaxSize := maxSize; MaxBackups := maxBackups;
        EncodeTime := ""; EncodeLevel := "" |}.

(** ** log/zap.go and log/logger.go *)

Definition DebugLevel : Z := -1.
Definition InfoLevel : Z := 0.
Definition WarnLevel : Z := 1.
Definition ErrorLevel : Z := 2.
Definition PanicLevel : Z := 3.
Definition FatalLevel : Z := 4.

Section logger.
Context (unicode_lower : string -> string).

Definition parseLevel (lvl : string) : Z :=
  let l := ToLower unicode_lower lvl in
  if String.eqb l "fatal" then FatalLevel
  else if String.eqb l "panic" then PanicLevel
  else if String.eqb l "error" then ErrorLevel
  else if String.eqb l "warn" || String.eqb l "warning" then WarnLevel
  else if String.eqb l "info" then InfoLevel
  else if String.eqb l "debug" then DebugLevel
  else InfoLevel.

(** What Init sets of zap's configuration; the encoder functions are the layout and the
    format they use. *)
Record ZapConfig := {
  OutputPaths : list string;
  zap_Encoding : string;
  TimeLayout : option string;
  LevelFormat : option string;
  zap_Level : Z
}.

Definition NewProductionConfig : ZapConfig :=
  {| OutputPaths := ["stderr"]; zap_Encoding := "json"; TimeLayout := None; LevelFormat := None;
     zap_Level := InfoLevel |}.
Definition ISO8601 : string := "2006-01-02T15:04:05.000Z0700".

Definition zap_config (cfg : Config) : ZapConfig :=
  let c := NewProductionConfig in
  let console := String.eqb (Encoding cfg) "console" in
  {| OutputPaths := if String.eqb (Filename cfg) "" then OutputPaths c
                    else OutputPaths c ++ ["lumberjack:?" +:+ String_ cfg];
     zap_Encoding := if console then "console" else zap_Encoding c;
     TimeLayout := if negb (String.eqb (EncodeTime cfg) "") then Some (EncodeTime cfg)
                   else if console then Some ISO8601 else TimeLayout c;
     LevelFormat := if negb (String.eqb (EncodeLevel cfg) "")
                    then Some (ReplaceAll (EncodeLevel cfg) "level" "%s") else LevelFormat c;
     zap_Level := parseLevel (Level cfg) |}.

(** A logger, by what it was built from; building one may fail. *)
Context {Field : Type} (Build : ZapConfig -> list Field -> option error).
Record Logger := { built_from : ZapConfig; fields : list Field }.

(** The logger the package starts with; [init()] also registers the sink of the log file. *)
Definition init : outcome Logger :=
  let c := {| OutputPaths := ["stdout"]; zap_Encoding := zap_Encoding NewProductionConfig;
              TimeLayout := TimeLayout NewProductionConfig; LevelFormat := LevelFormat NewProductionConfig;
              zap_Level := zap_Level NewProductionConfig |} in
  match Build c [] with
  | Some e => Panic ("failed to create default logger: " +:+ e)
  | None => Ok {| built_from := c; fields := [] |}
  end.

(** [Init(cfg, fields...)] with the global logger before and after it. *)
Definition Init (cfg : Config) (fs : list Field) (global : Logger) : outcome Logger * Logger :=
  let c := zap_config cfg in
  match Build c fs with
  | Some e => (Err e, global)
  | None => let l := {| built_from := c; fields := fs |} in (Ok l, l)
  end.

(** ** The sink of the log file *)

(** What [url.Parse] makes of a text scheme:?query#fragment: its query. A control
    character or a bad escape in the fragment is an error. *)
Definition is_ctl (c : ascii) : bool := (b2z c <? 32) || (b2z c =? 127).
Definition parse_query (raw : string) : outcome string :=
  let '(u, frag) := Cut raw "#" in
  if negb (str_forall (fun c => negb (is_ctl c)) u) then Err "net/url: invalid control character in URL"
  else match QueryUnescape frag with
       | None => Err "invalid URL escape"
       | Some _ => Ok (Cut u "?").2
       end.

Record lumberjackSink := {
  sink_Compress : bool;
  sink_Filename : string;
  sink_MaxAge : Z;
  sink_MaxSize : Z;
  sink_MaxBackups : Z
}.

(** [MkdirAll(filepath.Dir(filename))] *)
Context (MkdirAll : string -> option error).

Definition newFileHook (rawQuery : string) : outcome lumberjackSink :=
  cfg ← FromURL rawQuery;
  match MkdirAll (Filename cfg) with
  | Some e => Err e
  | None => Ok {| sink_Compress := Compress cfg; sink_Filename := Filename cfg;
                  sink_MaxAge := MaxAge cfg; sink_MaxSize := MaxSize cfg;
                  sink_MaxBackups := MaxBackups cfg |}
  end.

(** ** The configuration survives its text *)

(** The levels and encodings the text can carry, and integers of their width. *)
Record config_ok (c : Config) : Prop := {
  ok_level : str_forall safe_char (Level c) = true;
  ok_encoding : str_forall safe_char (Encoding c) = true;
  ok_ints : in_s 64 (MaxAge c) /\ in_s 64 (MaxSize c) /\ in_s 64 (MaxBackups c)
}.

Definition pairs (c : Config) : list (string * string) :=
  [("level", Level c); ("encoding", Encoding c);
   ("filename", EncodeToString "-" "_" (Filename c)); ("compress", format_bool (Compress c));
   ("maxAge", FormatInt (MaxAge c)); ("maxSize", FormatInt (MaxSize c));
   ("maxBackups", FormatInt (MaxBackups c))].

Lemma String_pairs c : String_ c = Join (map pair_text (pairs c)) (char_str "&").
Proof.
  unfold String_, pairs. cbn [map Join]. unfold pair_text, char_str. cbn [fst snd].
  rewrite !append_assoc. reflexivity.
Qed.

(** What the text keeps. *)
Definition written (c : Config) : Config :=
  {| Level := Level c; Encoding := Encoding c; Filename := Filename c; Compress := Compress c;
     MaxAge := MaxAge c; MaxSize := MaxSize c; MaxBackups := MaxBackups c;
     EncodeTime := ""; EncodeLevel := "" |}.

Lemma pairs_safe c : config_ok c -> Forall (fun kv => str_forall safe_char kv.1 = true /\
    has_char "=" kv.1 = false /\ str_forall safe_char kv.2 = true) (pairs c).
Proof.
  intros [Hl He _]. unfold pairs.
  repeat constructor; try done; cbn [snd]; auto using base64_safe, FormatInt_safe.
  by destruct (Compress c).
Qed.

Lemma FromURL_String c : config_ok c -> FromURL (String_ c) = Ok (written c).
Proof.
  intros Hok. unfold FromURL. rewrite String_pairs, Query_pairs; [|done|].
  2: { eapply Forall_impl; [by apply pairs_safe|]. intros kv (?&?&?). auto using safe_plain. }
  change (Get (pairs c) "filename") with (EncodeToString "-" "_" (Filename c)).
  change (Get (pairs c) "compress") with (format_bool (Compress c)).
  change (Get (pairs c) "maxAge") with (FormatInt (MaxAge c)).
  change (Get (pairs c) "maxSize") with (FormatInt (MaxSize c)).
  change (Get (pairs c) "maxBackups") with (FormatInt (MaxBackups c)).
  rewrite base64_roundtrip by done. unfold Atoi. rewrite !ParseInt_FormatInt.
  destruct Hok as [_ _ (?&?&?)]. rewrite !bool_decide_eq_true_2 by done.
  unfold written. by destruct (Compress c).
Qed.

Lemma Cut_none s sep : has_char sep s = false -> Cut s sep = (s, "").
Proof.
  induction s as [|c s IH]; [done|]. cbn. intros [Hc Hs]%orb_false_iff.
  by rewrite Ascii.eqb_sym, Hc, IH.
Qed.

Lemma safe_join kvs : Forall (fun kv => str_forall safe_char kv.1 = true /\
    has_char "=" kv.1 = false /\ str_forall safe_char kv.2 = true) kvs ->
  let s := Join (map pair_text kvs) (char_str "&") in
  has_char "#" s = false /\ str_forall (fun c => negb (is_ctl c)) s = true.
Proof.
  assert (Hs : forall s, str_forall safe_char s = true ->
    has_char "#" s = false /\ str_forall (fun c => negb (is_ctl c)) s = true).
  { intros s Hs. split; [by apply plain_no_char; [apply safe_plain|auto]|].
    revert Hs. apply str_forall_impl. intros c. unfold safe_char, is_ctl. intros.
    boolify. by rewrite (proj2 (Z.ltb_ge _ _)), (proj2 (Z.eqb_neq _ _)) by done. }
  induction 1 as [|[k v] kvs (Hk & _ & Hv) _ IH]; [done|]. cbn [map] in *.
  destruct (Hs k Hk) as [Hk1 Hk2], (Hs v Hv) as [Hv1 Hv2].
  assert (Hp : has_char "#" (pair_text (k, v)) = false /\
    str_forall (fun c => negb (is_ctl c)) (pair_text (k, v)) = true).
  { unfold pair_text. cbn [fst snd]. rewrite has_char_app, str_forall_app. cbn [has_char str_forall].
    by rewrite Hk1, Hk2, Hv1, Hv2. }
  destruct Hp as [Hp1 Hp2]. destruct kvs as [|kv kvs]; [done|].
  rewrite Join_cons by done. unfold char_str in *.
  destruct IH as [IH1 IH2]. rewrite !has_char_app, !str_forall_app. cbn [has_char str_forall].
  by rewrite Hp1, Hp2, IH1, IH2.
Qed.

(** The log file's sink gets the configuration that was given to Init, through the URL in zap's
    output paths: for a level and an encoding of plain characters and any file name,
    the sink opens that file with the same limits, once its directory exists. *)
Theorem log_sink_configuration c :
  config_ok c -> Filename c <> "" -> MkdirAll (Filename c) = None ->
  exists path q, OutputPaths (zap_config c) = ["stderr"; path] /\
    parse_query path = Ok q /\ FromURL q = Ok (written c) /\
    newFileHook q = Ok {| sink_Compress := Compress c; sink_Filename := Filename c;
                          sink_MaxAge := MaxAge c; sink_MaxSize := MaxSize c;
                          sink_MaxBackups := MaxBackups c |}.
Proof.
  intros Hok Hf Hdir. exists ("lumberjack:?" +:+ String_ c), (String_ c).
  destruct (safe_join _ (pairs_safe c Hok)) as [Hh Hctl]. rewrite <- String_pairs in *.
  split; [|split; [|split]].
  - unfold zap_config. cbn. by rewrite (proj2 (String.eqb_neq _ _) Hf).
  - unfold parse_query. rewrite Cut_none by (by rewrite has_char_app, Hh).
    rewrite str_forall_app, Hctl. cbn. by destruct (String_ c).
  - by apply FromURL_String.
  - unfold newFileHook. rewrite FromURL_String by done. cbn. by rewrite Hdir.
Qed.
End logger.

Definition sample : Config :=
  {| Level := "debug"; Encoding := "console"; Filename := "var/log/a&b=c #1.log"; Compress := true;
     MaxAge := 15; MaxSize := 50; MaxBackups := -1; EncodeTime := ""; EncodeLevel := "[level]" |}.

Lemma log_sink_configuration_witness :
  exists path q, OutputPaths (zap_config id sample) = ["stderr"; path] /\
    parse_query path = Ok q /\ FromURL q = Ok (written sample) /\
    newFileHook (fun _ => None) q =
      Ok {| sink_Compress := true; sink_Filename := "var/log/a&b=c #1.log"; sink_MaxAge := 15;
            sink_MaxSize := 50; sink_MaxBackups := -1 |}.
Proof.
  apply (log_sink_configuration id (fun _ => None) sample); [|done|done].
  constructor; [reflexivity|reflexivity|]. by repeat split.
Defined.

Example sample_text :
  String_ sample = "level=debug&encoding=console&filename=dmFyL2xvZy9hJmI9YyAjMS5sb2c=&compress=true&maxAge=15&maxSize=50&maxBackups=-1".
Proof. vm_compute. reflexivity. Qed.

Example sample_zap :
  let z := zap_config id sample in
  (zap_Encoding z, TimeLayout z, LevelFormat z, zap_Level z)
  = ("console", Some ISO8601, Some "[%s]", DebugLevel).
Proof. vm_compute. reflexivity. Qed.
