(* ===== verification/UtilsConf.v ===== *)
(** * Loading configurations

    utils/config.go and the tests of files in utils/path.go: a configuration is read, run
    through a template over the environment, decoded, given its defaults and validated;
    sizes and lengths are decoded from their texts. The yaml, json, template, defaults and
    size libraries are parameters. *)

From Stdlib Require Import ZArith Lia Ascii String.
From stdpp Require Import base option list strings gmap fin_maps.
From S2P Require Import Prelude GoStrings GoStrconv GoEncoding.

Local Open Scope string_scope.
Local Open Scope Z_scope.
Local Open Scope list_scope.

(** ** utils/path.go *)

(** What [os.Stat] says of a path: a directory, something else, or an error, which
    [os.IsExist] may or may not recognise. *)
Inductive FileInfo := IsDir | NotDir | StatError (is_exist : bool).

Definition PathExists (st : FileInfo) : bool := match st with StatError e => e | _ => true end.
Definition DirExists (st : FileInfo) : bool :=
  match st with IsDir => true | NotDir => false | StatError e => e end.
Definition FileExists (st : FileInfo) : bool :=
  match st with IsDir => false | NotDir => true | StatError e => e end.

(** ** The environment *)

(** The map ParseEnv builds from [os.Environ()]. *)
Definition set_env (m : gmap string string) (s : string) : outcome (gmap string string) :=
  match Split s "=" with
  | k :: v :: _ => Ok (<[k := v]> m)
  | _ => Panic "index out of range [1] with length 1"
  end.
Fixpoint env_map (m : gmap string string) (envs : list string) : outcome (gmap string string) :=
  match envs with
  | [] => Ok m
  | s :: envs => m ← set_env m s; env_map m envs
  end.

Section config.
(** The template engine: parse and execute, with an error for a missing key. *)
Context (template : string -> gmap string string -> outcome string).

Definition ParseEnv (environ : list string) (data : string) : outcome string :=
  envMap ← env_map ∅ environ;
  template data envMap.

(** The type of the configuration, and what the libraries do to it. *)
Context {T : Type} (yaml_Unmarshal json_Unmarshal : string -> T -> T * option error)
  (SetDefaults : T -> T * option error) (validate : T -> option error).

(** After decoding: defaults, then validation. The value is changed in place, whether or
    not an error is returned. *)
Definition finish (r : T * option error) : T * option error :=
  let '(out, err) := r in
  match err with
  | Some e => (out, Some e)
  | None =>
      let '(out, err) := SetDefaults out in
      match err with Some e => (out, Some e) | None => (out, validate out) end
  end.
Definition UnmarshalYAML (data : string) (out : T) : T * option error :=
  finish (yaml_Unmarshal data out).
Definition UnmarshalJSON (data : string) (out : T) : T * option error :=
  finish (json_Unmarshal data out).

(** [LoadYAML(path, out)]: a text that the template rejects is taken as it is. *)
Definition LoadYAML (ReadFile : string -> outcome string) (environ : list string) (path : string)
    (out : T) : outcome (T * option error) :=
  match ReadFile path with
  | Ok data =>
      match ParseEnv environ data with
      | Ok res => Ok (UnmarshalYAML res out)
      | Err _ => Ok (UnmarshalYAML data out)
      | Panic e => Panic e
      | NoFuel => NoFuel
      end
  | Err e => Ok (out, Some e)
  | Panic e => Panic e
  | NoFuel => NoFuel
  end.
End config.

(** ** Sizes *)

Section sizes.
(** go-units: [RAMInBytes] reads a size, [CustomSize] writes a length. *)
Context (RAMInBytes : string -> outcome Z) (CustomSize : Z -> string).

Definition quote : ascii := "034".
Definition Size_MarshalJSON (s : Z) : string := FormatInt s.

(** [s.UnmarshalJSON(data)]: the size after it, and its error. *)
Definition Size_UnmarshalJSON (s : Z) (data : string) : outcome Z :=
  if String.eqb data "null" then Ok s
  else RAMInBytes (Trim data quote).

Definition Size_MarshalYAML (s : Z) : Z := s.
(** [unmarshal] gives the text of the yaml node. *)
Definition Size_UnmarshalYAML (unmarshal : outcome string) : outcome Z :=
  str ← unmarshal; RAMInBytes str.

Definition Length_UnmarshalYAML (l : Z) (unmarshal : outcome string) : outcome Z :=
  ls ← unmarshal;
  if String.eqb ls "" then Ok l else RAMInBytes ls.
Definition Length_MarshalYAML (l : Z) : string := CustomSize l.

(** A text of digits is that many bytes, as long as a float64 tells them apart. *)
Definition reads_numbers : Prop :=
  forall n, 0 <= n <= 2 ^ 53 -> RAMInBytes (FormatInt n) = Ok n.

Lemma size_json_roundtrip n s : reads_numbers -> 0 <= n <= 2 ^ 53 ->
  Size_UnmarshalJSON s (Size_MarshalJSON n) = Ok n.
Proof.
  intros Hr Hn. unfold Size_UnmarshalJSON, Size_MarshalJSON.
  assert (Hf : str_forall (fun c => negb (Ascii.eqb c quote || Ascii.eqb c "n")) (FormatInt n) = true).
  { by apply FormatInt_forall; vm_compute. }
  rewrite Trim_id by (eapply str_forall_no_char; [|exact Hf]; done).
  replace (String.eqb (FormatInt n) "null") with false; [by apply Hr|].
  symmetry. apply String.eqb_neq. intros E. by rewrite E in Hf.
Qed.
End sizes.

(** ** What the template sees of the environment *)

Lemma env_map_app m es fs : env_map m (es ++ fs) = (m' ← env_map m es; env_map m' fs).
Proof.
  revert m. induction es as [|e es IH]; intros m; [done|]. cbn.
  destruct (set_env m e); cbn; auto.
Qed.

Definition env_key (s : string) : string := match Split s "=" with k :: _ => k | [] => "" end.

Lemma set_env_entry m k v : has_char "=" k = false ->
  set_env m (k +:+ String "=" v) = Ok (<[k := env_key v]> m).
Proof.
  intros Hk. unfold set_env, env_key. change (String "=" v) with (char_str "=" +:+ v).
  rewrite Split_app by done. pose proof (Split_not_nil v "="). by destruct (Split v "=").
Qed.

Lemma env_map_other m es k m' : Forall (fun s => env_key s <> k) es -> env_map m es = Ok m' ->
  m' !! k = m !! k.
Proof.
  intros Hes. revert m. induction Hes as [|e es He _ IH]; intros m; [by intros [= <-]|].
  cbn [env_map]. rewrite outcome_bind_ok. intros (m1 & Hm1 & Hm').
  rewrite (IH _ Hm'). unfold set_env, env_key in *.
  destruct (Split e "=") as [|k1 [|v1 ?]]; simplify_eq. by rewrite lookup_insert_ne.
Qed.

Lemma env_key_Cut s : env_key s = (Cut s "=").1.
Proof.
  unfold env_key. induction s as [|c s IH]; [done|]. cbn.
  destruct (Ascii.eqb c "="); [done|]. pose proof (Split_not_nil s "=").
  destruct (Split s "="); [done|]. by destruct (Cut s "="); cbn in *; subst.
Qed.

Lemma set_env_defined m s : is_ok (set_env m s) = has_char "=" s.
Proof.
  unfold set_env. induction s as [|c s IH]; [done|]. cbn. rewrite (Ascii.eqb_sym "=").
  pose proof (Split_not_nil s "=").
  destruct (Ascii.eqb c "="); [by destruct (Split s "=")|].
  by destruct (Split s "=") as [|? [|??]].
Qed.

Lemma env_map_defined m es : is_ok (env_map m es) = forallb (has_char "=") es.
Proof.
  revert m. induction es as [|e es IH]; intros m; [done|]. cbn [env_map forallb].
  rewrite <- (set_env_defined m e). destruct (set_env m e); cbn; auto.
Qed.

Lemma env_map_no_error m es : env_map m es <> NoFuel /\ forall e, env_map m es <> Err e.
Proof.
  revert m. induction es as [|e es IH]; intros m; [done|]. cbn [env_map]. unfold set_env.
  destruct (Split e "=") as [|? [|??]]; cbn; auto.
Qed.

(** What the configuration's template sees of the environment: of the last entry of
    a variable the value up to its first equals sign, so a value that has one is cut;
    and an entry without any, before or after, ends the process. *)
Theorem env_value pre k v post :
  has_char "=" k = false -> Forall (fun s => env_key s <> k) post ->
  match env_map ∅ (pre ++ (k +:+ String "=" v) :: post) with
  | Ok m => m !! k = Some (Cut v "=").1 /\
            forallb (has_char "=") (pre ++ post) = true
  | Panic _ => forallb (has_char "=") (pre ++ post) = false
  | _ => False
  end.
Proof.
  intros Hk Hpost. set (e := k +:+ String "=" v).
  pose proof (env_map_defined ∅ (pre ++ e :: post)) as Hdef.
  assert (He : has_char "=" e = true) by (unfold e; rewrite has_char_app, orb_comm; done).
  rewrite forallb_app in Hdef. cbn [forallb] in Hdef. rewrite He, andb_true_l, <- forallb_app in Hdef.
  destruct (env_map ∅ (pre ++ e :: post)) as [m|e0|?|] eqn:E; [|exfalso|by rewrite <- Hdef|exfalso].
  - split; [|by rewrite <- Hdef]. rewrite env_map_app in E.
    apply outcome_bind_ok in E as (m1 & _ & E). cbn [env_map] in E. unfold e in E.
    rewrite set_env_entry in E by done. cbn [mbind outcome_bind] in E.
    rewrite (env_map_other _ _ _ _ Hpost E), lookup_insert_eq. by rewrite env_key_Cut.
  - by apply (proj2 (env_map_no_error ∅ (pre ++ e :: post)) e0).
  - by apply (proj1 (env_map_no_error ∅ (pre ++ e :: post))).
Qed.

Definition sample_env : list string := ["PATH=/bin"; "OPTS=a=b"; "PATH=/usr/bin"].
Lemma env_value_witness :
  match env_map ∅ sample_env with
  | Ok m => m !! "OPTS" = Some "a" /\ forallb (has_char "=") ["PATH=/bin"; "PATH=/usr/bin"] = true
  | Panic _ => forallb (has_char "=") ["PATH=/bin"; "PATH=/usr/bin"] = false
  | _ => False
  end.
Proof.
  apply (env_value ["PATH=/bin"] "OPTS" "a=b" ["PATH=/usr/bin"]); [reflexivity|].
  by repeat constructor.
Defined.

Example env_without_equals : panics (env_map ∅ ["A=1"; "B"]) = true.
Proof. reflexivity. Qed.
