(* ===== verification/Http.v ===== *)
(** * HTTP client, server and responses

    http/client.go, options.go, responses.go and the choice of listener of server.go.
    The transport of net/http, fasthttp and the TLS library are parameters; the headers
    and the handling of responses are the code's. *)

From Stdlib Require Import ZArith Lia Ascii String Permutation.
From stdpp Require Import base option list strings gmap fin_maps.
From S2P Require Import Prelude GoStrings GoStrconv GoEncoding MqttPacket.

Local Open Scope string_scope.
Local Open Scope Z_scope.
Local Open Scope list_scope.

(** ** net/http headers *)

Definition token_char (c : ascii) : bool :=
  is_upper c || is_lower c || is_digit c || has_char c "!#$%&'*+-.^_`|~".

(** Upper case after the beginning and after a hyphen, lower case elsewhere. *)
Fixpoint canonical_from (upper : bool) (s : string) : string :=
  match s with
  | EmptyString => ""
  | String c s =>
      let c := if upper then (if is_lower c then z2b (b2z c - 32) else c) else lower_char c in
      String c (canonical_from (Ascii.eqb c "-") s)
  end.
Definition CanonicalHeaderKey (s : string) : string :=
  if str_forall token_char s then canonical_from true s else s.

Definition Header : Type := gmap string (list string).
Definition Header_Set (h : Header) (key value : string) : Header :=
  <[CanonicalHeaderKey key := [value]]> (h : gmap string (list string)).
Definition Header_Get (h : Header) (key : string) : string :=
  match (h : gmap string (list string)) !! CanonicalHeaderKey key with
  | Some (v :: _) => v
  | _ => ""
  end.

(** ** http/options.go *)

Section http.
(** [utils.NewTLSConfigClient], as for the mqtt options. *)
Context {tls_Config : Type} (NewTLSConfigClient : Certificate -> outcome tls_Config).

Record ServerConfig := {
  sc_Address : string;
  sc_Concurrency : Z;
  sc_DisableKeepalive : bool;
  sc_TCPKeepalive : bool;
  sc_MaxRequestBodySize : Z;
  sc_ReadTimeout : Z;
  sc_WriteTimeout : Z;
  sc_IdleTimeout : Z;
  sc_Certificate : Certificate
}.

Record ClientOptions := {
  co_Address : string;
  co_TLSConfig : option tls_Config;
  co_Timeout : Z;
  co_KeepAlive : Z;
  co_MaxIdleConns : Z;
  co_IdleConnTimeout : Z;
  co_TLSHandshakeTimeout : Z;
  co_ExpectContinueTimeout : Z
}.

Definition NewClientOptions : ClientOptions :=
  {| co_Address := ""; co_TLSConfig := None; co_Timeout := 30 * second; co_KeepAlive := 30 * second;
     co_MaxIdleConns := 100; co_IdleConnTimeout := 90 * second;
     co_TLSHandshakeTimeout := 10 * second; co_ExpectContinueTimeout := 1 * second |}.

Record ClientConfig := {
  hc_Address : string;
  hc_Timeout : Z;
  hc_KeepAlive : Z;
  hc_MaxIdleConns : Z;
  hc_IdleConnTimeout : Z;
  hc_TLSHandshakeTimeout : Z;
  hc_ExpectContinueTimeout : Z;
  hc_Certificate : Certificate
}.

Definition ToClientOptions (cc : ClientConfig) : outcome ClientOptions :=
  tlsConfig ← NewTLSConfigClient (hc_Certificate cc);
  Ok {| co_Address := hc_Address cc; co_TLSConfig := Some tlsConfig; co_Timeout := hc_Timeout cc;
        co_KeepAlive := hc_KeepAlive cc; co_MaxIdleConns := hc_MaxIdleConns cc;
        co_IdleConnTimeout := hc_IdleConnTimeout cc;
        co_TLSHandshakeTimeout := hc_TLSHandshakeTimeout cc;
        co_ExpectContinueTimeout := hc_ExpectContinueTimeout cc |}.

(** ** http/client.go *)

(** The transport and the client NewClient makes of the options. *)
Record Transport := {
  Dial_Timeout : Z;
  Dial_KeepAlive : Z;
  TLSClientConfig : option tls_Config;
  MaxIdleConns : Z;
  IdleConnTimeout : Z;
  TLSHandshakeTimeout : Z;
  ExpectContinueTimeout : Z
}.
Record Client := { ops : ClientOptions; http_Timeout : Z; transport : Transport }.

Definition NewClient (o : ClientOptions) : Client :=
  {| ops := o; http_Timeout := co_Timeout o;
     transport := {| Dial_Timeout := co_Timeout o; Dial_KeepAlive := co_KeepAlive o;
                     TLSClientConfig := co_TLSConfig o; MaxIdleConns := co_MaxIdleConns o;
                     IdleConnTimeout := co_IdleConnTimeout o;
                     TLSHandshakeTimeout := co_TLSHandshakeTimeout o;
                     ExpectContinueTimeout := co_ExpectContinueTimeout o |} |}.

Record Request := { method : string; url : string; req_body : option string; header : Header }.
(** The body is what can be read of it, with the error that ended the reading. *)
Record Response := { StatusCode : Z; Status : string; Body : string * option error }.

(** [gohttp.NewRequest] rejects some methods and urls; [c.http.Do] sends. *)
Context (request_error : string -> string -> option error)
  (Do : Client -> Request -> outcome Response).

(** The entries of a map of headers, in the order its range gives them. *)
Abbreviation headers := (list (string * string)).
Definition jsonHeaders : headers := [("Content-Type", "application/json")].

Definition set_headers (h : Header) (hs : list headers) : Header :=
  foldl (fun h v => foldl (fun h kv => Header_Set h kv.1 kv.2) h v) h hs.

Definition resolve (c : Client) (u : string) : string :=
  if negb (HasPrefix u "http") then co_Address (ops c) +:+ "/" +:+ u else u.

(** The request SendUrl makes, and SendUrl. *)
Definition new_request (c : Client) (m u : string) (body : option string) (hs : list headers)
    : outcome Request :=
  let u := resolve c u in
  match request_error m u with
  | Some e => Err e
  | None => Ok {| method := m; url := u; req_body := body; header := set_headers ∅ hs |}
  end.
Definition SendUrl (c : Client) (m u : string) (body : option string) (hs : list headers)
    : outcome Response :=
  req ← new_request c m u body hs; Do c req.

Definition GetURL c u hs := SendUrl c "GET" u None hs.
Definition DeleteURL c u hs := SendUrl c "DELETE" u None hs.
Definition PostURL c u body hs := SendUrl c "POST" u (Some body) hs.
Definition PutURL c u body hs := SendUrl c "PUT" u (Some body) hs.

Definition StatusOK : Z := 200.
Definition newline : ascii := "010".

Definition status_error (r : Response) : error :=
  let msg := TrimRight (fst (Body r)) newline in
  let msg := if String.eqb msg "" then Status r else msg in
  "[" +:+ FormatInt (StatusCode r) +:+ "] " +:+ msg.

(** The data and the error, both. *)
Definition HandleResponse (r : Response) : string * option error :=
  let '(data, err) := Body r in
  (data, if negb (StatusCode r =? StatusOK) then Some (status_error r) else err).

(** What a caller gets: data and error; no data when nothing was received. *)
Definition handled (r : outcome Response) : outcome (string * option error) :=
  match r with
  | Ok r => Ok (HandleResponse r)
  | Err e => Ok ("", Some e)
  | Panic e => Panic e
  | NoFuel => NoFuel
  end.
Definition Call c function payload := handled (PostURL c function payload [jsonHeaders]).
Definition PostJSON c u payload (hs : list headers) := handled (PostURL c u payload (hs ++ [jsonHeaders])).
Definition GetJSON c u (hs : list headers) := handled (GetURL c u (hs ++ [jsonHeaders])).

(** ** http/responses.go *)

Record ResponseMsg := { Code : string; Message : string }.
Definition NewResponse (code msg : string) : ResponseMsg := {| Code := code; Message := msg |}.

(** The response of the context; a body may be a stream of a size. *)
Inductive RespBody := Raw (b : string) | BodyStream (s : string) (n : Z).
Record Reply := { rp_status : Z; rp_body : RespBody; rp_ContentType : string }.

Section responses.
Context (json_Marshal : ResponseMsg -> string) (json_Valid : string -> bool).
Definition jsonContentTypeHeader : string := "application/json".

Definition Respond (r : Reply) (httpCode : Z) (obj : string) : Reply :=
  {| rp_status := httpCode; rp_body := Raw obj;
     rp_ContentType := if json_Valid obj then jsonContentTypeHeader else rp_ContentType r |}.
Definition RespondMsg (r : Reply) (httpCode : Z) (code msg : string) : Reply :=
  Respond r httpCode (json_Marshal (NewResponse code msg)).
Definition RespondStream (r : Reply) (httpCode : Z) (s : string) (bodySize : Z) : Reply :=
  {| rp_status := httpCode; rp_body := BodyStream s bodySize; rp_ContentType := rp_ContentType r |}.
End responses.

(** ** http/server.go *)

(** How Start serves: in the clear, with TLS, or asking clients for certificates. *)
Inductive Serving := Plain | WithTLS | MutualTLS.
Definition serving (s : ServerConfig) : Serving :=
  let c := sc_Certificate s in
  if negb (String.eqb (Cert c) "") || negb (String.eqb (Key c) "")
  then if negb (String.eqb (CA c) "") then MutualTLS else WithTLS
  else Plain.

(** The TLS configuration of ListenAndServeMTLS, after it has the listener. *)
Record ServerTLS (cert : Type) := {
  st_cert : cert;
  st_clients : option (Z * string)     (* the policy, and the PEM of the client CAs *)
}.
Arguments st_cert {cert} s.
Arguments st_clients {cert} s.
Definition mtls_config {cert} (Listen : string -> option error)
    (LoadX509KeyPair : string -> string -> outcome cert) (ReadFile : string -> outcome string)
    (s : ServerConfig) : outcome (ServerTLS cert) :=
  let c := sc_Certificate s in
  match Listen (sc_Address s) with
  | Some e => Err e
  | None =>
      crt ← LoadX509KeyPair (Cert c) (Key c);
      if negb (String.eqb (CA c) "")
      then pem ← ReadFile (CA c);
           Ok {| st_cert := crt; st_clients := Some (ClientAuthType c, pem) |}
      else Ok {| st_cert := crt; st_clients := None |}
  end.

(** ** Headers *)

Lemma set_headers_app h hs ks : set_headers h (hs ++ ks) = set_headers (set_headers h hs) ks.
Proof. unfold set_headers. by rewrite foldl_app. Qed.

(** The last value a map gives to a header, by its canonical key. *)
Definition last_value (i : string) (v : headers) : option string :=
  snd <$> last (filter (fun kv => CanonicalHeaderKey kv.1 = i) v).

Lemma set_map_lookup (h : Header) v i :
  (foldl (fun h kv => Header_Set h kv.1 kv.2) h v : gmap string (list string)) !! i
  = match last_value i v with
    | Some x => Some [x]
    | None => (h : gmap string (list string)) !! i
    end.
Proof.
  unfold last_value. revert h. induction v as [|[k x] v IH] using rev_ind; intros h; [done|].
  rewrite foldl_app, filter_app, last_app. cbn [foldl]. unfold Header_Set at 1. cbn [fst snd].
  destruct (decide (CanonicalHeaderKey k = i)) as [E|E].
  - rewrite filter_cons_True by done. cbn. by rewrite <- E, lookup_insert_eq.
  - rewrite filter_cons_False by done. cbn. rewrite lookup_insert_ne by done. apply IH.
Qed.

(** The range over a map gives its entries in any order: with keys that differ as
    headers, the order does not show. *)
Definition distinct_keys (v : headers) : Prop := NoDup (map (fun kv => CanonicalHeaderKey kv.1) v).

Lemma filter_key_short i v : distinct_keys v ->
  (length (filter (fun kv => CanonicalHeaderKey kv.1 = i) v) <= 1)%nat.
Proof.
  unfold distinct_keys. induction v as [|[k x] v IH]; [cbn; lia|]. cbn [map fst].
  intros [Hn Hd]%NoDup_cons.
  destruct (decide (CanonicalHeaderKey k = i)) as [E|E].
  - rewrite filter_cons_True by done.
    destruct (filter _ v) as [|kv l] eqn:Hf; [done|]. destruct Hn.
    assert (Hin : kv ∈ filter (fun kv => CanonicalHeaderKey kv.1 = i) v) by (rewrite Hf; left).
    apply list_elem_of_filter in Hin as [Hk Hin]. rewrite E, <- Hk.
    by apply (list_elem_of_fmap_2 (fun kv => CanonicalHeaderKey kv.1)).
  - rewrite filter_cons_False by done. by apply IH.
Qed.

Lemma last_value_perm i v w : v ≡ₚ w -> distinct_keys v -> last_value i v = last_value i w.
Proof.
  intros Hp Hd. pose proof (filter_key_short i v Hd) as Hlen. unfold last_value.
  assert (Hf : filter (fun kv => CanonicalHeaderKey kv.1 = i) v
               ≡ₚ filter (fun kv => CanonicalHeaderKey kv.1 = i) w) by (by rewrite Hp).
  destruct (filter _ v) as [|a [|b l]]; [| |cbn in Hlen; lia].
  - by apply Permutation_nil in Hf as ->.
  - by apply Permutation_singleton_l in Hf as ->.
Qed.

Lemma set_headers_perm h hs ks : Forall distinct_keys hs -> Forall2 Permutation hs ks ->
  set_headers h hs = set_headers h ks.
Proof.
  intros Hd Hp. revert h. induction Hp as [|v w hs ks Hvw _ IH]; intros h; [done|].
  apply Forall_cons in Hd as [Hv Hd]. cbn. unfold set_headers in IH. rewrite IH by done.
  f_equal. apply map_eq. intros i. by rewrite !set_map_lookup, (last_value_perm i v w).
Qed.

(** The value of a header is the one the last map that has it gives it. *)
Lemma set_headers_later h i v ws x : last_value i v = Some x ->
  Forall (fun w => last_value i w = None) ws ->
  (set_headers h (v :: ws) : gmap string (list string)) !! i = Some [x].
Proof.
  intros Hx. induction ws as [|w ws IH] using rev_ind; intros Hws.
  - cbn. by rewrite set_map_lookup, Hx.
  - apply Forall_app in Hws as [Hws [Hw _]%Forall_cons].
    rewrite app_comm_cons, set_headers_app. unfold set_headers at 1. cbn [foldl].
    rewrite set_map_lookup, Hw. by apply IH.
Qed.

(** PostJSON sends one POST with the payload, to the address of the options unless
    the url begins with http; the content type is JSON whatever the callers' headers
    say, of the maps of headers the last that has a header gives its value, and the order of a range
    over a map does not show; the caller gets data without an error exactly for a response with status 200
    whose body was read to its end. *)
Theorem post_json c u payload hs ks :
  Forall distinct_keys hs -> Forall2 Permutation hs ks ->
  PostJSON c u payload ks = PostJSON c u payload hs /\
  match request_error "POST" (resolve c u) with
  | Some e => PostJSON c u payload hs = Ok ("", Some e)
  | None => exists req, PostJSON c u payload hs = handled (Do c req) /\
      method req = "POST" /\ url req = resolve c u /\ req_body req = Some payload /\
      Header_Get (header req) "content-type" = "application/json" /\
      (forall i before v x after, hs = before ++ v :: after -> i <> "Content-Type" ->
         last_value i v = Some x -> Forall (fun w => last_value i w = None) after ->
         (header req : gmap string (list string)) !! i = Some [x])
  end /\
  (forall r data, Do c {| method := "POST"; url := resolve c u; req_body := Some payload;
                      header := set_headers ∅ (hs ++ [jsonHeaders]) |} = Ok r ->
     request_error "POST" (resolve c u) = None ->
     (PostJSON c u payload hs = Ok (data, None) <->
      StatusCode r = StatusOK /\ Body r = (data, None))).
Proof.
  intros Hd Hp. assert (Hh : set_headers ∅ (ks ++ [jsonHeaders]) = set_headers ∅ (hs ++ [jsonHeaders])).
  { by rewrite !set_headers_app, (set_headers_perm ∅ hs ks). }
  unfold PostJSON, PostURL, SendUrl, new_request. rewrite Hh. split; [done|].
  destruct (request_error "POST" (resolve c u)) as [e|]; [by split|]. cbn [mbind outcome_bind]. split.
  - eexists. split; [done|]. cbn [method url req_body header]. repeat split.
    + unfold Header_Get. change (CanonicalHeaderKey "content-type") with "Content-Type".
      by rewrite set_headers_app, (set_headers_later _ _ _ [] "application/json").
    + intros i before v x after -> Hi Hx Ha. rewrite <- app_assoc.
      rewrite set_headers_app. cbn [app]. rewrite (set_headers_later _ _ v _ x); [done|done|].
      apply Forall_app. split; [done|]. apply Forall_singleton.
      unfold last_value, jsonHeaders. rewrite filter_cons_False; [done|].
      intros E. apply Hi. by rewrite <- E.
  - intros r data -> _. cbn [handled]. unfold HandleResponse. destruct (Body r) as [d err].
    destruct (Z.eqb_spec (StatusCode r) StatusOK); cbn.
    + split; [by intros [= -> ->]|by intros [_ [= -> ->]]].
    + split; [done|by intros [? _]].
Qed.
End http.

(** ** Witness *)

Definition no_cert : Certificate :=
  {| CA := ""; Key := ""; Cert := ""; Name := ""; InsecureSkipVerify := false; ClientAuthType := 0 |}.

(** A server that answers with the token it is sent, or that it is forbidden. *)
Definition echo_server (c : @Client unit) (r : Request) : outcome Response :=
  let token := Header_Get (header r) "token" in
  Ok {| StatusCode := if String.eqb token "" then 403 else 200; Status := "403 Forbidden";
        Body := (token, None) |}.
Definition some_client : @Client unit := NewClient NewClientOptions.

Lemma post_json_witness :
  let hs := [[("TOKEN", "a"); ("content-type", "text/plain")]; [("Token", "b")]] in
  let ks := [[("content-type", "text/plain"); ("TOKEN", "a")]; [("Token", "b")]] in
  PostJSON (fun _ _ => None) echo_server some_client "x" "{}" ks
  = PostJSON (fun _ _ => None) echo_server some_client "x" "{}" hs /\
  (PostJSON (fun _ _ => None) echo_server some_client "x" "{}" hs = Ok ("b", None) <->
   StatusOK = StatusOK /\ ("b", @None error) = ("b", None)).
Proof.
  cbn zeta.
  destruct (post_json (fun _ _ => None) echo_server some_client "x" "{}"
    [[("TOKEN", "a"); ("content-type", "text/plain")]; [("Token", "b")]]
    [[("content-type", "text/plain"); ("TOKEN", "a")]; [("Token", "b")]]) as (H1 & _ & H2).
  - apply Forall_cons_2; [|apply Forall_cons_2; [|apply Forall_nil_2]];
      unfold distinct_keys; apply (bool_decide_unpack _); vm_compute; exact I.
  - constructor; [apply perm_swap|by constructor].
  - split; [exact H1|].
    exact (H2 {| StatusCode := 200; Status := "403 Forbidden"; Body := ("b", None) |} "b" eq_refl eq_refl).
Defined.

Example forbidden :
  PostJSON (fun _ _ => None) echo_server some_client "x" "{}" [] = Ok ("", Some "[403] 403 Forbidden").
Proof. vm_compute. reflexivity. Qed.

(** A path that begins with http is taken for a whole url. *)
Example relative_http_path : resolve some_client "httpbin/get" = "httpbin/get".
Proof. reflexivity. Qed.
