(* ===== verification/HttpServer.v ===== *)
(** * http/server.go: the server

    The configuration of the fasthttp server, how [Start] serves, what [ListenAndServeMTLS]
    does with its listener, and the listener that sets keep-alive on what it accepts. The
    network, fasthttp and crypto/tls are parameters; what is opened, served and closed is
    recorded. *)

From Stdlib Require Import ZArith Lia String.
From stdpp Require Import base option list strings.
From S2P Require Import Prelude MqttPacket.
From S2P Require Http.
Import Http (ServerConfig, sc_Address, sc_Concurrency, sc_DisableKeepalive, sc_TCPKeepalive,
  sc_MaxRequestBodySize, sc_ReadTimeout, sc_WriteTimeout, sc_IdleTimeout, sc_Certificate,
  ServerTLS, mtls_config, serving, Serving, Plain, WithTLS, MutualTLS).

Local Open Scope string_scope.
Local Open Scope Z_scope.
Local Open Scope list_scope.

Section server.
Context {cert conn : Type}.

(** The fields of [fasthttp.Server] this package reads or sets. *)
Record FastServer := {
  Concurrency : Z;
  DisableKeepalive : bool;
  TCPKeepalive : bool;
  TCPKeepalivePeriod : Z;
  MaxRequestBodySize : Z;
  ReadTimeout : Z;
  WriteTimeout : Z;
  IdleTimeout : Z
}.

Record Server := { conf : ServerConfig; fast : option FastServer }.

Definition NewServer (cfg : ServerConfig) : Server :=
  {| conf := cfg;
     fast := Some {| Concurrency := sc_Concurrency cfg; DisableKeepalive := sc_DisableKeepalive cfg;
                     TCPKeepalive := sc_TCPKeepalive cfg; TCPKeepalivePeriod := 0;
                     MaxRequestBodySize := sc_MaxRequestBodySize cfg; ReadTimeout := sc_ReadTimeout cfg;
                     WriteTimeout := sc_WriteTimeout cfg; IdleTimeout := sc_IdleTimeout cfg |} |}.

(** What is done with the network. *)
Inductive event :=
  | Listening (addr : string)                        (* a listener is open *)
  | Serving_ (keepalive : option Z) (c : ServerTLS cert)   (* served with TLS, perhaps with the period of a keep-alive *)
  | Shutdown
  | Closed (c : conn).                               (* an accepted connection is closed *)

(** [net.Listen]: whether the listener is one of TCP. *)
Context (Listen : string -> outcome bool).
Context (LoadX509KeyPair : string -> string -> outcome cert) (ReadFile : string -> outcome string).
(** How fasthttp ends serving. *)
Context (Serve : option Z -> ServerTLS cert -> option error).

(** [ListenAndServeMTLS(addr, certFile, keyFile)]: what it did, and its error. *)
Definition ListenAndServeMTLS (s : Server) (addr certFile keyFile : string)
    : list event * outcome (option error) :=
  match Listen addr with
  | Err e | Panic e => ([], Ok (Some e))
  | NoFuel => ([], NoFuel)
  | Ok tcp =>
      let opened := [Listening addr] in
      match LoadX509KeyPair certFile keyFile with
      | Ok crt =>
          let serve (c : ServerTLS cert) :=
            match fast s with
            | None => (opened, Panic "invalid memory address or nil pointer dereference")
            | Some f =>
                let keepalive := if TCPKeepalive f && tcp then Some (TCPKeepalivePeriod f) else None in
                (opened ++ [Serving_ keepalive c], Ok (Serve keepalive c))
            end in
          let CA_ := CA (sc_Certificate (conf s)) in
          if negb (String.eqb CA_ "") then
            match ReadFile CA_ with
            | Ok pem => serve {| Http.st_cert := crt;
                                 Http.st_clients := Some (ClientAuthType (sc_Certificate (conf s)), pem) |}
            | Err e | Panic e => (opened, Ok (Some e))
            | NoFuel => (opened, NoFuel)
            end
          else serve {| Http.st_cert := crt; Http.st_clients := None |}
      | Err e | Panic e => (opened, Ok (Some e))
      | NoFuel => (opened, NoFuel)
      end
  end.

(** fasthttp's own ways to listen and serve. *)
Context (ListenAndServeTLS : string -> string -> string -> list event * outcome (option error)).
Context (ListenAndServe : string -> list event * outcome (option error)).

(** The goroutine of [Start]; errors are written to the log. *)
Definition Start (s : Server) : list event * outcome (option error) :=
  let c := sc_Certificate (conf s) in
  match serving (conf s) with
  | MutualTLS => ListenAndServeMTLS s (sc_Address (conf s)) (Cert c) (Key c)
  | WithTLS => ListenAndServeTLS (sc_Address (conf s)) (Cert c) (Key c)
  | Plain => ListenAndServe (sc_Address (conf s))
  end.

Definition Close (s : Server) : list event := match fast s with Some _ => [Shutdown] | None => [] end.

(** [tcpKeepaliveListener.Accept] *)
Context (AcceptTCP : outcome conn) (SetKeepAlive : conn -> option error).
Context (SetKeepAlivePeriod : conn -> Z -> option error).

Definition Accept (keepalivePeriod : Z) : list event * outcome conn :=
  match AcceptTCP with
  | Ok tc =>
      match SetKeepAlive tc with
      | Some e => ([Closed tc], Err e)
      | None =>
          if 0 <? keepalivePeriod then
            match SetKeepAlivePeriod tc keepalivePeriod with
            | Some e => ([Closed tc], Err e)
            | None => ([], Ok tc)
            end
          else ([], Ok tc)
      end
  | Err e => ([], Err e)
  | Panic e => ([], Panic e)
  | NoFuel => ([], NoFuel)
  end.

(** An accepted connection is either given to the caller, with keep-alive set, or closed. *)
Lemma accept_no_leak period tc : AcceptTCP = Ok tc ->
  (exists e, Accept period = ([Closed tc], Err e)) \/
  Accept period = ([], Ok tc) /\ SetKeepAlive tc = None /\
    (0 < period -> SetKeepAlivePeriod tc period = None).
Proof.
  intros Ha. unfold Accept. rewrite Ha. destruct (SetKeepAlive tc) as [e|] eqn:Hk; [by left; exists e|].
  destruct (0 <? period) eqn:Hp; boolify; [|right; split; [done|]; split; [done|lia]].
  destruct (SetKeepAlivePeriod tc period) as [e|] eqn:Hkp; [by left; exists e|by right].
Qed.

(** The configuration that is served is [mtls_config]'s; but when the certificate or the CA
    cannot be read the listener stays open, and the address taken. *)
Lemma mtls_serves s : fast s <> None ->
  let c := sc_Certificate (conf s) in
  match ListenAndServeMTLS s (sc_Address (conf s)) (Cert c) (Key c),
        mtls_config (fun a => match Listen a with Ok _ => None | Err e | Panic e => Some e | NoFuel => Some "" end)
          LoadX509KeyPair ReadFile (conf s) with
  | (es, Ok err), Ok cfg => exists keepalive, es = [Listening (sc_Address (conf s)); Serving_ keepalive cfg] /\
      err = Serve keepalive cfg
  | (es, Ok err), Err e => err = Some e /\ (es = [] \/ es = [Listening (sc_Address (conf s))])
  | _, _ => True
  end.
Proof.
  intros Hf c. unfold ListenAndServeMTLS, mtls_config. fold c.
  destruct (Listen _) as [tcp|e|e|]; [|by auto..]. cbn [negb].
  destruct (LoadX509KeyPair _ _) as [crt|e|e|]; cbn; [|by auto..].
  destruct (fast s) as [f|]; [|done].
  destruct (negb (String.eqb (CA c) "")); cbn; [|by eauto].
  destruct (ReadFile _) as [pem|e|e|]; cbn; eauto.
Qed.

(** A server that [NewServer] made sets no period, whatever is configured. *)
Lemma new_server_period cfg : TCPKeepalivePeriod <$> fast (NewServer cfg) = Some 0.
Proof. done. Qed.
End server.
