(* ===== verification/Pki.v ===== *)
(** * Certificates

    pki/pki.go and pki/utils.go: private keys and certificates in PEM, root and sub
    certificates, and the tool that issues a set of them (tools/issue_certificate.go). The cryptography of Go
    (rsa, ecdsa, x509) and the PEM format are an interface, [Crypto], with the laws
    [CryptoLaws]; what the code puts into a certificate, whom it lets sign, and how it
    reads the files back is the code's. *)

From Stdlib Require Import ZArith Lia Ascii String.
From stdpp Require Import base option list strings.
From S2P Require Import Prelude GoStrings GoStrconv GoEncoding.

Local Open Scope string_scope.
Local Open Scope Z_scope.
Local Open Scope list_scope.

(** ** Names, requests and certificates, as the code uses them *)

(** [pkix.Name] *)
Record Name := {
  Country : list string;
  Organization : list string;
  OrganizationalUnit : list string;
  Locality : list string;
  Province : list string;
  StreetAddress : list string;
  PostalCode : list string;
  CommonName : string
}.

(** The alternative names; addresses and URIs by their texts. *)
Record AltNames := {
  DNSNames : list string;
  IPs : list string;
  Emails : list string;
  URIs : list string
}.

#[export] Instance Name_eq_dec : EqDecision Name.
Proof. solve_decision. Defined.
#[export] Instance AltNames_eq_dec : EqDecision AltNames.
Proof. solve_decision. Defined.

Inductive SignatureAlgorithm :=
  | UnknownSignatureAlgorithm
  | SHA256WithRSA | SHA384WithRSA | SHA512WithRSA
  | ECDSAWithSHA256 | ECDSAWithSHA384 | ECDSAWithSHA512.
#[export] Instance SignatureAlgorithm_eq_dec : EqDecision SignatureAlgorithm.
Proof. solve_decision. Defined.

(** Bits of [x509.KeyUsage] and values of [x509.ExtKeyUsage]. *)
Definition KeyUsageDigitalSignature : Z := 1.
Definition KeyUsageKeyEncipherment : Z := 4.
Definition KeyUsageCertSign : Z := 32.
Definition KeyUsageCRLSign : Z := 64.
Definition ExtKeyUsageServerAuth : Z := 1.
Definition ExtKeyUsageClientAuth : Z := 2.

(** A PEM block. *)
Record Block := { block_Type : string; Headers : list (string * string); Bytes : string }.

Class KeyTypes := { RsaKey : Type; EcKey : Type; PublicKey : Type; Entropy : Type }.

Section types.
Context `{KeyTypes}.

(** What the field [Key interface{}] of a PrivateKey may hold. *)
Inductive Key := KRsa (k : RsaKey) | KEc (k : EcKey).

(** [type PrivateKey struct] *)
Record PrivateKey := { pk_Type : string; pk_Key : Key }.

Record CertificateRequest := {
  csr_Subject : Name;
  csr_Alt : AltNames;
  csr_PublicKey : option PublicKey
}.

Record Certificate := {
  IsCA : bool;
  Serial : Z;
  Subject : Name;
  Issuer : Name;
  NotBefore : Z;
  NotAfter : Z;
  Alt : AltNames;
  BasicConstraintsValid : bool;
  SigAlg : SignatureAlgorithm;
  KeyUsage : Z;
  ExtKeyUsage : list Z;
  cert_PublicKey : option PublicKey;
  Raw : string
}.

#[export] Instance Key_eq_dec `{!EqDecision RsaKey} `{!EqDecision EcKey} : EqDecision Key.
Proof. solve_decision. Defined.
#[export] Instance Certificate_eq_dec `{!EqDecision PublicKey} : EqDecision Certificate.
Proof. solve_decision. Defined.

(** [type CertPem struct] *)
Record CertPem := { Crt : string; pem_Key : string }.
End types.

Class Crypto `{KeyTypes} := {
  rsa_GenerateKey : Entropy -> Z -> outcome RsaKey;
  ecdsa_GenerateKey : string -> Entropy -> outcome EcKey;     (* by the name of the curve *)
  N_BitLen : RsaKey -> Z;
  D_BitLen : EcKey -> Z;
  Public : Key -> PublicKey;
  MarshalPKCS1PrivateKey : RsaKey -> string;
  MarshalECPrivateKey : EcKey -> outcome string;
  ParsePKCS1PrivateKey : string -> outcome RsaKey;
  ParseECPrivateKey : string -> outcome EcKey;
  CreateCertificateRequest : Entropy -> CertificateRequest -> Key -> outcome string;
  ParseCertificateRequest : string -> outcome CertificateRequest;
  (* the template, the parent, the public key of the signee, the key of the signer *)
  CreateCertificate : Entropy -> Certificate -> Certificate -> option PublicKey -> Key -> outcome string;
  ParseCertificate : string -> outcome Certificate;
  (* whether the signature of the certificate was made with the key of this public key *)
  signed_with : Certificate -> PublicKey -> bool;
  AddDays : Z -> Z -> Z;
  pem_Encode : Block -> outcome string;
  pem_Decode : string -> option Block * string
}.

(** The laws: what is written is read back; a certificate has what its template has, its issuer is
    its parent and its signature the signer's; PEM without headers can be written, is
    read whatever follows it, and what remains is shorter. *)
Class CryptoLaws `{Crypto} : Prop := {
  rsa_read k : ParsePKCS1PrivateKey (MarshalPKCS1PrivateKey k) = Ok k;
  ec_read k s : MarshalECPrivateKey k = Ok s -> ParseECPrivateKey s = Ok k;
  csr_read e info k s : CreateCertificateRequest e info k = Ok s ->
    ParseCertificateRequest s = Ok {| csr_Subject := csr_Subject info; csr_Alt := csr_Alt info;
                                      csr_PublicKey := Some (Public k) |};
  cert_read e t p pub k der : CreateCertificate e t p pub k = Ok der ->
    exists c, ParseCertificate der = Ok c /\ Raw c = der /\ Subject c = Subject t /\
      Issuer c = Subject p /\ Alt c = Alt t /\ KeyUsage c = KeyUsage t /\
      ExtKeyUsage c = ExtKeyUsage t /\ cert_PublicKey c = pub /\ signed_with c (Public k) = true /\
      (BasicConstraintsValid t = true -> IsCA c = IsCA t);
  pem_write b : Headers b = [] -> exists s, pem_Encode b = Ok s;
  pem_read b s rest : pem_Encode b = Ok s -> pem_Decode (s +:+ rest) = (Some b, rest);
  pem_shorter s b rest : pem_Decode s = (Some b, rest) ->
    (String.length rest < String.length s)%nat
}.

Section pki.
Context `{Crypto}.

(** ** pki/utils.go *)

Definition RsaPrivateKeyBlockType : string := "RSA PRIVATE KEY".
Definition EcPrivateKeyBlockType : string := "EC PRIVATE KEY".
Definition CertificateBlockType : string := "CERTIFICATE".
Definition CertificateRequestBlockType : string := "CERTIFICATE REQUEST".
Definition DefaultDSA : string := "P256".
Definition DefaultRSABits : Z := 2048.

Definition ec_private_key (curve : string) (e : Entropy) : outcome PrivateKey :=
  key ← ecdsa_GenerateKey curve e;
  Ok {| pk_Type := EcPrivateKeyBlockType; pk_Key := KEc key |}.

Definition GenCertPrivateKey (e : Entropy) (dsa : string) (bits : Z) : outcome PrivateKey :=
  if String.eqb dsa "rsa" then
    key ← rsa_GenerateKey e bits;
    Ok {| pk_Type := RsaPrivateKeyBlockType; pk_Key := KRsa key |}
  else if existsb (String.eqb dsa) ["P224"; "P256"; "P384"; "P521"] then ec_private_key dsa e
  else Err ("unRecognized digital signature algorithm: " +:+ dsa).

(** [pem.EncodeToMemory]: nothing when the block cannot be encoded. *)
Definition EncodeToMemory (b : Block) : string := match pem_Encode b with Ok s => s | _ => "" end.

(** A type that does not fit the key is a failed type assertion. *)
Definition EncodeCertPrivateKey (priv : PrivateKey) : outcome string :=
  if String.eqb (pk_Type priv) RsaPrivateKeyBlockType then
    match pk_Key priv with
    | KRsa k => Ok (EncodeToMemory {| block_Type := RsaPrivateKeyBlockType; Headers := [];
                                      Bytes := MarshalPKCS1PrivateKey k |})
    | KEc _ => Panic "interface conversion"
    end
  else if String.eqb (pk_Type priv) EcPrivateKeyBlockType then
    match pk_Key priv with
    | KEc k =>
        match MarshalECPrivateKey k with
        | Ok bytes => Ok (EncodeToMemory {| block_Type := EcPrivateKeyBlockType; Headers := [];
                                            Bytes := bytes |})
        | Err e => Err ("error mashaling ECPrivateKey: " +:+ e)
        | Panic e => Panic e
        | NoFuel => NoFuel
        end
    | KRsa _ => Panic "interface conversion"
    end
  else Err "unRecognized type of PrivateKey".

Definition ParseCertPrivateKey (key : string) : outcome PrivateKey :=
  match fst (pem_Decode key) with
  | None => Err "key is not PEM encoded"
  | Some block =>
      if String.eqb (block_Type block) EcPrivateKeyBlockType then
        k ← ParseECPrivateKey (Bytes block);
        Ok {| pk_Type := EcPrivateKeyBlockType; pk_Key := KEc k |}
      else if String.eqb (block_Type block) RsaPrivateKeyBlockType then
        k ← ParsePKCS1PrivateKey (Bytes block);
        Ok {| pk_Type := RsaPrivateKeyBlockType; pk_Key := KRsa k |}
      else Err ("unsupported block type: " +:+ block_Type block)
  end.

(** The loop of ParseCertificates; a block takes at least a byte. *)
Fixpoint parse_certs (fuel : nat) (pemCerts : string) (certs : list Certificate)
    : outcome (list Certificate) :=
  match fuel with
  | O => NoFuel
  | S fuel =>
      if String.eqb pemCerts "" then Ok certs
      else match pem_Decode pemCerts with
      | (None, _) => Ok certs
      | (Some block, rest) =>
          if negb (String.eqb (block_Type block) CertificateBlockType)
             || negb (length (Headers block) =? 0)%nat
          then parse_certs fuel rest certs
          else cert ← ParseCertificate (Bytes block);
               parse_certs fuel rest (certs ++ [cert])
      end
  end.
Definition ParseCertificates (pemCerts : string) : outcome (list Certificate) :=
  certs ← parse_certs (S (String.length pemCerts)) pemCerts [];
  match certs with
  | [] => Err "data does not contain any valid RSA or ECDSA certificates"
  | _ => Ok certs
  end.

Definition SigAlgorithmType (priv : PrivateKey) : outcome SignatureAlgorithm :=
  if String.eqb (pk_Type priv) RsaPrivateKeyBlockType then
    match pk_Key priv with
    | KRsa k =>
        let keySize := N_BitLen k in
        Ok (if 4096 <=? keySize then SHA512WithRSA
            else if 3072 <=? keySize then SHA384WithRSA else SHA256WithRSA)
    | KEc _ => Panic "interface conversion"
    end
  else if String.eqb (pk_Type priv) EcPrivateKeyBlockType then
    match pk_Key priv with
    | KEc k =>
        let keySize := Z.quot (D_BitLen k) 8 + 8 in
        Ok (if 72 <=? keySize then ECDSAWithSHA512
            else if 54 <=? keySize then ECDSAWithSHA384 else ECDSAWithSHA256)
    | KRsa _ => Panic "interface conversion"
    end
  else Ok UnknownSignatureAlgorithm.

(** [EncodeCertificates(certs...)], of the bytes of the certificates. *)
Fixpoint EncodeCertificates (raws : list string) : outcome string :=
  match raws with
  | [] => Ok ""
  | raw :: raws =>
      s ← pem_Encode {| block_Type := CertificateBlockType; Headers := []; Bytes := raw |};
      rest ← EncodeCertificates raws;
      Ok (s +:+ rest)
  end.

(** [EncodeCertificatesRequest(csrs...)], of the bytes of the requests. *)
Fixpoint EncodeCertificatesRequest (raws : list string) : outcome string :=
  match raws with
  | [] => Ok ""
  | raw :: raws =>
      s ← pem_Encode {| block_Type := CertificateRequestBlockType; Headers := []; Bytes := raw |};
      rest ← EncodeCertificatesRequest raws;
      Ok (s +:+ rest)
  end.

(** ** pki/pki.go *)

(** [caCert[0]] *)
Definition first_cert (cs : list Certificate) : outcome Certificate :=
  match cs with c :: _ => Ok c | [] => Panic "index out of range [0] with length 0" end.

(** The entropy a call uses: for its key, its request and its signature; and the time. *)
Record Call := { for_key : Entropy; for_csr : Entropy; for_cert : Entropy; now : Z; unixNano : Z }.

Definition sub_template (c : Call) (csr : CertificateRequest) (durationDay : Z)
    (alg : SignatureAlgorithm) : Certificate :=
  {| IsCA := false; Serial := unixNano c; Subject := csr_Subject csr; Issuer := csr_Subject csr;
     NotBefore := now c; NotAfter := AddDays (now c) durationDay; Alt := csr_Alt csr;
     BasicConstraintsValid := true; SigAlg := alg;
     KeyUsage := Z.lor KeyUsageDigitalSignature KeyUsageKeyEncipherment;
     ExtKeyUsage := [ExtKeyUsageClientAuth; ExtKeyUsageServerAuth];
     cert_PublicKey := None; Raw := "" |}.

Definition CreateSubCert (c : Call) (csr : string) (durationDay : Z) (parent : CertPem) : outcome string :=
  caKey ← ParseCertPrivateKey (pem_Key parent);
  caCert ← ParseCertificates (Crt parent);
  csrInfo ← ParseCertificateRequest csr;
  alg ← SigAlgorithmType caKey;
  ca ← first_cert caCert;
  cert ← CreateCertificate (for_cert c) (sub_template c csrInfo durationDay alg) ca
           (csr_PublicKey csrInfo) (pk_Key caKey);
  EncodeCertificates [cert].

Definition CreateSubCertWithKey (c : Call) (info : CertificateRequest) (durationDay : Z)
    (parent : CertPem) : outcome CertPem :=
  priv ← GenCertPrivateKey (for_key c) DefaultDSA DefaultRSABits;
  privByte ← EncodeCertPrivateKey priv;
  csr ← CreateCertificateRequest (for_csr c) info (pk_Key priv);
  crt ← CreateSubCert c csr durationDay parent;
  Ok {| Crt := crt; pem_Key := privByte |}.

Definition root_template (c : Call) (info : CertificateRequest) (durationDay : Z)
    (alg : SignatureAlgorithm) : Certificate :=
  {| IsCA := true; Serial := unixNano c; Subject := csr_Subject info; Issuer := csr_Subject info;
     NotBefore := now c; NotAfter := AddDays (now c) durationDay; Alt := csr_Alt info;
     BasicConstraintsValid := true; SigAlg := alg;
     KeyUsage := Z.lor (Z.lor KeyUsageDigitalSignature KeyUsageCertSign) KeyUsageCRLSign;
     ExtKeyUsage := []; cert_PublicKey := None; Raw := "" |}.

(** The parent is a pointer, which CreateRootCert follows; a self-signed certificate has
    itself, the template, for parent. *)
Definition createRootCert (c : Call) (isSelfSigned : bool) (info : CertificateRequest) (durationDay : Z)
    (parent : option CertPem) : outcome CertPem :=
  priv ← GenCertPrivateKey (for_key c) DefaultDSA DefaultRSABits;
  privByte ← EncodeCertPrivateKey priv;
  csr ← CreateCertificateRequest (for_csr c) info (pk_Key priv);
  csrInfo ← ParseCertificateRequest csr;
  '(certInfo, caCert, caKey) ←
    (if isSelfSigned then
       alg ← SigAlgorithmType priv;
       let t := root_template c info durationDay alg in Ok (t, t, priv)
     else match parent with
     | None => Panic "invalid memory address or nil pointer dereference"
     | Some parent =>
         caKey ← ParseCertPrivateKey (pem_Key parent);
         alg ← SigAlgorithmType caKey;
         caCerts ← ParseCertificates (Crt parent);
         ca ← first_cert caCerts;
         Ok (root_template c info durationDay alg, ca, caKey)
     end);
  cert ← CreateCertificate (for_cert c) certInfo caCert (csr_PublicKey csrInfo) (pk_Key caKey);
  crt ← EncodeCertificates [cert];
  Ok {| Crt := crt; pem_Key := privByte |}.

Definition CreateSelfSignedRootCert c info durationDay := createRootCert c true info durationDay None.
Definition CreateRootCert c info durationDay parent := createRootCert c false info durationDay parent.

(** ** tools/issue_certificate.go *)

Definition genCsr (cn : string) (alt : AltNames) : CertificateRequest :=
  {| csr_Subject :=
       {| Country := ["CN"]; Organization := ["Linux Foundation Edge"]; OrganizationalUnit := ["BAETYL"];
          Locality := ["Haidian District"]; Province := ["Beijing"]; StreetAddress := ["Baidu Campus"];
          PostalCode := ["100093"]; CommonName := cn |};
     csr_Alt := alt; csr_PublicKey := None |}.
Definition local_ips : list string := ["0.0.0.0"; "127.0.0.1"].
Definition createRoot (c : Call) : outcome CertPem :=
  CreateSelfSignedRootCert c
    (genCsr "root.ca" {| DNSNames := []; IPs := local_ips; Emails := []; URIs := [] |}) (50 * 365).
Definition createSub (c : Call) (cn : string) (alt : AltNames) (parent : CertPem) : outcome CertPem :=
  CreateSubCertWithKey c (genCsr cn alt) (20 * 365) parent.

(** The files issueCert writes, in order, up to the first error. *)
Definition issueCert (WriteFile : string -> string -> outcome unit) (c1 c2 c3 : Call) : outcome unit :=
  ca ← createRoot c1;
  _ ← WriteFile "output/ca.crt" (Crt ca);
  _ ← WriteFile "output/ca.key" (pem_Key ca);
  client ← createSub c2 "client" {| DNSNames := []; IPs := local_ips; Emails := []; URIs := [] |} ca;
  _ ← WriteFile "output/client.crt" (Crt client);
  _ ← WriteFile "output/client.key" (pem_Key client);
  server ← createSub c3 "server" {| DNSNames := ["localhost"]; IPs := local_ips; Emails := []; URIs := [] |} ca;
  _ ← WriteFile "output/server.crt" (Crt server);
  WriteFile "output/server.key" (pem_Key server).

(** ** What is written is read back *)

Ltac split_binds H :=
  repeat (let x := fresh "x" in let Hx := fresh "Hx" in
          apply outcome_bind_ok in H as (x & Hx & H)).

(** A key whose type says what it holds. *)
Definition key_ok (p : PrivateKey) : Prop :=
  match pk_Key p with
  | KRsa _ => pk_Type p = RsaPrivateKeyBlockType
  | KEc _ => pk_Type p = EcPrivateKeyBlockType
  end.

Lemma gen_key_ok e dsa bits p : GenCertPrivateKey e dsa bits = Ok p -> key_ok p.
Proof.
  unfold GenCertPrivateKey, ec_private_key. intros Hg.
  destruct (String.eqb dsa "rsa"); [|destruct (existsb _ _); [|done]];
    split_binds Hg; by simplify_eq.
Qed.

Lemma parse_key_ok s p : ParseCertPrivateKey s = Ok p -> key_ok p.
Proof.
  unfold ParseCertPrivateKey. intros Hg. destruct (fst _); [|done].
  destruct (String.eqb _ _); [|destruct (String.eqb _ _); [|done]]; split_binds Hg; by simplify_eq.
Qed.

Context `{!CryptoLaws}.

Lemma key_roundtrip p s : key_ok p -> EncodeCertPrivateKey p = Ok s -> ParseCertPrivateKey s = Ok p.
Proof.
  destruct p as [t [k|k]]; unfold key_ok, EncodeCertPrivateKey, ParseCertPrivateKey, EncodeToMemory;
    cbn [pk_Key pk_Type]; intros ->; cbn [String.eqb Ascii.eqb Bool.eqb].
  - change (String.eqb _ _) with true at 1. cbv iota. intros [= <-].
    destruct (pem_write {| block_Type := RsaPrivateKeyBlockType; Headers := [];
                           Bytes := MarshalPKCS1PrivateKey k |} eq_refl) as [s Hs].
    rewrite Hs, <- (append_nil_r s), (pem_read _ _ _ Hs). cbn.
    change (String.eqb RsaPrivateKeyBlockType EcPrivateKeyBlockType) with false.
    change (String.eqb RsaPrivateKeyBlockType RsaPrivateKeyBlockType) with true.
    cbn. by rewrite rsa_read.
  - change (String.eqb EcPrivateKeyBlockType RsaPrivateKeyBlockType) with false.
    change (String.eqb EcPrivateKeyBlockType EcPrivateKeyBlockType) with true. cbv iota.
    destruct (MarshalECPrivateKey k) as [b| | |] eqn:Hk; try done. intros [= <-].
    destruct (pem_write {| block_Type := EcPrivateKeyBlockType; Headers := [];
                           Bytes := b |} eq_refl) as [s Hs].
    rewrite Hs, <- (append_nil_r s), (pem_read _ _ _ Hs). cbn.
    change (String.eqb EcPrivateKeyBlockType EcPrivateKeyBlockType) with true.
    cbn. by rewrite (ec_read _ _ Hk).
Qed.

Lemma encode_certificates_total raws : exists s, EncodeCertificates raws = Ok s.
Proof.
  induction raws as [|raw raws [s IH]]; [by eexists|]. cbn.
  destruct (pem_write {| block_Type := CertificateBlockType; Headers := []; Bytes := raw |} eq_refl)
    as [t ->]. rewrite IH. by eexists.
Qed.

(** One block more is one turn of the loop; any fuel beyond the length is enough. *)
Lemma parse_certs_block fuel b s rest acc :
  pem_Encode b = Ok s -> block_Type b = CertificateBlockType -> Headers b = [] ->
  parse_certs (S fuel) (s +:+ rest) acc
  = (cert ← ParseCertificate (Bytes b); parse_certs fuel rest (acc ++ [cert])).
Proof.
  intros Hs Ht Hh. cbn [parse_certs]. pose proof (pem_read b s rest Hs) as Hd.
  pose proof (pem_shorter _ _ _ Hd) as Hlen.
  replace (String.eqb (s +:+ rest) "") with false.
  2: { symmetry. apply String.eqb_neq. intros E. rewrite E in Hlen. cbn in Hlen. lia. }
  by rewrite Hd, Ht, Hh, String.eqb_refl.
Qed.

Lemma parse_certs_encoded raws cs : Forall2 (fun raw c => ParseCertificate raw = Ok c) raws cs ->
  forall s fuel acc, EncodeCertificates raws = Ok s -> (String.length s < fuel)%nat ->
  parse_certs fuel s acc = Ok (acc ++ cs).
Proof.
  induction 1 as [|raw c raws cs Hc _ IH]; intros s fuel acc Hs Hf.
  - injection Hs as <-. destruct fuel; [lia|]. cbn. by rewrite app_nil_r.
  - cbn [EncodeCertificates] in Hs. split_binds Hs. injection Hs as <-.
    destruct fuel as [|fuel]; [lia|].
    rewrite (parse_certs_block _ _ _ _ _ Hx) by done. cbn [Bytes]. rewrite Hc. cbn [mbind outcome_bind].
    rewrite (IH _ _ _ Hx0).
    + by rewrite <- app_assoc.
    + pose proof (pem_shorter _ _ _ (pem_read _ _ x0 Hx)). lia.
Qed.

Lemma certificates_roundtrip raws cs s :
  Forall2 (fun raw c => ParseCertificate raw = Ok c) raws cs -> raws <> [] ->
  EncodeCertificates raws = Ok s -> ParseCertificates s = Ok cs.
Proof.
  intros Hc Hne Hs. unfold ParseCertificates.
  rewrite (parse_certs_encoded raws cs Hc s _ [] Hs) by lia. cbn.
  destruct Hc; [done|]. done.
Qed.

(** More fuel than bytes changes nothing: the loop ends by itself. *)
Lemma parse_certs_fuel f g s acc : (String.length s < f)%nat -> (String.length s < g)%nat ->
  parse_certs f s acc = parse_certs g s acc.
Proof.
  revert g s acc. induction f as [|f IH]; intros [|g] s acc Hf Hg; try lia.
  cbn [parse_certs]. destruct (String.eqb s ""); [done|].
  destruct (pem_Decode s) as [[b|] rest] eqn:Hd; [|done].
  pose proof (pem_shorter _ _ _ Hd).
  destruct (_ || _); [apply IH; lia|].
  destruct (ParseCertificate _); cbn; try done. apply IH; lia.
Qed.

(** ** Certificates that have been issued *)

(** A certificate file with one certificate, whose key file has its private key. *)
Definition holds (p : CertPem) (c : Certificate) (k : PrivateKey) : Prop :=
  ParseCertificates (Crt p) = Ok [c] /\ ParseCertPrivateKey (pem_Key p) = Ok k /\
  cert_PublicKey c = Some (Public (pk_Key k)).

Definition may_sign (c : Certificate) : bool :=
  IsCA c && negb (Z.land (KeyUsage c) KeyUsageCertSign =? 0).

(** A chain to a self-signed certificate: each is signed with the key of the next, names
    it as its issuer, and the next may sign. *)
Inductive valid_chain : Certificate -> list Certificate -> Prop :=
  | chain_root c k : cert_PublicKey c = Some k -> signed_with c k = true -> Issuer c = Subject c ->
      valid_chain c []
  | chain_signed c p k rest : cert_PublicKey p = Some k -> signed_with c k = true ->
      Issuer c = Subject p -> may_sign p = true -> valid_chain p rest ->
      valid_chain c (p :: rest).

(** Authorities: a self-signed root, and the roots signed by an authority. *)
Inductive authority : CertPem -> Prop :=
  | auth_root c info d p : CreateSelfSignedRootCert c info d = Ok p -> authority p
  | auth_sub c info d parent p : authority parent -> CreateRootCert c info d (Some parent) = Ok p ->
      authority p.

Lemma issued_pem e t p pub k raw crt : CreateCertificate e t p pub k = Ok raw ->
  EncodeCertificates [raw] = Ok crt -> BasicConstraintsValid t = true ->
  exists c, ParseCertificates crt = Ok [c] /\ Subject c = Subject t /\ Issuer c = Subject p /\
    Alt c = Alt t /\ KeyUsage c = KeyUsage t /\ ExtKeyUsage c = ExtKeyUsage t /\
    cert_PublicKey c = pub /\ signed_with c (Public k) = true /\ IsCA c = IsCA t.
Proof.
  intros Hc He Hb. destruct (cert_read _ _ _ _ _ _ Hc) as (c & Hp & _ & Hrest).
  destruct Hrest as (?&?&?&?&?&?&?&?).
  exists c. split; [|by auto 10].
  apply (certificates_roundtrip [raw] [c]); [|done|done]. by repeat constructor.
Qed.

Lemma may_sign_root c info d alg x : KeyUsage x = KeyUsage (root_template c info d alg) ->
  IsCA x = true -> may_sign x = true.
Proof. unfold may_sign. by intros -> ->. Qed.

(** A new pair, whoever signs it: the certificate has the public half of the new key. *)
Lemma new_root_holds c isSelf info d parent q : createRootCert c isSelf info d parent = Ok q ->
  exists x k signer ca, holds q x k /\ may_sign x = true /\ Issuer x = Subject ca /\
    signed_with x (Public (pk_Key signer)) = true /\ Subject x = csr_Subject info /\
    if isSelf then signer = k /\ Subject ca = csr_Subject info
    else exists p cas, parent = Some p /\ ParseCertPrivateKey (pem_Key p) = Ok signer /\
      ParseCertificates (Crt p) = Ok (ca :: cas).
Proof.
  intros Hq. unfold createRootCert in Hq.
  apply outcome_bind_ok in Hq as (priv & Hpriv & Hq).
  apply outcome_bind_ok in Hq as (privByte & Hbyte & Hq).
  apply outcome_bind_ok in Hq as (csr & Hcsr & Hq).
  apply outcome_bind_ok in Hq as (csrInfo & Hinfo & Hq).
  apply outcome_bind_ok in Hq as ([[t ca] signer] & Hsel & Hq).
  split_binds Hq. injection Hq as <-.
  rewrite (csr_read _ _ _ _ Hcsr) in Hinfo. injection Hinfo as <-.
  pose proof (key_roundtrip _ _ (gen_key_ok _ _ _ _ Hpriv) Hbyte) as Hkey.
  destruct isSelf.
  - split_binds Hsel. injection Hsel as <- <- <-.
    destruct (issued_pem _ _ _ _ _ _ _ Hx Hx0 eq_refl) as (y & Hy & Hs & Hi & _ & Hu & _ & Hp & Hsig & Hca).
    exists y, priv. do 2 eexists. split; [by split|].
    split; [by eapply may_sign_root|]. split; [done|]. split; [done|]. by repeat split.
  - destruct parent as [p|]; [|done].
    apply outcome_bind_ok in Hsel as (sk & Hsk & Hsel).
    apply outcome_bind_ok in Hsel as (alg & Halg & Hsel).
    apply outcome_bind_ok in Hsel as (cas & Hcas & Hsel).
    apply outcome_bind_ok in Hsel as (ca' & Hfirst & Hsel). injection Hsel as <- <- <-.
    destruct cas as [|ca0 cas]; [done|]. injection Hfirst as ->.
    destruct (issued_pem _ _ _ _ _ _ _ Hx Hx0 eq_refl) as (y & Hy & Hs & Hi & _ & Hu & _ & Hp & Hsig & Hca).
    exists y, priv. do 2 eexists. split; [by split|].
    split; [by eapply may_sign_root|]. split; [done|]. split; [done|]. split; [done|].
    by repeat eexists.
Qed.

Lemma authority_chain p : authority p ->
  exists c k rest, holds p c k /\ may_sign c = true /\ valid_chain c rest.
Proof.
  induction 1 as [c info d p Hp|c info d parent p _ (y & ky & rest & Hy & Hsign & Hchain) Hp].
  - destruct (new_root_holds c true info d None p Hp)
      as (x & k & sg & ca & Hx & Hm & Hi & Hsig & Hsub & -> & Hca).
    exists x, k, []. split; [done|split; [done|]].
    eapply chain_root; [apply Hx|done|congruence].
  - destruct (new_root_holds c false info d (Some parent) p Hp)
      as (x & k & sg & ca & Hx & Hm & Hi & Hsig & Hsub & p' & cas & [= <-] & Hk & Hc).
    destruct Hy as (Hyc & Hyk & Hyp).
    assert (ca = y) as -> by congruence. assert (sg = ky) as -> by congruence.
    exists x, k, (y :: rest). split; [done|split; [done|]]. by eapply chain_signed.
Qed.

(** What an authority issues: the files, and the certificate in them. *)
Lemma issue_sub c info d p q : authority p -> CreateSubCertWithKey c info d p = Ok q ->
  exists x k y rest, holds q x k /\ Subject x = csr_Subject info /\ Alt x = csr_Alt info /\
    IsCA x = false /\ ExtKeyUsage x = [ExtKeyUsageClientAuth; ExtKeyUsageServerAuth] /\
    valid_chain x (y :: rest).
Proof.
  intros Ha Hq. destruct (authority_chain p Ha) as (y & ky & rest & (Hyc & Hyk & Hyp) & Hsign & Hchain).
  unfold CreateSubCertWithKey in Hq.
  apply outcome_bind_ok in Hq as (priv & Hpriv & Hq).
  apply outcome_bind_ok in Hq as (privByte & Hbyte & Hq).
  apply outcome_bind_ok in Hq as (csr & Hcsr & Hq).
  apply outcome_bind_ok in Hq as (crt & Hsub & Hq). injection Hq as <-.
  unfold CreateSubCert in Hsub. rewrite Hyk, Hyc, (csr_read _ _ _ _ Hcsr) in Hsub.
  cbn [mbind outcome_bind first_cert csr_PublicKey] in Hsub.
  apply outcome_bind_ok in Hsub as (alg & _ & Hsub).
  apply outcome_bind_ok in Hsub as (raw & Hraw & Hsub).
  destruct (issued_pem _ _ _ _ _ _ _ Hraw Hsub eq_refl)
    as (x1 & Hx1 & Hs & Hi & Halt & Hu & Hext & Hp & Hsig & Hca).
  pose proof (key_roundtrip _ _ (gen_key_ok _ _ _ _ Hpriv) Hbyte) as Hkey.
  exists x1, priv, y, rest. split; [by split|]. do 4 (split; [done|]). by eapply chain_signed.
Qed.

Lemma sub_certificate c info d p q : authority p -> CreateSubCertWithKey c info d p = Ok q ->
  exists x k, ParseCertificates (Crt q) = Ok [x] /\ ParseCertPrivateKey (pem_Key q) = Ok k /\
    Subject x = csr_Subject info.
Proof.
  intros Ha Hq. destruct (issue_sub _ _ _ _ _ Ha Hq) as (x & k & y & rest & (Hc & Hk & _) & Hs & _).
  by exists x, k.
Qed.

(** C19. Whatever CreateSubCertWithKey returns for an authority - a self-signed root, or a root signed
    by an authority - is a certificate and a key that belong together: the files parse, the certificate has
    the subject and the names that were asked for, is no authority itself and serves clients
    and servers, has the public half of the key in the key file, and has a chain of signatures by certificates that may
    sign, up to a self-signed one. *)
Theorem issued_chain c info d p q : authority p -> CreateSubCertWithKey c info d p = Ok q ->
  exists x k chain, holds q x k /\ Subject x = csr_Subject info /\ Alt x = csr_Alt info /\
    IsCA x = false /\ may_sign x = false /\
    ExtKeyUsage x = [ExtKeyUsageClientAuth; ExtKeyUsageServerAuth] /\
    valid_chain x chain /\ chain <> [].
Proof.
  intros Ha Hq. destruct (issue_sub _ _ _ _ _ Ha Hq) as (x & k & y & rest & Hh & Hs & Halt & Hca & Hext & Hv).
  exists x, k, (y :: rest). do 4 (split; [done|]). split; [by unfold may_sign; rewrite Hca|].
  by repeat split.
Qed.
End pki.

(** ** A cryptography that satisfies the laws

    Keys are numbers, PEM is base64 between ampersands, and two certificates can be
    made: a root of key 1, and a client of key 2 signed by it. *)

Module Toy.
Definition types : KeyTypes := {| RsaKey := unit; EcKey := Z; PublicKey := Z; Entropy := Z |}.
#[local] Existing Instance types.
#[local] Instance pub_eq : EqDecision PublicKey := Z.eq_dec.
#[local] Instance ec_eq : EqDecision EcKey := Z.eq_dec.
#[local] Instance rsa_eq : EqDecision RsaKey := unit_eq_dec.

Definition public (k : Key) : PublicKey := match k with KEc z => z | KRsa _ => 0 end.
Definition days (t d : Z) : Z := t + d * 86400000000000.

Definition encode (b : Block) : outcome string :=
  match Headers b with
  | [] => Ok (EncodeToString "-" "_" (block_Type b) +:+ String "&"
               (EncodeToString "-" "_" (Bytes b) +:+ "&"))
  | _ => Err "headers"
  end.
Definition decode (s : string) : option Block * string :=
  if has_char "&" s then
    let '(a, r) := Cut s "&" in
    let '(b, r) := Cut r "&" in
    match DecodeString "-" "_" a, DecodeString "-" "_" b with
    | Ok t, Ok bytes => (Some {| block_Type := t; Headers := []; Bytes := bytes |}, r)
    | _, _ => (None, s)
    end
  else (None, s).

Definition no_names : AltNames := {| DNSNames := []; IPs := []; Emails := []; URIs := [] |}.
Definition root_info : CertificateRequest := genCsr "root" no_names.
Definition leaf_info : CertificateRequest := genCsr "leaf" no_names.

(** The two certificates, and the templates they are made from, at time 0. *)
Definition certificate (ca : bool) (subject issuer : CertificateRequest) (d : Z) (pub : option Z) (raw : string)
    : Certificate :=
  {| IsCA := ca; Serial := 0; Subject := csr_Subject subject; Issuer := csr_Subject issuer;
     NotBefore := 0; NotAfter := days 0 d; Alt := no_names; BasicConstraintsValid := true;
     SigAlg := ECDSAWithSHA256; KeyUsage := if ca then 97 else 5;
     ExtKeyUsage := if ca then [] else [ExtKeyUsageClientAuth; ExtKeyUsageServerAuth];
     cert_PublicKey := pub; Raw := raw |}.
Definition root_cert : Certificate := certificate true root_info root_info 10 (Some 1) "der1".
Definition leaf_cert : Certificate := certificate false leaf_info root_info 5 (Some 2) "der2".

Definition create (t p : Certificate) (pub : option PublicKey) (k : Key) : outcome string :=
  if bool_decide (t = certificate true root_info root_info 10 None "" /\ p = t /\ pub = Some 1 /\ k = KEc 1)
  then Ok "der1"
  else if bool_decide (t = certificate false leaf_info leaf_info 5 None "" /\ p = root_cert
                       /\ pub = Some 2 /\ k = KEc 1)
  then Ok "der2" else Err "unknown certificate".

Definition crypto : Crypto := {|
  rsa_GenerateKey _ _ := Err "no rsa";
  ecdsa_GenerateKey _ e := Ok e;
  N_BitLen _ := 2048; D_BitLen _ := 256;
  Public := public;
  MarshalPKCS1PrivateKey _ := "rsa"; ParsePKCS1PrivateKey _ := Ok tt;
  MarshalECPrivateKey k := if bool_decide (in_s 64 k) then Ok (FormatInt k) else Err "too large";
  ParseECPrivateKey s := ParseInt s 64;
  CreateCertificateRequest _ info k :=
    if bool_decide (csr_Subject info = csr_Subject root_info /\ csr_Alt info = no_names /\ k = KEc 1)
    then Ok "csr1"
    else if bool_decide (csr_Subject info = csr_Subject leaf_info /\ csr_Alt info = no_names /\ k = KEc 2)
    then Ok "csr2" else Err "unknown request";
  ParseCertificateRequest s :=
    if String.eqb s "csr1"
    then Ok {| csr_Subject := csr_Subject root_info; csr_Alt := no_names; csr_PublicKey := Some 1 |}
    else Ok {| csr_Subject := csr_Subject leaf_info; csr_Alt := no_names; csr_PublicKey := Some 2 |};
  CreateCertificate _ := create;
  ParseCertificate s := if String.eqb s "der1" then Ok root_cert else Ok leaf_cert;
  signed_with c k := bool_decide (k = 1);
  AddDays := days;
  pem_Encode := encode; pem_Decode := decode
|}.
#[local] Existing Instance crypto.

Lemma no_amp s : has_char "&" (EncodeToString "-" "_" s) = false.
Proof. apply plain_no_char; [apply safe_plain, base64_safe|auto]. Qed.

Lemma decode_encode_block b s rest : encode b = Ok s -> decode (s +:+ rest) = (Some b, rest).
Proof.
  unfold encode, decode. destruct b as [t [|] bytes]; cbn; [|done]. intros [= <-].
  rewrite append_assoc, has_char_app, append_cons. cbn [has_char].
  rewrite Ascii.eqb_refl, orb_true_r, Cut_app, append_assoc by apply no_amp.
  rewrite (append_cons "&" "" rest), append_nil, Cut_app by apply no_amp.
  by rewrite !base64_roundtrip.
Qed.

Lemma laws : CryptoLaws.
Proof.
  constructor; cbn.
  - by intros [].
  - intros k s. case_bool_decide; [|done]. intros [= <-].
    rewrite ParseInt_FormatInt. by rewrite bool_decide_eq_true_2.
  - intros e info k s. repeat case_bool_decide; try done; intros [= <-];
      match goal with H : _ /\ _ |- _ => destruct H as (-> & -> & ->) end; done.
  - intros e t p pub k der. unfold create. repeat case_bool_decide; try done; intros [= <-];
      match goal with H : _ /\ _ |- _ => destruct H as (-> & -> & -> & ->) end;
      eexists; by repeat split.
  - intros [t hs bytes]. cbn. intros ->. by eexists.
  - apply decode_encode_block.
  - intros s b rest. unfold decode. destruct (has_char "&" s) eqn:Hs; [|done].
    pose proof (Cut_shorter s "&" Hs). destruct (Cut s "&") as [x r]. cbn in *.
    pose proof (Cut_length r "&"). destruct (Cut r "&") as [y q]. cbn in *.
    destruct (DecodeString "-" "_" x), (DecodeString "-" "_" y); try done. intros [= <- <-]. lia.
Qed.

Definition call (key : Z) : Call :=
  {| for_key := key; for_csr := 0; for_cert := 0; now := 0; unixNano := 0 |}.
End Toy.

Lemma issued_chain_witness :
  exists ca q, @CreateSelfSignedRootCert _ Toy.crypto (Toy.call 1) Toy.root_info 10 = Ok ca /\
    @CreateSubCertWithKey _ Toy.crypto (Toy.call 2) Toy.leaf_info 5 ca = Ok q /\
    exists x k chain, @holds _ Toy.crypto q x k /\ Subject x = csr_Subject Toy.leaf_info /\
      Alt x = csr_Alt Toy.leaf_info /\ IsCA x = false /\ may_sign x = false /\
      ExtKeyUsage x = [ExtKeyUsageClientAuth; ExtKeyUsageServerAuth] /\
      @valid_chain _ Toy.crypto x chain /\ chain <> [].
Proof.
  assert (Hca : exists ca, @CreateSelfSignedRootCert _ Toy.crypto (Toy.call 1) Toy.root_info 10 = Ok ca).
  { eexists. vm_compute. reflexivity. }
  destruct Hca as [ca Hca].
  assert (Hq : exists q, @CreateSubCertWithKey _ Toy.crypto (Toy.call 2) Toy.leaf_info 5 ca = Ok q).
  { vm_compute in Hca. injection Hca as <-. eexists. vm_compute. reflexivity. }
  destruct Hq as [q Hq]. exists ca, q. split; [exact Hca|split; [exact Hq|]].
  refine (@issued_chain _ Toy.crypto Toy.laws (Toy.call 2) Toy.leaf_info 5 ca q _ Hq).
  exact (@auth_root _ Toy.crypto (Toy.call 1) Toy.root_info 10 ca Hca).
Defined.

(** The signature algorithm of an elliptic curve key follows the size of its secret number,
    not of its curve: a small secret of P-521 gets SHA-256. *)
Lemma ec_algorithm_by_secret `{Crypto} k : D_BitLen k < 368 ->
  SigAlgorithmType {| pk_Type := EcPrivateKeyBlockType; pk_Key := KEc k |} = Ok ECDSAWithSHA256.
Proof.
  intros Hk. unfold SigAlgorithmType. cbn [pk_Type pk_Key].
  change (String.eqb EcPrivateKeyBlockType RsaPrivateKeyBlockType) with false.
  change (String.eqb EcPrivateKeyBlockType EcPrivateKeyBlockType) with true. cbv iota.
  assert (Z.quot (D_BitLen k) 8 < 46) by (Z.to_euclidean_division_equations; lia).
  by rewrite (proj2 (Z.leb_gt 72 _)), (proj2 (Z.leb_gt 54 _)) by lia.
Qed.
