(* ===== verification/SysContext.v ===== *)
(** * The service context

    context/context.go, context/env.go and the platform text: a context is made from the
    environment and a configuration file, keeps what it is given in a map, checks the
    system certificate, and makes the options of the clients of the system. The process, its
    files and libraries are parameters: the environment, [os.Stat], the reading of files,
    the yaml decoder with defaults and validation of UtilsConf, zap, and the
    cryptography of Pki. *)

From Stdlib Require Import ZArith Lia Ascii String.
From stdpp Require Import base option list strings gmap fin_maps.
From S2P Require Import Prelude UtilsConf LogConfig Pki.
From S2P Require MqttPacket Http.

Local Open Scope string_scope.
Local Open Scope Z_scope.
Local Open Scope list_scope.

Abbreviation Cert := MqttPacket.Certificate.
Abbreviation HttpConfig := Http.ClientConfig.
Abbreviation MqttConfig := MqttPacket.ClientConfig.

(** ** context/env.go *)

Definition KeyBaetyl : string := "BAETYL".
Definition KeyConfFile : string := "BAETYL_CONF_FILE".
Definition KeyNodeName : string := "BAETYL_NODE_NAME".
Definition KeyAppName : string := "BAETYL_APP_NAME".
Definition KeyAppVersion : string := "BAETYL_APP_VERSION".
Definition KeySvcName : string := "BAETYL_SERVICE_NAME".
Definition KeySysConf : string := "BAETYL_SYSTEM_CONF".
Definition KeyRunMode : string := "BAETYL_RUN_MODE".
Definition KeyBaetylHostPathLib : string := "BAETYL_HOST_PATH_LIB".
Definition RunModeKube : string := "kube".
Definition RunModeNative : string := "native".
Definition localHost : string := "127.0.0.1".
Definition baetylEdgeSystemNamespace : string := "baetyl-edge-system".

(** [os.Getenv]: the environment of the process. *)
Definition environment : Type := gmap string string.
Definition Getenv (env : environment) (k : string) : string :=
  default "" ((env : gmap string string) !! k).

(** [HostPathLib()] sets the variable it does not find. *)
Definition HostPathLib (windows : bool) (env : environment) : string * environment :=
  let val := Getenv env KeyBaetylHostPathLib in
  if String.eqb val "" then
    let val := if windows then "C:/baetyl" else "/var/lib/baetyl" in
    (val, <[KeyBaetylHostPathLib := val]> (env : gmap string string))
  else (val, env).

Definition RunMode (env : environment) : string :=
  let mode := Getenv env KeyRunMode in
  if negb (String.eqb mode RunModeNative) then RunModeKube else mode.
Definition native (env : environment) : bool := String.eqb (RunMode env) RunModeNative.

Definition BrokerPort : string := "50010".
Definition FunctionHttpPort : string := "50011".
Definition CoreHttpPort (env : environment) : string := if native env then "8443" else "443".
Definition BrokerHost (env : environment) : string :=
  if native env then localHost else "baetyl-broker." +:+ baetylEdgeSystemNamespace.
Definition CoreHost (env : environment) : string :=
  if native env then localHost else "baetyl-core." +:+ baetylEdgeSystemNamespace.
Definition FunctionHost (env : environment) : string :=
  if native env then localHost else "baetyl-function." +:+ baetylEdgeSystemNamespace.

Definition getBrokerAddress (env : environment) : string :=
  "ssl://" +:+ BrokerHost env +:+ ":" +:+ BrokerPort.
Definition getFunctionAddress (env : environment) : string :=
  "https://" +:+ FunctionHost env +:+ ":" +:+ FunctionHttpPort.
Definition getCoreAddress (env : environment) : string :=
  "https://" +:+ CoreHost env +:+ ":" +:+ CoreHttpPort env.
Definition getCoreInscureAdddress (env : environment) : string :=
  "http://" +:+ CoreHost env +:+ ":" +:+ CoreHttpPort env.

(** ** context/platform.go *)

Definition PlatformString (os arch variant : string) : string :=
  if String.eqb os "" then "unknown"
  else if String.eqb variant "" then os +:+ "-" +:+ arch
  else os +:+ "-" +:+ arch +:+ "-" +:+ variant.

(** ** context/config.go *)

Record SystemConfig := {
  Certificate_ : Cert;
  Function_ : HttpConfig;
  Core : HttpConfig;
  Broker : MqttConfig;
  Logger_ : LogConfig.Config
}.

(** ** Filling in what the file left out *)

Definition fill (v d : string) : string := if String.eqb v "" then d else v.

Definition fill_cert (c sys : Cert) : Cert :=
  {| MqttPacket.CA := fill (MqttPacket.CA c) (MqttPacket.CA sys);
     MqttPacket.Key := fill (MqttPacket.Key c) (MqttPacket.Key sys);
     MqttPacket.Cert := fill (MqttPacket.Cert c) (MqttPacket.Cert sys);
     MqttPacket.Name := MqttPacket.Name c;
     MqttPacket.InsecureSkipVerify := MqttPacket.InsecureSkipVerify c;
     MqttPacket.ClientAuthType := MqttPacket.ClientAuthType c |}.

Definition fill_http (h : HttpConfig) (address : string) (sys : Cert) : HttpConfig :=
  {| Http.hc_Address := fill (Http.hc_Address h) address;
     Http.hc_Timeout := Http.hc_Timeout h;
     Http.hc_KeepAlive := Http.hc_KeepAlive h;
     Http.hc_MaxIdleConns := Http.hc_MaxIdleConns h;
     Http.hc_IdleConnTimeout := Http.hc_IdleConnTimeout h;
     Http.hc_TLSHandshakeTimeout := Http.hc_TLSHandshakeTimeout h;
     Http.hc_ExpectContinueTimeout := Http.hc_ExpectContinueTimeout h;
     Http.hc_Certificate := fill_cert (Http.hc_Certificate h) sys |}.

Definition link_topic (service : string) : MqttPacket.QOSTopic :=
  {| MqttPacket.qt_QOS := 1; MqttPacket.qt_Topic := "$link/" +:+ service |}.

Definition fill_broker (b : MqttConfig) (address : string) (sys : Cert) (app service : string) : MqttConfig :=
  {| MqttPacket.cc_Address := fill (MqttPacket.cc_Address b) address;
     MqttPacket.cc_Username := MqttPacket.cc_Username b;
     MqttPacket.cc_Password := MqttPacket.cc_Password b;
     MqttPacket.cc_ClientID :=
       if negb (String.eqb service "") then fill (MqttPacket.cc_ClientID b) ("baetyl-link-" +:+ app)
       else MqttPacket.cc_ClientID b;
     MqttPacket.cc_CleanSession := MqttPacket.cc_CleanSession b;
     MqttPacket.cc_Timeout := MqttPacket.cc_Timeout b;
     MqttPacket.cc_KeepAlive := MqttPacket.cc_KeepAlive b;
     MqttPacket.cc_MaxReconnectInterval := MqttPacket.cc_MaxReconnectInterval b;
     MqttPacket.cc_MaxCacheMessages := MqttPacket.cc_MaxCacheMessages b;
     MqttPacket.cc_DisableAutoAck := MqttPacket.cc_DisableAutoAck b;
     MqttPacket.cc_Subscriptions :=
       if negb (String.eqb service "") then MqttPacket.cc_Subscriptions b ++ [link_topic service]
       else MqttPacket.cc_Subscriptions b;
     MqttPacket.cc_Certificate := fill_cert (MqttPacket.cc_Certificate b) sys |}.

Definition populate (env : environment) (app service : string) (sc : SystemConfig) : SystemConfig :=
  let sys := Certificate_ sc in
  {| Certificate_ := sys;
     Function_ := fill_http (Function_ sc) (getFunctionAddress env) sys;
     Core := fill_http (Core sc) (getCoreAddress env) sys;
     Broker := fill_broker (Broker sc) (getBrokerAddress env) sys app service;
     Logger_ := Logger_ sc |}.

(** ** context/context.go *)

(** The values of the context's map: texts, the system configuration, and whatever else
    its users store. *)
Inductive Value := VText (s : string) | VConf (c : SystemConfig) | VAny (id : nat).
Definition cache : Type := gmap string Value.

Section context.
(** The process: its environment, what [os.Stat] says, the contents of files; decoding,
    defaults and validation of the configuration; zap. *)
Context (env : environment) (environ : list string) (Stat : string -> FileInfo)
  (ReadFile : string -> outcome string) (template : string -> gmap string string -> outcome string)
  (yaml_Unmarshal : string -> SystemConfig -> SystemConfig * option error)
  (SetDefaults : SystemConfig -> SystemConfig * option error)
  (validate : SystemConfig -> option error) (zero : SystemConfig)
  (unicode_lower : string -> string)
  (Build : ZapConfig -> list (string * string) -> option error)
  (* what a nil zap logger does when something is logged *)
  (nil_logger : outcome unit).

Abbreviation ZapLogger := (@Logger (string * string)).
Record ctx := { map_ : cache; log : option ZapLogger }.

Definition Load (m : cache) (k : string) : option Value := (m : gmap string Value) !! k.
Definition Store (m : cache) (k : string) (v : Value) : cache := <[k := v]> (m : gmap string Value).
Definition LoadOrStore (m : cache) (k : string) (v : Value) : Value * bool * cache :=
  match Load m k with Some a => (a, true, m) | None => (v, false, Store m k v) end.
Definition Delete (m : cache) (k : string) : cache := delete k (m : gmap string Value).

(** [c.Load(key)] followed by [v.(string)]. *)
Definition text (m : cache) (k : string) : outcome string :=
  match Load m k with
  | None => Ok ""
  | Some (VText s) => Ok s
  | Some _ => Panic "interface conversion: interface {} is not string"
  end.
Definition NodeName (c : ctx) := text (map_ c) KeyNodeName.
Definition AppName (c : ctx) := text (map_ c) KeyAppName.
Definition AppVersion (c : ctx) := text (map_ c) KeyAppVersion.
Definition ServiceName (c : ctx) := text (map_ c) KeySvcName.
Definition ConfFile (c : ctx) := text (map_ c) KeyConfFile.

(** A nil pointer when there is none. *)
Definition SystemConfig_ (c : ctx) : outcome (option SystemConfig) :=
  match Load (map_ c) KeySysConf with
  | None => Ok None
  | Some (VConf sc) => Ok (Some sc)
  | Some _ => Panic "interface conversion: interface {} is not *SystemConfig"
  end.
(** [c.SystemConfig().field] *)
Definition the_config (c : ctx) : outcome SystemConfig :=
  sc ← SystemConfig_ c;
  match sc with Some sc => Ok sc | None => Panic "invalid memory address or nil pointer dereference" end.

(** [c.LoadCustomConfig(cfg, files...)] for a configuration of the system. *)
Definition LoadCustomConfig (conf : string) (files : list string) (cfg : SystemConfig)
    : outcome (SystemConfig * option error) :=
  let f := match files with
           | f0 :: _ => if String.eqb f0 "" then conf else f0
           | [] => conf
           end in
  if FileExists (Stat f)
  then LoadYAML template yaml_Unmarshal SetDefaults validate ReadFile environ f cfg
  else Ok (UnmarshalYAML yaml_Unmarshal SetDefaults validate "" cfg).

(** The configuration NewContext goes on with: on an error, what the failed load left,
    decoded from nothing once more, whatever comes of that. *)
Definition load_system (conf : string) : outcome SystemConfig :=
  '(sc, err) ← LoadCustomConfig conf [] zero;
  Ok (match err with
      | Some _ => fst (UnmarshalYAML yaml_Unmarshal SetDefaults validate "" sc)
      | None => sc
      end).

Definition log_fields (node app service : string) : list (string * string) :=
  filter (fun f => f.2 <> "") [("node", node); ("app", app); ("service", service)].

(** What NewContext stores first. *)
Definition stored_names (conf : string) : cache :=
  Store (Store (Store (Store (Store ∅ KeyConfFile (VText conf))
    KeyNodeName (VText (Getenv env KeyNodeName))) KeyAppName (VText (Getenv env KeyAppName)))
    KeyAppVersion (VText (Getenv env KeyAppVersion))) KeySvcName (VText (Getenv env KeySvcName)).

Definition NewContext (confFile : string) (global : ZapLogger) : outcome (ctx * ZapLogger) :=
  let conf := if String.eqb confFile "" then Getenv env KeyConfFile else confFile in
  let node := Getenv env KeyNodeName in
  let app := Getenv env KeyAppName in
  let service := Getenv env KeySvcName in
  sc ← load_system conf;
  let sc := populate env app service sc in
  let m := Store (stored_names conf) KeySysConf (VConf sc) in
  let '(l, global) := Init unicode_lower Build (Logger_ sc) (log_fields node app service) global in
  match l with
  | Ok l => Ok ({| map_ := m; log := Some l |}, global)
  | Err _ => _ ← nil_logger; Ok ({| map_ := m; log := None |}, global)
  | Panic e => Panic e
  | NoFuel => NoFuel
  end.

(** ** The system certificate *)

Context `{Crypto}.

Definition ErrSystemCertInvalid : error := "system certificate is invalid".
Definition ErrSystemCertNotFound : error := "system certificate is not found".

Definition CheckSystemCert (c : ctx) : outcome unit :=
  sc ← the_config c;
  let cfg := Certificate_ sc in
  if negb (FileExists (Stat (MqttPacket.CA cfg))) || negb (FileExists (Stat (MqttPacket.Key cfg)))
     || negb (FileExists (Stat (MqttPacket.Cert cfg)))
  then Err ErrSystemCertNotFound
  else
    crt ← ReadFile (MqttPacket.Cert cfg);
    info ← ParseCertificates crt;
    match info with
    | [cert] =>
        match OrganizationalUnit (Subject cert) with
        | [ou] => if String.eqb ou KeyBaetyl then Ok tt else Err ErrSystemCertInvalid
        | _ => Err ErrSystemCertInvalid
        end
    | _ => Err ErrSystemCertInvalid
    end.

(** ** The clients of the system *)

Context {tls_Config : Type} (NewTLSConfigClient : Cert -> outcome tls_Config).
Abbreviation HttpClient := (@Http.Client tls_Config).
Abbreviation MqttOptions := (@MqttPacket.ClientOptions tls_Config).

Definition NewFunctionHttpClient (c : ctx) : outcome HttpClient :=
  _ ← CheckSystemCert c;
  sc ← the_config c;
  ops ← Http.ToClientOptions NewTLSConfigClient (Function_ sc);
  Ok (Http.NewClient ops).
Definition NewCoreHttpsClient (c : ctx) : outcome HttpClient :=
  _ ← CheckSystemCert c;
  sc ← the_config c;
  ops ← Http.ToClientOptions NewTLSConfigClient (Core sc);
  Ok (Http.NewClient ops).
Definition NewCoreHttpClient : outcome HttpClient :=
  let o := @Http.NewClientOptions tls_Config in
  Ok (Http.NewClient
    {| Http.co_Address := getCoreInscureAdddress env; Http.co_TLSConfig := Http.co_TLSConfig o;
       Http.co_Timeout := Http.co_Timeout o; Http.co_KeepAlive := Http.co_KeepAlive o;
       Http.co_MaxIdleConns := Http.co_MaxIdleConns o;
       Http.co_IdleConnTimeout := Http.co_IdleConnTimeout o;
       Http.co_TLSHandshakeTimeout := Http.co_TLSHandshakeTimeout o;
       Http.co_ExpectContinueTimeout := Http.co_ExpectContinueTimeout o |}).

(** [copy(dst, src)] copies no more than [dst] is long. *)
Definition go_copy {A} (dst src : list A) : list A := take (length dst) src ++ drop (length src) dst.

Definition with_session (b : MqttConfig) (clean : bool) (subs : list MqttPacket.QOSTopic) : MqttConfig :=
  {| MqttPacket.cc_Address := MqttPacket.cc_Address b;
     MqttPacket.cc_Username := MqttPacket.cc_Username b;
     MqttPacket.cc_Password := MqttPacket.cc_Password b;
     MqttPacket.cc_ClientID := MqttPacket.cc_ClientID b;
     MqttPacket.cc_CleanSession := clean;
     MqttPacket.cc_Timeout := MqttPacket.cc_Timeout b;
     MqttPacket.cc_KeepAlive := MqttPacket.cc_KeepAlive b;
     MqttPacket.cc_MaxReconnectInterval := MqttPacket.cc_MaxReconnectInterval b;
     MqttPacket.cc_MaxCacheMessages := MqttPacket.cc_MaxCacheMessages b;
     MqttPacket.cc_DisableAutoAck := MqttPacket.cc_DisableAutoAck b;
     MqttPacket.cc_Subscriptions := subs;
     MqttPacket.cc_Certificate := MqttPacket.cc_Certificate b |}.

Definition NewSystemBrokerClientConfig (c : ctx) : outcome MqttConfig :=
  _ ← CheckSystemCert c;
  sc ← the_config c;
  let config := Broker sc in
  Ok (with_session config true (go_copy [] (MqttPacket.cc_Subscriptions config))).

(** The options the mqtt client is made of. *)
Definition NewBrokerClient (config : MqttConfig) : outcome MqttOptions :=
  MqttPacket.ToClientOptions NewTLSConfigClient config.

Definition NewSystemBrokerClient (c : ctx) (subTopics : list MqttPacket.QOSTopic) : outcome MqttOptions :=
  config ← NewSystemBrokerClientConfig c;
  NewBrokerClient (with_session config (MqttPacket.cc_CleanSession config)
                     (MqttPacket.cc_Subscriptions config ++ subTopics)).

(** ** context/run.go *)

(** What Run does once the flags are read: the context of [-c], the service, and what is
    logged at its end. A panic of the service is recovered, one of NewContext is not. *)
Definition default_conf : string := "etc/baetyl/conf.yml".
Definition Run (conf : option string) (global : ZapLogger) (handle : ctx -> outcome unit)
    : outcome string :=
  '(c, _) ← NewContext (default default_conf conf) global;
  match handle c with
  | Ok _ => Ok "service has stopped"
  | Err _ => Ok "service has stopped with error"
  | Panic _ => Ok "service is stopped with panic"
  | NoFuel => NoFuel
  end.

(** ** What a context is made of *)

Lemma fill_spec v d : fill v d = v /\ v <> "" \/ v = "" /\ fill v d = d.
Proof. unfold fill. destruct (String.eqb_spec v ""); auto. Qed.

Lemma fill_not_empty v d : d <> "" -> fill v d <> "".
Proof. destruct (fill_spec v d) as [[-> ?]|[_ ->]]; auto. Qed.

Lemma address_not_empty e :
  getFunctionAddress e <> "" /\ getCoreAddress e <> "" /\ getBrokerAddress e <> "".
Proof. done. Qed.

(** Certificate files: the own one, or the system's. *)
Definition completed (own sys c : Cert) : Prop :=
  MqttPacket.CA c = fill (MqttPacket.CA own) (MqttPacket.CA sys) /\
  MqttPacket.Key c = fill (MqttPacket.Key own) (MqttPacket.Key sys) /\
  MqttPacket.Cert c = fill (MqttPacket.Cert own) (MqttPacket.Cert sys).

(** A context that is made has what the environment says, a configuration in which the
    broker, core and function services have an address and certificate files, each
    the file's own where it names one, otherwise the default of the run mode and the system's; and a
    service with a name has a client and a subscription to its link topic, after those of
    the file. *)
Theorem context_configured confFile g c g' : NewContext confFile g = Ok (c, g') ->
  let service := Getenv env KeySvcName in
  NodeName c = Ok (Getenv env KeyNodeName) /\ AppName c = Ok (Getenv env KeyAppName) /\
  AppVersion c = Ok (Getenv env KeyAppVersion) /\ ServiceName c = Ok service /\
  exists own sc, (ConfFile c ≫= load_system) = Ok own /\ SystemConfig_ c = Ok (Some sc) /\
    Certificate_ sc = Certificate_ own /\
    Http.hc_Address (Function_ sc) <> "" /\ Http.hc_Address (Core sc) <> "" /\
    MqttPacket.cc_Address (Broker sc) <> "" /\
    completed (Http.hc_Certificate (Function_ own)) (Certificate_ own) (Http.hc_Certificate (Function_ sc)) /\
    completed (Http.hc_Certificate (Core own)) (Certificate_ own) (Http.hc_Certificate (Core sc)) /\
    completed (MqttPacket.cc_Certificate (Broker own)) (Certificate_ own)
      (MqttPacket.cc_Certificate (Broker sc)) /\
    (service = "" -> MqttPacket.cc_Subscriptions (Broker sc) = MqttPacket.cc_Subscriptions (Broker own)) /\
    (service <> "" -> MqttPacket.cc_ClientID (Broker sc) <> "" /\
       MqttPacket.cc_Subscriptions (Broker sc)
       = MqttPacket.cc_Subscriptions (Broker own) ++ [link_topic service]).
Proof.
  unfold NewContext. set (conf := if String.eqb confFile "" then _ else _). intros Hc.
  apply outcome_bind_ok in Hc as (own & Hown & Hc).
  assert (Hm : map_ c = Store (stored_names conf) KeySysConf (VConf (populate env (Getenv env KeyAppName)
    (Getenv env KeySvcName) own))).
  { destruct (Init _ _ _ _ _) as [[l| | |] gl]; try done.
    - by injection Hc as <- <-.
    - destruct nil_logger; try done. by injection Hc as <- <-. }
  clear Hc. unfold NodeName, AppName, AppVersion, ServiceName, ConfFile, SystemConfig_, text, Load.
  rewrite Hm. unfold stored_names, Store. simplify_map_eq.
  repeat (split; [done|]). do 2 eexists. split; [exact Hown|]. split; [done|].
  destruct (address_not_empty env) as (Hf & Hco & Hb). cbn.
  split; [done|]. split; [by apply fill_not_empty|]. split; [by apply fill_not_empty|].
  split; [by apply fill_not_empty|]. do 3 (split; [done|]).
  split; [by intros ->|]. intros Hs. rewrite (proj2 (String.eqb_neq _ _) Hs). cbn.
  split; [by apply fill_not_empty|done].
Qed.

(** The client of the system broker subscribes to the topics it is given and to no other: none of the
    configuration's, not the service's link topic either. *)
Theorem system_client_subscriptions c subs ops : NewSystemBrokerClient c subs = Ok ops ->
  MqttPacket.Subscriptions ops =
    map (fun t => {| MqttPacket.sub_Topic := MqttPacket.qt_Topic t;
                     MqttPacket.sub_QOS := MqttPacket.toQOS (MqttPacket.qt_QOS t) |}) subs
  /\ MqttPacket.CleanSession ops = true.
Proof.
  unfold NewSystemBrokerClient, NewSystemBrokerClientConfig, NewBrokerClient, MqttPacket.ToClientOptions.
  intros Hops. apply outcome_bind_ok in Hops as (config & Hconf & Hops).
  apply outcome_bind_ok in Hconf as (_ & _ & Hconf).
  apply outcome_bind_ok in Hconf as (sc & _ & Hconf). injection Hconf as <-.
  apply outcome_bind_ok in Hops as (tls & _ & Hops). injection Hops as <-.
  cbn. unfold go_copy. by rewrite drop_nil.
Qed.

(** A certificate issued for BAETYL is what the system asks of its own: the pair that an
    authority issues, put where the configuration says beside a CA file, passes CheckSystemCert;
    without one of the three files, or with the certificate of another
    organizational unit, it fails, and says which. *)
Theorem issued_certificate_accepted `{!CryptoLaws} c sc call info d p q :
  authority p -> CreateSubCertWithKey call info d p = Ok q -> the_config c = Ok sc ->
  let cfg := Certificate_ sc in
  let files := FileExists (Stat (MqttPacket.CA cfg)) && FileExists (Stat (MqttPacket.Key cfg))
               && FileExists (Stat (MqttPacket.Cert cfg)) in
  ReadFile (MqttPacket.Cert cfg) = Ok (Crt q) ->
  CheckSystemCert c =
    if negb files then Err ErrSystemCertNotFound
    else if bool_decide (OrganizationalUnit (csr_Subject info) = [KeyBaetyl]) then Ok tt
    else Err ErrSystemCertInvalid.
Proof.
  intros Ha Hq Hsc cfg files Hread.
  destruct (sub_certificate call info d p q Ha Hq) as (x & k & Hx & _ & Hsub).
  unfold CheckSystemCert. rewrite Hsc. cbn [mbind outcome_bind]. fold cfg.
  rewrite <- !negb_andb. fold files. destruct files; cbn [negb]; [|done].
  rewrite Hread. cbn [mbind outcome_bind]. rewrite Hx. cbn [mbind outcome_bind]. rewrite Hsub.
  destruct (OrganizationalUnit (csr_Subject info)) as [|ou [|? ?]]; [done| |].
  - destruct (String.eqb_spec ou KeyBaetyl) as [->|Hne]; [by rewrite bool_decide_eq_true_2|].
    rewrite bool_decide_eq_false_2; [done|]. by intros [= E].
  - by rewrite bool_decide_eq_false_2.
Qed.
End context.

(** ** Witnesses *)

Definition zero_cert : Cert := Http.no_cert.
Definition zero_http : HttpConfig :=
  {| Http.hc_Address := ""; Http.hc_Timeout := 0; Http.hc_KeepAlive := 0; Http.hc_MaxIdleConns := 0;
     Http.hc_IdleConnTimeout := 0; Http.hc_TLSHandshakeTimeout := 0;
     Http.hc_ExpectContinueTimeout := 0; Http.hc_Certificate := zero_cert |}.
Definition zero_mqtt : MqttConfig :=
  {| MqttPacket.cc_Address := ""; MqttPacket.cc_Username := ""; MqttPacket.cc_Password := "";
     MqttPacket.cc_ClientID := ""; MqttPacket.cc_CleanSession := false; MqttPacket.cc_Timeout := 0;
     MqttPacket.cc_KeepAlive := 0; MqttPacket.cc_MaxReconnectInterval := 0;
     MqttPacket.cc_MaxCacheMessages := 0; MqttPacket.cc_DisableAutoAck := false;
     MqttPacket.cc_Subscriptions := []; MqttPacket.cc_Certificate := zero_cert |}.
Definition zero_log : LogConfig.Config :=
  {| Level := ""; Encoding := ""; Filename := ""; Compress := false; MaxAge := 0; MaxSize := 0;
     MaxBackups := 0; EncodeTime := ""; EncodeLevel := "" |}.
Definition zero_conf : SystemConfig :=
  {| Certificate_ := zero_cert; Function_ := zero_http; Core := zero_http; Broker := zero_mqtt;
     Logger_ := zero_log |}.

Definition system_cert : Cert :=
  {| MqttPacket.CA := "ca.pem"; MqttPacket.Key := "key.pem"; MqttPacket.Cert := "crt.pem";
     MqttPacket.Name := ""; MqttPacket.InsecureSkipVerify := false; MqttPacket.ClientAuthType := 0 |}.
Definition only_cert (c : SystemConfig) : SystemConfig * option error :=
  ({| Certificate_ := system_cert; Function_ := Function_ c; Core := Core c; Broker := Broker c;
      Logger_ := Logger_ c |}, None).
Definition service_env : environment := {[KeySvcName := "svc"; KeyAppName := "app"; KeyRunMode := "native"]}.
Definition present (s : string) : FileInfo := NotDir.
Abbreviation new_context := (
  NewContext service_env [] present (fun _ => Ok "") (fun s _ => Ok s) (fun _ c => (c, None)) only_cert
    (fun _ => None) zero_conf id (fun _ _ => None) (Panic "nil logger")).
Definition first_logger : @Logger (string * string) :=
  {| built_from := NewProductionConfig; fields := [] |}.

Lemma context_configured_witness :
  exists c g', new_context "conf.yml" first_logger = Ok (c, g') /\
    ServiceName c = Ok "svc" /\
    exists sc, SystemConfig_ c = Ok (Some sc) /\
      MqttPacket.cc_Address (Broker sc) = "ssl://127.0.0.1:50010" /\
      MqttPacket.cc_Subscriptions (Broker sc) = [link_topic "svc"].
Proof.
  assert (Hc : exists c g', new_context "conf.yml" first_logger = Ok (c, g')).
  { do 2 eexists. vm_compute. reflexivity. }
  destruct Hc as (c & g' & Hc). exists c, g'. split; [exact Hc|].
  pose proof (context_configured _ _ _ _ _ _ _ _ _ _ _ _ "conf.yml" first_logger c g' Hc) as Hall.
  cbn zeta in Hall. destruct Hall as (_ & _ & _ & Hs & own & sc & Hown & Hsc & _).
  split; [exact Hs|]. exists sc. split; [exact Hsc|].
  vm_compute in Hc. injection Hc as <- <-. vm_compute in Hsc. injection Hsc as <-.
  split; vm_compute; reflexivity.
Defined.

(** A context with its system certificate, the leaf of the toy cryptography. *)
Definition issued_leaf : outcome CertPem :=
  ca ← @CreateSelfSignedRootCert _ Toy.crypto (Toy.call 1) Toy.root_info 10;
  @CreateSubCertWithKey _ Toy.crypto (Toy.call 2) Toy.leaf_info 5 ca.
Definition cert_context : ctx :=
  {| map_ := {[KeySysConf := VConf (fst (only_cert zero_conf))]}; log := None |}.
Definition leaf_file (path : string) : outcome string :=
  if String.eqb path "crt.pem" then Crt <$> issued_leaf else Err "no such file".

Lemma issued_certificate_accepted_witness :
  CheckSystemCert (H0 := Toy.crypto) present leaf_file cert_context = Ok tt.
Proof.
  assert (Hca : exists ca, @CreateSelfSignedRootCert _ Toy.crypto (Toy.call 1) Toy.root_info 10 = Ok ca).
  { eexists. vm_compute. reflexivity. }
  destruct Hca as [ca Hca].
  assert (Hq : exists q, @CreateSubCertWithKey _ Toy.crypto (Toy.call 2) Toy.leaf_info 5 ca = Ok q).
  { vm_compute in Hca. injection Hca as <-. eexists. vm_compute. reflexivity. }
  destruct Hq as [q Hq].
  assert (Hleaf : issued_leaf = Ok q) by (unfold issued_leaf; rewrite Hca; exact Hq).
  refine (@issued_certificate_accepted present leaf_file _ Toy.crypto Toy.laws cert_context _
    (Toy.call 2) Toy.leaf_info 5 ca q _ Hq eq_refl _).
  - exact (@auth_root _ Toy.crypto (Toy.call 1) Toy.root_info 10 ca Hca).
  - cbn. unfold leaf_file. cbn. by rewrite Hleaf.
Defined.

Lemma system_client_subscriptions_witness :
  exists ops, NewSystemBrokerClient (H0 := Toy.crypto) present leaf_file (fun _ => Ok tt) cert_context
                [link_topic "mine"] = Ok ops /\
    MqttPacket.Subscriptions ops = [{| MqttPacket.sub_Topic := "$link/mine"; MqttPacket.sub_QOS := 1 |}]
    /\ MqttPacket.CleanSession ops = true.
Proof.
  assert (Hops : exists ops, NewSystemBrokerClient (H0 := Toy.crypto) present leaf_file (fun _ => Ok tt)
    cert_context [link_topic "mine"] = Ok ops).
  { eexists. vm_compute. reflexivity. }
  destruct Hops as [ops Hops]. exists ops. split; [exact Hops|].
  exact (system_client_subscriptions _ _ _ cert_context [link_topic "mine"] ops Hops).
Defined.

(** A configuration that fails its validation is used nevertheless, as the decoder left it. *)
Example invalid_configuration_kept :
  load_system [] present (fun _ => Ok "text") (fun s _ => Ok s)
    (fun s c => if String.eqb s "" then (c, None) else only_cert c) (fun c => (c, None))
    (fun _ => Some "invalid") zero_conf "conf.yml" = Ok (fst (only_cert zero_conf)).
Proof. reflexivity. Qed.
