(* ===== verification/Regex.v ===== *)
(** * Regular expressions

    The part of package [regexp] the validators use: expressions over characters, the
    words they stand for, and a matcher by derivatives that is proved to accept exactly
    those words. Expressions are anchored at both ends; a text is its list of bytes. *)

From Stdlib Require Import ZArith Lia Ascii String.
From stdpp Require Import base option list strings.
From S2P Require Import Prelude GoStrings.

Local Open Scope list_scope.

Inductive re :=
  | Void
  | Eps
  | Chr (p : ascii -> bool)
  | Cat (r s : re)
  | Alt (r s : re)
  | Star (r : re).

Inductive words : re -> list ascii -> Prop :=
  | w_eps : words Eps []
  | w_chr p c : p c = true -> words (Chr p) [c]
  | w_cat r s l m : words r l -> words s m -> words (Cat r s) (l ++ m)
  | w_alt_l r s l : words r l -> words (Alt r s) l
  | w_alt_r r s l : words s l -> words (Alt r s) l
  | w_star_nil r : words (Star r) []
  | w_star_cons r l m : words r l -> words (Star r) m -> words (Star r) (l ++ m).

Fixpoint nullable (r : re) : bool :=
  match r with
  | Void | Chr _ => false
  | Eps | Star _ => true
  | Cat r s => nullable r && nullable s
  | Alt r s => nullable r || nullable s
  end.

Fixpoint deriv (c : ascii) (r : re) : re :=
  match r with
  | Void | Eps => Void
  | Chr p => if p c then Eps else Void
  | Cat r s => if nullable r then Alt (Cat (deriv c r) s) (deriv c s) else Cat (deriv c r) s
  | Alt r s => Alt (deriv c r) (deriv c s)
  | Star r => Cat (deriv c r) (Star r)
  end.

Definition matches (r : re) (l : list ascii) : bool := nullable (foldl (fun r c => deriv c r) r l).

Lemma words_alt r s l : words (Alt r s) l <-> words r l \/ words s l.
Proof.
  split; [inversion 1; auto|]. intros [?|?]; [by apply w_alt_l|by apply w_alt_r].
Qed.

Lemma words_cat r s l : words (Cat r s) l <-> exists a b, l = a ++ b /\ words r a /\ words s b.
Proof.
  split; [inversion 1; eauto|]. intros (a & b & -> & ? & ?). by apply w_cat.
Qed.

Lemma words_chr p l : words (Chr p) l <-> exists c, l = [c] /\ p c = true.
Proof. split; [inversion 1; eauto|]. intros (c & -> & ?). by apply w_chr. Qed.

Lemma words_eps l : words Eps l <-> l = [].
Proof. split; [by inversion 1|]. intros ->. apply w_eps. Qed.

Lemma nullable_words r : nullable r = true <-> words r [].
Proof.
  induction r as [| |p|r IHr s IHs|r IHr s IHs|r IH]; cbn.
  - split; [done|inversion 1].
  - split; [intros _; apply w_eps|done].
  - split; [done|inversion 1].
  - rewrite andb_true_iff, IHr, IHs, words_cat. split; [intros [??]; by exists [], []|].
    intros (a & b & Hab & ? & ?). symmetry in Hab. by apply app_nil in Hab as [-> ->].
  - by rewrite orb_true_iff, IHr, IHs, words_alt.
  - split; [intros _; apply w_star_nil|done].
Qed.

(** A word of a star that is not empty begins with a word that is not. *)
Lemma words_star_cons r c l : words (Star r) (c :: l) ->
  exists a b, l = a ++ b /\ words r (c :: a) /\ words (Star r) b.
Proof.
  intros H. remember (Star r) as s eqn:Hs. remember (c :: l) as m eqn:Hm.
  revert c l Hm. induction H as [| | | | | |r' a b Ha _ Hb IH]; intros e k Hm; try done.
  injection Hs as ->. destruct a as [|d a]; [by apply IH|].
  injection Hm as -> <-. by exists a, b.
Qed.

Lemma deriv_words c r l : words (deriv c r) l <-> words r (c :: l).
Proof.
  revert l. induction r as [| |p|r IHr s IHs|r IHr s IHs|r IH]; intros l; cbn.
  - split; inversion 1.
  - split; inversion 1.
  - rewrite words_chr. destruct (p c) eqn:E.
    + rewrite words_eps. split; [intros ->; by exists c|]. by intros (d & [= Hd Hl] & ?).
    + split; [inversion 1|]. intros (d & [= Hd Hl] & ?). congruence.
  - assert (Hcat : words (Cat (deriv c r) s) l <->
      exists a b, l = a ++ b /\ words r (c :: a) /\ words s b).
    { rewrite words_cat. by setoid_rewrite IHr. }
    rewrite words_cat.
    assert (Hfull : (exists a b, c :: l = a ++ b /\ words r a /\ words s b) <->
      words r [] /\ words s (c :: l) \/ exists a b, l = a ++ b /\ words r (c :: a) /\ words s b).
    { split.
      - intros ([|d a] & b & E & Hr & Hs); cbn in E; [subst; by left|].
        injection E as -> ->. right. by exists a, b.
      - intros [[Hr Hs]|(a & b & -> & Hr & Hs)]; [by exists [], (c :: l)|by exists (c :: a), b]. }
    rewrite Hfull, <- nullable_words. destruct (nullable r).
    + rewrite words_alt, Hcat, IHs. naive_solver.
    + rewrite Hcat. naive_solver.
  - by rewrite !words_alt, IHr, IHs.
  - rewrite words_cat. setoid_rewrite IH. split.
    + intros (a & b & -> & Ha & Hb). by apply (w_star_cons r (c :: a) b).
    + intros (a & b & -> & ? & ?)%words_star_cons. by exists a, b.
Qed.

(** The matcher accepts the words, all of them and no other. *)
Lemma matches_words r l : matches r l = true <-> words r l.
Proof.
  unfold matches. revert r. induction l as [|c l IH]; intros r; cbn.
  - apply nullable_words.
  - by rewrite IH, deriv_words.
Qed.

(** ** Derived expressions *)

Definition Opt (r : re) : re := Alt Eps r.
Definition Plus (r : re) : re := Cat r (Star r).
Fixpoint UpTo (n : nat) (r : re) : re :=
  match n with O => Eps | S n => Alt Eps (Cat r (UpTo n r)) end.
Definition FromTo (m n : nat) (r : re) : re :=
  Nat.iter m (Cat r) (UpTo (n - m) r).
Fixpoint Word (s : string) : re :=
  match s with EmptyString => Eps | String c s => Cat (Chr (Ascii.eqb c)) (Word s) end.
Definition OneOf (ws : list string) : re := foldr (fun w r => Alt (Word w) r) Void ws.

Lemma words_opt r l : words (Opt r) l <-> l = [] \/ words r l.
Proof. unfold Opt. by rewrite words_alt, words_eps. Qed.

Lemma words_cat_chr p r l : words (Cat (Chr p) r) l <-> exists c m, l = c :: m /\ p c = true /\ words r m.
Proof.
  rewrite words_cat. setoid_rewrite words_chr. split.
  - intros (a & b & -> & (c & -> & ?) & ?). by exists c, b.
  - intros (c & m & -> & ? & ?). exists [c], m. eauto 6.
Qed.

Lemma words_upto p n l : words (UpTo n (Chr p)) l <-> (length l <= n)%nat /\ forallb p l = true.
Proof.
  revert l. induction n as [|n IH]; intros l; cbn [UpTo].
  - rewrite words_eps. destruct l; cbn; split; [done|done|done|]. intros [? _]. lia.
  - rewrite words_alt, words_eps, words_cat_chr. setoid_rewrite IH. destruct l as [|c l]; cbn.
    + split; [split; [lia|done]|by left].
    + rewrite andb_true_iff. split; [|intros (?&?&?); right; exists c, l; repeat split; auto; lia].
      intros [?|(d & m & [= <- <-] & ? & ? & ?)]; [done|]. repeat split; auto. lia.
Qed.

Lemma words_star_chr p l : words (Star (Chr p)) l <-> forallb p l = true.
Proof.
  split.
  - intros H. remember (Star (Chr p)) as s eqn:Hs. induction H as [| | | | | |r a b Ha _ Hb IH]; try done.
    injection Hs as ->. apply words_chr in Ha as (c & -> & Hc). cbn. by rewrite Hc, IH.
  - induction l as [|c l IH]; [intros _; apply w_star_nil|]. cbn.
    intros [Hc Hl]%andb_true_iff. apply (w_star_cons _ [c] l); [by apply w_chr|auto].
Qed.

Lemma words_word s l : words (Word s) l <-> l = list_ascii_of_string s.
Proof.
  revert l. induction s as [|c s IH]; intros l; cbn; [apply words_eps|].
  rewrite words_cat_chr. split.
  - intros (d & m & -> & ->%Ascii.eqb_eq & ->%IH). done.
  - intros ->. exists c, (list_ascii_of_string s). split; [done|].
    split; [apply Ascii.eqb_refl|by apply IH].
Qed.

Lemma words_oneof ws l : words (OneOf ws) l <-> exists w, w ∈ ws /\ l = list_ascii_of_string w.
Proof.
  induction ws as [|w ws IH]; cbn.
  - split; [inversion 1|]. by intros (w & ?%not_elem_of_nil & _).
  - rewrite words_alt, words_word. setoid_rewrite elem_of_cons.
    change (foldr _ _ ws) with (OneOf ws). rewrite IH. naive_solver.
Qed.
