(* ===== verification/Validate.v ===== *)
(** * Validators

    utils/validate.go: the regular expressions of the names, sizes and types that
    configurations hold, the validators that are code, and the table they are registered in. What each
    expression accepts is stated without expressions. *)

From Stdlib Require Import ZArith Lia Ascii String SpecFloat.
From stdpp Require Import base option list strings gmap fin_maps.
From S2P Require Import Prelude GoStrings Regex.

Local Open Scope string_scope.
Local Open Scope list_scope.

(** ** Character classes *)

Definition az09 (c : ascii) : bool := is_lower c || is_digit c.
Definition azAZ09 (c : ascii) : bool := is_lower c || is_upper c || is_digit c.
Definition or_one_of (p : ascii -> bool) (s : string) (c : ascii) : bool := p c || has_char c s.
Definition digit19 (c : ascii) : bool := is_digit c && negb (Ascii.eqb c "0").

(** ** The expressions *)

(** A character, at most 61 more, a character. *)
Definition enclosed (e m : ascii -> bool) : re := Cat (Chr e) (Cat (UpTo 61 (Chr m)) (Chr e)).

Definition resName : re := enclosed az09 (or_one_of az09 "-.").
Definition svcName : re := enclosed az09 (or_one_of az09 "-").
Definition fingerprint : re := enclosed azAZ09 (or_one_of azAZ09 "-.").
Definition memory : re :=
  Cat (Chr digit19) (Cat (Star (Chr is_digit)) (OneOf ["k"; "m"; "g"; "t"; "p"; ""])).
Definition duration : re := Cat (Chr digit19) (Cat (Star (Chr is_digit)) (OneOf ["s"; "m"; "h"])).
Definition devModel : re := FromTo 1 32 (Chr (or_one_of azAZ09 "-_")).
Definition namespace : re :=
  let a := Chr az09 in let m := Star (Chr (or_one_of az09 "-")) in
  Cat a (Cat (Opt (Cat m a)) (Star (Cat a (Opt (Cat m a))))).
Definition validConfigKeys : re := Plus (Chr (or_one_of azAZ09 "-._")).
Definition dateType : re :=
  Opt (OneOf ["int16"; "int32"; "int64"; "float32"; "float64"; "string"; "bool"; "time"; "date"]).
Definition dateEnumType : re := Opt (OneOf ["int16"; "int32"; "int64"; "string"]).
Definition datePlusType : re :=
  Opt (OneOf ["int16"; "int32"; "int64"; "float32"; "float64"; "string"; "time"; "date"; "bool";
              "array"; "enum"; "object"]).
Definition labelRegex : re :=
  Cat (Opt (Cat (Chr azAZ09) (Star (Chr (or_one_of azAZ09 "-_."))))) (Opt (Chr azAZ09)).

(** [regexp.MatchString] *)
Definition MatchString (r : re) (s : string) : bool := matches r (list_ascii_of_string s).

(** ** The validators that are code *)

(** What [reflect.ValueOf] sees of a field: nothing, a text, a pointer or interface, something
    with a length, a number, a bool, a struct, a map of labels, or anything else. *)
Inductive RV :=
  | RInvalid
  | RString (s : string)
  | RPtr (is_nil : bool)
  | RLen (n : nat)
  | RInt (z : Z)
  | RFloat (f : spec_float)
  | RBool (b : bool)
  | RStruct
  | RLabels (m : gmap string string)
  | ROther.

Definition nonzeroValid (v : RV) : bool :=
  match v with
  | RString s => negb (String.eqb s "")
  | RPtr is_nil => negb is_nil
  | RLen n => negb (n =? 0)%nat
  | RLabels m => negb (size m =? 0)%nat
  | RInt z => negb (z =? 0)%Z
  | RFloat f => match f with S754_zero _ => false | _ => true end
  | RBool b => b
  | RStruct => true
  | RInvalid | ROther => false
  end.

Definition nonnilValid (v : RV) : bool :=
  match v with
  | RPtr is_nil => negb is_nil
  | RInvalid => false
  | _ => true
  end.

Definition short_label (n : nat) (s : string) : bool :=
  (String.length s <=? n)%nat && MatchString labelRegex s.
Definition label_key (k : string) : bool :=
  if Contains k "/" then
    match Split k "/" with
    | [p; n] => (1 <=? String.length p)%nat && short_label 253 p && short_label 63 n
    | _ => false
    end
  else short_label 63 k.
(** [validLabelsFunc()]: the range ends at the first label that is not valid. *)
Definition validLabels (v : RV) : bool :=
  match v with
  | RLabels m => forallb (fun '(k, v) => label_key k && short_label 63 v) (map_to_list m)
  | _ => false
  end.

Definition nonbaetyl (unicode_lower : string -> string) (s : string) : bool :=
  negb (Contains (ToLower unicode_lower s) "baetyl").

(** ** RegisterValidate *)

Definition regexps : list (string * re) :=
  [("res_name", resName); ("svc_name", svcName); ("fingerprint", fingerprint); ("memory", memory);
   ("duration", duration); ("dev_model", devModel); ("namespace", namespace);
   ("config_key", validConfigKeys); ("data_type", dateType); ("enum_type", dateEnumType);
   ("data_plus_type", datePlusType)].

(** [fl.Field().String()] of a text; of anything else it is its type between < and >,
    which no expression accepts. *)
Definition field_text (v : RV) : string := match v with RString s => s | _ => "<T Value>" end.

Definition validators (unicode_lower : string -> string) : gmap string (RV -> bool) :=
  list_to_map
    ([("nonzero", nonzeroValid); ("nonnil", nonnilValid);
      ("nonbaetyl", fun v => nonbaetyl unicode_lower (field_text v)); ("label", validLabels)]
     ++ map (fun '(k, r) => (k, fun v => MatchString r (field_text v))) regexps).

(** ** What the expressions accept *)

Definition head_is (p : ascii -> bool) (l : list ascii) : bool :=
  match l with c :: _ => p c | [] => false end.
Definition last_is (p : ascii -> bool) (l : list ascii) : bool :=
  match last l with Some c => p c | None => false end.

Lemma last_is_snoc p l c : last_is p (l ++ [c]) = p c.
Proof. unfold last_is. by rewrite last_snoc. Qed.

Lemma forallb_snoc {A} (p : A -> bool) l c : forallb p (l ++ [c]) = forallb p l && p c.
Proof. rewrite forallb_app. cbn. by rewrite andb_true_r. Qed.

(** A list is empty or has a last element. *)
Lemma split_ends {A} (l : list A) : l = [] \/ exists k d, l = k ++ [d].
Proof. destruct l as [|x l] using rev_ind; eauto. Qed.

(** A name: of a length, of some characters, with restricted ends. *)
Definition name_spec (lo hi : nat) (e m : ascii -> bool) (l : list ascii) : Prop :=
  (lo <= length l <= hi)%nat /\ forallb m l = true /\ head_is e l = true /\ last_is e l = true.

Lemma enclosed_words e m l : (forall c, e c = true -> m c = true) ->
  words (enclosed e m) l <-> name_spec 2 63 e m l.
Proof.
  intros Hem. unfold enclosed, name_spec. rewrite words_cat_chr. setoid_rewrite words_cat.
  setoid_rewrite words_upto. setoid_rewrite words_chr. split.
  - intros (x & ? & -> & Hx & k & ? & -> & [Hk1 Hk2] & y & -> & Hy).
    rewrite app_comm_cons, last_is_snoc, forallb_snoc. cbn.
    rewrite !length_app, (Hem x Hx), (Hem y Hy), Hk2. cbn. repeat split; auto; lia.
  - intros (Hlen & Hall & Hh & Hl). destruct l as [|x l]; [done|].
    destruct (split_ends l) as [->|(k & y & ->)]; [cbn in Hlen; lia|].
    rewrite app_comm_cons, last_is_snoc in Hl. cbn in Hall, Hlen. rewrite length_app in Hlen. cbn in Hlen.
    rewrite forallb_snoc in Hall. apply andb_true_iff in Hall as [? [? ?]%andb_true_iff].
    exists x, (k ++ [y]). repeat split; auto. exists k, [y]. repeat split; auto; [lia|]. eauto.
Qed.

Lemma or_one_of_l p s c : p c = true -> or_one_of p s c = true.
Proof. unfold or_one_of. by intros ->. Qed.

(** Not empty, of some characters, with restricted ends: closed under concatenation. *)
Definition dashed (e m : ascii -> bool) (l : list ascii) : Prop :=
  forallb m l = true /\ head_is e l = true /\ last_is e l = true.

Lemma dashed_app e m a b : dashed e m a -> dashed e m b -> dashed e m (a ++ b).
Proof.
  intros (Ha & Hh & _) (Hb & Hb' & Hl). split; [by rewrite forallb_app, Ha, Hb|].
  split; [by destruct a|]. unfold last_is in *. rewrite last_app. by destruct (last b).
Qed.

Lemma dashed_unit e m l : (forall c, e c = true -> m c = true) ->
  words (Cat (Chr e) (Opt (Cat (Star (Chr m)) (Chr e)))) l <-> dashed e m l.
Proof.
  intros Hem. rewrite words_cat_chr. setoid_rewrite words_opt. setoid_rewrite words_cat.
  setoid_rewrite words_star_chr. setoid_rewrite words_chr. unfold dashed. split.
  - intros (x & r & -> & Hx & [->|(k & ? & -> & Hk & y & -> & Hy)]).
    + cbn. unfold last_is. cbn. by rewrite (Hem x Hx).
    + rewrite app_comm_cons, last_is_snoc, forallb_snoc. cbn. by rewrite (Hem x Hx), (Hem y Hy), Hk.
  - intros (Hall & Hh & Hl). destruct l as [|x l]; [done|]. exists x, l. split; [done|]. split; [done|].
    destruct (split_ends l) as [->|(k & y & ->)]; [by left|right].
    rewrite app_comm_cons, last_is_snoc in Hl. cbn in Hall. rewrite forallb_snoc in Hall.
    apply andb_true_iff in Hall as [? [? ?]%andb_true_iff]. exists k, [y]. eauto.
Qed.

Lemma namespace_words l : words namespace l <-> dashed az09 (or_one_of az09 "-") l.
Proof.
  assert (Hem : forall c, az09 c = true -> or_one_of az09 "-" c = true) by (intros; by apply or_one_of_l).
  unfold namespace. cbv zeta. split.
  - intros (x & m & -> & Hx & (a & b & -> & Ha & Hb)%words_cat)%words_cat_chr.
    rewrite app_comm_cons.
    assert (Hfirst : dashed az09 (or_one_of az09 "-") (x :: a)).
    { apply dashed_unit; [done|]. apply words_cat_chr. by exists x, a. }
    revert Hfirst. generalize (x :: a). clear x a Ha Hx. intros a Ha.
    remember (Star _) as s eqn:Hs in Hb. revert a Ha.
    induction Hb as [| | | | | |r u v Hu _ Hv IH]; intros w Hw; try done; [by rewrite app_nil_r|].
    injection Hs as ->. rewrite app_assoc. apply IH; [done|].
    apply dashed_app; [done|]. by apply dashed_unit.
  - intros Hl. apply dashed_unit in Hl; [|done]. apply words_cat_chr in Hl as (x & m & -> & Hx & Hm).
    apply words_cat_chr. exists x, m. split; [done|]. split; [done|].
    apply words_cat. exists m, []. rewrite app_nil_r. split; [done|]. split; [done|]. apply w_star_nil.
Qed.

Lemma label_words l : words labelRegex l <->
  l = [] \/ head_is azAZ09 l = true /\ forallb (or_one_of azAZ09 "-_.") l = true.
Proof.
  unfold labelRegex. rewrite words_cat. setoid_rewrite words_opt. setoid_rewrite words_cat_chr.
  setoid_rewrite words_star_chr. setoid_rewrite words_chr. split.
  - intros (a & b & -> & [->|(x & m & -> & Hx & Hm)] & [->|(y & -> & Hy)]).
    + by left.
    + right. cbn. by rewrite Hy, (or_one_of_l _ "-_." _ Hy).
    + right. rewrite app_nil_r. cbn. by rewrite Hx, (or_one_of_l _ "-_." _ Hx), Hm.
    + right. cbn. by rewrite Hx, (or_one_of_l _ "-_." _ Hx), forallb_snoc, Hm, (or_one_of_l _ "-_." _ Hy).
  - intros [->|[Hh Hl]]; [by exists [], []; auto|]. exists l, []. rewrite app_nil_r.
    split; [done|]. split; [|by left]. destruct l as [|x l]; [done|]. right. cbn in *.
    apply andb_true_iff in Hl as [_ Hl]. by exists x, l.
Qed.

Lemma number_words (ws : list string) l : words (Cat (Chr digit19) (Cat (Star (Chr is_digit)) (OneOf ws))) l <->
  exists digits w, l = digits ++ list_ascii_of_string w /\ head_is digit19 digits = true /\
    forallb is_digit digits = true /\ w ∈ ws.
Proof.
  rewrite words_cat_chr. setoid_rewrite words_cat. setoid_rewrite words_star_chr.
  setoid_rewrite words_oneof. split.
  - intros (x & ? & -> & Hx & k & ? & -> & Hk & w & Hw & ->). exists (x :: k), w. cbn.
    rewrite Hx, Hk, andb_true_r. repeat split; auto. unfold digit19 in Hx. by boolify.
  - intros ([|x k] & w & -> & Hx & Hk & Hw); [done|]. cbn in *. apply andb_true_iff in Hk as [_ Hk].
    exists x, (k ++ list_ascii_of_string w). repeat split; auto. exists k, (list_ascii_of_string w).
    repeat split; eauto.
Qed.

Lemma model_words p l : words (FromTo 1 32 (Chr p)) l <-> (1 <= length l <= 32)%nat /\ forallb p l = true.
Proof.
  change (FromTo 1 32 (Chr p)) with (Cat (Chr p) (UpTo 31 (Chr p))).
  rewrite words_cat_chr. setoid_rewrite words_upto. split.
  - intros (x & k & -> & Hx & Hlen & Hk). cbn. rewrite Hx, Hk. split; [lia|done].
  - intros [Hlen Hk]. destruct l as [|x k]; [cbn in Hlen; lia|]. cbn in *.
    apply andb_true_iff in Hk as [Hx Hk]. exists x, k. repeat split; auto. lia.
Qed.

Lemma keys_words p l : words (Plus (Chr p)) l <-> l <> [] /\ forallb p l = true.
Proof.
  unfold Plus. rewrite words_cat_chr. setoid_rewrite words_star_chr. split.
  - intros (x & k & -> & Hx & Hk). cbn. by rewrite Hx, Hk.
  - intros [Hne Hk]. destruct l as [|x k]; [done|]. cbn in Hk. apply andb_true_iff in Hk as [Hx Hk].
    by exists x, k.
Qed.

Lemma opt_oneof_words (ws : list string) l : words (Opt (OneOf ws)) l <->
  exists w, w ∈ "" :: ws /\ l = list_ascii_of_string w.
Proof.
  rewrite words_opt, words_oneof. setoid_rewrite elem_of_cons. split.
  - intros [->|(w & ? & ?)]; [by exists ""; auto|exists w; auto].
  - intros (w & [->|?] & ->); [by left|right; eauto].
Qed.

Lemma match_text r s : MatchString r s = true <-> words r (list_ascii_of_string s).
Proof. apply matches_words. Qed.

Lemma match_one_of r (ws : list string) s : (forall l, words r l <-> exists w, w ∈ ws /\ l = list_ascii_of_string w) ->
  MatchString r s = true <-> s ∈ ws.
Proof.
  intros Hr. rewrite match_text, Hr. split; [|by exists s].
  intros (w & Hw & E). apply (f_equal string_of_list_ascii) in E.
  rewrite !string_of_list_ascii_of_string in E. by subst.
Qed.

(** C28. What the expressions accept. Names: 2 to 63 characters of the class, with a letter or digit
    at both ends; models 1 to 32; configuration keys any number; a namespace, written as nested
    repetitions, is just letters, digits and hyphens without a hyphen at an end; sizes and durations a number without leading zero
    and a unit; types the listed words or nothing; a label's text is restricted at its beginning only. *)
Theorem expressions_accept s :
  let l := list_ascii_of_string s in
  (MatchString resName s = true <-> name_spec 2 63 az09 (or_one_of az09 "-.") l) /\
  (MatchString svcName s = true <-> name_spec 2 63 az09 (or_one_of az09 "-") l) /\
  (MatchString fingerprint s = true <-> name_spec 2 63 azAZ09 (or_one_of azAZ09 "-.") l) /\
  (MatchString devModel s = true <-> (1 <= length l <= 32)%nat /\ forallb (or_one_of azAZ09 "-_") l = true) /\
  (MatchString validConfigKeys s = true <-> l <> [] /\ forallb (or_one_of azAZ09 "-._") l = true) /\
  (MatchString namespace s = true <-> dashed az09 (or_one_of az09 "-") l) /\
  (MatchString labelRegex s = true <->
     l = [] \/ head_is azAZ09 l = true /\ forallb (or_one_of azAZ09 "-_.") l = true) /\
  (forall r units, (r, units) ∈ [(memory, ["k"; "m"; "g"; "t"; "p"; ""]); (duration, ["s"; "m"; "h"])] ->
     (MatchString r s = true <-> exists digits u, l = digits ++ list_ascii_of_string u /\
        head_is digit19 digits = true /\ forallb is_digit digits = true /\ u ∈ units)) /\
  (MatchString dateEnumType s = true <-> s ∈ [""; "int16"; "int32"; "int64"; "string"]) /\
  (MatchString dateType s = true <->
     s ∈ [""; "int16"; "int32"; "int64"; "float32"; "float64"; "string"; "bool"; "time"; "date"]) /\
  (MatchString datePlusType s = true <->
     s ∈ [""; "int16"; "int32"; "int64"; "float32"; "float64"; "string"; "time"; "date"; "bool";
          "array"; "enum"; "object"]).
Proof.
  cbv zeta. rewrite !match_text.
  split; [apply enclosed_words; intros; by apply or_one_of_l|].
  split; [apply enclosed_words; intros; by apply or_one_of_l|].
  split; [apply enclosed_words; intros; by apply or_one_of_l|].
  split; [apply model_words|]. split; [apply keys_words|]. split; [apply namespace_words|].
  split; [apply label_words|]. split.
  - intros r units Hr. rewrite match_text.
    apply elem_of_cons in Hr as [[= -> ->]|[[= -> ->]|[]%not_elem_of_nil]%elem_of_cons];
      apply number_words.
  - rewrite <- !match_text. unfold dateEnumType, datePlusType, dateType.
    by rewrite !(match_one_of _ _ _ (opt_oneof_words _)).
Qed.

Lemma contains_slash s : Contains s "/" = has_char "/" s.
Proof. apply (Contains_char s "/"). Qed.

(** Labels: what a map of labels must be, entry by entry; a key with a prefix is two texts around one slash. *)
Lemma valid_labels m : validLabels (RLabels m) = true <->
  map_Forall (fun k v => label_key k = true /\ short_label 63 v = true) m.
Proof.
  cbn. rewrite forallb_forall, map_Forall_to_list, Forall_forall. split.
  - intros H [k v] Hkv. apply list_elem_of_In in Hkv. specialize (H _ Hkv). cbn in *. by boolify.
  - intros H [k v] Hkv. apply list_elem_of_In in Hkv. destruct (H _ Hkv) as [Hk Hv]. cbn in *.
    by rewrite Hk, Hv.
Qed.

Lemma label_key_spec k : label_key k = true <->
  has_char "/" k = false /\ short_label 63 k = true \/
  exists p n, k = p +:+ String "/" n /\ has_char "/" p = false /\ has_char "/" n = false /\
    p <> "" /\ short_label 253 p = true /\ short_label 63 n = true.
Proof.
  unfold label_key. rewrite contains_slash. destruct (has_char "/" k) eqn:Hk.
  - pose proof (Split_no_sep k "/") as Hns. pose proof (Join_Split k "/") as Hj. split.
    + intros H. right. destruct (Split k "/") as [|p [|n [|? ?]]]; try done.
      apply Forall_cons in Hns as [Hp [Hn _]%Forall_cons].
      apply andb_true_iff in H as [[Hlen H1]%andb_true_iff H2].
      exists p, n. repeat split; auto. intros ->. done.
    + intros [[? _]|(p & n & -> & Hp & Hn & Hne & H1 & H2)]; [done|].
      change (String "/" n) with (char_str "/" +:+ n).
      rewrite Split_app, (Split_single n "/"), H1, H2 by done. by destruct p.
  - split; [by left|]. intros [[_ ?]|(p & n & -> & _)]; [done|].
    by rewrite has_char_app, orb_comm in Hk.
Qed.

(** A label may end in a hyphen, and its key may be empty. *)
Example label_ends_in_hyphen : validLabels (RLabels {["app-" := "v1."; "" := ""; "a/" := ""]}) = true.
Proof. vm_compute. reflexivity. Qed.

(** A resource needs two characters. *)
Example one_letter_name : MatchString resName "a" = false /\ MatchString namespace "a" = true.
Proof. split; vm_compute; reflexivity. Qed.
