(* ===== verification/Cache.v ===== *)
(** * The response cache of gin handlers

    cache/: the options and the configuration, the keys, the recording and replaying of
    responses, and the handler that reads and fills the cache. The stores (persist/) are an interface with the laws of its comments, which
    the in-memory and the redis store satisfy over the libraries they wrap. *)

From Stdlib Require Import ZArith Lia Ascii String Permutation.
From stdpp Require Import base option list strings gmap fin_maps.
From S2P Require Import Prelude GoStrings GoEncoding.
From S2P Require Http.

Local Open Scope string_scope.
Local Open Scope Z_scope.
Local Open Scope list_scope.

Abbreviation Header := Http.Header.

(** ** cache/reply.go, the data *)

Record ResponseCache := { Status : Z; Header_ : Header; Data : string }.

(** A request and what has been written of its response: [c *gin.Context]. *)
Record Gin := {
  RequestURI : string;
  URLPath : string;
  Keys : gmap string string;
  w_status : Z;
  w_header : Header;
  w_body : string;
  IsAborted : bool
}.
Definition GetString (c : Gin) (k : string) : string := default "" (Keys c !! k).

(** What a handler does to the response: status, headers, the bytes it writes. *)
Record Effect := { e_status : Z; e_header : Header; e_written : string; e_aborted : bool }.
Definition respond (c : Gin) (e : Effect) : Gin :=
  {| RequestURI := RequestURI c; URLPath := URLPath c; Keys := Keys c; w_status := e_status e;
     w_header := e_header e; w_body := w_body c +:+ e_written e; IsAborted := e_aborted e |}.

(** ** persist/: stores *)

Definition ErrCacheMiss : error := "cache: key not found".
Definition ErrNotStored : error := "cache: not stored".

(** A store, at a time: what it has for a key, and a new item for a duration. A value is a
    pointer: [Keep] is what becomes of the store when the value it gave is changed. *)
Class CacheStore (S : Type) := {
  Get : Z -> S -> string -> outcome ResponseCache;
  Set_ : Z -> S -> string -> ResponseCache -> Z -> option error * S;
  Delete : S -> string -> option error * S;
  Keep : Z -> S -> string -> ResponseCache -> S
}.
Class CacheStoreLaws (S : Type) `{CacheStore S} : Prop := {
  get_set t t' s k v d s' : Set_ t s k v d = (None, s') -> t <= t' < t + d -> Get t' s' k = Ok v;
  get_set_ne t t' s k k' v d s' : Set_ t s k v d = (None, s') -> k' <> k -> Get t' s' k' = Get t' s k';
  keep_same t s k v : Get t s k = Ok v -> Keep t s k v = s
}.

(** go-cache: items with a time to live. *)
Class GoCache (C : Type) := {
  gc_Get : Z -> C -> string -> option ResponseCache;
  gc_Set : Z -> C -> string -> ResponseCache -> Z -> C;
  gc_Delete : C -> string -> bool * C;
  gc_Alter : Z -> C -> string -> ResponseCache -> C      (* through the pointer it holds *)
}.
Class GoCacheLaws (C : Type) `{GoCache C} : Prop := {
  gc_get_set t t' c k v d : t <= t' < t + d -> gc_Get t' (gc_Set t c k v d) k = Some v;
  gc_get_set_ne t t' c k k' v d : k' <> k -> gc_Get t' (gc_Set t c k v d) k' = gc_Get t' c k';
  gc_alter_same t c k v : gc_Get t c k = Some v -> gc_Alter t c k v = c
}.

(** persist/memory.go; the value asked for is a pointer that can be set, and is set to the
    stored pointer. *)
Definition memory_Get {C} `{GoCache C} (t : Z) (c : C) (key : string) : outcome ResponseCache :=
  match gc_Get t c key with None => Err ErrCacheMiss | Some val => Ok val end.
Definition memory_Set {C} `{GoCache C} (t : Z) (c : C) (key : string) (value : ResponseCache)
    (expires : Z) : option error * C :=
  (None, gc_Set t c key value expires).
Definition memory_Delete {C} `{GoCache C} (c : C) (key : string) : option error * C :=
  let '(found, c) := gc_Delete c key in (if found then None else Some ErrCacheMiss, c).
#[export] Instance InMemoryStore {C} `{GoCache C} : CacheStore C := {
  Get := memory_Get; Set_ := memory_Set; Delete := memory_Delete; Keep := gc_Alter
}.
#[export] Instance InMemoryStore_laws {C} `{GoCacheLaws C} : CacheStoreLaws C.
Proof.
  constructor.
  - intros t t' s k v d s' [= <-] Ht. cbn. unfold memory_Get. by rewrite gc_get_set.
  - intros t t' s k k' v d s' [= <-] Hk. cbn. unfold memory_Get. by rewrite gc_get_set_ne.
  - intros t s k v. cbn. unfold memory_Get. destruct (gc_Get t s k) eqn:E; [|done]. intros [= <-]. by apply gc_alter_same.
Qed.

(** redis: bytes with a time to live, and errors; gob encodes and decodes. *)
Class Redis (R : Type) := {
  r_Get : Z -> R -> string -> outcome (option string);      (* nothing is redis.Nil *)
  r_Set : Z -> R -> string -> string -> Z -> option error * R;
  r_Del : R -> string -> option error * R;
  Serialize : ResponseCache -> outcome string;
  Deserialize : string -> outcome ResponseCache
}.
Class RedisLaws (R : Type) `{Redis R} : Prop := {
  r_get_set t t' c k v d c' : r_Set t c k v d = (None, c') -> t <= t' < t + d ->
    r_Get t' c' k = Ok (Some v);
  r_get_set_ne t t' c k k' v d c' : r_Set t c k v d = (None, c') -> k' <> k ->
    r_Get t' c' k' = r_Get t' c k';
  gob v s : Serialize v = Ok s -> Deserialize s = Ok v
}.

(** persist/redis.go *)
Definition RedisStore_Set {R} `{Redis R} (t : Z) (c : R) (key : string) (value : ResponseCache)
    (expire : Z) : option error * R :=
  match Serialize value with
  | Ok payload => r_Set t c key payload expire
  | Err e | Panic e => (Some e, c)
  | NoFuel => (Some "", c)
  end.
Definition RedisStore_Get {R} `{Redis R} (t : Z) (c : R) (key : string) : outcome ResponseCache :=
  payload ← r_Get t c key;
  match payload with None => Err ErrCacheMiss | Some p => Deserialize p end.
Definition RedisStore_Delete {R} `{Redis R} (c : R) (key : string) : option error * R := r_Del c key.
Definition RedisStore {R} `{Redis R} : CacheStore R := {|
  Get := RedisStore_Get; Set_ := RedisStore_Set; Delete := RedisStore_Delete; Keep _ c _ _ := c |}.
Lemma RedisStore_laws {R} `{RedisLaws R} : @CacheStoreLaws R RedisStore.
Proof.
  constructor; cbn; unfold RedisStore_Set, RedisStore_Get.
  - intros t t' s k v d s'. destruct (Serialize v) as [p| | |] eqn:E; try done. intros Hs Ht.
    rewrite (r_get_set _ _ _ _ _ _ _ Hs Ht). by apply gob.
  - intros t t' s k k' v d s'. destruct (Serialize v) as [p| | |] eqn:E; try done. intros Hs Hk.
    by rewrite (r_get_set_ne _ _ _ _ _ _ _ _ Hs Hk).
  - done.
Qed.

(** ** cache/cache.go and cache/config.go: strategies, configuration, options *)

(** Which store a strategy names, if any: stores are numbered, the default one is 0. *)
Record Strategy := { CacheKey : string; UseStore : option nat; CacheDuration : Z }.
Definition by_key (k : string) : Strategy := {| CacheKey := k; UseStore := None; CacheDuration := 0 |}.
Abbreviation GetCacheStrategy := (Gin -> Strategy * bool).

Record Config := {
  getCacheStrategyByRequest : option GetCacheStrategy;
  hitCacheCallback : Gin -> Gin;
  missCacheCallback : Gin -> Gin;
  beforeReplyWithCacheCallback : Gin -> ResponseCache -> Gin * ResponseCache;
  singleFlightForgetTimeout : Z;
  shareSingleFlightCallback : Gin -> Gin;
  ignoreQueryOrder : bool;
  withoutHeader : bool;
  withoutHeaderIgnore : list string;
  prefixKey : string;
  keyWithGinContext : list string
}.

Definition default_config : Config :=
  {| getCacheStrategyByRequest := None; hitCacheCallback c := c; missCacheCallback c := c;
     beforeReplyWithCacheCallback c r := (c, r); singleFlightForgetTimeout := 0;
     shareSingleFlightCallback c := c; ignoreQueryOrder := false; withoutHeader := false;
     withoutHeaderIgnore := []; prefixKey := ""; keyWithGinContext := [] |}.

(** The options; a nil function changes nothing. *)
Inductive Option_ :=
  | WithCacheStrategyByRequest (f : option GetCacheStrategy)
  | WithOnHitCache (cb : option (Gin -> Gin))
  | WithOnMissCache (cb : option (Gin -> Gin))
  | WithBeforeReplyWithCache (cb : option (Gin -> ResponseCache -> Gin * ResponseCache))
  | WithOnShareSingleFlight (cb : option (Gin -> Gin))
  | WithSingleFlightForgetTimeout (t : Z)
  | IgnoreQueryOrder
  | WithPrefixKey (prefix : string)
  | WithoutHeader
  | WithoutHeaderIgnore (ks : list string)
  | KeyWithGinContext (ks : list string).

Definition or_else {A} (o : option A) (d : A) : A := default d o.

Definition apply_option (c : Config) (o : Option_) : Config :=
  {| getCacheStrategyByRequest :=
       match o with WithCacheStrategyByRequest (Some f) => Some f | _ => getCacheStrategyByRequest c end;
     hitCacheCallback :=
       match o with WithOnHitCache (Some f) => f | _ => hitCacheCallback c end;
     missCacheCallback :=
       match o with WithOnMissCache (Some f) => f | _ => missCacheCallback c end;
     beforeReplyWithCacheCallback :=
       match o with WithBeforeReplyWithCache (Some f) => f | _ => beforeReplyWithCacheCallback c end;
     singleFlightForgetTimeout :=
       match o with
       | WithSingleFlightForgetTimeout t => if 0 <? t then t else singleFlightForgetTimeout c
       | _ => singleFlightForgetTimeout c
       end;
     shareSingleFlightCallback :=
       match o with WithOnShareSingleFlight (Some f) => f | _ => shareSingleFlightCallback c end;
     ignoreQueryOrder := match o with IgnoreQueryOrder => true | _ => ignoreQueryOrder c end;
     withoutHeader := match o with WithoutHeader => true | _ => withoutHeader c end;
     withoutHeaderIgnore :=
       match o with WithoutHeaderIgnore ks => ks | _ => withoutHeaderIgnore c end;
     prefixKey := match o with WithPrefixKey p => p | _ => prefixKey c end;
     keyWithGinContext := match o with KeyWithGinContext ks => ks | _ => keyWithGinContext c end |}.

Definition newConfigByOpts (opts : list Option_) : Config := foldl apply_option default_config opts.

Definition set_strategy (c : Config) (f : GetCacheStrategy) : Config :=
  apply_option c (WithCacheStrategyByRequest (Some f)).

(** ** Keys *)

(** [sort.Strings]: by bytes. *)
Fixpoint str_leb (a b : string) : bool :=
  match a, b with
  | EmptyString, _ => true
  | String _ _, EmptyString => false
  | String c a, String d b =>
      (b2z c <? b2z d) || ((b2z c =? b2z d) && str_leb a b)
  end.
Fixpoint insert_sorted (x : string) (l : list string) : list string :=
  match l with
  | [] => [x]
  | y :: l => if str_leb x y then x :: y :: l else y :: insert_sorted x l
  end.
Definition Strings (l : list string) : list string := foldr insert_sorted [] l.

(** The keys of the values of a query, each once, and the values of a key. *)
Definition query_keys (vs : list (string * string)) : list string := remove_dups (map fst vs).
Definition query_values (vs : list (string * string)) (k : string) : list string :=
  map snd (filter (fun kv => kv.1 = k) vs).

Section uri.
(** What [url.ParseRequestURI] makes of a URI that does not begin with a slash: its
    path and its query. *)
Context (absolute_uri : string -> outcome (string * string)).

(** A path is unescaped like a query but for the plus sign. *)
Fixpoint PathUnescape (s : string) : option string :=
  match s with
  | EmptyString => Some ""
  | String c s' =>
      if Ascii.eqb c "%" then
        match s' with
        | String h (String l s'') =>
            h ← hex_val h; l ← hex_val l; r ← PathUnescape s'';
            Some (String (z2b (16 * h + l)) r)
        | _ => None
        end
      else r ← PathUnescape s'; Some (String c r)
  end.

Definition is_ctl (c : ascii) : bool := (b2z c <? 32) || (b2z c =? 127).

(** The path and the query of a request's URI. *)
Definition ParseRequestURI (uri : string) : outcome (string * string) :=
  if negb (str_forall (fun c => negb (is_ctl c)) uri) then Err "invalid control character in URL"
  else if HasPrefix uri "/" then
    let '(p, q) := Cut uri "?" in
    match PathUnescape p with Some p => Ok (p, q) | None => Err "invalid URL escape" end
  else absolute_uri uri.

Definition query_vals (vs : list (string * string)) : list string :=
  flat_map (fun k => map (fun v => k +:+ "=" +:+ v) (Strings (query_values vs k)))
    (Strings (query_keys vs)).

Definition getRequestUriIgnoreQueryOrder (requestURI : string) : outcome string :=
  '(path, raw) ← ParseRequestURI requestURI;
  let values := Query raw in
  match values with
  | [] => Ok requestURI
  | _ => Ok (path +:+ "?" +:+ Join (query_vals values) "&")
  end.

Definition setRequestURI (c : Config) : Config :=
  set_strategy c (fun g =>
    (by_key (if ignoreQueryOrder c
             then match getRequestUriIgnoreQueryOrder (RequestURI g) with
                  | Ok u => u
                  | _ => RequestURI g
                  end
             else RequestURI g), true)).
End uri.

(** The key of a request: the strategy's, behind the prefix, behind the values of the
    context, the last named first. *)
Definition cache_key (cfg : Config) (c : Gin) (s : Strategy) : string :=
  let k := if String.eqb (prefixKey cfg) "" then CacheKey s else prefixKey cfg +:+ CacheKey s in
  foldl (fun key k => GetString c k +:+ key) k (keyWithGinContext cfg).

(** ** Recording and replaying *)

(** [fillWithCacheWriter], of what was written since the handler was called. *)
Definition fill (e : Effect) (withoutHeader : bool) (ignore : list string) : ResponseCache :=
  {| Status := e_status e; Data := e_written e;
     Header_ := if negb withoutHeader then e_header e
                else foldl (fun h k => Http.Header_Set h k (Http.Header_Get (e_header e) k)) ∅ ignore |}.

(** Every value of a key is set, so the last one stays. *)
Definition set_values (h : Header) (kv : string * list string) : Header :=
  foldl (fun h v => Http.Header_Set h kv.1 v) h kv.2.
Definition reply_headers (cfg : Config) (h cached : Header) : Header :=
  if negb (withoutHeader cfg)
  then foldl set_values h (map_to_list (cached : gmap string (list string)))
  else foldl (fun h k => Http.Header_Set h k (Http.Header_Get cached k)) h (withoutHeaderIgnore cfg).

Definition replyWithCache (c : Gin) (cfg : Config) (r : ResponseCache) : Gin :=
  let '(c, r) := beforeReplyWithCacheCallback cfg c r in
  respond c {| e_status := if 0 <? Status r then Status r else w_status c;
               e_header := reply_headers cfg (w_header c) (Header_ r);
               e_written := Data r; e_aborted := true |}.

(** ** The handler *)

Section handler.
Context {S : Type} `{CacheStore S}.
(** The handler behind the cache: [handle(c)], or the rest of the chain, [c.Next()]. *)
Context (cfg : Config) (defaultExpire : Z) (handle : Gin -> Effect).

Definition set_store (stores : nat -> S) (i : nat) (s : S) : nat -> S :=
  fun j => if (j =? i)%nat then s else stores j.
Definition pick_store (s : Strategy) : nat := default 0%nat (UseStore s).
Definition pick_duration (s : Strategy) : Z :=
  if 0 <? CacheDuration s then CacheDuration s else defaultExpire.

(** The part inside the flight: call the handler, record, and store a 2xx response. *)
Definition flight (t : Z) (stores : nat -> S) (i : nat) (key : string) (d : Z) (c : Gin)
    : (nat -> S) * Gin * ResponseCache :=
  let e := handle c in
  let r := fill e (withoutHeader cfg) (withoutHeaderIgnore cfg) in
  let c := respond c e in
  if negb (e_aborted e) && (e_status e <? 300) && (200 <=? e_status e)
  then (set_store stores i (snd (Set_ t (stores i) key r d)), c, r)
  else (stores, c, r).

(** One request that shares its flight with no other, reading the store at [t], filling
    it at [t']. *)
Definition cache_request (t t' : Z) (stores : nat -> S) (c : Gin) : outcome ((nat -> S) * Gin) :=
  match getCacheStrategyByRequest cfg with
  | None => Panic "cache strategy is nil"
  | Some strategy =>
      let '(s, shouldCache) := strategy c in
      if negb shouldCache then Ok (stores, respond c (handle c))
      else
        let key := cache_key cfg c s in
        let i := pick_store s in
        match Get t (stores i) key with
        | Ok r =>
            let edited := snd (beforeReplyWithCacheCallback cfg c r) in
            Ok (set_store stores i (Keep t (stores i) key edited),
                hitCacheCallback cfg (replyWithCache c cfg r))
        | _ =>
            let '(stores, c, _) := flight t' stores i key (pick_duration s) (missCacheCallback cfg c) in
            Ok (stores, c)
        end
  end.
End handler.

(** ** cache/middleware.go and cache/wrapper.go

    The configurations of the shortcuts; a middleware and a wrapper differ in the handler
    they call, the rest of the chain or the one they wrap. *)
Definition config_by_uri (absolute_uri : string -> outcome (string * string)) (opts : list Option_) : Config :=
  setRequestURI absolute_uri (newConfigByOpts opts).
Definition config_by_path (opts : list Option_) : Config :=
  newConfigByOpts (opts ++ [WithCacheStrategyByRequest (Some (fun g => (by_key (URLPath g), true)))]).

Section shortcuts.
Context {S : Type} `{CacheStore S} (absolute_uri : string -> outcome (string * string)).
(** The rest of the chain behind a middleware, [c.Next()]. *)
Context (next : Gin -> Effect) (defaultExpire : Z).

(** A handler over the stores, at the times it reads and fills one. *)
Definition HandlerFunc : Type := Z -> Z -> (nat -> S) -> Gin -> outcome ((nat -> S) * Gin).

(** [_cache(...)], which panics while the server is set up, not in a request; callers give
    no handler exactly for a middleware. *)
Definition _cache (cfg : Config) (handle : option (Gin -> Effect)) : outcome HandlerFunc :=
  match getCacheStrategyByRequest cfg with
  | None => Panic "cache strategy is nil"
  | Some _ => Ok (cache_request cfg defaultExpire (default next handle))
  end.

Definition mCache (cfg : Config) : outcome HandlerFunc := _cache cfg None.
Definition wCache (cfg : Config) (handle : Gin -> Effect) : outcome HandlerFunc := _cache cfg (Some handle).

Definition MCache (opts : list Option_) : outcome HandlerFunc := mCache (newConfigByOpts opts).
Definition MCacheByRequestURI (opts : list Option_) : outcome HandlerFunc :=
  mCache (config_by_uri absolute_uri opts).
Definition MCacheByRequestPath (opts : list Option_) : outcome HandlerFunc := mCache (config_by_path opts).
Definition WCache (handle : Gin -> Effect) (opts : list Option_) : outcome HandlerFunc :=
  wCache (newConfigByOpts opts) handle.
Definition WCacheByRequestURI (handle : Gin -> Effect) (opts : list Option_) : outcome HandlerFunc :=
  wCache (config_by_uri absolute_uri opts) handle.
Definition WCacheByRequestPath (handle : Gin -> Effect) (opts : list Option_) : outcome HandlerFunc :=
  wCache (config_by_path opts) handle.

(** It was set up, and no request makes it panic. *)
Definition ready (f : outcome HandlerFunc) : Prop :=
  exists h, f = Ok h /\ forall t t' stores c, is_ok (h t t' stores c) = true.

Lemma cache_ready cfg handle :
  ready (_cache cfg handle) <-> is_Some (getCacheStrategyByRequest cfg).
Proof.
  unfold ready, _cache, cache_request.
  destruct (getCacheStrategyByRequest cfg) as [f|]; [|by split; [intros (h & [=] & _)|intros [? [=]]]].
  split; [by eexists|]. intros _. eexists. split; [reflexivity|].
  intros t t' stores c. cbn beta. destruct (f c) as [s b]. destruct b; cbn; [|done].
  destruct (Get _ _ _); try done; by destruct (flight _ _ _ _ _ _ _ _) as [[? ?] ?].
Qed.

(** A strategy is needed; the shortcuts come with theirs, which wins over one of the
    options. *)
Lemma shortcuts_ready handle opts :
  ready (MCacheByRequestURI opts) /\ ready (MCacheByRequestPath opts) /\
  ready (WCacheByRequestURI handle opts) /\ ready (WCacheByRequestPath handle opts) /\
  (ready (MCache opts) <-> is_Some (getCacheStrategyByRequest (newConfigByOpts opts))) /\
  (ready (WCache handle opts) <-> is_Some (getCacheStrategyByRequest (newConfigByOpts opts))).
Proof.
  repeat split; try apply cache_ready; try (by intros; apply cache_ready); try by eexists.
  all: unfold config_by_path, newConfigByOpts; rewrite foldl_app; by eexists.
Qed.
End shortcuts.

(** ** Sorting *)

Lemma str_leb_refl a : str_leb a a = true.
Proof. induction a as [|c a IH]; [done|]. cbn. by rewrite Z.eqb_refl, IH, orb_true_r. Qed.

Lemma str_leb_total a b : str_leb a b = true \/ str_leb b a = true.
Proof.
  revert b. induction a as [|c a IH]; intros [|d b]; cbn; auto.
  rewrite !orb_true_iff, !andb_true_iff, !Z.ltb_lt, !Z.eqb_eq.
  destruct (IH b); destruct (Z.lt_total (b2z c) (b2z d)) as [?|[?|?]]; intuition lia.
Qed.

Lemma b2z_inj c d : b2z c = b2z d -> c = d.
Proof. intros E. by rewrite <- (z2b_b2z c), E, z2b_b2z. Qed.

Lemma str_leb_antisym a b : str_leb a b = true -> str_leb b a = true -> a = b.
Proof.
  revert b. induction a as [|c a IH]; intros [|d b]; cbn; try done.
  rewrite !orb_true_iff, !andb_true_iff, !Z.ltb_lt, !Z.eqb_eq. intros H1 H2.
  assert (E : b2z c = b2z d) by lia. assert (str_leb a b = true) by intuition lia.
  assert (str_leb b a = true) by intuition lia. by rewrite (b2z_inj c d E), (IH b).
Qed.

Lemma str_leb_trans a b c : str_leb a b = true -> str_leb b c = true -> str_leb a c = true.
Proof.
  revert b c. induction a as [|x a IH]; intros [|y b] [|z c]; cbn; try done.
  rewrite !orb_true_iff, !andb_true_iff, !Z.ltb_lt, !Z.eqb_eq. intros H1 H2.
  destruct H1 as [?|[E1 ?]], H2 as [?|[E2 ?]]; try (left; lia). right. split; [lia|by eapply IH].
Qed.

Lemma insert_perm x l : insert_sorted x l ≡ₚ x :: l.
Proof.
  induction l as [|y l IH]; [done|]. cbn. destruct (str_leb x y); [done|].
  rewrite IH. apply perm_swap.
Qed.

Lemma Strings_perm l : Strings l ≡ₚ l.
Proof. induction l as [|x l IH]; [done|]. cbn. by rewrite insert_perm, IH. Qed.

Lemma insert_comm x y l : insert_sorted x (insert_sorted y l) = insert_sorted y (insert_sorted x l).
Proof.
  assert (Hxy : forall x y l, str_leb x y = true ->
    insert_sorted x (y :: l) = x :: y :: l) by (intros ??? E; cbn; by rewrite E).
  induction l as [|z l IH]; cbn.
  - destruct (str_leb x y) eqn:E1, (str_leb y x) eqn:E2; try done.
    + by rewrite (str_leb_antisym x y).
    + destruct (str_leb_total x y); congruence.
  - destruct (str_leb y z) eqn:Ey, (str_leb x z) eqn:Ex; cbn; rewrite ?Ey, ?Ex; try done.
    + destruct (str_leb x y) eqn:E1, (str_leb y x) eqn:E2; cbn; rewrite ?Ey, ?Ex; try done.
      * by rewrite (str_leb_antisym x y).
      * destruct (str_leb_total x y); congruence.
    + destruct (str_leb x y) eqn:E1; [|done].
      by rewrite (str_leb_trans x y z) in Ex.
    + destruct (str_leb y x) eqn:E1; [|done].
      by rewrite (str_leb_trans y x z) in Ey.
    + by rewrite IH.
Qed.

(** Sorting forgets the order, and nothing else. *)
Lemma Strings_eq l k : l ≡ₚ k <-> Strings l = Strings k.
Proof.
  split.
  - unfold Strings. induction 1 as [|x l k _ IH|x y l|l k m _ IH1 _ IH2]; cbn; [done|by rewrite IH|apply insert_comm|congruence].
  - intros E. transitivity (Strings l); [by rewrite Strings_perm|]. rewrite E. apply Strings_perm.
Qed.

(** ** The key of a URI whose query order is ignored *)

Definition canon (vs : list (string * string)) : list (string * string) :=
  flat_map (fun k => map (pair k) (Strings (query_values vs k))) (Strings (query_keys vs)).

Lemma query_vals_canon vs : query_vals vs = map pair_text (canon vs).
Proof.
  unfold query_vals, canon. rewrite !flat_map_concat_map, concat_map, map_map.
  f_equal. apply map_ext. intros k. by rewrite map_map.
Qed.

Lemma query_keys_perm vs ws : vs ≡ₚ ws -> query_keys vs ≡ₚ query_keys ws.
Proof.
  intros Hp. unfold query_keys. apply NoDup_Permutation; try apply NoDup_remove_dups.
  intros k. rewrite !elem_of_remove_dups. by rewrite Hp.
Qed.

Lemma query_values_perm vs ws k : vs ≡ₚ ws -> query_values vs k ≡ₚ query_values ws k.
Proof. intros Hp. unfold query_values. by rewrite Hp. Qed.

Lemma canon_perm vs ws : vs ≡ₚ ws -> canon vs = canon ws.
Proof.
  intros Hp. unfold canon. rewrite (proj1 (Strings_eq _ _) (query_keys_perm _ _ Hp)).
  rewrite !flat_map_concat_map. f_equal. apply map_ext. intros k. f_equal.
  apply Strings_eq, query_values_perm, Hp.
Qed.

Lemma flat_map_perm_ext {A B} (f g : A -> list B) l : (forall x, x ∈ l -> f x ≡ₚ g x) ->
  flat_map f l ≡ₚ flat_map g l.
Proof.
  induction l as [|x l IH]; intros H; [done|]. cbn.
  rewrite (H x) by left. by rewrite IH by (intros y ?; apply H; by right).
Qed.

Lemma filter_keys_split (k : string) ks (vs : list (string * string)) : k ∉ ks ->
  filter (fun kv => kv.1 ∈ k :: ks) vs ≡ₚ
  filter (fun kv => kv.1 = k) vs ++ filter (fun kv => kv.1 ∈ ks) vs.
Proof.
  intros Hk. induction vs as [|[x v] vs IH]; [done|].
  destruct (decide (x = k)) as [->|Hx].
  - rewrite !filter_cons_True by (cbn; auto; left). by rewrite filter_cons_False, IH.
  - rewrite (filter_cons_False (fun kv => kv.1 = k)) by done.
    destruct (decide (x ∈ ks)) as [Hin|Hin].
    + rewrite (filter_cons_True _ (x, v)) by (cbn; by right).
      rewrite (filter_cons_True (fun kv => kv.1 ∈ ks)) by done. rewrite IH. apply Permutation_middle.
    + rewrite !(filter_cons_False _ (x, v)); [done|done|]. cbn. by intros [?|?]%elem_of_cons.
Qed.

Lemma group_perm (ks : list string) (vs : list (string * string)) : NoDup ks ->
  flat_map (fun k => filter (fun kv => kv.1 = k) vs) ks ≡ₚ filter (fun kv => kv.1 ∈ ks) vs.
Proof.
  induction 1 as [|k ks Hk _ IH]; cbn [flat_map].
  - induction vs as [|kv vs IHvs]; [done|]. rewrite filter_cons_False; [done|]. apply not_elem_of_nil.
  - by rewrite filter_keys_split, IH.
Qed.

Lemma query_values_pairs vs k : map (pair k) (query_values vs k) = filter (fun kv => kv.1 = k) vs.
Proof.
  unfold query_values. rewrite map_map. induction vs as [|[x v] vs IH]; [done|].
  destruct (decide (x = k)) as [->|Hx].
  - rewrite filter_cons_True by done. cbn. by rewrite IH.
  - by rewrite filter_cons_False.
Qed.

Lemma canon_permutes vs : canon vs ≡ₚ vs.
Proof.
  transitivity (flat_map (fun k => filter (fun kv => kv.1 = k) vs) (query_keys vs)).
  - unfold canon. rewrite (flat_map_perm_ext _ (fun k => filter (fun kv => kv.1 = k) vs)).
    + rewrite !flat_map_concat_map. by rewrite (Strings_perm (query_keys vs)).
    + intros k _. rewrite <- query_values_pairs. by rewrite Strings_perm.
  - rewrite group_perm by apply NoDup_remove_dups.
    assert (H : Forall (fun kv => kv.1 ∈ query_keys vs) vs).
    { apply Forall_forall. intros kv Hkv. unfold query_keys. rewrite elem_of_remove_dups.
      change (kv.1 ∈ fst <$> vs). apply list_elem_of_fmap. by exists kv. }
    revert H. generalize (query_keys vs). intros ks H.
    induction H as [|kv vs Hkv _ IH]; [done|]. by rewrite filter_cons_True, IH.
Qed.

(** A query as a client writes it from pairs, and a path that stands for itself. *)
Definition query_text (kvs : list (string * string)) : string := Join (map pair_text kvs) "&".
Definition plain_pairs (kvs : list (string * string)) : Prop :=
  Forall (fun kv => plain kv.1 = true /\ has_char "=" kv.1 = false /\ plain kv.2 = true) kvs.
Definition path_char (c : ascii) : bool :=
  negb (is_ctl c) && negb (Ascii.eqb c "%") && negb (Ascii.eqb c "?").

Lemma PathUnescape_id p : str_forall path_char p = true -> PathUnescape p = Some p.
Proof.
  induction p as [|c p IH]; [done|]. cbn. intros [Hc Hp]%andb_true_iff. rewrite IH by done.
  unfold path_char in Hc. destruct (Ascii.eqb c "%"); [|done].
  by rewrite andb_false_r in Hc.
Qed.

Lemma canon_plain kvs : plain_pairs kvs -> plain_pairs (canon kvs).
Proof. unfold plain_pairs. intros H. by rewrite canon_permutes. Qed.

Lemma canon_not_nil kvs : kvs <> [] -> canon kvs <> [].
Proof. intros Hne E. apply Hne, Permutation_nil. by rewrite <- E, canon_permutes. Qed.

Lemma append_inj p s t : p +:+ s = p +:+ t -> s = t.
Proof. induction p as [|c p IH]; [done|]. rewrite !append_cons. intros [= E]. auto. Qed.

Lemma no_question p : str_forall path_char p = true -> has_char "?" p = false.
Proof. by apply str_forall_no_char. Qed.

(** The key of a URI made of a path and plain pairs. *)
Lemma uri_key absolute p kvs : kvs <> [] -> plain_pairs kvs ->
  HasPrefix p "/" = true -> str_forall path_char p = true ->
  str_forall (fun c => negb (is_ctl c)) (query_text kvs) = true ->
  getRequestUriIgnoreQueryOrder absolute (p +:+ String "?" (query_text kvs))
  = Ok (p +:+ String "?" (query_text (canon kvs))).
Proof.
  intros Hne Hkvs Hp Hpath Hctl. unfold getRequestUriIgnoreQueryOrder, ParseRequestURI.
  rewrite str_forall_app. cbn [str_forall]. rewrite Hctl.
  rewrite (str_forall_impl path_char (fun c => negb (is_ctl c))) by
    (done || (intros c; unfold path_char; by destruct (negb (is_ctl c)))).
  change (negb (is_ctl "?")) with true. cbn [negb andb].
  apply HasPrefix_spec in Hp as Hp'. destruct Hp' as [t ->].
  rewrite (proj2 (HasPrefix_spec _ _)) by (exists (t +:+ String "?" (query_text kvs)); by rewrite append_assoc).
  rewrite Cut_app, PathUnescape_id by (done || by apply no_question).
  cbn [mbind outcome_bind]. change (Query (query_text kvs)) with (Query (Join (map pair_text kvs) (char_str "&"))).
  rewrite Query_pairs by done. unfold query_text. rewrite <- query_vals_canon. by destruct kvs.
Qed.

(** Where the order of the query is ignored, two URIs of one path have one key exactly when
    their queries are the same pairs in another order, names and values repeated or not: for pairs that are written as they
    are. *)
Theorem uri_key_order absolute p kvs kws :
  kvs <> [] -> kws <> [] -> plain_pairs kvs -> plain_pairs kws ->
  HasPrefix p "/" = true -> str_forall path_char p = true ->
  str_forall (fun c => negb (is_ctl c)) (query_text kvs) = true ->
  str_forall (fun c => negb (is_ctl c)) (query_text kws) = true ->
  getRequestUriIgnoreQueryOrder absolute (p +:+ String "?" (query_text kvs))
  = getRequestUriIgnoreQueryOrder absolute (p +:+ String "?" (query_text kws)) <-> kvs ≡ₚ kws.
Proof.
  intros Hv Hw Pv Pw Hp Hpath Cv Cw. rewrite !uri_key by done. split.
  - intros [= E]. apply append_inj in E. injection E as E.
    apply (f_equal Query) in E. unfold query_text in E.
    change "&" with (char_str "&") in E.
    rewrite !Query_pairs in E; [|by apply canon_not_nil|by apply canon_plain|by apply canon_not_nil|by apply canon_plain].
    transitivity (canon kvs); [by rewrite canon_permutes|]. rewrite E. apply canon_permutes.
  - intros Hperm. by rewrite (canon_perm _ _ Hperm).
Qed.

(** ** Replaying *)

Definition canonical_keys (h : Header) : Prop :=
  map_Forall (fun k _ => Http.CanonicalHeaderKey k = k) (h : gmap string (list string)).

(** The last value of a header that has several. *)
Definition last_values (vs : option (list string)) : option (list string) :=
  match vs with
  | Some vs => match last vs with Some v => Some [v] | None => None end
  | None => None
  end.

Lemma set_values_lookup h k vs i : Http.CanonicalHeaderKey k = k ->
  (set_values h (k, vs) : gmap string (list string)) !! i
  = if decide (i = k) then match last vs with Some v => Some [v] | None => h !! i end
    else (h : gmap string (list string)) !! i.
Proof.
  intros Hk. unfold set_values. cbn [fst snd]. revert h.
  induction vs as [|v vs IH] using rev_ind; intros h; [by destruct (decide _)|].
  rewrite foldl_app, last_snoc. cbn [foldl]. unfold Http.Header_Set at 1. rewrite Hk.
  destruct (decide (i = k)) as [->|Hi]; [by rewrite lookup_insert_eq|].
  by rewrite lookup_insert_ne, IH by done.
Qed.

Lemma reply_list_lookup l h i : NoDup l.*1 -> Forall (fun kv => Http.CanonicalHeaderKey kv.1 = kv.1) l ->
  (foldl set_values h l : gmap string (list string)) !! i
  = match (list_to_map l : gmap string (list string)) !! i with
    | Some vs => match last vs with Some v => Some [v] | None => (h : gmap string (list string)) !! i end
    | None => (h : gmap string (list string)) !! i
    end.
Proof.
  intros Hnd Hc. revert h Hnd. induction Hc as [|[k vs] l Hk _ IH]; intros h; [done|].
  cbn [fmap list_fmap fst foldl list_to_map foldr]. intros [Hin Hnd]%NoDup_cons.
  rewrite IH by done. change (foldr _ ∅ l) with (list_to_map l : gmap string (list string)).
  cbn [uncurry]. destruct (decide (i = k)) as [->|Hi].
  - rewrite lookup_insert_eq, (not_elem_of_list_to_map_1 l k Hin).
    by rewrite set_values_lookup, decide_True.
  - rewrite lookup_insert_ne by done. rewrite !set_values_lookup, decide_False by done. done.
Qed.

(** With headers, the reply has the last value of each. *)
Lemma reply_headers_last cfg h i : withoutHeader cfg = false -> canonical_keys h ->
  (reply_headers cfg ∅ h : gmap string (list string)) !! i
  = last_values ((h : gmap string (list string)) !! i).
Proof.
  intros Hw Hc. unfold reply_headers. rewrite Hw. cbn [negb].
  rewrite reply_list_lookup.
  - rewrite list_to_map_to_list. unfold last_values. destruct (_ !! i) as [vs|]; [|done]. cbn.
    destruct (last vs); [done|]. apply lookup_empty.
  - apply NoDup_fst_map_to_list.
  - apply Forall_forall. intros [k vs] Hk%elem_of_map_to_list. by apply (Hc k vs).
Qed.

Definition stored_2xx (e : Effect) : bool :=
  negb (e_aborted e) && (e_status e <? 300) && (200 <=? e_status e).

Section replay.
Context {S : Type} `{CacheStoreLaws S} (cfg : Config) (d : Z) (handle : Gin -> Effect)
  (strategy : GetCacheStrategy).
Hypothesis Hstrategy : getCacheStrategyByRequest cfg = Some strategy.
Hypothesis Hbefore : forall c r, beforeReplyWithCacheCallback cfg c r = (c, r).

(** A request the store has nothing for gets the handler's response; a response that is
    not 2xx, or was aborted, leaves no trace. *)
Lemma miss_response t t' (stores : nat -> S) c s :
  strategy c = (s, true) -> is_ok (Get t (stores (pick_store s)) (cache_key cfg c s)) = false ->
  let e := handle (missCacheCallback cfg c) in
  let r := fill e (withoutHeader cfg) (withoutHeaderIgnore cfg) in
  let i := pick_store s in
  cache_request cfg d handle t t' stores c =
  Ok (if stored_2xx e
      then set_store stores i (snd (Set_ t' (stores i) (cache_key cfg c s) r (pick_duration d s)))
      else stores, respond (missCacheCallback cfg c) e).
Proof.
  intros Hs Hmiss e r i. unfold cache_request. rewrite Hstrategy, Hs. cbn [negb].
  fold i. fold i in Hmiss. destruct (Get t (stores i) (cache_key cfg c s)); [done|..];
    unfold flight; fold e; fold r; unfold stored_2xx; by destruct (_ && _).
Qed.

(** C7. A response that is cached is replayed: once the handler has answered a request with a 2xx response and
    the store took it, every request with the same key within the duration gets, without the handler and
    without a change to the stores, that status and those bytes, and of each header its
    last value; an answer that is not 2xx, or that aborts, leaves the stores as they were. *)
Theorem cached_replay t t' stores c c' s s' :
  strategy c = (s, true) -> strategy c' = (s', true) ->
  cache_key cfg c' s' = cache_key cfg c s -> pick_store s' = pick_store s ->
  is_ok (Get t (stores (pick_store s)) (cache_key cfg c s)) = false ->
  let e := handle (missCacheCallback cfg c) in
  let r := fill e (withoutHeader cfg) (withoutHeaderIgnore cfg) in
  exists stores', cache_request cfg d handle t t' stores c
                  = Ok (stores', respond (missCacheCallback cfg c) e) /\
    (stored_2xx e = false -> stores' = stores) /\
    (stored_2xx e = true ->
       fst (Set_ t' (stores (pick_store s)) (cache_key cfg c s) r (pick_duration d s)) = None ->
       withoutHeader cfg = false -> canonical_keys (e_header e) -> w_header c' = ∅ ->
       forall u u', t' <= u < t' + pick_duration d s ->
       exists stores2 reply, cache_request cfg d handle u u' stores' c' = Ok (stores2, hitCacheCallback cfg reply) /\
         (forall i, stores2 i = stores' i) /\
         w_status reply = e_status e /\ w_body reply = w_body c' +:+ e_written e /\
         IsAborted reply = true /\
         forall i, (w_header reply : gmap string (list string)) !! i
                   = last_values ((e_header e : gmap string (list string)) !! i)).
Proof.
  intros Hs Hs' Hkey Hstore Hmiss e r.
  rewrite (miss_response t t' stores c s Hs Hmiss). fold e. fold r.
  eexists. split; [done|]. split; [by intros ->|]. intros Hok Hset Hwh Hcan Hw u u' Hu.
  rewrite Hok. set (i := pick_store s) in *.
  destruct (Set_ t' (stores i) (cache_key cfg c s) r (pick_duration d s)) as [err s1] eqn:Hs1.
  cbn in Hset. subst err. cbn [snd].
  unfold cache_request. rewrite Hstrategy, Hs', Hkey, Hstore. cbn [negb].
  change (set_store stores i s1 i) with (if (i =? i)%nat then s1 else stores i). rewrite Nat.eqb_refl.
  pose proof (get_set t' u _ _ _ _ _ Hs1 Hu) as Hget. rewrite Hget. unfold replyWithCache. rewrite Hbefore.
  cbn [snd]. rewrite (keep_same _ _ _ _ Hget).
  do 2 eexists. split; [done|]. split.
  { intros j. unfold set_store. destruct (j =? i)%nat eqn:E; [|done].
    apply Nat.eqb_eq in E as ->. by rewrite ?Nat.eqb_refl. }
  cbn. unfold stored_2xx in Hok.
  assert (Hpos : (0 <? e_status e) = true) by (apply Z.ltb_lt; boolify; lia).
  rewrite Hpos. repeat split; [done..|]. intros k. rewrite Hw, Hwh. by apply reply_headers_last.
Qed.
End replay.

(** ** Requests that share a flight

    singleflight runs one function at a time for a key and gives its result to those who
    asked meanwhile; a timer may make it forget the key. Requests take one step at a
    time: read the store, join or open a flight, run the handler, reply. *)

Section flights.
(** Whether a forget timeout is set. *)
Context (forget : bool) (cfg : Config).

Inductive Phase :=
  | Asked (key : string)
  | Missed (key : string)
  | Leading (key : string)
  | Waiting (key : string) (leader : nat)
  | Served (key : string) (r : ResponseCache)     (* by its own run of the handler *)
  | Replied (key : string) (r : ResponseCache).   (* from the cache, or by another's run *)

Record Traffic := {
  stored : gmap string ResponseCache;
  in_flight : gmap string nat;
  requests : gmap nat Phase;
  produced : list (string * ResponseCache)
}.
Definition quiet : Traffic := {| stored := ∅; in_flight := ∅; requests := ∅; produced := [] |}.

Definition read_cache (s : Traffic) (key : string) : Phase :=
  match stored s !! key with Some r => Replied key r | None => Missed key end.
Definition set_phase (s : Traffic) (t : nat) (p : Phase) : Traffic :=
  {| stored := stored s; in_flight := in_flight s; requests := <[t := p]> (requests s);
     produced := produced s |}.
(** [sfGroup.Do(cacheKey, ...)] *)
Definition join (s : Traffic) (t : nat) (key : string) : Traffic :=
  match in_flight s !! key with
  | Some l => set_phase s t (Waiting key l)
  | None => {| stored := stored s; in_flight := <[key := t]> (in_flight s);
               requests := <[t := Leading key]> (requests s); produced := produced s |}
  end.
Definition land (s : Traffic) (t : nat) (key : string) (e : Effect) : Traffic :=
  let r := fill e (withoutHeader cfg) (withoutHeaderIgnore cfg) in
  {| stored := if stored_2xx e then <[key := r]> (stored s) else stored s;
     in_flight := if bool_decide (in_flight s !! key = Some t) then delete key (in_flight s)
                  else in_flight s;
     requests := <[t := Served key r]> (requests s); produced := (key, r) :: produced s |}.

Inductive traffic_step : Traffic -> Traffic -> Prop :=
  | t_ask s t key : requests s !! t = None -> traffic_step s (set_phase s t (Asked key))
  | t_read s t key : requests s !! t = Some (Asked key) ->
      traffic_step s (set_phase s t (read_cache s key))
  | t_join s t key : requests s !! t = Some (Missed key) -> traffic_step s (join s t key)
  | t_land s t key e : requests s !! t = Some (Leading key) -> traffic_step s (land s t key e)
  | t_share s t key l r : requests s !! t = Some (Waiting key l) ->
      requests s !! l = Some (Served key r) -> traffic_step s (set_phase s t (Replied key r))
  | t_expire s key : traffic_step s {| stored := delete key (stored s); in_flight := in_flight s;
      requests := requests s; produced := produced s |}
  | t_forget s key : forget = true ->
      traffic_step s {| stored := stored s; in_flight := delete key (in_flight s);
                        requests := requests s; produced := produced s |}.

(** What each request may be, given the others. *)
Definition phase_ok (s : Traffic) (t : nat) (p : Phase) : Prop :=
  match p with
  | Served key r | Replied key r => (key, r) ∈ produced s
  | Waiting key l => requests s !! l = Some (Leading key) \/ exists r, requests s !! l = Some (Served key r)
  | Leading key => forget = false -> in_flight s !! key = Some t
  | _ => True
  end.
Record traffic_ok (s : Traffic) : Prop := {
  ok_stored : map_Forall (fun k r => (k, r) ∈ produced s) (stored s);
  ok_flights : map_Forall (fun k l => requests s !! l = Some (Leading k)) (in_flight s);
  ok_phases : map_Forall (phase_ok s) (requests s)
}.

(** A request takes a step that changes neither flights nor what is stored. *)
Lemma set_phase_ok s t p q : traffic_ok s -> requests s !! t = p ->
  (forall k, p <> Some (Leading k)) -> (forall k r, p <> Some (Served k r)) ->
  phase_ok s t q -> traffic_ok (set_phase s t q).
Proof.
  intros [Hs Hf Hp] Ht Hl Hd Hq.
  assert (Hkeep : forall k (x : Phase), (exists j, x = Leading j \/ exists r, x = Served j r) ->
    requests s !! k = Some x -> <[t := q]> (requests s) !! k = Some x).
  { intros k x (j & Hx) Hk. rewrite lookup_insert_ne; [done|]. intros ->.
    destruct Hx as [->|[r ->]]; subst p; [by eapply Hl|by eapply Hd]. }
  assert (Hmono : forall u x, phase_ok s u x -> phase_ok (set_phase s t q) u x).
  { intros u [| | |k l| |]; cbn; auto. intros [?|[r ?]]; [left|right; exists r]; apply Hkeep; eauto 6. }
  constructor; cbn; [done| |].
  - intros k l Hk. apply Hkeep; [by eauto|by apply Hf].
  - apply map_Forall_insert_2; [by apply Hmono|]. intros u x Hx. by apply Hmono, Hp.
Qed.

Lemma join_ok s t key : traffic_ok s -> requests s !! t = Some (Missed key) -> traffic_ok (join s t key).
Proof.
  intros Hok Ht. unfold join. destruct (in_flight s !! key) as [l|] eqn:E.
  { eapply set_phase_ok; [done|done|done|done|]. left. by apply (ok_flights s Hok). }
  destruct Hok as [Hs Hf Hp].
  assert (Hne : forall k (x : Phase), (forall j, x <> Missed j) -> requests s !! k = Some x ->
    <[t := Leading key]> (requests s) !! k = Some x).
  { intros k x Hx Hk. rewrite lookup_insert_ne; [done|]. intros ->. rewrite Ht in Hk. simplify_eq. by eapply Hx. }
  constructor; cbn; [done| |].
  - intros k l. destruct (decide (k = key)) as [->|Hk].
    + rewrite lookup_insert_eq. intros [= <-]. apply lookup_insert_eq.
    + rewrite lookup_insert_ne by done. intros Hl. apply Hne; [done|by apply Hf].
  - apply map_Forall_insert_2; [cbn; intros _; apply lookup_insert_eq|].
    intros u x Hx. specialize (Hp u x Hx). destruct x as [| |k|k l| |]; cbn in *; auto.
    + intros Hfg. specialize (Hp Hfg). rewrite lookup_insert_ne; [done|]. intros ->. congruence.
    + destruct Hp as [?|[r ?]]; [left|right; exists r]; by apply Hne.
Qed.

Lemma land_ok s t key e : traffic_ok s -> requests s !! t = Some (Leading key) -> traffic_ok (land s t key e).
Proof.
  intros [Hs Hf Hp] Ht. unfold land. set (r := fill e _ _).
  assert (Hin : forall k x, (k, x) ∈ produced s -> (k, x) ∈ (key, r) :: produced s) by (intros; by right).
  constructor; cbn.
  - destruct (stored_2xx e); [apply map_Forall_insert_2; [left|]|]; intros k x Hk; by apply Hin, Hs.
  - intros k l Hk. assert (Hl : in_flight s !! k = Some l /\ l <> t).
    { case_bool_decide as E.
      - apply lookup_delete_Some in Hk as [Hne Hk]. split; [done|]. intros ->.
        pose proof (Hf k t Hk). congruence.
      - split; [done|]. intros ->. pose proof (Hf k t Hk). congruence. }
    destruct Hl as [Hl Hne]. rewrite lookup_insert_ne by done. by apply Hf.
  - intros u x [[<- <-]|[Hu Hx]]%lookup_insert_Some; [left|].
    specialize (Hp u x Hx). destruct x as [| |k|k l| |]; cbn in *; auto.
    + intros Hfg. specialize (Hp Hfg). case_bool_decide as E; [|done].
      rewrite lookup_delete_ne; [done|]. intros ->. congruence.
    + destruct (decide (l = t)) as [->|Hl].
      * rewrite lookup_insert_eq. right. exists r.
        destruct Hp as [Hp|[r' Hp]]; rewrite Ht in Hp; simplify_eq. done.
      * by rewrite lookup_insert_ne.
Qed.
Lemma traffic_step_ok s s' : traffic_step s s' -> traffic_ok s -> traffic_ok s'.
Proof.
  intros Hstep Hok. destruct Hstep as [s t key Ht|s t key Ht|s t key Ht|s t key e Ht|s t key l r Ht Hl|s key|s key Hf].
  - by eapply set_phase_ok.
  - eapply set_phase_ok; [done|done|done|done|]. unfold read_cache.
    destruct (stored s !! key) eqn:E; [|done]. by apply (ok_stored s Hok).
  - by apply join_ok.
  - by apply land_ok.
  - eapply set_phase_ok; [done|done|done|done|]. by apply (ok_phases s Hok l _ Hl).
  - destruct Hok as [Hs Hfl Hp]. constructor; cbn; [|done|done]. by apply map_Forall_delete.
  - destruct Hok as [Hs Hfl Hp]. constructor; cbn; [done|by apply map_Forall_delete|].
    intros u x Hx. specialize (Hp u x Hx). destruct x; cbn in *; auto. congruence.
Qed.

(** C8. However requests interleave, items expire and flights are forgotten: a request is
    answered with a response the handler produced for its own key, its own run's or another's; who
    waits, waits for a run that is under way or has its result, which can be handed over at once; and without a forget timeout at
    most one run is under way for a key. *)
Theorem flights_shared s : rtc traffic_step quiet s ->
  (forall t key r, requests s !! t = Some (Served key r) \/ requests s !! t = Some (Replied key r) ->
     (key, r) ∈ produced s) /\
  (forall t key l, requests s !! t = Some (Waiting key l) ->
     requests s !! l = Some (Leading key) \/
     exists r s', traffic_step s s' /\ requests s' !! t = Some (Replied key r)) /\
  (forget = false -> forall t u key, requests s !! t = Some (Leading key) ->
     requests s !! u = Some (Leading key) -> t = u).
Proof.
  intros Hr. assert (Hok : traffic_ok s).
  { apply (rtc_preserves traffic_step traffic_ok) with quiet; [apply traffic_step_ok|done|].
    constructor; apply map_Forall_empty. }
  destruct Hok as [Hs Hf Hp]. split; [|split].
  - intros t key r [Ht|Ht]; by apply (Hp t _ Ht).
  - intros t key l Ht. destruct (Hp t _ Ht) as [Hl|[r Hl]]; [by left|right].
    exists r, (set_phase s t (Replied key r)). split; [by eapply t_share|]. apply lookup_insert_eq.
  - intros Hfg t u key Ht Hu. pose proof (Hp t _ Ht Hfg). pose proof (Hp u _ Hu Hfg). congruence.
Qed.
End flights.

(** ** Witnesses and examples *)

(** A go-cache: a map of items and when they expire. *)
Definition toy_cache : Type := gmap string (ResponseCache * Z).
#[export] Instance toy_GoCache : GoCache toy_cache := {
  gc_Get t c k := match (c : gmap string (ResponseCache * Z)) !! k with
                  | Some (v, e) => if t <? e then Some v else None
                  | None => None
                  end;
  gc_Set t c k v d := <[k := (v, t + d)]> (c : gmap string (ResponseCache * Z));
  gc_Delete c k := (bool_decide (is_Some ((c : gmap string (ResponseCache * Z)) !! k)),
                    delete k (c : gmap string (ResponseCache * Z)));
  gc_Alter t c k v := match (c : gmap string (ResponseCache * Z)) !! k with
                      | Some (_, e) => if t <? e then <[k := (v, e)]> c else c
                      | None => c
                      end
}.
#[export] Instance toy_GoCacheLaws : GoCacheLaws toy_cache.
Proof.
  constructor.
  - intros t t' c k v d Ht. cbn. rewrite lookup_insert_eq. by rewrite (proj2 (Z.ltb_lt _ _)) by lia.
  - intros t t' c k k' v d Hk. cbn. by rewrite lookup_insert_ne.
  - intros t c k v. cbn. destruct (_ !! k) as [[w e]|] eqn:E; [|done]. destruct (t <? e); [|done].
    intros [= ->]. by apply insert_id.
Qed.

Definition get (uri path : string) : Gin :=
  {| RequestURI := uri; URLPath := path; Keys := ∅; w_status := 200; w_header := ∅; w_body := "";
     IsAborted := false |}.
Definition two_cookies : Effect :=
  {| e_status := 200; e_header := {["Set-Cookie" := ["a=1"; "b=2"]; "X" := ["y"]]};
     e_written := "hello"; e_aborted := false |}.
Definition path_config : Config := config_by_path [WithPrefixKey "v1"].

Lemma cached_replay_witness :
  exists stores' stores2 reply,
    cache_request (S := toy_cache) path_config 10 (fun _ => two_cookies) 0 1 (fun _ => ∅) (get "/a?x=1" "/a")
    = Ok (stores', respond (get "/a?x=1" "/a") two_cookies) /\
    cache_request (S := toy_cache) path_config 10 (fun _ => two_cookies) 5 5 stores' (get "/a?x=2" "/a")
    = Ok (stores2, reply) /\
    w_body reply = "hello" /\
    (w_header reply : gmap string (list string)) !! "Set-Cookie" = Some ["b=2"].
Proof.
  assert (Hmiss : is_ok (Get (S := toy_cache) 0 ∅
    (cache_key path_config (get "/a?x=1" "/a") (by_key "/a"))) = false) by (vm_compute; reflexivity).
  destruct (cached_replay (S := toy_cache) path_config 10 (fun _ => two_cookies)
    (fun g => (by_key (URLPath g), true)) eq_refl (fun _ _ => eq_refl) 0 1 (fun _ => ∅)
    (get "/a?x=1" "/a") (get "/a?x=2" "/a") (by_key "/a") (by_key "/a")
    eq_refl eq_refl eq_refl eq_refl Hmiss) as (stores' & H1 & _ & H2).
  assert (Hc : canonical_keys (e_header two_cookies)).
  { unfold canonical_keys. apply (bool_decide_unpack _). vm_compute. exact I. }
  assert (Ht : 1 <= 5 < 1 + pick_duration 10 (by_key "/a")) by (vm_compute; split; congruence).
  destruct (H2 eq_refl eq_refl eq_refl Hc eq_refl 5 5 Ht) as (stores2 & reply & Hr & _ & _ & Hb & _ & Hh).
  exists stores', stores2, reply. split; [exact H1|]. split; [exact Hr|]. split; [exact Hb|].
  rewrite (Hh "Set-Cookie"). vm_compute. reflexivity.
Defined.

(** A callback that edits the response it is given edits the item of an in-memory store: the
    second hit sends its mark twice. *)
Definition stamp (c : Gin) (r : ResponseCache) : Gin * ResponseCache :=
  (c, {| Status := Status r; Header_ := Header_ r; Data := Data r +:+ "!" |}).
Example edits_are_kept :
  let cfg := config_by_path [WithBeforeReplyWithCache (Some stamp)] in
  let hit stores := cache_request (S := toy_cache) cfg 10 (fun _ => two_cookies) 5 5 stores (get "/a" "/a") in
  match cache_request (S := toy_cache) cfg 10 (fun _ => two_cookies) 0 1 (fun _ => ∅) (get "/a" "/a") with
  | Ok (s, _) => match hit s with
                 | Ok (s, c) => w_body c = "hello!" /\ exists s2 c2, hit s = Ok (s2, c2) /\ w_body c2 = "hello!!"
                 | _ => False
                 end
  | _ => False
  end.
Proof. vm_compute. split; [reflexivity|]. do 2 eexists. split; reflexivity. Qed.

Lemma uri_key_order_witness :
  getRequestUriIgnoreQueryOrder (fun _ => Err "") "/a?b=2&a=2&a=1"
  = getRequestUriIgnoreQueryOrder (fun _ => Err "") "/a?a=1&b=2&a=2".
Proof.
  apply (uri_key_order (fun _ => Err "") "/a" [("b", "2"); ("a", "2"); ("a", "1")]
           [("a", "1"); ("b", "2"); ("a", "2")]); try done.
  - repeat constructor.
  - repeat constructor.
  - apply Permutation_sym. apply (Permutation_cons_app [("b", "2"); ("a", "2")] []).
    cbn. apply Permutation_refl.
Defined.

(** An escaped ampersand is part of a value, but not of the key made from it. *)
Example escaped_query_collides :
  getRequestUriIgnoreQueryOrder (fun _ => Err "") "/a?x=1%26y=2"
  = getRequestUriIgnoreQueryOrder (fun _ => Err "") "/a?x=1&y=2".
Proof. vm_compute. reflexivity. Qed.

(** Values of the context are put before the key without a separator. *)
Example context_keys_collide :
  let tenant v uri := {| RequestURI := uri; URLPath := uri; Keys := {["tenant" := v]}; w_status := 200;
                         w_header := ∅; w_body := ""; IsAborted := false |} in
  let cfg := newConfigByOpts [KeyWithGinContext ["tenant"]] in
  cache_key cfg (tenant "a" "/b/c") (by_key "/b/c") = cache_key cfg (tenant "a/b" "/c") (by_key "/c").
Proof. vm_compute. reflexivity. Qed.

(** Two requests for one key: the second waits for the first, and gets its response. *)
Definition hello : Effect := {| e_status := 200; e_header := ∅; e_written := "hello"; e_aborted := false |}.
Definition hello_cache : ResponseCache := {| Status := 200; Header_ := ∅; Data := "hello" |}.
Definition shared_end : Traffic :=
  {| stored := {["k" := hello_cache]}; in_flight := ∅;
     requests := {[0%nat := Served "k" hello_cache; 1%nat := Replied "k" hello_cache]};
     produced := [("k", hello_cache)] |}.

Lemma flights_shared_witness :
  rtc (traffic_step false default_config) quiet shared_end /\
  ("k", hello_cache) ∈ produced shared_end.
Proof.
  assert (Hr : rtc (traffic_step false default_config) quiet shared_end).
  { eapply rtc_l; [apply (t_ask _ _ _ 0 "k"); reflexivity|].
    eapply rtc_l; [apply (t_ask _ _ _ 1 "k"); reflexivity|].
    eapply rtc_l; [apply (t_read _ _ _ 0 "k"); reflexivity|].
    eapply rtc_l; [apply (t_read _ _ _ 1 "k"); reflexivity|].
    eapply rtc_l; [apply (t_join _ _ _ 0 "k"); vm_compute; reflexivity|].
    eapply rtc_l; [apply (t_join _ _ _ 1 "k"); vm_compute; reflexivity|].
    eapply rtc_l; [apply (t_land _ _ _ 0 "k" hello); vm_compute; reflexivity|].
    eapply rtc_l; [eapply (t_share _ _ _ 1 "k" 0 hello_cache); vm_compute; reflexivity|].
    vm_compute. apply rtc_refl. }
  split; [exact Hr|].
  apply (proj1 (flights_shared false default_config shared_end Hr) 1%nat "k" hello_cache).
  right. vm_compute. reflexivity.
Defined.
