(* ===== verification/GoTime.v ===== *)
(** * time: layouts, [Parse] and [Format]

    What dmcontext uses of package [time]: a layout is read as a list of chunks by
    [nextStdChunk], [Format] prints a time chunk by chunk and [ParseInLocation] reads one
    and checks its ranges.  A time is what its location's clock shows.  The chunks are
    those that start with a digit; a layout of this repository has no other. *)

From Stdlib Require Import ZArith Lia Ascii String.
From stdpp Require Import base option list strings.
From S2P Require Import Prelude GoStrconv.

Local Open Scope string_scope.
Local Open Scope Z_scope.
Local Open Scope list_scope.

(** ** Times *)

Record civil := {
  year : Z; month : Z; day : Z; hour : Z; minute : Z; second : Z; nanosecond : Z }.

#[export] Instance civil_eq_dec : EqDecision civil.
Proof. solve_decision. Defined.

Definition is_leap (y : Z) : bool := (y mod 4 =? 0) && (negb (y mod 100 =? 0) || (y mod 400 =? 0)).

Definition daysIn (m y : Z) : Z :=
  if m =? 2 then (if is_leap y then 29 else 28)
  else if (m =? 4) || (m =? 6) || (m =? 9) || (m =? 11) then 30 else 31.

Definition valid_date (y m d : Z) : Prop := 0 <= y <= 9999 /\ 1 <= m <= 12 /\ 1 <= d <= daysIn m y.
Definition valid_clock (h mi s : Z) : Prop := 0 <= h < 24 /\ 0 <= mi < 60 /\ 0 <= s < 60.

Definition date_only (y m d : Z) : civil :=
  {| year := y; month := m; day := d; hour := 0; minute := 0; second := 0; nanosecond := 0 |}.
(** A time of day read without a date is one of January 1, year 0. *)
Definition clock_only (h mi s ns : Z) : civil :=
  {| year := 0; month := 1; day := 1; hour := h; minute := mi; second := s; nanosecond := ns |}.

(** ** Layouts *)

Inductive chunk :=
  | Lit (c : ascii)
  | StdLongYear | StdYear | StdZeroMonth | StdNumMonth | StdZeroDay | StdDay
  | StdHour | StdZeroHour12 | StdHour12 | StdZeroMinute | StdMinute | StdZeroSecond | StdSecond.

(** The chunk a layout starts with and its length, the cases of [nextStdChunk] in its order. *)
Definition std_chunk (l : string) : option (chunk * nat) :=
  if String.prefix "01" l then Some (StdZeroMonth, 2%nat)
  else if String.prefix "02" l then Some (StdZeroDay, 2%nat)
  else if String.prefix "03" l then Some (StdZeroHour12, 2%nat)
  else if String.prefix "04" l then Some (StdZeroMinute, 2%nat)
  else if String.prefix "05" l then Some (StdZeroSecond, 2%nat)
  else if String.prefix "06" l then Some (StdYear, 2%nat)
  else if String.prefix "15" l then Some (StdHour, 2%nat)
  else if String.prefix "1" l then Some (StdNumMonth, 1%nat)
  else if String.prefix "2006" l then Some (StdLongYear, 4%nat)
  else if String.prefix "2" l then Some (StdDay, 1%nat)
  else if String.prefix "3" l then Some (StdHour12, 1%nat)
  else if String.prefix "4" l then Some (StdMinute, 1%nat)
  else if String.prefix "5" l then Some (StdSecond, 1%nat)
  else None.

(** [skip] bytes of the layout belong to the last chunk. *)
Fixpoint chunks_from (skip : nat) (l : string) : list chunk :=
  match l with
  | EmptyString => []
  | String c r =>
      match skip with
      | S k => chunks_from k r
      | O => match std_chunk l with
             | Some (ch, n) => ch :: chunks_from (Nat.pred n) r
             | None => Lit c :: chunks_from 0 r
             end
      end
  end.
Definition chunks (layout : string) : list chunk := chunks_from 0 layout.

(** ** Printing *)

Fixpoint zeros (n : nat) : string := match n with O => "" | S n => String "0" (zeros n) end.

(** [appendInt(x, width)] *)
Definition appendInt (x : Z) (width : nat) : string :=
  let u := FormatUint (Z.abs x) in
  (if x <? 0 then "-" else "") +:+ zeros (width - String.length u)%nat +:+ u.

(** The hour of a twelve hour clock. *)
Definition hour12 (h : Z) : Z := let hr := h mod 12 in if hr =? 0 then 12 else hr.

Definition format_chunk (t : civil) (ch : chunk) : string :=
  match ch with
  | Lit c => String c ""
  | StdLongYear => appendInt (year t) 4
  | StdYear => appendInt (Z.max 0 (year t) mod 100) 2
  | StdZeroMonth => appendInt (month t) 2
  | StdNumMonth => appendInt (month t) 0
  | StdZeroDay => appendInt (day t) 2
  | StdDay => appendInt (day t) 0
  | StdHour => appendInt (hour t) 2
  | StdZeroHour12 => appendInt (hour12 (hour t)) 2
  | StdHour12 => appendInt (hour12 (hour t)) 0
  | StdZeroMinute => appendInt (minute t) 2
  | StdMinute => appendInt (minute t) 0
  | StdZeroSecond => appendInt (second t) 2
  | StdSecond => appendInt (second t) 0
  end.

Fixpoint format_chunks (t : civil) (l : list chunk) : string :=
  match l with
  | [] => ""
  | ch :: l => format_chunk t ch +:+ format_chunks t l
  end.

(** [t.Format(layout)] *)
Definition Format (layout : string) (t : civil) : string := format_chunks t (chunks layout).

(** ** Parsing *)

Definition is_digit (c : ascii) : bool := (48 <=? b2z c) && (b2z c <=? 57).
Definition digit_value (c : ascii) : Z := b2z c - 48.

(** [getnum(s, fixed)]: one or two digits, two when [fixed]. *)
Definition getnum (s : string) (fixed : bool) : option (Z * string) :=
  match s with
  | String a r =>
      if negb (is_digit a) then None
      else match r with
           | String b r' =>
               if is_digit b then Some (10 * digit_value a + digit_value b, r')
               else if fixed then None else Some (digit_value a, r)
           | EmptyString => if fixed then None else Some (digit_value a, r)
           end
  | EmptyString => None
  end.

(** The digits a string starts with, and what follows them. *)
Fixpoint span_digits (s : string) : string * string :=
  match s with
  | String c r =>
      if is_digit c then let '(d, r') := span_digits r in (String c d, r') else (EmptyString, s)
  | EmptyString => (EmptyString, EmptyString)
  end.

(** [parseNanoseconds]: at most nine digits count. *)
Definition nanoseconds (digits : string) : Z :=
  let d := String.substring 0 9 digits in
  default 0 (parse_unsigned d) * 10 ^ (9 - Z.of_nat (String.length d)).

(** A fraction after the seconds, which the layout need not ask for. *)
Definition fraction (s : string) : Z * string :=
  match s with
  | String c r =>
      if Ascii.eqb c "." || Ascii.eqb c "," then
        match span_digits r with
        | (EmptyString, _) => (0, s)
        | (d, r') => (nanoseconds d, r')
        end
      else (0, s)
  | EmptyString => (0, s)
  end.

(** [atoi(value[0:n])] after the tests of the year's chunks. *)
Definition year_digits (n : nat) (s : string) : option (Z * string) :=
  let p := String.substring 0 n s in
  let r := String.substring n (String.length s) s in
  if negb (Nat.eqb (String.length p) n) then None
  else match ParseInt p 64 with Ok y => Some (y, r) | _ => None end.

Definition set_year y (f : civil) := {| year := y; month := month f; day := day f;
  hour := hour f; minute := minute f; second := second f; nanosecond := nanosecond f |}.
Definition set_month m (f : civil) := {| year := year f; month := m; day := day f;
  hour := hour f; minute := minute f; second := second f; nanosecond := nanosecond f |}.
Definition set_day d (f : civil) := {| year := year f; month := month f; day := d;
  hour := hour f; minute := minute f; second := second f; nanosecond := nanosecond f |}.
Definition set_hour h (f : civil) := {| year := year f; month := month f; day := day f;
  hour := h; minute := minute f; second := second f; nanosecond := nanosecond f |}.
Definition set_minute m (f : civil) := {| year := year f; month := month f; day := day f;
  hour := hour f; minute := m; second := second f; nanosecond := nanosecond f |}.
Definition set_second s ns (f : civil) := {| year := year f; month := month f; day := day f;
  hour := hour f; minute := minute f; second := s; nanosecond := ns |}.

Definition in_range (lo hi : Z) (r : option (Z * string)) : option (Z * string) :=
  match r with
  | Some (n, s) => if (lo <=? n) && (n <=? hi) then Some (n, s) else None
  | None => None
  end.

Definition parse_chunk (ch : chunk) (f : civil) (s : string) : option (civil * string) :=
  let field (set : Z -> civil -> civil) (r : option (Z * string)) :=
    match r with Some (n, s) => Some (set n f, s) | None => None end in
  match ch with
  | Lit c => match s with
             | String c' s => if Ascii.eqb c' c then Some (f, s) else None
             | EmptyString => None
             end
  | StdLongYear =>
      match s with
      | String c _ => if is_digit c then field set_year (year_digits 4 s) else None
      | EmptyString => None
      end
  | StdYear => field (fun y => set_year (if 69 <=? y then y + 1900 else y + 2000)) (year_digits 2 s)
  | StdZeroMonth => field set_month (in_range 1 12 (getnum s true))
  | StdNumMonth => field set_month (in_range 1 12 (getnum s false))
  | StdZeroDay => field set_day (getnum s true)
  | StdDay => field set_day (getnum s false)
  | StdHour => field set_hour (in_range 0 23 (getnum s false))
  | StdZeroHour12 => field set_hour (in_range 0 12 (getnum s true))
  | StdHour12 => field set_hour (in_range 0 12 (getnum s false))
  | StdZeroMinute => field set_minute (in_range 0 59 (getnum s true))
  | StdMinute => field set_minute (in_range 0 59 (getnum s false))
  | StdZeroSecond | StdSecond =>
      match in_range 0 59 (getnum s (match ch with StdZeroSecond => true | _ => false end)) with
      | Some (n, s) => let '(ns, s) := fraction s in Some (set_second n ns f, s)
      | None => None
      end
  end.

Fixpoint parse_chunks (l : list chunk) (f : civil) (s : string) : option civil :=
  match l with
  | [] => if String.eqb s "" then Some f else None
  | ch :: l => match parse_chunk ch f s with
               | Some (f, s) => parse_chunks l f s
               | None => None
               end
  end.

(** No month and no day have been read. *)
Definition unread : civil :=
  {| year := 0; month := -1; day := -1; hour := 0; minute := 0; second := 0; nanosecond := 0 |}.

(** [time.Parse]: the time, or an error the callers only test for. *)
Definition Parse (layout value : string) : option civil :=
  match parse_chunks (chunks layout) unread value with
  | Some f =>
      let m := if month f <? 0 then 1 else month f in
      let d := if day f <? 0 then 1 else day f in
      if (d <? 1) || (daysIn m (year f) <? d) then None else Some (set_day d (set_month m f))
  | None => None
  end.

(** ** Numbers of a fixed width *)

Definition two_digits (n : Z) : string := String (digit (n / 10)) (String (digit (n mod 10)) "").

(** Every number below the bound, by evaluation. *)
Lemma below_all (P : Z -> bool) (b : Z) :
  forallb P (seqZ 0 b) = true -> forall n, 0 <= n < b -> P n = true.
Proof.
  rewrite forallb_forall. intros H n Hn. apply H.
  apply list_elem_of_In, elem_of_seqZ. lia.
Qed.

Lemma appendInt_2 n : 0 <= n < 100 -> appendInt n 2 = two_digits n.
Proof.
  intros Hn. apply String.eqb_eq.
  refine (below_all (fun n => String.eqb (appendInt n 2) (two_digits n)) 100 _ n Hn).
  vm_compute. reflexivity.
Qed.

Lemma appendInt_4 n : 0 <= n < 10000 ->
  appendInt n 4 = two_digits (n / 100) +:+ two_digits (n mod 100).
Proof.
  intros Hn. apply String.eqb_eq.
  refine (below_all (fun n => String.eqb (appendInt n 4)
    (two_digits (n / 100) +:+ two_digits (n mod 100))) 10000 _ n Hn).
  vm_compute. reflexivity.
Qed.

Lemma digit_is d : 0 <= d < 10 -> is_digit (digit d) = true /\ digit_value (digit d) = d.
Proof.
  intros Hd. unfold is_digit, digit_value.
  pose proof (GoStrconv.digit_value d Hd). split; [|done].
  apply andb_true_intro. split; apply Z.leb_le; lia.
Qed.

Lemma digits_bounds n : 0 <= n < 100 -> 0 <= n / 10 < 10 /\ 0 <= n mod 10 < 10.
Proof.
  intros Hn. pose proof (Z.mod_pos_bound n 10 ltac:(lia)).
  split; [split; [apply Z.div_pos | apply Z.div_lt_upper_bound]; lia | done].
Qed.

Lemma getnum_two n fixed s : 0 <= n < 100 -> getnum (two_digits n +:+ s) fixed = Some (n, s).
Proof.
  intros Hn. pose proof (Z.div_mod n 10). destruct (digits_bounds n Hn) as [Hq Hr].
  destruct (digit_is (n / 10)) as [H1 H1']; [lia|].
  destruct (digit_is (n mod 10)) as [H2 H2']; [lia|].
  change (two_digits n +:+ s) with (String (digit (n / 10)) (String (digit (n mod 10)) s)).
  unfold getnum. rewrite H1, H2, H1', H2'. cbn [negb]. do 2 f_equal. lia.
Qed.

Lemma in_range_two lo hi n fixed s : 0 <= n < 100 -> lo <= n <= hi ->
  in_range lo hi (getnum (two_digits n +:+ s) fixed) = Some (n, s).
Proof.
  intros Hn Hr. rewrite getnum_two by done. unfold in_range.
  by replace ((lo <=? n) && (n <=? hi)) with true by (symmetry; apply andb_true_intro; lia).
Qed.

Lemma substring_all s : forall n, (String.length s <= n)%nat -> String.substring 0 n s = s.
Proof.
  induction s as [|c s IH]; intros [|n] Hn; cbn in *; try done; [lia|].
  f_equal. apply IH. lia.
Qed.

Lemma year_digits_cons a b c d s :
  year_digits 4 (String a (String b (String c (String d s)))) =
  match ParseInt (String a (String b (String c (String d "")))) 64 with
  | Ok y => Some (y, s) | _ => None
  end.
Proof.
  unfold year_digits. cbn [String.length String.substring].
  replace (String.substring 0 0 s) with "" by (by destruct s).
  by rewrite substring_all by lia.
Qed.

(** A digit is neither sign. *)
Lemma digit_not_sign d c : 0 <= d < 10 -> b2z c < 48 -> Ascii.eqb (digit d) c = false.
Proof.
  intros Hd Hc. apply Ascii.eqb_neq. intros <-.
  pose proof (GoStrconv.digit_value d Hd). lia.
Qed.

Lemma year_digits_4 y s : 0 <= y <= 9999 ->
  year_digits 4 (appendInt y 4 +:+ s) = Some (y, s).
Proof.
  intros Hy. rewrite appendInt_4 by lia.
  assert (Hdm : forall a b, 0 < b -> a = b * (a / b) + a mod b /\ 0 <= a mod b < b)
    by (intros a b Hb; split; [apply Z.div_mod; lia | apply Z.mod_pos_bound; lia]).
  destruct (Hdm y 100), (Hdm (y / 100) 10), (Hdm (y mod 100) 10); [lia..|].
  change ((two_digits (y / 100) +:+ two_digits (y mod 100)) +:+ s) with
    (String (digit (y / 100 / 10)) (String (digit (y / 100 mod 10))
      (String (digit (y mod 100 / 10)) (String (digit (y mod 100 mod 10)) s)))).
  rewrite year_digits_cons. unfold ParseInt.
  rewrite !digit_not_sign by first [lia | vm_compute; reflexivity].
  cbn [parse_unsigned]. rewrite !parse_digit by lia. cbn [parse_digits].
  rewrite bool_decide_true; [do 2 f_equal; lia|].
  unfold in_s. lia.
Qed.

(** ** Dates and times of day

    A date is the year, the month and the day with one separator, a time of day the
    hour, the minute and the second. *)

Definition date_chunks (sep : ascii) : list chunk := [StdLongYear; Lit sep; StdZeroMonth; Lit sep; StdZeroDay].
Definition clock_chunks (sep : ascii) : list chunk :=
  [StdHour; Lit sep; StdZeroMinute; Lit sep; StdZeroSecond].

Definition date_text (sep : ascii) (y m d : Z) : string :=
  appendInt y 4 +:+ String sep (two_digits m +:+ String sep (two_digits d)).
Definition clock_text (sep : ascii) (h mi s : Z) : string :=
  two_digits h +:+ String sep (two_digits mi +:+ String sep (two_digits s)).

Lemma daysIn_bound m y : daysIn m y <= 31.
Proof. unfold daysIn. repeat case_match; lia. Qed.

Lemma format_date sep t : valid_date (year t) (month t) (day t) ->
  format_chunks t (date_chunks sep) = date_text sep (year t) (month t) (day t).
Proof.
  intros (Hy & Hm & Hd). pose proof (daysIn_bound (month t) (year t)).
  unfold date_text. cbn [format_chunks date_chunks format_chunk].
  rewrite (appendInt_2 (month t)), (appendInt_2 (day t)) by lia. reflexivity.
Qed.

Lemma format_clock sep t : valid_clock (hour t) (minute t) (second t) ->
  format_chunks t (clock_chunks sep) = clock_text sep (hour t) (minute t) (second t).
Proof.
  intros (Hh & Hm & Hs). unfold clock_text. cbn [format_chunks clock_chunks format_chunk].
  rewrite !appendInt_2 by lia. reflexivity.
Qed.

Lemma year_starts y s : 0 <= y <= 9999 ->
  exists c r, appendInt y 4 +:+ s = String c r /\ is_digit c = true.
Proof.
  intros Hy. rewrite appendInt_4 by lia. eexists _, _. split; [reflexivity|].
  apply digit_is. split; [repeat apply Z.div_pos; lia|].
  repeat (apply Z.div_lt_upper_bound; [lia|]). lia.
Qed.

Lemma parse_year y f s : 0 <= y <= 9999 ->
  parse_chunk StdLongYear f (appendInt y 4 +:+ s) = Some (set_year y f, s).
Proof.
  intros Hy. destruct (year_starts y s Hy) as (c & r & E & Hc).
  unfold parse_chunk. rewrite E, Hc, <- E, year_digits_4 by done. done.
Qed.

Lemma parse_lit c f s : parse_chunk (Lit c) f (String c s) = Some (f, s).
Proof. cbn [parse_chunk]. by rewrite Ascii.eqb_refl. Qed.

(** Reading a date of any separator with the chunks of one. *)
Lemma parse_date sep c f y m d : valid_date y m d ->
  parse_chunks (date_chunks sep) f (date_text c y m d) =
  if Ascii.eqb c sep then Some (set_day d (set_month m (set_year y f))) else None.
Proof.
  intros (Hy & Hm & Hd). pose proof (daysIn_bound m y).
  unfold date_text, date_chunks. cbn [parse_chunks]. rewrite parse_year by done.
  cbn [parse_chunk]. destruct (Ascii.eqb_spec c sep) as [->|]; [|done].
  rewrite in_range_two by lia. cbn [parse_chunk]. rewrite Ascii.eqb_refl.
  rewrite <- (append_nil_r (two_digits d)), getnum_two by lia. done.
Qed.

Lemma parse_clock sep c f h mi s : valid_clock h mi s ->
  parse_chunks (clock_chunks sep) f (clock_text c h mi s) =
  if Ascii.eqb c sep then Some (set_second s 0 (set_minute mi (set_hour h f))) else None.
Proof.
  intros (Hh & Hm & Hs). unfold clock_text, clock_chunks. cbn [parse_chunks parse_chunk].
  rewrite in_range_two by lia. destruct (Ascii.eqb_spec c sep) as [->|]; [|done].
  rewrite in_range_two by lia. rewrite Ascii.eqb_refl.
  rewrite <- (append_nil_r (two_digits s)), in_range_two by lia. done.
Qed.

(** A time of day is not read as a date. *)
Lemma parse_date_clock sep c f h mi s : valid_clock h mi s -> is_digit c = false ->
  parse_chunks (date_chunks sep) f (clock_text c h mi s) = None.
Proof.
  intros (Hh & Hm & Hs) Hc. unfold clock_text, date_chunks. cbn [parse_chunks].
  change (two_digits h +:+ String c (two_digits mi +:+ String c (two_digits s))) with
    (String (digit (h / 10)) (String (digit (h mod 10)) (String c
      (String (digit (mi / 10)) (String (digit (mi mod 10)) (String c (two_digits s))))))).
  destruct (digits_bounds h), (digits_bounds mi); [lia..|].
  unfold parse_chunk. destruct (digit_is (h / 10)) as [-> _]; [lia|].
  rewrite year_digits_cons. unfold ParseInt.
  rewrite !digit_not_sign by first [lia | vm_compute; reflexivity].
  cbn [parse_unsigned]. rewrite !parse_digit by lia. cbn [parse_digits].
  unfold is_digit in Hc.
  replace ((0 <=? b2z c - 48) && (b2z c - 48 <=? 9)) with false; [done|].
  rewrite <- Hc. f_equal; apply eq_bool_prop_intro; split; intros ?%Is_true_true%Z.leb_le;
    apply Is_true_true, Z.leb_le; lia.
Qed.

(** What [Parse] makes of the chunks of a date and of a time of day. *)
Lemma Parse_date layout sep c y m d : chunks layout = date_chunks sep -> valid_date y m d ->
  Parse layout (date_text c y m d) = if Ascii.eqb c sep then Some (date_only y m d) else None.
Proof.
  intros Hl Hv. unfold Parse. rewrite Hl, parse_date by done.
  destruct (Ascii.eqb c sep); [|done]. destruct Hv as (Hy & Hm & Hd).
  cbn [month day year set_day set_month set_year].
  rewrite (proj2 (Z.ltb_ge m 0)), (proj2 (Z.ltb_ge d 0)), (proj2 (Z.ltb_ge d 1)) by lia.
  by rewrite (proj2 (Z.ltb_ge (daysIn m y) d)) by lia.
Qed.

Lemma Parse_clock layout sep c h mi s : chunks layout = clock_chunks sep -> valid_clock h mi s ->
  Parse layout (clock_text c h mi s) =
  if Ascii.eqb c sep then Some (clock_only h mi s 0) else None.
Proof.
  intros Hl Hv. unfold Parse. rewrite Hl, parse_clock by done. by destruct (Ascii.eqb c sep).
Qed.

Lemma Parse_date_clock layout sep c h mi s : chunks layout = date_chunks sep ->
  valid_clock h mi s -> is_digit c = false -> Parse layout (clock_text c h mi s) = None.
Proof. intros Hl Hv Hc. unfold Parse. by rewrite Hl, parse_date_clock. Qed.
