(* ===== verification/DmFormat.v ===== *)
(** * dmcontext/format.go: the value of a property in the form of its type

    [ParseValue] takes the name of a type, a value and the arguments of the type (the
    layout of a date, the bounds of an array, the values of an enumeration, the fields of
    an object). The numbers, booleans and strings are what package cast makes of the value,
    parameters here. Dates and times of day are read and printed with GoTime. *)

From Stdlib Require Import ZArith Lia Ascii String SpecFloat.
From stdpp Require Import base option list strings gmap.
From S2P Require Import Prelude GoValue GoEqual GoStrings GoTime DmTypes DmDevice.
From S2P Require DmExpr.

Local Open Scope string_scope.
Local Open Scope Z_scope.
Local Open Scope list_scope.

(** ** Values and arguments *)

#[local] Set Warnings "-register-all".

(** The values [ParseValue] meets. Arrays and slices come with their elements as
    interface values; [DIfaces] is a []interface{}, a map is a map[string]interface{};
    a value of another type has the name of its type and a payload for cast. *)
Inductive Dyn :=
  | DNil
  | DBool (b : bool)
  | DInt (k : Kind) (z : Z)
  | DFloat32 (f : spec_float)
  | DFloat64 (f : spec_float)
  | DString (s : string)
  | DTime (t : civil)
  | DArray (l : list Dyn)
  | DIfaces (l : list Dyn)
  | DSlice (l : list Dyn)
  | DMap (m : gmap string Dyn)
  | DOther (name : string) (payload : string).

(** The [args] of [ParseValue]. *)
Inductive Args :=
  | ANil
  | AFormat (s : string)
  | AArray (a : ArrayType)
  | AEnum (e : EnumType)
  | AObject (o : gmap string ObjectType)
  | AOther.

Definition int_name (k : Kind) : string :=
  match k with
  | KInt => "int" | KInt8 => "int8" | KInt16 => "int16" | KInt32 => "int32" | KInt64 => "int64"
  | KUint => "uint" | KUint8 => "uint8" | KUint16 => "uint16" | KUint32 => "uint32"
  | KUint64 => "uint64" | _ => ""
  end.

Definition nil_type_panic : string := "invalid memory address or nil pointer dereference".

(** [reflect.TypeOf(value).Name()]; a type that is not named has the empty name. *)
Definition type_name (v : Dyn) : outcome string :=
  match v with
  | DNil => Panic nil_type_panic
  | DBool _ => Ok "bool"
  | DInt k _ => Ok (int_name k)
  | DFloat32 _ => Ok "float32"
  | DFloat64 _ => Ok "float64"
  | DString _ => Ok "string"
  | DTime _ => Ok "Time"
  | DArray _ | DIfaces _ | DSlice _ | DMap _ => Ok ""
  | DOther name _ => Ok name
  end.

(** [reflect.TypeOf(value).Kind() != reflect.Array] *)
Definition not_array (v : Dyn) : outcome bool :=
  match v with
  | DNil => Panic nil_type_panic
  | DArray _ => Ok false
  | _ => Ok true
  end.

Definition reflect_panic : string := "reflect: call on a Value of another kind".

(** [reflect.ValueOf(value)]: [Len()] and the elements that [Index(i).Interface()] gives. *)
Definition reflect_len (v : Dyn) : outcome nat :=
  match v with
  | DArray l | DIfaces l | DSlice l => Ok (length l)
  | DString s => Ok (String.length s)
  | DMap m => Ok (size m)
  | _ => Panic reflect_panic
  end.
Fixpoint string_bytes (s : string) : list Dyn :=
  match s with String c s => DInt KUint8 (b2z c) :: string_bytes s | EmptyString => [] end.
Definition reflect_elements (v : Dyn) : outcome (list Dyn) :=
  match v with
  | DArray l | DIfaces l | DSlice l => Ok l
  | DString s => Ok (string_bytes s)
  | DMap m => if Nat.eqb (size m) 0 then Ok [] else Panic reflect_panic
  | _ => Panic reflect_panic
  end.

Definition float_eq (f g : spec_float) : bool :=
  match SFcompare f g with Some Eq => true | _ => false end.

Definition uncomparable_panic : string := "comparing uncomparable type".

(** [a == b] on interfaces, [a] a value [ParseValue] returned. *)
Definition iface_eq (a b : Dyn) : outcome bool :=
  match a, b with
  | DNil, DNil => Ok true
  | DBool x, DBool y => Ok (Bool.eqb x y)
  | DInt k x, DInt k' y => Ok (bool_decide (k = k') && (x =? y))
  | DFloat32 x, DFloat32 y | DFloat64 x, DFloat64 y => Ok (float_eq x y)
  | DString x, DString y => Ok (String.eqb x y)
  | DIfaces _, DIfaces _ | DMap _, DMap _ => Panic uncomparable_panic
  | _, _ => Ok false
  end.

(** ** The types and layouts *)


Definition TypeInt : string := "int".

Definition timeFormats : gmap string string :=
  list_to_map [("yyyy-mm-dd", "2006-01-02"); ("yyyy.mm.dd", "2006.01.02");
    ("yyyy/mm/dd", "2006/01/02"); ("mm-dd-yyyy", "06-01-2020");
    ("hh:mm:ss", "15:04:05"); ("HH:MM:SS", "15:04:05")].

Definition parseLayout : list string :=
  ["2006-01-02"; "2006.01.02"; "2006/01/02"; "15:04:05"; "15-04-05"; "15.04.05"].

Definition ErrArrayLength : error := "the length of the array does not conform to the range".
Definition ErrNoEnumValue : error := "no matching enum value".

Section format.
(** What package cast makes of a value, for each type; [strings.ToLower] beyond ASCII;
    the clock that [time.ParseInLocation(..., time.Local)] shows for what it read; the
    order of a range over a map. *)
Context (ToInt ToInt16 ToInt32 ToInt64 : Dyn -> outcome Z) (ToFloat32 ToFloat64 : Dyn -> outcome spec_float)
  (ToBool : Dyn -> outcome bool) (ToString : Dyn -> outcome string)
  (unicode_lower : string -> string) (local : civil -> civil)
  (order : gmap string ObjectType -> list (string * ObjectType)).

Abbreviation ErrUnsupportedValueType := DmExpr.ErrUnsupportedValueType.

(** The first layout that reads the string. *)
Fixpoint parse_layouts (layouts : list string) (val : string) : option civil :=
  match layouts with
  | [] => None
  | layout :: layouts =>
      match Parse layout val with
      | Some t => Some (local t)
      | None => parse_layouts layouts val
      end
  end.

Definition parseTime (value : Dyn) (args : Args) : outcome string :=
  let format := match args with AFormat s => s | _ => "" end in
  let argsOk := match args with AFormat _ => true | _ => false end in
  match (timeFormats : gmap string string) !! ToLower unicode_lower format with
  | Some timeFormat =>
      if negb argsOk then Err ErrUnsupportedValueType
      else
        name ← type_name value;
        if String.eqb name TypeString then
          val ← match value with DString s => Ok s | _ => Panic conversion_panic end;
          match parse_layouts parseLayout val with
          | Some t => Ok (Format timeFormat t)
          | None => Err ErrUnsupportedValueType
          end
        else if String.eqb name "Time" then
          match value with DTime t => Ok (Format timeFormat t) | _ => Panic conversion_panic end
        else Err ErrUnsupportedValueType
  | None => Err ErrUnsupportedValueType
  end.

Section rec.
(** [ParseValue] itself, where the code calls it for an element. *)
Context (ParseValue : string -> Dyn -> Args -> outcome Dyn).

Fixpoint parse_elements (typ : string) (format : string) (l : list Dyn) (newArray : list Dyn)
    : outcome (list Dyn) :=
  match l with
  | [] => Ok newArray
  | v :: l =>
      parseVal ← ParseValue typ v (AFormat format);
      parse_elements typ format l (newArray ++ [parseVal])
  end.

Definition parseArray (value : Dyn) (args : Args) : outcome (list Dyn) :=
  let '(arrayType, ok) := match args with
    | AArray a => (a, true)
    | _ => ({| at__Type := ""; at__Min := 0; at__Max := 0; at__Format := "" |}, false)
    end in
  rejected ← (if ok then not_array value else Ok false);
  if rejected : bool then Err ErrUnsupportedValueType
  else
    n ← reflect_len value;
    if (at__Max arrayType <? Z.of_nat n) || (Z.of_nat n <? at__Min arrayType)
    then Err ErrArrayLength
    else
      elements ← reflect_elements value;
      parse_elements (at__Type arrayType) (at__Format arrayType) elements [].

Fixpoint match_enum (typ : string) (value : Dyn) (l : list EnumValue) : outcome string :=
  match l with
  | [] => Err ErrNoEnumValue
  | v :: l =>
      enumValue ← ParseValue typ (DString (ev_Value v)) ANil;
      same ← iface_eq enumValue value;
      if same : bool then Ok (ev_Name v) else match_enum typ value l
  end.

Definition parseEnum (value : Dyn) (args : Args) : outcome string :=
  let '(enumType, ok) := match args with
    | AEnum e => (e, true)
    | _ => ({| et_Type := ""; et_Values := None |}, false)
    end in
  rejected ← (if ok then name ← type_name value; Ok (negb (String.eqb name (et_Type enumType)))
              else Ok false);
  if rejected : bool then Err ErrUnsupportedValueType
  else match_enum (et_Type enumType) value (default [] (et_Values enumType)).

Fixpoint parse_fields (originMap : gmap string Dyn) (l : list (string * ObjectType))
    (parseMap : gmap string Dyn) : outcome (gmap string Dyn) :=
  match l with
  | [] => Ok parseMap
  | (key, objectType) :: l =>
      match originMap !! key with
      | None => parse_fields originMap l parseMap
      | Some originVal =>
          parseValue ← ParseValue (ot_Type objectType) originVal (AFormat (ot_Format objectType));
          parse_fields originMap l (<[key := parseValue]> parseMap)
      end
  end.

Definition parseObject (value : Dyn) (args : Args) : outcome (gmap string Dyn) :=
  match args, value with
  | AObject objectTypes, DMap originMap => parse_fields originMap (order objectTypes) ∅
  | _, _ => Err ErrUnsupportedValueType
  end.

Definition parse_with (typ : string) (value : Dyn) (args : Args) : outcome Dyn :=
  if String.eqb typ TypeInt then DInt KInt <$> ToInt value
  else if String.eqb typ TypeInt16 then DInt KInt16 <$> ToInt16 value
  else if String.eqb typ TypeInt32 then DInt KInt32 <$> ToInt32 value
  else if String.eqb typ TypeInt64 then DInt KInt64 <$> ToInt64 value
  else if String.eqb typ TypeFloat32 then DFloat32 <$> ToFloat32 value
  else if String.eqb typ TypeFloat64 then DFloat64 <$> ToFloat64 value
  else if String.eqb typ TypeBool then DBool <$> ToBool value
  else if String.eqb typ TypeString then DString <$> ToString value
  else if String.eqb typ TypeDate || String.eqb typ TypeTime then DString <$> parseTime value args
  else if String.eqb typ TypeArray then DIfaces <$> parseArray value args
  else if String.eqb typ TypeEnum then DString <$> parseEnum value args
  else if String.eqb typ TypeObject then DMap <$> parseObject value args
  else Err ("unsupported type: " +:+ typ).
End rec.

(** The calls for elements pass a layout or nothing as arguments, and with these the code
    calls itself no more: two levels are all there is. *)
Definition ParseValue : string -> Dyn -> Args -> outcome Dyn :=
  parse_with (parse_with (fun _ _ _ => NoFuel)).

(** ** Two levels are enough *)

(** Arguments that describe no elements. *)
Definition flat (a : Args) : Prop :=
  match a with AArray _ | AEnum _ | AObject _ => False | _ => True end.

Definition agree (rec rec' : string -> Dyn -> Args -> outcome Dyn) : Prop :=
  forall typ v a, flat a -> rec typ v a = rec' typ v a.

Lemma parse_elements_agree rec rec' typ format l : agree rec rec' ->
  forall acc, parse_elements rec typ format l acc = parse_elements rec' typ format l acc.
Proof.
  intros Hr. induction l as [|v l IH]; intros acc; [done|].
  cbn [parse_elements]. rewrite Hr by done. by destruct (rec' typ v (AFormat format)); cbn.
Qed.

Lemma match_enum_agree rec rec' typ value l : agree rec rec' ->
  match_enum rec typ value l = match_enum rec' typ value l.
Proof.
  intros Hr. induction l as [|v l IH]; [done|].
  cbn [match_enum]. rewrite Hr by done.
  destruct (rec' typ (DString (ev_Value v)) ANil); cbn; [|done..].
  destruct (iface_eq _ _) as [[]| | |]; cbn; done.
Qed.

Lemma parse_fields_agree rec rec' m l : agree rec rec' ->
  forall acc, parse_fields rec m l acc = parse_fields rec' m l acc.
Proof.
  intros Hr. induction l as [|[key o] l IH]; intros acc; [done|].
  cbn [parse_fields]. destruct (m !! key) as [v|]; [|done]. rewrite Hr by done.
  by destruct (rec' (ot_Type o) v (AFormat (ot_Format o))); cbn.
Qed.

(** The composite types, with calls that agree for elements or with flat arguments. *)
Lemma parseArray_agree rec rec' v a : agree rec rec' -> parseArray rec v a = parseArray rec' v a.
Proof.
  intros Hr. unfold parseArray. destruct (match a with AArray _ => _ | _ => _ end) as [arr ok].
  apply outcome_bind_ext. intros []; [done|]. apply outcome_bind_ext. intros n.
  case_match; [done|]. apply outcome_bind_ext. intros l. by apply parse_elements_agree.
Qed.
Lemma parseEnum_agree rec rec' v a : agree rec rec' -> parseEnum rec v a = parseEnum rec' v a.
Proof.
  intros Hr. unfold parseEnum. destruct a as [| | |e| |]; cbn; try done.
  destruct (type_name v) as [name| | |]; cbn; [|done..].
  destruct (negb _); [done|]. by apply match_enum_agree.
Qed.
Lemma parseObject_agree rec rec' v a : agree rec rec' -> parseObject rec v a = parseObject rec' v a.
Proof. intros Hr. destruct a, v; try done. by apply parse_fields_agree. Qed.

Lemma no_elements v n l : reflect_len v = Ok n -> (n <= 0)%nat -> reflect_elements v = Ok l -> l = [].
Proof.
  destruct v as [| | | | |s| |l'|l'|l'|m|]; cbn; intros [= <-] Hn; try discriminate;
    try (by destruct l'; [intros [= <-]|cbn in Hn; lia]).
  - by destruct s; [intros [= <-]|cbn in Hn; lia].
  - case_match; by intros [= <-].
Qed.

Lemma parseArray_flat rec rec' v a : flat a -> parseArray rec v a = parseArray rec' v a.
Proof.
  intros Ha. destruct a; try done; unfold parseArray;
    cbn [mbind outcome_bind at__Max at__Min at__Type at__Format];
    destruct (reflect_len v) as [n| | |] eqn:Hn; try done; cbn [mbind outcome_bind];
    destruct (Z.ltb_spec 0 (Z.of_nat n)); try done; cbn [orb];
    destruct (Z.of_nat n <? 0); try done;
    destruct (reflect_elements v) as [l| | |] eqn:Hl; try done; cbn [mbind outcome_bind];
    by rewrite (no_elements v n l) by (done || lia).
Qed.

Lemma parse_with_eq rec rec' typ v a :
  (agree rec rec' \/ flat a) -> parse_with rec typ v a = parse_with rec' typ v a.
Proof.
  intros H. unfold parse_with. repeat (case_match; [done|]).
  assert (parseArray rec v a = parseArray rec' v a) as ->
    by (destruct H; [by apply parseArray_agree | by apply parseArray_flat]).
  assert (parseEnum rec v a = parseEnum rec' v a) as ->
    by (destruct H; [by apply parseEnum_agree | by destruct a]).
  assert (parseObject rec v a = parseObject rec' v a) as ->
    by (destruct H; [by apply parseObject_agree | by destruct a]).
  done.
Qed.

Lemma ParseValue_unfold typ v a : ParseValue typ v a = parse_with ParseValue typ v a.
Proof.
  apply parse_with_eq. left. intros typ' v' a' Ha. apply parse_with_eq. by right.
Qed.

(** ** Nothing is left out of the two levels *)

Definition cast_total : Prop :=
  (forall v, ToInt v <> NoFuel) /\ (forall v, ToInt16 v <> NoFuel) /\
  (forall v, ToInt32 v <> NoFuel) /\ (forall v, ToInt64 v <> NoFuel) /\
  (forall v, ToFloat32 v <> NoFuel) /\ (forall v, ToFloat64 v <> NoFuel) /\
  (forall v, ToBool v <> NoFuel) /\ (forall v, ToString v <> NoFuel).

Lemma bind_total {A B} (m : outcome A) (f : A -> outcome B) :
  m <> NoFuel -> (forall a, f a <> NoFuel) -> (m ≫= f) <> NoFuel.
Proof. destruct m; cbn; auto. Qed.
Lemma fmap_total {A B} (f : A -> B) (m : outcome A) : m <> NoFuel -> f <$> m <> NoFuel.
Proof. by destruct m. Qed.

Definition rec_total (rec : string -> Dyn -> Args -> outcome Dyn) : Prop :=
  forall typ v a, rec typ v a <> NoFuel.

Lemma parse_elements_total rec typ format l : rec_total rec ->
  forall acc, parse_elements rec typ format l acc <> NoFuel.
Proof. intros Hr. induction l as [|v l IH]; intros acc; [done|]. by apply bind_total. Qed.

Lemma match_enum_total rec typ v l : rec_total rec -> match_enum rec typ v l <> NoFuel.
Proof.
  intros Hr. induction l as [|x l IH]; [done|].
  apply bind_total; [done|]. intros y. apply bind_total; [by destruct y, v|]. by intros [].
Qed.

Lemma parse_fields_total rec m l : rec_total rec ->
  forall acc, parse_fields rec m l acc <> NoFuel.
Proof.
  intros Hr. induction l as [|[key o] l IH]; intros acc; [done|].
  cbn [parse_fields]. destruct (m !! key); [by apply bind_total|done].
Qed.

Lemma parseTime_total v a : parseTime v a <> NoFuel.
Proof.
  unfold parseTime. destruct (_ !! _) as [layout|]; [|done]. destruct (negb _); [done|].
  apply bind_total; [by destruct v|]. intros tname. destruct (String.eqb tname TypeString).
  - apply bind_total; [by destruct v|]. intros val. by destruct (parse_layouts parseLayout val).
  - destruct (String.eqb tname "Time"); [by destruct v|done].
Qed.

Lemma parse_with_total rec : cast_total -> rec_total rec -> rec_total (parse_with rec).
Proof.
  intros (?&?&?&?&?&?&?&?) Hr typ v a. unfold parse_with.
  repeat (case_match; [by apply fmap_total; auto using parseTime_total|]).
  case_match; [apply fmap_total|].
  { unfold parseArray. destruct (match a with AArray _ => _ | _ => _ end) as [arr ok].
    apply bind_total; [by destruct ok, v|]. intros []; [done|].
    apply bind_total; [by destruct v|]. intros n. case_match; [done|].
    apply bind_total; [destruct v; cbn; repeat case_match; done|].
    intros l. by apply parse_elements_total. }
  case_match; [apply fmap_total|].
  { unfold parseEnum. destruct (match a with AEnum _ => _ | _ => _ end) as [e ok].
    apply bind_total; [by destruct ok, v|]. intros []; [done|]. by apply match_enum_total. }
  case_match; [apply fmap_total|done].
  destruct a, v; try done. by apply parse_fields_total.
Qed.

(** [ParseValue] calls itself for the elements of arrays, the values of enumerations
    and the fields of objects, and always returns: it satisfies the equation of the code,
    and two levels of calls are enough for every value and all arguments. *)
Theorem parse_value_recursive :
  (forall typ v a, ParseValue typ v a = parse_with ParseValue typ v a) /\
  (cast_total -> forall typ v a, ParseValue typ v a <> NoFuel).
Proof.
  split; [exact ParseValue_unfold|]. intros Hc typ v a. unfold ParseValue.
  rewrite (parse_with_eq _ (parse_with (fun _ _ _ => Err ""))).
  - by repeat apply parse_with_total.
  - left. intros typ' v' a' Ha. apply parse_with_eq. by right.
Qed.

(** ** Arrays, enumerations and objects *)

Lemma parse_elements_ok rec typ format l : forall acc r,
  parse_elements rec typ format l acc = Ok r ->
  exists l', r = acc ++ l' /\ Forall2 (fun v w => rec typ v (AFormat format) = Ok w) l l'.
Proof.
  induction l as [|v l IH]; intros acc r; cbn [parse_elements].
  - intros [= <-]. exists []. by rewrite app_nil_r.
  - intros (w & Hw & H)%outcome_bind_ok. apply IH in H as (l' & -> & Hl).
    exists (w :: l'). by rewrite <- app_assoc; auto.
Qed.

Lemma match_enum_ok rec typ v l name : match_enum rec typ v l = Ok name ->
  exists pre e post, l = pre ++ e :: post /\ name = ev_Name e /\
    (exists w, rec typ (DString (ev_Value e)) ANil = Ok w /\ iface_eq w v = Ok true) /\
    Forall (fun e' => exists w, rec typ (DString (ev_Value e')) ANil = Ok w /\
                                iface_eq w v = Ok false) pre.
Proof.
  induction l as [|e l IH]; [done|]. cbn [match_enum].
  intros (w & Hw & H)%outcome_bind_ok. apply outcome_bind_ok in H as ([] & Hs & H).
  - injection H as <-. exists [], e, l. eauto 10.
  - destruct (IH H) as (pre & e' & post & -> & -> & Hm & Hp).
    exists (e :: pre), e', post. repeat split; eauto.
Qed.

Lemma parse_fields_ok rec m l : NoDup l.*1 -> forall acc r,
  parse_fields rec m l acc = Ok r ->
  forall k, match (list_to_map l : gmap string ObjectType) !! k, m !! k with
            | Some o, Some v => exists w, rec (ot_Type o) v (AFormat (ot_Format o)) = Ok w /\ r !! k = Some w
            | _, _ => r !! k = acc !! k
            end.
Proof.
  induction l as [|[key o] l IH]; intros Hd acc r H k.
  - injection H as <-. by destruct (m !! k).
  - rewrite fmap_cons in Hd. apply NoDup_cons in Hd as [Hnot Hd]. cbn [fst] in Hnot.
    cbn [parse_fields] in H. cbn [list_to_map foldr uncurry fst snd].
    destruct (decide (k = key)) as [->|Hne].
    + rewrite lookup_insert_eq.
      pose proof (not_elem_of_list_to_map_1 (M:=gmap string) l key Hnot) as Hl.
      destruct (m !! key) as [v|] eqn:Hv.
      * apply outcome_bind_ok in H as (w & Hw & H). specialize (IH Hd _ _ H key).
        rewrite Hl, lookup_insert_eq in IH. eauto.
      * specialize (IH Hd _ _ H key). by rewrite Hl in IH.
    + rewrite lookup_insert_ne by done. destruct (m !! key) as [v|] eqn:Hv.
      * apply outcome_bind_ok in H as (w & Hw & H). specialize (IH Hd _ _ H k).
        by rewrite lookup_insert_ne in IH by done.
      * exact (IH Hd _ _ H k).
Qed.

Lemma fmap_ok {A B} (f : A -> B) (m : outcome A) b : f <$> m = Ok b -> exists a, m = Ok a /\ f a = b.
Proof. destruct m; cbn; try discriminate. intros [= <-]. eauto. Qed.

Definition array_parsed (v : Dyn) (a : Args) (w : Dyn) : Prop :=
  w = DIfaces [] \/
  exists arr l l', a = AArray arr /\ v = DArray l /\ w = DIfaces l' /\
    at__Min arr <= Z.of_nat (length l) <= at__Max arr /\
    Forall2 (fun x y => ParseValue (at__Type arr) x (AFormat (at__Format arr)) = Ok y) l l'.

Definition enum_parsed (v : Dyn) (a : Args) (w : Dyn) : Prop :=
  exists e pre x post, a = AEnum e /\ type_name v = Ok (et_Type e) /\
    et_Values e = Some (pre ++ x :: post) /\ w = DString (ev_Name x) /\
    (exists y, ParseValue (et_Type e) (DString (ev_Value x)) ANil = Ok y /\ iface_eq y v = Ok true) /\
    Forall (fun x' => exists y, ParseValue (et_Type e) (DString (ev_Value x')) ANil = Ok y /\
                                iface_eq y v = Ok false) pre.

Definition object_parsed (v : Dyn) (a : Args) (w : Dyn) : Prop :=
  exists types m m', a = AObject types /\ v = DMap m /\ w = DMap m' /\
    forall k, match types !! k, m !! k with
              | Some o, Some x => exists y,
                  ParseValue (ot_Type o) x (AFormat (ot_Format o)) = Ok y /\ m' !! k = Some y
              | _, _ => m' !! k = None
              end.

Lemma array_ok v a l : parseArray ParseValue v a = Ok l -> array_parsed v a (DIfaces l).
Proof.
  unfold parseArray. destruct a as [| |arr| | |]; cycle 2.
  { intros (rej & Hrej & H)%outcome_bind_ok. destruct rej; [discriminate|].
    apply outcome_bind_ok in H as (n & Hn & H). case_match eqn:Hb; [discriminate|].
    apply outcome_bind_ok in H as (els & Hels & H).
    apply parse_elements_ok in H as (l' & -> & Hl).
    destruct v; try discriminate. injection Hn as <-. injection Hels as <-.
    apply orb_false_iff in Hb as [?%Z.ltb_ge ?%Z.ltb_ge].
    right. eauto 10. }
  all: cbn [mbind outcome_bind at__Max at__Min at__Type at__Format];
    intros (n & Hn & H)%outcome_bind_ok; case_match eqn:Hb; [discriminate|];
    apply orb_false_iff in Hb as [?%Z.ltb_ge ?%Z.ltb_ge];
    apply outcome_bind_ok in H as (els & Hels & H);
    rewrite (no_elements v n els) in H by (done || lia); injection H as <-; by left.
Qed.

(** What [ParseValue] returns for the composite types. An array with bounds keeps its
    length, within the bounds, and each element is parsed as the type of the elements;
    without bounds only an empty value passes. An enumeration returns the name of the
    first value that equals the given one. An object keeps the fields that have a type,
    each parsed as its type, and no other. *)
Theorem composite_values typ v a w :
  (forall m, order m ≡ₚ map_to_list m) ->
  ParseValue typ v a = Ok w ->
  (typ = TypeArray -> array_parsed v a w) /\
  (typ = TypeEnum -> enum_parsed v a w) /\
  (typ = TypeObject -> object_parsed v a w).
Proof.
  intros Ho H. rewrite ParseValue_unfold in H.
  split; [|split]; intros ->; apply fmap_ok in H as (r & Hr & <-).
  - by apply array_ok.
  - unfold parseEnum in Hr. destruct a as [| | |e| |]; try discriminate.
    apply outcome_bind_ok in Hr as (rej & Hrej & Hr). destruct rej; [discriminate|].
    apply outcome_bind_ok in Hrej as (name & Hn & [= Hne%negb_false_iff%String.eqb_eq]).
    subst name. apply match_enum_ok in Hr as (pre & x & post & Hv & -> & Hx & Hp).
    exists e, pre, x, post. repeat split; try done.
    destruct (et_Values e) as [l|]; cbn in Hv; [by rewrite Hv | by destruct pre].
  - destruct a as [| | | |types|], v as [| | | | | | | | | |m|]; try discriminate.
    exists types, m, r. repeat split; try done. intros k.
    assert (Hd : NoDup (order types).*1)
      by (rewrite (Ho types); apply NoDup_fst_map_to_list).
    pose proof (parse_fields_ok _ _ _ Hd _ _ Hr k) as Hk.
    assert ((list_to_map (order types) : gmap string ObjectType) = types) as El.
    { rewrite <- (list_to_map_to_list types) at 2. by apply list_to_map_proper. }
    by rewrite El in Hk; destruct (types !! k), (m !! k).
Qed.

(** ** Dates and times of day *)

(** The separators of dates and of times of day in the layouts the code tries, and the
    format that asks for a date with a separator. *)
Definition date_separators : list ascii := ["-"; "."; "/"]%char.
Definition clock_separators : list ascii := [":"; "-"; "."]%char.
Definition date_format (sep : ascii) : string :=
  "yyyy" +:+ String sep ("mm" +:+ String sep "dd").
Definition date_layout (sep : ascii) : string := "2006" +:+ String sep ("01" +:+ String sep "02").

Lemma date_layout_chunks sep : sep ∈ date_separators ->
  chunks (date_layout sep) = date_chunks sep /\
  (timeFormats : gmap string string) !! date_format sep = Some (date_layout sep).
Proof.
  intros Hs. repeat (apply elem_of_cons in Hs as [->|Hs]; [split; vm_compute; reflexivity|]).
  by apply elem_of_nil in Hs.
Qed.

Lemma clock_layout_chunks : chunks "15:04:05" = clock_chunks ":" /\
  chunks "15-04-05" = clock_chunks "-" /\ chunks "15.04.05" = clock_chunks ".".
Proof. split; [|split]; vm_compute; reflexivity. Qed.

Lemma read_date sep y m d : sep ∈ date_separators -> valid_date y m d ->
  parse_layouts parseLayout (date_text sep y m d) = Some (local (date_only y m d)).
Proof.
  intros Hs Hv. cbn [parse_layouts parseLayout].
  assert (Hc : forall c, c ∈ date_separators -> forall s, Parse (date_layout c) (date_text s y m d) =
    if Ascii.eqb s c then Some (date_only y m d) else None).
  { intros c Hc s. apply Parse_date; [apply (date_layout_chunks c Hc)|done]. }
  rewrite (Hc "-"%char), (Hc "."%char), (Hc "/"%char) by (apply (bool_decide_unpack _); vm_compute; exact I).
  repeat (apply elem_of_cons in Hs as [->|Hs]; [reflexivity|]). by apply elem_of_nil in Hs.
Qed.

Lemma read_clock sep h mi s : sep ∈ clock_separators -> valid_clock h mi s ->
  parse_layouts parseLayout (clock_text sep h mi s) = Some (local (clock_only h mi s 0)).
Proof.
  intros Hs Hv. destruct clock_layout_chunks as (H1 & H2 & H3).
  assert (Hd : is_digit sep = false).
  { repeat (apply elem_of_cons in Hs as [->|Hs]; [reflexivity|]). by apply elem_of_nil in Hs. }
  cbn [parse_layouts parseLayout].
  rewrite (Parse_date_clock "2006-01-02" "-"%char), (Parse_date_clock "2006.01.02" "."%char),
    (Parse_date_clock "2006/01/02" "/"%char) by (done || vm_compute; reflexivity).
  rewrite (Parse_clock _ _ _ _ _ _ H1), (Parse_clock _ _ _ _ _ _ H2), (Parse_clock _ _ _ _ _ _ H3)
    by done.
  repeat (apply elem_of_cons in Hs as [->|Hs]; [reflexivity|]). by apply elem_of_nil in Hs.
Qed.

(** Dates and times of day are printed in the form asked for: a valid date written with
    any of the three separators comes back with the separator of the format, a time of day
    with colons, and a time value prints its own date or time of day, whatever letters'
    case the format is written in. The local clock must show what was read (it may not,
    where a change of the clock skips it). *)
Theorem dates_reformatted f :
  (forall sep out y m d, sep ∈ date_separators -> out ∈ date_separators ->
     ToLower unicode_lower f = date_format out -> valid_date y m d ->
     local (date_only y m d) = date_only y m d ->
     ParseValue TypeDate (DString (date_text sep y m d)) (AFormat f) = Ok (DString (date_text out y m d))) /\
  (forall sep h mi s, sep ∈ clock_separators ->
     ToLower unicode_lower f = "hh:mm:ss" -> valid_clock h mi s ->
     local (clock_only h mi s 0) = clock_only h mi s 0 ->
     ParseValue TypeTime (DString (clock_text sep h mi s)) (AFormat f) =
     Ok (DString (clock_text ":" h mi s))) /\
  (forall out t, out ∈ date_separators -> ToLower unicode_lower f = date_format out ->
     valid_date (year t) (month t) (day t) ->
     ParseValue TypeDate (DTime t) (AFormat f) = Ok (DString (date_text out (year t) (month t) (day t)))) /\
  (forall t, ToLower unicode_lower f = "hh:mm:ss" -> valid_clock (hour t) (minute t) (second t) ->
     ParseValue TypeTime (DTime t) (AFormat f) =
     Ok (DString (clock_text ":" (hour t) (minute t) (second t)))).
Proof.
  assert (Hp : forall typ v, typ = TypeDate \/ typ = TypeTime ->
    ParseValue typ v (AFormat f) = DString <$> parseTime v (AFormat f)) by (by intros ?? [->| ->]).
  assert (Hcolon : (timeFormats : gmap string string) !! "hh:mm:ss" = Some "15:04:05")
    by (vm_compute; reflexivity).
  destruct clock_layout_chunks as (Hchunks & _).
  repeat split.
  - intros sep out y m d Hs Ho Hf Hv Hl. rewrite Hp by auto. unfold parseTime.
    destruct (date_layout_chunks out Ho) as [Hc Hk]. rewrite Hf, Hk.
    cbn [negb type_name mbind outcome_bind]. rewrite (String.eqb_refl TypeString : String.eqb "string" TypeString = true).
    rewrite read_date by done. unfold Format. rewrite Hl, Hc, (format_date _ (date_only y m d) Hv). done.
  - intros sep h mi s Hs Hf Hv Hl. rewrite Hp by auto. unfold parseTime. rewrite Hf, Hcolon.
    cbn [negb type_name mbind outcome_bind]. rewrite (String.eqb_refl TypeString : String.eqb "string" TypeString = true).
    rewrite read_clock by done. unfold Format.
    rewrite Hl, Hchunks, (format_clock _ (clock_only h mi s 0) Hv). done.
  - intros out t Ho Hf Hv. rewrite Hp by auto. unfold parseTime.
    destruct (date_layout_chunks out Ho) as [Hc Hk]. rewrite Hf, Hk.
    cbn [negb type_name mbind outcome_bind].
    change (String.eqb "Time" TypeString) with false. change (String.eqb "Time" "Time") with true.
    unfold Format. by rewrite Hc, format_date.
  - intros t Hf Hv. rewrite Hp by auto. unfold parseTime. rewrite Hf, Hcolon.
    cbn [negb type_name mbind outcome_bind].
    change (String.eqb "Time" TypeString) with false. change (String.eqb "Time" "Time") with true.
    unfold Format. by rewrite Hchunks, format_clock.
Qed.

End format.

(** ** Examples *)

(** What cast does with the values of the examples. *)
Definition demo_int (w : Z) (v : Dyn) : outcome Z :=
  match v with
  | DInt _ z => Ok (swrap w z)
  | DBool b => Ok (if b then 1 else 0)
  | DString s => GoStrconv.ParseInt s w
  | _ => Err "unable to cast"
  end.
Definition demo_float (v : Dyn) : outcome spec_float :=
  match v with DFloat32 f | DFloat64 f => Ok f | _ => Err "unable to cast" end.
Definition demo_bool (v : Dyn) : outcome bool :=
  match v with DBool b => Ok b | DInt _ z => Ok (negb (z =? 0)) | _ => Err "unable to cast" end.
Definition demo_string (v : Dyn) : outcome string :=
  match v with
  | DString s => Ok s
  | DInt _ z => Ok (GoStrconv.FormatInt z)
  | DBool b => Ok (if b then "true" else "false")
  | _ => Err "unable to cast"
  end.

Definition demo : string -> Dyn -> Args -> outcome Dyn :=
  ParseValue (demo_int 64) (demo_int 16) (demo_int 32) (demo_int 64) demo_float demo_float
    demo_bool demo_string (fun s => s) (fun t => t) map_to_list.

Definition bounds24 : ArrayType := {| at__Type := "string"; at__Min := 2; at__Max := 4; at__Format := "" |}.
Definition fire : EnumType :=
  {| et_Type := "string"; et_Values := Some [{| ev_Name := "1"; ev_Value := "Fire"; ev_DisplayName := "" |}] |}.
Definition person : gmap string ObjectType :=
  list_to_map [("name", {| ot_DisplayName := "demo"; ot_Type := "string"; ot_Format := "" |});
               ("age", {| ot_DisplayName := "demo"; ot_Type := "int"; ot_Format := "" |});
               ("class", {| ot_DisplayName := "demo"; ot_Type := "string"; ot_Format := "" |})].

(** The calls of the source's own test. *)
Example format_test :
  demo "time" (DString "17.04.05") (AFormat "HH:mm:ss") = Ok (DString "17:04:05") /\
  demo "time" (DString "17.04.05") (AFormat "SS:mm:ss") = Err DmExpr.ErrUnsupportedValueType /\
  demo "time" (DTime (date_only 2022 10 19)) (AFormat "yyyy/mm/dd") = Ok (DString "2022/10/19") /\
  demo "array" (DArray [DInt KInt 1; DInt KInt 2; DInt KInt 0]) (AArray bounds24)
    = Ok (DIfaces [DString "1"; DString "2"; DString "0"]) /\
  demo "array" (DArray [DInt KInt 1]) (AArray bounds24) = Err ErrArrayLength /\
  demo "enum" (DString "Fire") (AEnum fire) = Ok (DString "1") /\
  demo "enum" (DString "Fire") (AEnum {| et_Type := "xx"; et_Values := et_Values fire |})
    = Err DmExpr.ErrUnsupportedValueType /\
  demo "object" (DMap (list_to_map [("name", DString "te"); ("age", DInt KInt 12)])) (AObject person)
    = Ok (DMap (list_to_map [("name", DString "te"); ("age", DInt KInt 12)])).
Proof. repeat split; vm_compute; reflexivity. Qed.

(** The layout for months first is not one: 19 October 2022 becomes [22-10-19190]. What
    encoding/json decodes an array into, a slice, is refused when bounds are given. A nil
    value panics where a date is asked for. *)
Example format_surprises :
  demo "date" (DString "2022-10-19") (AFormat "mm-dd-yyyy") = Ok (DString "22-10-19190") /\
  demo "array" (DIfaces [DString "a"; DString "b"]) (AArray bounds24)
    = Err DmExpr.ErrUnsupportedValueType /\
  demo "date" DNil (AFormat "yyyy-mm-dd") = Panic nil_type_panic.
Proof. repeat split; vm_compute; reflexivity. Qed.

Lemma parse_value_recursive_witness :
  demo "array" (DArray [DInt KInt 1; DInt KInt 2]) (AArray bounds24) <> NoFuel.
Proof.
  unfold demo.
  apply (parse_value_recursive (demo_int 64) (demo_int 16) (demo_int 32) (demo_int 64) demo_float demo_float
    demo_bool demo_string (fun s => s) (fun t => t) map_to_list).
  assert (Hi : forall w v, demo_int w v <> NoFuel).
  { intros w []; cbn; try discriminate. unfold GoStrconv.ParseInt. repeat case_match; discriminate. }
  repeat split; try apply Hi; intros []; discriminate.
Defined.

Lemma composite_values_witness :
  object_parsed (demo_int 64) (demo_int 16) (demo_int 32) (demo_int 64) demo_float demo_float
    demo_bool demo_string (fun s => s) (fun t => t) map_to_list
    (DMap (list_to_map [("name", DString "te"); ("age", DInt KInt 12)])) (AObject person)
    (DMap (list_to_map [("name", DString "te"); ("age", DInt KInt 12)])).
Proof.
  apply (composite_values (demo_int 64) (demo_int 16) (demo_int 32) (demo_int 64) demo_float demo_float
    demo_bool demo_string (fun s => s) (fun t => t) map_to_list "object").
  - reflexivity.
  - vm_compute. reflexivity.
  - reflexivity.
Defined.

Lemma dates_reformatted_witness :
  demo "date" (DString "2022.10.19") (AFormat "YYYY/MM/DD") = Ok (DString "2022/10/19").
Proof.
  pose proof (proj1 (dates_reformatted (demo_int 64) (demo_int 16) (demo_int 32) (demo_int 64)
    demo_float demo_float demo_bool demo_string (fun s => s) (fun t => t) map_to_list "YYYY/MM/DD")
    "."%char "/"%char 2022 10 19) as H.
  apply H.
  - apply (bool_decide_unpack _). vm_compute. exact I.
  - apply (bool_decide_unpack _). vm_compute. exact I.
  - vm_compute. reflexivity.
  - unfold valid_date. change (daysIn 10 2022) with 31. lia.
  - reflexivity.
Defined.
