(* ===== verification/Tomb.v ===== *)
(** * utils/tomb.go: the tomb of a group of goroutines

    [utils.Tomb] wraps [tomb.Tomb] of gopkg.in/tomb.v2, which is not part of the
    repository: its documented behaviour is the class [TombLaws], over the operations of
    [TombV2]. The wrapper adds a mutex and the memory of whether anything was started. *)

From Stdlib Require Import Lia String.
From stdpp Require Import base option list strings relations.
From S2P Require Import Prelude.

Local Open Scope string_scope.
Local Open Scope list_scope.

(** ** gopkg.in/tomb.v2 *)

Class TombV2 (T : Type) := {
  tb_new : T;
  tb_Go : T -> outcome T;                    (* one more goroutine *)
  tb_Kill : option error -> T -> T;
  tb_return : option error -> T -> T;        (* a goroutine returns *)
  tb_dying : T -> bool;                      (* [Dying()] is closed *)
  tb_dead : T -> bool;                       (* [Dead()] is closed *)
  tb_running : T -> nat;
  tb_Err : T -> option error                 (* the reason *)
}.

(** Only the first reason that is not nil is kept. *)
Definition first_reason (old new : option error) : option error :=
  match old with Some e => Some e | None => new end.

Class TombLaws (T : Type) `{!TombV2 T} := {
  new_law : tb_dying tb_new = false /\ tb_dead tb_new = false /\ tb_running tb_new = 0 /\
            tb_Err tb_new = None;
  (* a goroutine can be added until the tomb is dead; then [Go] panics *)
  go_law t : if tb_dead t then exists w, tb_Go t = Panic w
             else exists t', tb_Go t = Ok t' /\ tb_running t' = S (tb_running t) /\
                    tb_dying t' = tb_dying t /\ tb_dead t' = false /\ tb_Err t' = tb_Err t;
  kill_law r t : tb_dying (tb_Kill r t) = true /\ tb_dead (tb_Kill r t) = tb_dead t /\
                 tb_running (tb_Kill r t) = tb_running t /\
                 tb_Err (tb_Kill r t) = first_reason (tb_Err t) r;
  (* the tomb dies with its last goroutine, and is killed by an error *)
  return_law r t n : tb_running t = S n ->
    tb_running (tb_return r t) = n /\
    tb_dead (tb_return r t) = (Nat.eqb n 0) /\
    tb_dying (tb_return r t) = tb_dying t || Nat.eqb n 0 || (match r with Some _ => true | None => false end) /\
    tb_Err (tb_return r t) = first_reason (tb_Err t) r
}.

(** ** The wrapper *)

Section tomb.
Context {T : Type} `{!TombV2 T}.

(** [gos]: something was started; [locked]: a call of [Wait] holds the mutex. *)
Record Tomb := { t_ : T; gos : bool; locked : bool }.

Definition zero_Tomb : Tomb := {| t_ := tb_new; gos := false; locked := false |}.

(** The calls of [t.t.Go], up to the one that panics. *)
Fixpoint go_all (n : nat) (t : T) : T * option error :=
  match n with
  | O => (t, None)
  | S n => match tb_Go t with
           | Ok t => go_all n t
           | Err e => (t, Some e)
           | Panic w => (t, Some w)
           | NoFuel => (t, None)
           end
  end.

(** [Go] of [n] functions, and its error; [None] when it blocks on the mutex. A panic is
    recovered and the mutex released. *)
Definition Go (n : nat) (tb : Tomb) : option (Tomb * option error) :=
  if locked tb then None
  else let '(t, err) := go_all n (t_ tb) in
       Some ({| t_ := t; gos := true; locked := false |}, err).

Definition Kill (reason : option error) (tb : Tomb) : Tomb :=
  {| t_ := tb_Kill reason (t_ tb); gos := gos tb; locked := locked tb |}.
Definition Dying (tb : Tomb) : bool := tb_dying (t_ tb).
Definition Dead (tb : Tomb) : bool := tb_dead (t_ tb).
Definition Alive (tb : Tomb) : bool := negb (tb_dying (t_ tb)).
Definition Err_ (tb : Tomb) : option error := tb_Err (t_ tb).

(** [Wait] takes the mutex, ... *)
Definition Wait_lock (tb : Tomb) : option Tomb :=
  if locked tb then None else Some {| t_ := t_ tb; gos := gos tb; locked := true |}.
(** ... and returns when nothing was started or the tomb is dead. *)
Definition Wait_return (tb : Tomb) : option (Tomb * option error) :=
  if negb (gos tb) then Some ({| t_ := t_ tb; gos := gos tb; locked := false |}, None)
  else if tb_dead (t_ tb)
  then Some ({| t_ := t_ tb; gos := gos tb; locked := false |}, tb_Err (t_ tb))
  else None.

(** A tracked goroutine returns. *)
Definition returns (r : option error) (tb : Tomb) : Tomb :=
  {| t_ := tb_return r (t_ tb); gos := gos tb; locked := locked tb |}.

Context `{!TombLaws T}.

Lemma go_all_spec n : forall t,
  if tb_dead t then n <> 0 -> fst (go_all n t) = t /\ snd (go_all n t) <> None
  else snd (go_all n t) = None /\ tb_running (fst (go_all n t)) = n + tb_running t /\
       tb_dying (fst (go_all n t)) = tb_dying t /\ tb_dead (fst (go_all n t)) = false /\
       tb_Err (fst (go_all n t)) = tb_Err t.
Proof.
  induction n as [|n IH]; intros t; pose proof (go_law t) as Hgo.
  - destruct (tb_dead t) eqn:Hd; [done|]. by repeat split.
  - cbn [go_all]. destruct (tb_dead t) eqn:Hd.
    + destruct Hgo as (w & ->). by intros _.
    + destruct Hgo as (t' & -> & Hr & Hy & Hd' & He). specialize (IH t').
      rewrite Hd' in IH. destruct IH as (-> & -> & -> & -> & ->). repeat split; try done. lia.
Qed.

End tomb.
Arguments Tomb T : clear implicits.
