(* ===== verification/Processor.v ===== *)
(** * pubsub/processor.go: a processor of the messages of a channel

    The goroutine of a processor, with or without a timeout, as a step relation: it takes a
    message, or the tick of its timer, or sees that its tomb is dying. Handling a message
    takes time. The timer is that of package time for the go directive of this module: its
    channel keeps one tick, and [Reset] does not take back a tick already there. *)

From Stdlib Require Import ZArith Lia String.
From stdpp Require Import base option list strings relations.
From S2P Require Import Prelude Tomb.

Local Open Scope string_scope.
Local Open Scope Z_scope.
Local Open Scope list_scope.

Definition ErrProcessorTimeout : error := "failed to send message because of timeout".

Section processor.
Context {V T : Type} `{!TombV2 T}.
(** [NewProcessor]'s timeout, and whether a handler is given. *)
Context (timeout : Z) (has_handler : bool).

Inductive event :=
  | Sent (v : V)                    (* somebody sends to the channel *)
  | Armed (t : Z)                   (* the timer is set at [t] *)
  | OnMessage (t : Z) (v : V)
  | OnTimeout (t : Z)
  | Stopped.                        (* the goroutine returns *)

(** Where the goroutine is. *)
Inductive phase := NotStarted | Select | Handling | Returned.

Record State := {
  channel : list V;
  tomb : Tomb T;
  at_ : phase;
  timer : option Z;                 (* when the running timer expires *)
  tick : bool;                      (* a tick is in the timer's channel *)
  now : Z;
  taken : list V;                   (* the messages taken from the channel *)
  log : list event
}.

Definition NewProcessor (t : Z) : State :=
  {| channel := []; tomb := zero_Tomb; at_ := NotStarted; timer := None; tick := false; now := t;
     taken := []; log := [] |}.

Definition timed : bool := 0 <? timeout.

(** [time.NewTimer(p.timeout)] and [timer.Reset(p.timeout)] *)
Definition set_timer (s : State) : State :=
  if timed then
    {| channel := channel s; tomb := tomb s; at_ := at_ s; timer := Some (now s + timeout);
       tick := tick s; now := now s; taken := taken s; log := log s ++ [Armed (now s)] |}
  else s.

Definition set_tomb (tb : Tomb T) (s : State) : State :=
  {| channel := channel s; tomb := tb; at_ := at_ s; timer := timer s; tick := tick s;
     now := now s; taken := taken s; log := log s |}.

Definition set_phase (p : phase) (s : State) : State :=
  {| channel := channel s; tomb := tomb s; at_ := p; timer := timer s; tick := tick s;
     now := now s; taken := taken s; log := log s |}.

(** [Start()]: the error of [Go] is not looked at; the goroutine sets its timer and
    enters its loop. *)
Definition Start (s : State) : option State :=
  match Go 1 (tomb s) with
  | None => None
  | Some (tb, None) => Some (set_timer (set_phase Select (set_tomb tb s)))
  | Some (tb, Some _) => Some (set_tomb tb s)
  end.

(** [case msg := <-p.channel]: the handler is called, if there is one. *)
Definition take_message (v : V) (rest : list V) (s : State) : State :=
  {| channel := rest; tomb := tomb s; at_ := Handling; timer := timer s; tick := tick s;
     now := now s; taken := taken s ++ [v];
     log := log s ++ (if has_handler then [OnMessage (now s) v] else []) |}.
(** Whatever [OnMessage] returned, [timer.Reset(p.timeout)] follows. *)
Definition message_done (s : State) : State := set_timer (set_phase Select s).

(** [case <-timer.C]: [OnTimeout], then [Kill]; the loop goes on. *)
Definition take_tick (s : State) : State :=
  {| channel := channel s; tomb := Kill (Some ErrProcessorTimeout) (tomb s); at_ := Select;
     timer := timer s; tick := false; now := now s; taken := taken s;
     log := log s ++ (if has_handler then [OnTimeout (now s)] else []) |}.

(** [case <-p.tomb.Dying()]: [timer.Stop()] and return. *)
Definition stop (s : State) : State :=
  {| channel := channel s; tomb := returns None (tomb s); at_ := Returned; timer := None;
     tick := tick s; now := now s; taken := taken s; log := log s ++ [Stopped] |}.

Definition send (v : V) (s : State) : State :=
  {| channel := channel s ++ [v]; tomb := tomb s; at_ := at_ s; timer := timer s;
     tick := tick s; now := now s; taken := taken s; log := log s ++ [Sent v] |}.
Definition pass (d : Z) (s : State) : State :=
  {| channel := channel s; tomb := tomb s; at_ := at_ s; timer := timer s; tick := tick s;
     now := now s + d; taken := taken s; log := log s |}.
Definition expire (s : State) : State :=
  {| channel := channel s; tomb := tomb s; at_ := at_ s; timer := None; tick := true;
     now := now s; taken := taken s; log := log s |}.

Inductive step : State -> State -> Prop :=
  | step_send v s : step s (send v s)
  | step_pass d s : 0 <= d -> step s (pass d s)
  | step_expire e s : timer s = Some e -> e <= now s -> step s (expire s)
  | step_start s s' : at_ s = NotStarted -> Start s = Some s' -> step s s'
  | step_message v rest s : at_ s = Select -> channel s = v :: rest -> step s (take_message v rest s)
  | step_message_done s : at_ s = Handling -> step s (message_done s)
  | step_tick s : at_ s = Select -> timed = true -> tick s = true -> step s (take_tick s)
  | step_stop s : at_ s = Select -> tb_dying (t_ (tomb s)) = true -> step s (stop s)
  (* [Close()]: [Kill(nil)], then [Wait()] *)
  | step_kill s : step s (set_tomb (Kill None (tomb s)) s)
  | step_wait tb s : Wait_lock (tomb s) = Some tb -> step s (set_tomb tb s)
  | step_waited tb err s : locked (tomb s) = true -> Wait_return (tomb s) = Some (tb, err) ->
      step s (set_tomb tb s).

Definition reachable (s : State) : Prop := exists t, rtc step (NewProcessor t) s.

Definition sent (l : list event) : list V := omap (fun e => match e with Sent v => Some v | _ => None end) l.
Definition handled (l : list event) : list V :=
  omap (fun e => match e with OnMessage _ v => Some v | _ => None end) l.

#[local] Arguments sent : simpl never.
#[local] Arguments handled : simpl never.

(** The handler is called: this ends with the goroutine. *)
Definition is_call (e : event) : bool :=
  match e with OnMessage _ _ | OnTimeout _ => true | _ => false end.

Context `{!TombLaws T}.

(** ** The invariant *)

(** A tick has been earned: the timer was set at least a timeout before [t]. *)
Definition earned (t : Z) (l : list event) : Prop := exists t0, Armed t0 ∈ l /\ t0 + timeout <= t.

Definition calls_earned (l : list event) : Prop :=
  forall pre t post, l = pre ++ OnTimeout t :: post -> earned t pre.

(** No call follows the end of the goroutine. *)
Definition quiet_after (l : list event) : Prop :=
  forall pre post, l = pre ++ Stopped :: post -> Forall (fun e => is_call e = false) post.

Definition running (p : phase) : bool := match p with Select | Handling => true | _ => false end.

Record inv (s : State) : Prop := {
  inv_order : taken s ++ channel s = sent (log s);
  inv_handled : has_handler = true -> handled (log s) = taken s;
  inv_timer : forall e, timer s = Some e -> timed = true /\ exists t0, Armed t0 ∈ log s /\ e = t0 + timeout;
  inv_tick : tick s = true -> earned (now s) (log s);
  inv_calls : calls_earned (log s);
  inv_tomb : tb_running (t_ (tomb s)) = (if running (at_ s) then 1%nat else 0%nat);
  inv_gos : running (at_ s) || (match at_ s with Returned => true | _ => false end) = true -> gos (tomb s) = true;
  inv_dead : tb_dead (t_ (tomb s)) = (match at_ s with Returned => true | _ => false end);
  (* what is to come is watched: a timer runs, or a tick waits, or the tomb is dying *)
  inv_watch : timed = true -> at_ s = Select ->
    timer s <> None \/ tick s = true \/ tb_dying (t_ (tomb s)) = true;
  inv_stopped : Stopped ∈ log s -> at_ s = Returned;
  inv_after : quiet_after (log s)
}.

Lemma exists_last_or_nil {A} (l : list A) : l = [] \/ exists l' x, l = l' ++ [x].
Proof. induction l as [|x l _] using rev_ind; eauto. Qed.

Lemma earned_app t t' l l' : earned t l -> t <= t' -> earned t' (l ++ l').
Proof. intros (t0 & Hin & Ht) Hle. exists t0. split; [by apply elem_of_app; left|lia]. Qed.
(** A list with one more element at its end, split in two. *)
Lemma snoc_split {A} (l pre post : list A) (e x : A) : l ++ [e] = pre ++ x :: post ->
  (post = [] /\ e = x /\ l = pre) \/ exists post', post = post' ++ [e] /\ l = pre ++ x :: post'.
Proof.
  destruct (exists_last_or_nil post) as [->|(post' & y & ->)].
  - intros [-> ->]%app_inj_tail. auto.
  - rewrite app_comm_cons, app_assoc. intros [-> ->]%app_inj_tail. eauto.
Qed.

Lemma calls_earned_snoc l e : calls_earned l -> (forall t, e = OnTimeout t -> earned t l) ->
  calls_earned (l ++ [e]).
Proof.
  intros Hl He pre t post [(_ & -> & <-)|(post' & -> & E)]%snoc_split; [by apply He|eauto].
Qed.

Lemma quiet_after_snoc l e : quiet_after l -> is_call e = false \/ Stopped ∉ l -> quiet_after (l ++ [e]).
Proof.
  intros Hl He pre post [(-> & -> & <-)|(post' & -> & E)]%snoc_split; [done|].
  apply Forall_app. split; [eauto|]. apply Forall_singleton.
  destruct He as [He|He]; [done|]. destruct He. subst l. set_solver.
Qed.

Lemma inv_init t : inv (NewProcessor t).
Proof.
  destruct new_law as (Hy & Hd & Hr & He).
  constructor; cbn; try done.
  - intros pre x post E. by destruct pre.
  - intros H. by apply elem_of_nil in H.
  - intros pre post E. by destruct pre.
Qed.

(** The steps that add nothing to the log and leave the goroutine where it is. *)
Lemma inv_same s s' : inv s ->
  channel s' = channel s -> taken s' = taken s -> log s' = log s -> at_ s' = at_ s ->
  now s <= now s' -> gos (tomb s') = gos (tomb s) ->
  tb_running (t_ (tomb s')) = tb_running (t_ (tomb s)) ->
  tb_dead (t_ (tomb s')) = tb_dead (t_ (tomb s)) ->
  (tb_dying (t_ (tomb s)) = true -> tb_dying (t_ (tomb s')) = true) ->
  (timer s' = timer s /\ tick s' = tick s \/
   timer s' = None /\ tick s' = true /\ earned (now s) (log s)) -> inv s'.
Proof.
  intros [] Hc Ht Hl Ha Hn Hg Hr Hd Hy Htt.
  constructor; rewrite ?Hc, ?Ht, ?Hl, ?Ha, ?Hg, ?Hr, ?Hd; try done.
  - destruct Htt as [[-> _]|[-> _]]; done.
  - intros Htick. rewrite <- (app_nil_r (log s)). apply earned_app with (now s); [|done].
    destruct Htt as [[_ E]|(_ & _ & E)]; [|done]. apply inv_tick0. congruence.
  - intros H1 H2. destruct Htt as [[-> ->]|(_ & -> & _)]; [|by auto].
    destruct (inv_watch0 H1 H2) as [?|[?|?]]; auto.
Qed.

(** [set_timer] after the other changes of a step: what it needs and keeps. *)
Lemma set_timer_log s : log (set_timer s) = log s ++ (if timed then [Armed (now s)] else []).
Proof. unfold set_timer. destruct timed; cbn; [done|by rewrite app_nil_r]. Qed.

Lemma sent_app l l' : sent (l ++ l') = sent l ++ sent l'.
Proof. apply omap_app. Qed.
Lemma handled_app l l' : handled (l ++ l') = handled l ++ handled l'.
Proof. apply omap_app. Qed.

(** The loop is entered again with its timer set. *)
Lemma inv_set_timer s :
  inv (set_phase Handling s) -> inv (set_timer (set_phase Select s)).
Proof.
  intros []; cbn in *.
  assert (Hl : log (set_timer (set_phase Select s)) = log s ++ (if timed then [Armed (now s)] else []))
    by apply (set_timer_log (set_phase Select s)).
  assert (Hsame : forall A (f : State -> A), (forall t l, f {| channel := channel s; tomb := tomb s; at_ := Select;
      timer := t; tick := tick s; now := now s; taken := taken s; log := l |} = f (set_phase Select s)) ->
      f (set_timer (set_phase Select s)) = f (set_phase Select s)).
  { intros A f Hf. unfold set_timer. destruct timed; [apply Hf|done]. }
  constructor; rewrite ?Hl, ?(Hsame _ tomb), ?(Hsame _ at_), ?(Hsame _ channel), ?(Hsame _ taken),
    ?(Hsame _ tick), ?(Hsame _ now) by done; cbn; try done.
  - rewrite sent_app. destruct timed; cbn; by rewrite app_nil_r.
  - intros Hh. rewrite handled_app. destruct timed; cbn; rewrite app_nil_r; auto.
  - unfold set_timer. destruct timed eqn:Ht; cbn; intros e He.
    + injection He as <-. split; [done|]. exists (now s). split; [set_solver|done].
    + destruct (inv_timer0 e He). by split.
  - intros Ht. eapply earned_app; [by apply inv_tick0|lia].
  - destruct timed; [|by rewrite app_nil_r]. by apply calls_earned_snoc.
  - intros Ht _. left. unfold set_timer. rewrite Ht. done.
  - rewrite elem_of_app. intros [H|H]; [by apply inv_stopped0 in H|]. destruct timed; set_solver.
  - destruct timed; [|by rewrite app_nil_r]. apply quiet_after_snoc; [done|by left].
Qed.

Lemma inv_send v s : inv s -> inv (send v s).
Proof.
  intros []. constructor; cbn; try done.
  - by rewrite sent_app, app_assoc, inv_order0.
  - intros Hh. rewrite handled_app, inv_handled0 by done. by rewrite app_nil_r.
  - intros e He. destruct (inv_timer0 e He) as (? & t0 & ? & ?). split; [done|].
    exists t0. split; [set_solver|done].
  - intros Ht. eapply earned_app; [by apply inv_tick0|lia].
  - by apply calls_earned_snoc.
  - rewrite elem_of_app. intros [H|H]; [auto|set_solver].
  - apply quiet_after_snoc; [done|by left].
Qed.

Lemma not_stopped s : inv s -> at_ s <> Returned -> Stopped ∉ log s.
Proof. intros Hi Ha H. by apply Ha, Hi. Qed.

(** A call of the handler, or none without a handler. *)
Lemma log_call s (e : event) : inv s -> at_ s <> Returned -> is_call e = true ->
  (forall t, e = OnTimeout t -> earned t (log s)) ->
  let l := log s ++ (if has_handler then [e] else []) in
  sent l = sent (log s) /\ calls_earned l /\ quiet_after l /\ (Stopped ∉ l) /\
  (forall t, earned t (log s) -> earned t l) /\ (forall t, Armed t ∈ log s -> Armed t ∈ l).
Proof.
  intros Hi Ha Hc He l. pose proof (not_stopped s Hi Ha) as Hs. destruct Hi. subst l.
  destruct has_handler; [|rewrite app_nil_r; done]. repeat split.
  - rewrite sent_app. destruct e; try discriminate; cbn; by rewrite app_nil_r.
  - by apply calls_earned_snoc.
  - apply quiet_after_snoc; auto.
  - rewrite not_elem_of_app. split; [done|]. intros <-%list_elem_of_singleton. done.
  - intros t H. eapply earned_app; [done|lia].
  - set_solver.
Qed.

Lemma inv_take_message v rest s : inv s -> at_ s = Select -> channel s = v :: rest ->
  inv (take_message v rest s).
Proof.
  intros Hi Ha Hc.
  destruct (log_call s (OnMessage (now s) v) Hi ltac:(by rewrite Ha) eq_refl)
    as (Hsent & Hce & Hq & Hst & He & Har); [done|].
  destruct Hi. rewrite Ha in *. constructor; cbn; try done.
  - by rewrite Hsent, <- app_assoc, <- inv_order0, Hc.
  - intros Hh. rewrite handled_app, inv_handled0, Hh by done. done.
  - intros e Ht. destruct (inv_timer0 e Ht) as (? & t0 & ? & ?). eauto.
  - auto.
Qed.

Lemma inv_take_tick s : inv s -> at_ s = Select -> tick s = true -> inv (take_tick s).
Proof.
  intros Hi Ha Ht.
  destruct (log_call s (OnTimeout (now s)) Hi ltac:(by rewrite Ha) eq_refl)
    as (Hsent & Hce & Hq & Hst & He & Har).
  { intros t [= <-]. by apply Hi. }
  destruct (kill_law (Some ErrProcessorTimeout) (t_ (tomb s))) as (Hy & Hd & Hr & _).
  destruct Hi. rewrite Ha in *. constructor; cbn; rewrite ?Hd, ?Hr; try done.
  - by rewrite Hsent.
  - intros Hh. rewrite handled_app, inv_handled0, Hh by done. cbn. by rewrite app_nil_r.
  - intros e Hte. destruct (inv_timer0 e Hte) as (? & t0 & ? & ?). eauto.
  - auto.
Qed.

Lemma inv_stop s : inv s -> at_ s = Select -> inv (stop s).
Proof.
  intros Hi Ha. pose proof (not_stopped s Hi ltac:(by rewrite Ha)) as Hs.
  destruct Hi. rewrite Ha in *.
  destruct (return_law None (t_ (tomb s)) 0 inv_tomb0) as (Hr & Hd & _ & _).
  constructor; cbn; rewrite ?Hd, ?Hr; try done.
  - rewrite sent_app. by rewrite app_nil_r.
  - intros Hh. rewrite handled_app, inv_handled0 by done. by rewrite app_nil_r.
  - intros Ht. eapply earned_app; [by apply inv_tick0|lia].
  - by apply calls_earned_snoc.
  - apply quiet_after_snoc; [done|by left].
Qed.

Lemma inv_start s s' : inv s -> at_ s = NotStarted -> Start s = Some s' -> inv s'.
Proof.
  intros Hi Ha. unfold Start, Go. destruct (locked (tomb s)); [done|].
  pose proof (go_all_spec 1 (t_ (tomb s))) as Hg. destruct (go_all 1 (t_ (tomb s))) as [t err].
  pose proof (inv_dead s Hi) as Hdead. rewrite Ha in Hdead. rewrite Hdead in Hg.
  cbn [fst snd] in Hg. destruct Hg as (-> & Hr & Hy & Hd & _). intros [= <-].
  apply (inv_set_timer (set_tomb _ s)). destruct Hi. rewrite Ha in *.
  constructor; cbn; rewrite ?Hr, ?Hd, ?inv_tomb0; try done.
  intros H. by apply inv_stopped0 in H.
Qed.

Lemma inv_step s s' : step s s' -> inv s -> inv s'.
Proof.
  destruct 1 as [v u|d u Hd|e u He Hle|u u' Ha Hs|v rest u Ha Hc|u Ha|u Ha Ht Htick|u Ha Hy|u
    |tb u Hw|tb err u Hl Hw]; intros Hi.
  - by apply inv_send.
  - apply (inv_same u); cbn; auto. lia.
  - apply (inv_same u); cbn; auto; [lia|]. right. split; [done|]. split; [done|].
    destruct (inv_timer u Hi e He) as (_ & t0 & ? & ->). exists t0. auto.
  - by apply (inv_start u).
  - by apply inv_take_message.
  - apply inv_set_timer. by destruct u; cbn in *; subst.
  - by apply inv_take_tick.
  - by apply inv_stop.
  - destruct (kill_law None (t_ (tomb u))) as (Hy & Hd & Hr & _).
    apply (inv_same u); cbn; auto. lia.
  - unfold Wait_lock in Hw. destruct (locked (tomb u)); simplify_eq.
    apply (inv_same u); cbn; auto. lia.
  - unfold Wait_return in Hw. repeat case_match; simplify_eq; apply (inv_same u); cbn; auto; lia.
Qed.

Lemma processor_inv s : reachable s -> inv s.
Proof.
  intros (t & H). pose proof (inv_init t) as Hi. revert Hi.
  induction H; eauto using inv_step.
Qed.

(** ** What a processor promises *)

(** A processor's handler gets the messages of its channel once each, in the order they
    were sent, and what it has not had yet is still in the channel. [OnTimeout] is only
    called when the timeout has passed since the start or the end of some message, and
    nothing is called once the goroutine has returned. *)
Theorem processor_calls s : reachable s ->
  (has_handler = true -> handled (log s) ++ channel s = sent (log s)) /\
  (forall pre t post, log s = pre ++ OnTimeout t :: post ->
     exists t0, Armed t0 ∈ pre /\ t0 + timeout <= t) /\
  (forall pre post, log s = pre ++ Stopped :: post -> Forall (fun e => is_call e = false) post).
Proof.
  intros Hr%processor_inv. split; [|split].
  - intros Hh. rewrite (inv_handled s Hr Hh). apply Hr.
  - apply Hr.
  - apply Hr.
Qed.

(** The steps of the goroutine and of its clock. *)
Inductive own_step : State -> State -> Prop :=
  | own_pass d s : 0 <= d -> own_step s (pass d s)
  | own_expire e s : timer s = Some e -> e <= now s -> own_step s (expire s)
  | own_message_done s : at_ s = Handling -> own_step s (message_done s)
  | own_tick s : at_ s = Select -> timed = true -> tick s = true -> own_step s (take_tick s)
  | own_stop s : at_ s = Select -> tb_dying (t_ (tomb s)) = true -> own_step s (stop s).

Lemma own_step_step s s' : own_step s s' -> step s s'.
Proof.
  destruct 1; [by apply step_pass|by eapply step_expire|by apply step_message_done
    |by apply step_tick|by apply step_stop].
Qed.

Definition ended (s : State) : Prop :=
  at_ s = Returned /\ tb_dead (t_ (tomb s)) = true /\
  (exists tb err, Wait_return (tomb s) = Some (tb, err) /\ locked tb = false).

Lemma stop_ended s : inv s -> at_ s = Select -> ended (stop s).
Proof.
  intros Hi Ha. pose proof (inv_stop s Hi Ha) as Hs.
  split; [done|]. split; [apply (inv_dead _ Hs)|]. unfold Wait_return.
  rewrite (inv_gos _ Hs), (inv_dead _ Hs) by done. cbn. eauto.
Qed.

(** Dying, the goroutine in its loop can return. *)
Lemma dying_ends s : inv s -> at_ s = Select -> tb_dying (t_ (tomb s)) = true ->
  exists s', rtc own_step s s' /\ ended s'.
Proof.
  intros Hi Ha Hy. exists (stop s). split; [|by apply stop_ended].
  apply rtc_once. by constructor.
Qed.

(** A tick in the channel is taken, and the tomb killed. *)
Lemma tick_ends s : inv s -> timed = true -> at_ s = Select -> tick s = true ->
  exists s', rtc own_step s s' /\ ended s'.
Proof.
  intros Hi Ht Ha Htick. destruct (dying_ends (take_tick s)) as (s' & Hs' & He);
    [by apply inv_take_tick|done|apply kill_law|].
  exists s'. split; [|done]. eapply rtc_l; [by apply own_tick|done].
Qed.

Lemma select_ends s : inv s -> at_ s = Select -> timed = true \/ tb_dying (t_ (tomb s)) = true ->
  exists s', rtc own_step s s' /\ ended s'.
Proof.
  intros Hi Ha [Ht|Hy]; [|by apply dying_ends].
  destruct (inv_watch s Hi Ht Ha) as [Htm|[Htick|Hy]];
    [|by apply tick_ends|by apply dying_ends].
  destruct (timer s) as [e|] eqn:He; [|done].
  set (d := Z.max 0 (e - now s)).
  assert (Hp : inv (pass d s)) by (apply (inv_step s); [by constructor; lia|done]).
  assert (Hx : own_step (pass d s) (expire (pass d s))) by (apply (own_expire e); cbn; [done|lia]).
  destruct (tick_ends (expire (pass d s))) as (s' & Hs' & Hend); try done.
  { apply (inv_step (pass d s)); [by apply own_step_step|done]. }
  exists s'. split; [|done].
  eapply rtc_l; [apply (own_pass d s); lia|]. by eapply rtc_l.
Qed.

(** C32. A processor ends. Once its tomb is dying - [Close] was called, or it timed out -
    the goroutine can return by itself, whatever waits in the channel, and then [Wait]
    returns; and a processor with a timeout that gets no message ends by itself. *)
Theorem processor_ends s : reachable s -> running (at_ s) = true ->
  timed = true \/ tb_dying (t_ (tomb s)) = true ->
  exists s', rtc own_step s s' /\ ended s'.
Proof.
  intros Hi%processor_inv Hrun H. destruct (at_ s) eqn:Ha; try discriminate.
  - by apply select_ends.
  - assert (Hd : inv (message_done s)) by (apply (inv_step s); [by constructor|done]).
    destruct (select_ends (message_done s)) as (s' & Hs' & He); [done|..].
    + unfold message_done, set_timer. by destruct timed.
    + destruct H as [H|H]; [by left|right]. unfold message_done, set_timer. by destruct timed.
    + exists s'. split; [|done]. eapply rtc_l; [by apply own_message_done|done].
Qed.
End processor.

(** ** Examples *)

(** A tomb that satisfies the laws. *)
Record simple_tomb := { count : nat; dying : bool; dead : bool; reason : option error }.

#[export] Instance simple_TombV2 : TombV2 simple_tomb := {
  tb_new := {| count := 0; dying := false; dead := false; reason := None |};
  tb_Go t := if dead t then Panic "tomb.Go called after all goroutines terminated"
             else Ok {| count := S (count t); dying := dying t; dead := false; reason := reason t |};
  tb_Kill r t := {| count := count t; dying := true; dead := dead t; reason := first_reason (reason t) r |};
  tb_return r t := {| count := Nat.pred (count t);
    dying := dying t || Nat.eqb (Nat.pred (count t)) 0 || (match r with Some _ => true | None => false end);
    dead := Nat.eqb (Nat.pred (count t)) 0; reason := first_reason (reason t) r |};
  tb_dying := dying; tb_dead := dead; tb_running := count; tb_Err := reason }.

#[export] Instance simple_laws : TombLaws simple_tomb.
Proof.
  split; cbn.
  - done.
  - intros t. destruct (dead t); eauto 10.
  - done.
  - intros r t n ->. done.
Qed.

Ltac one_step c := eapply rtc_l; [eapply c; first [reflexivity | lia | vm_compute; discriminate]|].

(** A message comes at 5 and takes 6; the timer, set at 0, expires at 10. *)
Definition slow_handler (tail : @State string simple_tomb -> Prop) : Prop :=
  exists s, rtc (step 10 true) (NewProcessor 0) s /\ tail s.

(** The tick of a timer that expired while a message was handled is still there after
    [Reset]: [OnTimeout] is called at 11, at the moment the timer is set again. *)
Example stale_tick :
  slow_handler (fun s => exists pre, log s = pre ++ [Armed 11; OnTimeout 11]).
Proof.
  eexists. split.
  - one_step (step_start (V:=string)). one_step (step_pass (V:=string) 10 true 5).
    one_step (step_send (V:=string) 10 true "m"). one_step (step_message (V:=string) 10 true "m").
    one_step (step_pass (V:=string) 10 true 6). one_step (step_expire (V:=string) 10 true 10).
    one_step (step_message_done (V:=string) 10 true). one_step (step_tick (V:=string) 10 true).
    apply rtc_refl.
  - vm_compute. eexists (_ :: _ :: _ :: []). reflexivity.
Qed.

Definition started : @State string simple_tomb :=
  default (NewProcessor 0) (Start 10 (NewProcessor 0)).

Lemma started_reachable : reachable 10 true started.
Proof. exists 0. one_step (step_start (V:=string)). apply rtc_refl. Qed.

Lemma processor_calls_witness :
  handled (log started) ++ channel started = sent (log started).
Proof. apply (processor_calls 10 true started started_reachable). reflexivity. Defined.

Lemma processor_ends_witness :
  exists s', rtc (own_step 10 true) started s' /\ ended s'.
Proof.
  apply (processor_ends 10 true started started_reachable).
  - reflexivity.
  - left. reflexivity.
Defined.
