(* ===== verification/DmStart.v ===== *)
(** * dmcontext/context.go: making, starting and running a driver's context

    [NewContext] makes the context of a service, loads the models, the templates and the
    devices of the driver, makes the client of the system's broker with the topics of all
    devices and starts it; [Start] opens a channel per device; [Run] of run.go puts them
    together. The service's context is SysContext's, the rest of the driver's DmContext's. *)

From Stdlib Require Import ZArith Lia Ascii String.
From stdpp Require Import base option list strings gmap fin_maps.
From S2P Require Import Prelude GoValue GoEqual MqttPacket DmTypes DmContext.
From S2P Require UtilsConf LogConfig Pki SysContext DmDevice Tomb.

Local Open Scope string_scope.
Local Open Scope list_scope.

Definition DefaultSubDeviceConf : string := "etc/baetyl/sub_devices.yml".
Definition DefaultDeviceModelConf : string := "etc/baetyl/models.yml".
Definition DefaultAccessTemplateConf : string := "etc/baetyl/access_template.yml".

(** What the libraries do to a value of a configuration's type: the yaml decoder, the
    defaults and the validator. *)
Record codec (T : Type) := {
  yaml_Unmarshal : string -> T -> T * option error;
  SetDefaults : T -> T * option error;
  validate : T -> option error }.
Arguments yaml_Unmarshal {T}. Arguments SetDefaults {T}. Arguments validate {T}.

Section start.
Context (ReadFile : string -> outcome string).

(** [unmarshalYAML(file, out)]: the value after it, and its error. *)
Definition unmarshalYAML {T} (cd : codec T) (file : string) (out : T) : outcome (T * option error) :=
  match ReadFile file with
  | Ok bs => Ok (yaml_Unmarshal cd bs out)
  | Err e => Ok (out, Some e)
  | Panic w => Panic w
  | NoFuel => NoFuel
  end.

(** A configuration that cannot be loaded is finished from an empty text. *)
Definition load {T} (cd : codec T) (file : string) (out : T) : outcome T :=
  '(out, err) ← unmarshalYAML cd file out;
  match err with
  | Some _ => Ok (fst (UtilsConf.UnmarshalYAML (yaml_Unmarshal cd) (SetDefaults cd) (validate cd) "" out))
  | None => Ok out
  end.

(** The codecs of the three files. *)
Context (models : codec (gomap (goslice DeviceProperty))) (templates : codec (gomap AccessTemplate))
  (driver : codec driverConfig).

(** The process, as in SysContext: the environment, the files, the configuration of the
    system, zap and the cryptography. *)
Context (env : SysContext.environment) (environ : list string) (Stat : string -> UtilsConf.FileInfo)
  (template : string -> gmap string string -> outcome string)
  (system : codec SysContext.SystemConfig) (zero : SysContext.SystemConfig)
  (unicode_lower : string -> string)
  (Build : LogConfig.ZapConfig -> list (string * string) -> option error)
  (nil_logger : outcome unit) `{Pki.Crypto}
  {tls_Config : Type} (NewTLSConfigClient : SysContext.Cert -> outcome tls_Config).

Abbreviation logger := (@LogConfig.Logger (string * string)).
Abbreviation sys_NewContext :=
  (SysContext.NewContext env environ Stat ReadFile template (yaml_Unmarshal system)
     (SetDefaults system) (validate system) zero unicode_lower Build nil_logger).
Abbreviation NewSystemBrokerClient :=
  (SysContext.NewSystemBrokerClient Stat ReadFile NewTLSConfigClient).

Record Driver := {
  parent : SysContext.ctx;
  dm : DmCtx;
  mqtt : ClientOptions tls_Config
}.

Definition nil_client_panic : string := "invalid memory address or nil pointer dereference".

(** [NewContext(confFile)]. When the client cannot be made, that is logged, and [Start] is
    called on the nil client. *)
Definition NewContext (confFile : string) (global : logger) : outcome Driver :=
  '(parent, _) ← sys_NewContext confFile global;
  node ← SysContext.NodeName parent;
  _ ← SysContext.AppName parent;
  _ ← SysContext.ServiceName parent;
  deviceModels ← load models DefaultDeviceModelConf None;
  accessTemplates ← load templates DefaultAccessTemplateConf None;
  dCfg ← load driver DefaultSubDeviceConf {| drv_Devices := None; drv_Driver := "" |};
  let '(devices, subs) := load_devices (default [] (drv_Devices dCfg)) in
  match NewSystemBrokerClient parent subs with
  | Ok ops =>
      Ok {| parent := parent;
            dm := {| c_NodeName := node; eventCb := None; deltaCb := None; propertyGetCb := None;
                     response := ∅; devices := devices; driverConfig_ := drv_Driver dCfg;
                     propsConfig := None; accessConfig_ := None; deviceModels := deviceModels;
                     accessTemplates := name_templates accessTemplates; lastReportProperties := ∅ |};
            mqtt := ops |}
  | Err _ => Panic nil_client_panic
  | Panic w => Panic w
  | NoFuel => NoFuel
  end.

(** [GetAllDevices()], in the order of a range over the map. *)
Definition GetAllDevices (order : gmap string DeviceInfo -> list (string * DeviceInfo)) (c : DmCtx)
    : list DeviceInfo := (order (devices c)).*2.

(** [Run(handle)], once the flags are read: what it logs at its end. Its recover covers
    [Start] and the handler, not [NewContext]. *)
Definition Run (conf : option string) (global : logger) (handle : Driver -> outcome unit)
    : outcome string :=
  c ← NewContext (default SysContext.default_conf conf) global;
  match handle c with
  | Ok _ => Ok "service has stopped"
  | Err _ => Ok "service has stopped with error"
  | Panic _ => Ok "service is stopped with panic"
  | NoFuel => NoFuel
  end.

(** [Close()], after the client is closed; [None] when [Wait] does not return at once. *)
Definition Close {T} `{!Tomb.TombV2 T} (tb : Tomb.Tomb T) : option (Tomb.Tomb T * option error) :=
  match Tomb.Wait_lock (Tomb.Kill None tb) with
  | Some tb => Tomb.Wait_return tb
  | None => None
  end.

(** The goroutines of [Start] are not the tomb's, so [Close] does not wait for them: it
    returns at once, and a handler may still be running. *)
Lemma close_does_not_wait {T} `{!Tomb.TombV2 T} :
  exists tb, Close Tomb.zero_Tomb = Some (tb, None) /\ Tomb.locked tb = false.
Proof. eexists. split; reflexivity. Qed.

(** ** Loading the devices *)

(** The topics of a device the client subscribes to. *)
Definition device_topics (dev : DeviceInfo) : list QOSTopic :=
  let t := dev_DeviceTopic dev in [dt_Delta t; dt_Event t; dt_GetResponse t; dt_PropertyGet t].

(** The last device of a name in the configuration. *)
Definition last_named (name : string) (devs : list DeviceInfo) : option DeviceInfo :=
  last (filter (fun d => dev_Name d = name) devs).

Lemma load_devices_snoc devs dev :
  load_devices (devs ++ [dev]) =
  (<[dev_Name dev := dev]> (fst (load_devices devs)), snd (load_devices devs) ++ device_topics dev).
Proof. unfold load_devices. rewrite foldl_app. cbn. by destruct (foldl _ _ devs). Qed.

Lemma load_devices_spec devs :
  (forall name, fst (load_devices devs) !! name = last_named name devs) /\
  snd (load_devices devs) = devs ≫= device_topics.
Proof.
  induction devs as [|dev devs [IHd IHs]] using rev_ind; [done|].
  rewrite load_devices_snoc. cbn [fst snd]. split.
  - intros name. unfold last_named. rewrite filter_app. destruct (decide (dev_Name dev = name)) as [<-|Hne].
    + rewrite lookup_insert_eq, filter_cons_True by done.
      rewrite filter_nil. by rewrite last_snoc.
    + rewrite lookup_insert_ne, filter_cons_False, filter_nil by done. by rewrite app_nil_r.
  - rewrite IHs, bind_app. reflexivity.
Qed.

Lemma dom_load_devices devs :
  dom (fst (load_devices devs)) = list_to_set (C := gset string) (map dev_Name devs).
Proof.
  induction devs as [|dev devs IH] using rev_ind; [done|].
  rewrite load_devices_snoc. cbn [fst]. rewrite dom_insert_L, IH, map_app, list_to_set_app_L.
  cbn. set_solver.
Qed.

(** The parts of a context that was made. *)
Lemma NewContext_ok confFile g c : NewContext confFile g = Ok c ->
  exists g' dCfg tpls,
    sys_NewContext confFile g = Ok (parent c, g') /\
    load driver DefaultSubDeviceConf {| drv_Devices := None; drv_Driver := "" |} = Ok dCfg /\
    NewSystemBrokerClient (parent c) (snd (load_devices (default [] (drv_Devices dCfg)))) = Ok (mqtt c) /\
    devices (dm c) = fst (load_devices (default [] (drv_Devices dCfg))) /\
    accessTemplates (dm c) = name_templates tpls /\
    response (dm c) = ∅ /\ lastReportProperties (dm c) = ∅ /\
    eventCb (dm c) = None /\ deltaCb (dm c) = None /\ propertyGetCb (dm c) = None.
Proof.
  unfold NewContext. intros Hc. apply outcome_bind_ok in Hc as ([par g'] & Hp & Hc).
  apply outcome_bind_ok in Hc as (node & Hn & Hc).
  do 2 apply outcome_bind_ok in Hc as (? & _ & Hc).
  apply outcome_bind_ok in Hc as (ms & Hm & Hc). apply outcome_bind_ok in Hc as (tpls & Ht & Hc).
  apply outcome_bind_ok in Hc as (dCfg & Hd & Hc).
  destruct (load_devices _) as [devs subs] eqn:Hl.
  destruct (NewSystemBrokerClient par subs) as [ops| | |] eqn:Ho; try discriminate.
  injection Hc as <-. cbn. exists g', dCfg, tpls. rewrite Hl. cbn. by repeat split.
Qed.

(** C23. A driver's context, once made. It has the devices of the configuration, the last one
    where a name comes twice, and every device has a channel when it is started; its
    client subscribes to the four topics of each device of the configuration, in its order,
    and to nothing else; the templates have the names of their keys; nobody is called
    back, nothing is waited for and nothing has been reported yet. *)
Theorem driver_context confFile g c : NewContext confFile g = Ok c ->
  exists dCfg,
    load driver DefaultSubDeviceConf {| drv_Devices := None; drv_Driver := "" |} = Ok dCfg /\
    (forall name, GetDevice (dm c) name =
       lookup_or (last_named name (default [] (drv_Devices dCfg))) DmDevice.ErrDeviceNotExist) /\
    dom (Start (M:=unit) (dm c)) = list_to_set (map dev_Name (default [] (drv_Devices dCfg))) /\
    Subscriptions (mqtt c) =
      map (fun t => {| sub_Topic := qt_Topic t; sub_QOS := toQOS (qt_QOS t) |})
          (default [] (drv_Devices dCfg) ≫= device_topics) /\
    (forall name tpl, mget (accessTemplates (dm c)) name = Some tpl -> tpl_Name tpl = name) /\
    response (dm c) = ∅ /\ lastReportProperties (dm c) = ∅ /\
    eventCb (dm c) = None /\ deltaCb (dm c) = None /\ propertyGetCb (dm c) = None.
Proof.
  intros (g' & dCfg & tpls & _ & Hd & Ho & Hdev & Ht & Hrest)%NewContext_ok.
  exists dCfg. split; [done|].
  destruct (load_devices_spec (default [] (drv_Devices dCfg))) as [Hm Hs].
  split; [|split; [|split; [|split; [|done]]]].
  - intros name. unfold GetDevice. by rewrite Hdev, Hm.
  - unfold Start. rewrite dom_fmap_L, Hdev. apply dom_load_devices.
  - rewrite Hs in Ho. by apply SysContext.system_client_subscriptions in Ho as [-> _].
  - intros name tpl. rewrite Ht. destruct tpls as [m|]; cbn; [|done].
    rewrite map_lookup_imap. destruct (m !! name); cbn; [|done]. by intros [= <-].
Qed.

(** The names of a service's context are texts. *)
Lemma names_stored confFile g par g' : sys_NewContext confFile g = Ok (par, g') ->
  (exists n, SysContext.NodeName par = Ok n) /\ (exists a, SysContext.AppName par = Ok a) /\
  (exists v, SysContext.ServiceName par = Ok v).
Proof.
  unfold SysContext.NewContext. intros (sc & _ & Hc)%outcome_bind_ok.
  destruct (LogConfig.Init _ _ _ _ _) as [l g2].
  assert (Hm : exists conf v, SysContext.map_ par =
    SysContext.Store (SysContext.stored_names env conf) SysContext.KeySysConf v).
  { destruct l; [injection Hc as <- _; cbn; eauto| |discriminate..].
    apply outcome_bind_ok in Hc as (u & _ & Hc). injection Hc as <- _. cbn. eauto. }
  destruct Hm as (conf & v & Hm).
  unfold SysContext.NodeName, SysContext.AppName, SysContext.ServiceName, SysContext.text,
    SysContext.Load. rewrite Hm. unfold SysContext.stored_names, SysContext.Store.
  split; [|split]; eexists; rewrite ?lookup_insert_ne by done; rewrite lookup_insert_eq; reflexivity.
Qed.

(** Reading files gives contents or errors. *)
Definition files_readable : Prop := forall f, exists bs e, ReadFile f = Ok bs \/ ReadFile f = Err e.

Lemma load_returns {T} (cd : codec T) file out : files_readable -> exists t, load cd file out = Ok t.
Proof.
  intros Hf. unfold load, unmarshalYAML. destruct (Hf file) as (bs & e & [->| ->]); cbn; [|eauto].
  destruct (yaml_Unmarshal cd bs out) as [? []]; eauto.
Qed.

(** A driver needs the client of the system's broker. When the service's context is made
    but the client is not - the system's certificate is missing or not accepted, say -
    [NewContext] panics, and so does [Run]: the error is logged and then the
    nil client is started. *)
Theorem driver_needs_client conf g par g' handle :
  files_readable ->
  sys_NewContext (default SysContext.default_conf conf) g = Ok (par, g') ->
  (exists e, SysContext.CheckSystemCert Stat ReadFile par = Err e) ->
  NewContext (default SysContext.default_conf conf) g = Panic nil_client_panic /\
  Run conf g handle = Panic nil_client_panic.
Proof.
  intros Hf Hp (e & He).
  assert (HN : NewContext (default SysContext.default_conf conf) g = Panic nil_client_panic).
  { unfold NewContext. rewrite Hp. cbn [mbind outcome_bind].
    destruct (names_stored _ _ _ _ Hp) as ((n & ->) & (a & ->) & (v & ->)). cbn [mbind outcome_bind].
    destruct (load_returns models DefaultDeviceModelConf None Hf) as (ms & ->).
    destruct (load_returns templates DefaultAccessTemplateConf None Hf) as (ts & ->).
    destruct (load_returns driver DefaultSubDeviceConf {| drv_Devices := None; drv_Driver := "" |} Hf)
      as (dc & ->). cbn [mbind outcome_bind].
    destruct (load_devices _) as [devs subs].
    unfold SysContext.NewSystemBrokerClient, SysContext.NewSystemBrokerClientConfig.
    by rewrite He. }
  split; [done|]. unfold Run. by rewrite HN.
Qed.
End start.

(** ** Examples *)

Definition topic (t : string) : QOSTopic := {| qt_QOS := 1; qt_Topic := t |}.
Definition topics (dev : string) : DeviceTopic :=
  let t k := topic ("thing/m/" +:+ dev +:+ "/" +:+ k) in
  {| dt_Delta := t "property/invoke"; dt_Report := t "property/post"; dt_Event := t "event/post";
     dt_Get := t "get"; dt_GetResponse := t "get/reply"; dt_EventReport := t "event/report";
     dt_PropertyGet := t "property/get"; dt_LifecycleReport := t "lifecycle/post" |}.
Definition device1 (version : string) : DeviceInfo :=
  {| dev_Name := "d1"; dev_Version := version; dev_Topic := dev_Topic zero_DeviceInfo; dev_DeviceModel := "m";
     dev_AccessTemplate := "t"; dev_DeviceTopic := topics "d1"; dev_AccessConfig := None |}.

Definition keep {T} : codec T :=
  {| yaml_Unmarshal := fun _ t => (t, None); SetDefaults := fun t => (t, None); validate := fun _ => None |}.
Definition two_versions : codec driverConfig :=
  {| yaml_Unmarshal := fun text t =>
       if String.eqb text "" then (t, None)
       else ({| drv_Devices := Some [device1 "1"; device1 "2"]; drv_Driver := "drv" |}, None);
     SetDefaults := fun t => (t, None); validate := fun _ => None |}.
Definition with_cert : codec SysContext.SystemConfig :=
  {| yaml_Unmarshal := fun _ c => (c, None); SetDefaults := SysContext.only_cert; validate := fun _ => None |}.

Definition files (path : string) : outcome string :=
  if String.eqb path DefaultSubDeviceConf then Ok "devices: two of them"
  else SysContext.leaf_file path.

Abbreviation driver_new Stat := (
  NewContext files keep keep two_versions SysContext.service_env [] Stat (fun s _ => Ok s) with_cert SysContext.zero_conf id (fun _ _ => None) (Panic "nil logger")
    (H0 := Pki.Toy.crypto) (fun _ => Ok tt)).

(** The device keeps its last version; its topics are subscribed twice. *)
Lemma driver_context_witness : exists c, driver_new SysContext.present "conf.yml" SysContext.first_logger = Ok c /\
  GetDevice (dm c) "d1" = Ok (device1 "2") /\ length (Subscriptions (mqtt c)) = 8.
Proof.
  assert (Hc : exists c, driver_new SysContext.present "conf.yml" SysContext.first_logger = Ok c)
    by (eexists; vm_compute; reflexivity).
  destruct Hc as [c Hc]. exists c. split; [exact Hc|].
  destruct (driver_context _ _ _ _ _ _ _ _ _ _ _ _ _ _ _ _ _ Hc) as (dCfg & Hd & Hg & _ & Hs & _).
  injection Hd as <-. split; [rewrite Hg; reflexivity|rewrite Hs; reflexivity].
Defined.

Definition absent (path : string) : UtilsConf.FileInfo := UtilsConf.StatError false.

Lemma driver_needs_client_witness :
  driver_new absent "conf.yml" SysContext.first_logger = Panic nil_client_panic.
Proof.
  assert (Hp : exists par g', SysContext.NewContext SysContext.service_env [] absent files (fun s _ => Ok s)
    (yaml_Unmarshal with_cert) (SetDefaults with_cert) (validate with_cert) SysContext.zero_conf id
    (fun _ _ => None) (Panic "nil logger") "conf.yml" SysContext.first_logger = Ok (par, g') /\
    SysContext.CheckSystemCert (H0 := Pki.Toy.crypto) absent files par = Err SysContext.ErrSystemCertNotFound).
  { do 2 eexists. split; vm_compute; reflexivity. }
  destruct Hp as (par & g' & Hp & He).
  refine (proj1 (driver_needs_client files keep keep two_versions SysContext.service_env [] absent
    (fun s _ => Ok s) with_cert SysContext.zero_conf id (fun _ _ => None) (Panic "nil logger")
    (fun _ => Ok tt) (Some "conf.yml") SysContext.first_logger par g' (fun _ => Ok tt) _ Hp _)).
  - intros f. unfold files, SysContext.leaf_file.
    destruct (String.eqb f DefaultSubDeviceConf); [by exists "devices: two of them", ""; left|].
    destruct (String.eqb f "crt.pem"); [|by exists "", "no such file"; right].
    vm_compute. eexists _, "". left. reflexivity.
  - eexists. exact He.
Defined.
