(* ===== verification/MockFlow.v ===== *)
(** * mock/msg_flow.go: flows of packets played against a connection

    A [Flow] is a list of actions: to send packets, to receive some in any order, to skip
    packets of some types, to run a function, to close the connection, to see its end.
    [Test] plays it on a connection. It is proved against an inductive definition of the
    connections a flow accepts. *)

From Stdlib Require Import ZArith Lia String.
From stdpp Require Import base option list strings gmap fin_maps fin_sets relations.
From S2P Require Import Prelude.

Local Open Scope string_scope.
Local Open Scope list_scope.

(** ** Connections *)

Section flow.
(** Packets, nil among them, and what [%v] and [%T] print of them. *)
Context {P : Type}.
Abbreviation packet := (option P).
Context (text type_text : packet -> string).

(** A [Conn] with the state [C]; [None] is a call that blocks for ever. *)
Class Conn (C : Type) := {
  conn_Send : packet -> C -> option (C * option error);
  conn_Receive : C -> option (C * (packet * option error));
  conn_Close : C -> option (C * option error) }.

(** ** Flows *)

Inductive action (C : Type) :=
  | actionSend (packets : list packet)
  | actionReceive (packets : list packet)
  | actionSkip (packets : list packet)
  | actionRun (fn : C -> option C)
  | actionClose
  | actionEnd.
Arguments actionSend {C}. Arguments actionReceive {C}. Arguments actionSkip {C}.
Arguments actionRun {C}. Arguments actionClose {C}. Arguments actionEnd {C}.

Record Flow (C : Type) := { debug : bool; actions : list (action C) }.
Arguments debug {C}. Arguments actions {C}. Arguments Build_Flow {C}.

Section test.
Context {C : Type} `{!Conn C}.
(** The order of a range over the packets not yet seen. *)
Context (order : gmap nat string -> list (nat * string)).

Definition NewFlow : Flow C := {| debug := false; actions := [] |}.
Definition Debug (f : Flow C) : Flow C := {| debug := true; actions := actions f |}.
Definition add (a : action C) (f : Flow C) : Flow C :=
  {| debug := debug f; actions := actions f ++ [a] |}.
Definition Send (pkts : list packet) (f : Flow C) : Flow C := add (actionSend pkts) f.
Definition Receive (pkts : list packet) (f : Flow C) : Flow C := add (actionReceive pkts) f.
Definition Skip (pkts : list packet) (f : Flow C) : Flow C := add (actionSkip pkts) f.
Definition Run (fn : C -> option C) (f : Flow C) : Flow C := add (actionRun fn) f.
Definition Close (f : Flow C) : Flow C := add actionClose f.
Definition End (f : Flow C) : Flow C := add actionEnd f.

(** The state of the connection afterwards and the error, if any. *)
Abbreviation played := (option (C * option error)).

Fixpoint send_all (pkts : list packet) (c : C) : played :=
  match pkts with
  | [] => Some (c, None)
  | pkt :: pkts =>
      match conn_Send pkt c with
      | None => None
      | Some (c, Some err) => Some (c, Some ("error sending packet: " +:+ err))
      | Some (c, None) => send_all pkts c
      end
  end.

(** [store] numbers the packets. *)
Definition new_store (print : packet -> string) (pkts : list packet) : gmap nat string :=
  map_seq 0 (map print pkts).

(** The first number, in the order of the range, whose packet prints as [p]. *)
Definition find_packet (p : string) (store : gmap nat string) : option nat :=
  match list_find (fun e => snd e = p) (order store) with
  | Some (_, (i, _)) => Some i
  | None => None
  end.

(** The loops of [actionReceive] and [actionSkip]: they differ in what they compare and in
    their errors. The loop takes a packet from the store each time around. *)
Fixpoint take_packets (fuel : nat) (print : packet -> string) (failed unexpected : string)
    (store : gmap nat string) (c : C) : played :=
  if Nat.eqb (size store) 0 then Some (c, None)
  else
    match fuel with
    | O => None
    | S fuel =>
        match conn_Receive c with
        | None => None
        | Some (c, (_, Some err)) => Some (c, Some (failed +:+ err))
        | Some (c, (pkt, None)) =>
            match find_packet (print pkt) store with
            | Some i => take_packets fuel print failed unexpected (delete i store) c
            | None => Some (c, Some (unexpected +:+ print pkt))
            end
        end
    end.

Definition take_all (print : packet -> string) (failed unexpected : string) (pkts : list packet) (c : C) : played :=
  take_packets (length pkts) print failed unexpected (new_store print pkts) c.

Definition test (c : C) (a : action C) : played :=
  match a with
  | actionSend pkts => send_all pkts c
  | actionReceive pkts =>
      take_all text "expected to receive a packet but got error: " "unexpected packet " pkts c
  | actionSkip pkts =>
      take_all type_text "expected to skip over a received packet but got error: "
        "unexpected to receive a packet of type " pkts c
  | actionRun fn => match fn c with Some c => Some (c, None) | None => None end
  | actionClose =>
      match conn_Close c with
      | None => None
      | Some (c, Some err) =>
          Some (c, Some ("expected connection to close successfully but got error: " +:+ err))
      | Some (c, None) => Some (c, None)
      end
  | actionEnd =>
      match conn_Receive c with
      | None => None
      | Some (c, (pkt, err)) =>
          if match err with Some err => negb (Contains err "EOF") | None => false end
          then Some (c, Some ("expected EOF but got " +:+ default "" err))
          else match pkt with
               | Some _ => Some (c, Some ("expected no packet but got " +:+ text pkt))
               | None => Some (c, None)
               end
      end
  end.

(** The loop of [Test]: the first error ends it. *)
Fixpoint test_all (c : C) (l : list (action C)) : played :=
  match l with
  | [] => Some (c, None)
  | a :: l =>
      match test c a with
      | Some (c, None) => test_all c l
      | r => r
      end
  end.
Definition Test (f : Flow C) (c : C) : played := test_all c (actions f).

(** [TestAsync]: the operand of the send, a whole [Test], is evaluated before the select
    waits for anything. [run] is how long the test takes and what it returns, [None] when it
    does not return; the select chooses between what is then ready. *)
Inductive TestAsync (timeout : Z) (run : option (Z * option error)) : option error -> Prop :=
  | async_result d r : run = Some (d, r) -> TestAsync timeout run r
  | async_timeout d r : run = Some (d, r) -> (timeout <= d)%Z ->
      TestAsync timeout run (Some "timed out waiting for flow to complete").

(** Contrary to what its timeout is for, a flow that blocks is never reported. *)
Lemma async_never_times_out timeout r : ~ TestAsync timeout None r.
Proof. by inversion 1. Qed.

(** ** The loop takes what it is told, in any order *)

Context (Horder : forall m, order m ≡ₚ map_to_list m).

Definition values (m : gmap nat string) : list string := (map_to_list m).*2.

Lemma find_packet_spec p m :
  match find_packet p m with
  | Some i => m !! i = Some p
  | None => p ∉ values m
  end.
Proof.
  unfold find_packet. destruct (list_find _ _) as [[j [i q]]|] eqn:E.
  - apply list_find_Some in E as (Hj & Hq & _). cbn in Hq. subst q.
    apply elem_of_map_to_list. rewrite <- (Horder m). by eapply list_elem_of_lookup_2.
  - intros Hin. unfold values in Hin. rewrite <- (Horder m) in Hin.
    apply list_elem_of_fmap in Hin as ([i q] & -> & Hin).
    apply list_find_None in E. rewrite Forall_forall in E. by apply (E _ Hin).
Qed.

Lemma values_delete i p m : m !! i = Some p -> values m ≡ₚ p :: values (delete i m).
Proof. intros H. unfold values. by rewrite <- (map_to_list_delete m i p H). Qed.

Lemma values_length m : length (values m) = size m.
Proof. unfold values. by rewrite length_fmap, length_map_to_list. Qed.

Lemma values_new_store print pkts : values (new_store print pkts) ≡ₚ map print pkts.
Proof.
  unfold values, new_store. rewrite map_to_list_seq, snd_zip; [done|].
  by rewrite length_seq.
Qed.

Inductive receives : C -> list packet -> C -> Prop :=
  | receives_nil c : receives c [] c
  | receives_cons c pkt c1 l c2 : conn_Receive c = Some (c1, (pkt, None)) ->
      receives c1 l c2 -> receives c (pkt :: l) c2.

Lemma take_packets_spec fuel print e1 e2 : forall store c c', size store <= fuel ->
  take_packets fuel print e1 e2 store c = Some (c', None) <->
  exists got, receives c got c' /\ map print got ≡ₚ values store.
Proof.
  induction fuel as [|fuel IH]; intros store c c' Hsize; cbn [take_packets];
    destruct (Nat.eqb_spec (size store) 0) as [Hz|Hz]; try lia.
  1,2: apply map_size_empty_inv in Hz; subst store; unfold values; rewrite map_to_list_empty; cbn;
    split; [intros [= ->]; exists []; by split; [constructor|]
           |intros (got & Hr & Hg); apply Permutation_nil_r, map_eq_nil in Hg; subst got;
            by inversion Hr].
  split.
  - destruct (conn_Receive c) as [[c1 [pkt [err|]]]|] eqn:Hc; try discriminate.
    pose proof (find_packet_spec (print pkt) store) as Hf.
    destruct (find_packet _ _) as [i|]; [|discriminate].
    intros H. apply IH in H as (got & Hr & Hg).
    + exists (pkt :: got). split; [by econstructor|]. cbn. by rewrite Hg, (values_delete i _ store Hf).
    + rewrite map_size_delete, Hf. lia.
  - intros (got & Hr & Hg). inversion Hr as [|? pkt c1 l ? Hc Hr']; subst.
    { exfalso. apply Permutation_nil_l in Hg. apply Hz. by rewrite <- values_length, <- Hg. }
    rewrite Hc. pose proof (find_packet_spec (print pkt) store) as Hf.
    destruct (find_packet _ _) as [i|].
    + apply IH; [rewrite map_size_delete, Hf; lia|]. exists l. split; [done|].
      rewrite (values_delete i _ store Hf) in Hg. by apply Permutation_cons_inv in Hg.
    + destruct Hf. rewrite <- Hg. cbn. by left.
Qed.

Lemma take_all_spec print e1 e2 pkts c c' :
  take_all print e1 e2 pkts c = Some (c', None) <->
  exists got, receives c got c' /\ map print got ≡ₚ map print pkts.
Proof.
  unfold take_all. rewrite take_packets_spec.
  - by setoid_rewrite values_new_store.
  - by rewrite <- values_length, values_new_store, length_map.
Qed.

(** ** The connections a flow accepts *)

Inductive sends : C -> list packet -> C -> Prop :=
  | sends_nil c : sends c [] c
  | sends_cons c pkt c1 l c2 : conn_Send pkt c = Some (c1, None) -> sends c1 l c2 ->
      sends c (pkt :: l) c2.

(** [accepts c l c']: the actions find on the connection what they expect. *)
Inductive accepts : C -> list (action C) -> C -> Prop :=
  | accepts_nil c : accepts c [] c
  | accepts_send c pkts c1 l c2 : sends c pkts c1 -> accepts c1 l c2 ->
      accepts c (actionSend pkts :: l) c2
  | accepts_receive c pkts got c1 l c2 : receives c got c1 -> map text got ≡ₚ map text pkts ->
      accepts c1 l c2 -> accepts c (actionReceive pkts :: l) c2
  | accepts_skip c pkts got c1 l c2 : receives c got c1 -> map type_text got ≡ₚ map type_text pkts ->
      accepts c1 l c2 -> accepts c (actionSkip pkts :: l) c2
  | accepts_run c fn c1 l c2 : fn c = Some c1 -> accepts c1 l c2 -> accepts c (actionRun fn :: l) c2
  | accepts_close c c1 l c2 : conn_Close c = Some (c1, None) -> accepts c1 l c2 ->
      accepts c (actionClose :: l) c2
  | accepts_end c c1 err l c2 : conn_Receive c = Some (c1, (None, err)) ->
      (forall e, err = Some e -> Contains e "EOF" = true) -> accepts c1 l c2 ->
      accepts c (actionEnd :: l) c2.

Lemma send_all_spec pkts : forall c c', send_all pkts c = Some (c', None) <-> sends c pkts c'.
Proof.
  induction pkts as [|pkt pkts IH]; intros c c'; cbn [send_all].
  - split; [intros [= ->]; constructor|by inversion 1].
  - split.
    + destruct (conn_Send pkt c) as [[c1 [e|]]|] eqn:Hc; try discriminate.
      intros H%IH. by econstructor.
    + inversion 1 as [|? ? c1 ? ? Hc Hs]; subst. rewrite Hc. by apply IH.
Qed.

(** What one action accepts, in the words of [accepts]. *)
Lemma test_accepts c a l c2 : accepts c (a :: l) c2 <->
  exists c1, test c a = Some (c1, None) /\ accepts c1 l c2.
Proof.
  split.
  - inversion 1 as [|? pkts c1 ? ? Hs Hl|? pkts got c1 ? ? Hr Hp Hl|? pkts got c1 ? ? Hr Hp Hl
      |? fn c1 ? ? Hf Hl|? c1 ? ? Hc Hl|? c1 err ? ? Hr He Hl]; subst; exists c1; split; try done; cbn [test].
    + by apply send_all_spec.
    + apply take_all_spec. eauto.
    + apply take_all_spec. eauto.
    + by rewrite Hf.
    + by rewrite Hc.
    + rewrite Hr. destruct err as [e|]; [|done]. by rewrite (He e eq_refl).
  - intros (c1 & Ht & Hl). destruct a as [pkts|pkts|pkts|fn| |]; cbn [test] in Ht.
    + apply send_all_spec in Ht. by econstructor.
    + apply take_all_spec in Ht as (got & Hr & Hp). by econstructor.
    + apply take_all_spec in Ht as (got & Hr & Hp). by econstructor.
    + destruct (fn c) as [c3|] eqn:Hf; simplify_eq. by econstructor.
    + destruct (conn_Close c) as [[c3 [e|]]|] eqn:Hc; simplify_eq. by econstructor.
    + destruct (conn_Receive c) as [[c3 [pkt err]]|] eqn:Hr; [|discriminate].
      destruct (match err with Some _ => _ | None => _ end) eqn:He; [discriminate|].
      destruct pkt; simplify_eq. econstructor; [done| |done].
      intros e ->. by apply negb_false_iff in He.
Qed.

Definition answers : Prop :=
  (forall pkt c, conn_Send pkt c <> None) /\ (forall c, conn_Receive c <> None) /\
  (forall c, conn_Close c <> None).

Lemma send_all_returns pkts : answers -> forall c, send_all pkts c <> None.
Proof.
  intros (Hs & _). induction pkts as [|pkt pkts IH]; intros c; cbn [send_all]; [done|].
  specialize (Hs pkt c). destruct (conn_Send pkt c) as [[c1 [e|]]|]; [done|apply IH|done].
Qed.

Lemma take_packets_returns fuel print e1 e2 : answers -> forall store c, size store <= fuel ->
  take_packets fuel print e1 e2 store c <> None.
Proof.
  intros Ha. destruct Ha as (_ & Hr & _).
  induction fuel as [|fuel IH]; intros store c Hsize; cbn [take_packets];
    destruct (Nat.eqb_spec (size store) 0) as [Hz|Hz]; try done; [lia|].
  specialize (Hr c). destruct (conn_Receive c) as [[c1 [pkt [err|]]]|]; try done.
  pose proof (find_packet_spec (print pkt) store) as Hf.
  destruct (find_packet _ _) as [i|]; [|done]. apply IH. rewrite map_size_delete, Hf. lia.
Qed.

Lemma take_all_returns print e1 e2 pkts c : answers -> take_all print e1 e2 pkts c <> None.
Proof.
  intros Ha. apply take_packets_returns; [done|].
  by rewrite <- values_length, values_new_store, length_map.
Qed.

Lemma test_returns c a : answers -> (forall fn, a = actionRun fn -> fn c <> None) -> test c a <> None.
Proof.
  intros Ha Hf. destruct a as [pkts|pkts|pkts|fn| |]; cbn [test];
    auto using send_all_returns, take_all_returns; destruct Ha as (_ & Hr & Hc).
  - specialize (Hf fn eq_refl). by destruct (fn c).
  - specialize (Hc c). by destruct (conn_Close c) as [[? []]|].
  - specialize (Hr c). destruct (conn_Receive c) as [[? [pkt err]]|]; [|done].
    by repeat case_match.
Qed.

(** C31. A flow accepts exactly the connections its actions describe: packets are sent in
    order, those to be received come in any order and no others among them, those to be
    skipped have the types given in any order, functions run in their place, the end is a
    receive without a packet that fails with EOF or not at all. Each loop ends with as many
    packets as it waits for, and where the connection and the functions answer,
    [Test] returns. *)
Theorem flow_accepts f c :
  (forall c', Test f c = Some (c', None) <-> accepts c (actions f) c') /\
  (answers -> (forall fn c, actionRun fn ∈ actions f -> fn c <> None) -> Test f c <> None).
Proof.
  unfold Test. split.
  - intros c'. revert c. induction (actions f) as [|a l IH]; intros c; cbn [test_all].
    + split; [intros [= ->]; constructor|by inversion 1].
    + rewrite test_accepts. split.
      * destruct (test c a) as [[c1 [e|]]|] eqn:Ht; try discriminate.
        intros H%IH. eauto.
      * intros (c1 & -> & H). by apply IH.
  - intros Ha. revert c. induction (actions f) as [|a l IH]; intros c Hf; [done|].
    cbn [test_all]. destruct (test c a) as [[c1 [e|]]|] eqn:Ht; [done| |].
    + apply IH. intros fn c0 Hin. apply Hf. by right.
    + exfalso. revert Ht. apply test_returns; [done|]. intros fn ->. apply Hf. by left.
Qed.
End test.
End flow.

(** ** The pipe

    [Pipe] hands a packet from a [Send] to a [Receive] that both wait for it; once it is
    closed both may return an error instead, even with a partner there. *)

Section pipe.
Context {P : Type}.

Record Pipe := {
  senders : gmap nat (option P);      (* calls of [Send] that wait, with their packets *)
  receivers : gset nat;               (* calls of [Receive] that wait *)
  pipe_closed : bool;
  sent : list (option P);             (* of the calls of [Send] that returned nil *)
  received : list (option P);         (* by the calls of [Receive] that returned a packet *)
  failures : nat                      (* calls that returned an error *)
}.

Definition NewPipe : Pipe :=
  {| senders := ∅; receivers := ∅; pipe_closed := false; sent := []; received := []; failures := 0 |}.

Definition calls (s : gmap nat (option P)) (r : gset nat) (p : Pipe) : Pipe :=
  {| senders := s; receivers := r; pipe_closed := pipe_closed p; sent := sent p;
     received := received p; failures := failures p |}.
Definition fail (p : Pipe) : Pipe :=
  {| senders := senders p; receivers := receivers p; pipe_closed := pipe_closed p; sent := sent p;
     received := received p; failures := S (failures p) |}.
Definition hand_over (pkt : option P) (p : Pipe) : Pipe :=
  {| senders := senders p; receivers := receivers p; pipe_closed := pipe_closed p;
     sent := sent p ++ [pkt]; received := received p ++ [pkt]; failures := failures p |}.
Definition close_pipe (p : Pipe) : outcome Pipe :=
  if pipe_closed p then Panic "close of closed channel"
  else Ok {| senders := senders p; receivers := receivers p; pipe_closed := true; sent := sent p;
             received := received p; failures := failures p |}.

Inductive pipe_step : Pipe -> Pipe -> Prop :=
  | pipe_send i pkt p : senders p !! i = None ->
      pipe_step p (calls (<[i := pkt]> (senders p)) (receivers p) p)
  | pipe_receive i p : pipe_step p (calls (senders p) ({[i]} ∪ receivers p) p)
  | pipe_meet i j pkt p : senders p !! i = Some pkt -> j ∈ receivers p ->
      pipe_step p (hand_over pkt (calls (delete i (senders p)) (receivers p ∖ {[j]}) p))
  | pipe_send_fails i pkt p : senders p !! i = Some pkt -> pipe_closed p = true ->
      pipe_step p (fail (calls (delete i (senders p)) (receivers p) p))
  | pipe_receive_fails j p : j ∈ receivers p -> pipe_closed p = true ->
      pipe_step p (fail (calls (senders p) (receivers p ∖ {[j]}) p))
  | pipe_close p p' : close_pipe p = Ok p' -> pipe_step p p'.

(** What was received is what was sent, in order, and a call fails only once the pipe is
    closed; then every waiting call can return. *)
Lemma pipe_reachable p : rtc pipe_step NewPipe p ->
  received p = sent p /\ (failures p <> 0 -> pipe_closed p = true).
Proof.
  assert (Hinv : forall p p', pipe_step p p' ->
    received p = sent p /\ (failures p <> 0 -> pipe_closed p = true) ->
    received p' = sent p' /\ (failures p' <> 0 -> pipe_closed p' = true)).
  { destruct 1; intros [Hr Hf]; cbn; try done; [by rewrite Hr|].
    unfold close_pipe in *. by destruct (pipe_closed p0); simplify_eq. }
  intros H. assert (H0 : received NewPipe = sent NewPipe /\
    (failures NewPipe <> 0 -> pipe_closed NewPipe = true)) by done.
  revert H0. induction H; eauto.
Qed.

Lemma closed_pipe_answers p : pipe_closed p = true ->
  (forall i pkt, senders p !! i = Some pkt ->
     pipe_step p (fail (calls (delete i (senders p)) (receivers p) p))) /\
  (forall j, j ∈ receivers p -> pipe_step p (fail (calls (senders p) (receivers p ∖ {[j]}) p))).
Proof. intros H. split; intros; by econstructor. Qed.
End pipe.

(** ** Examples *)

(** A connection that receives what its script says and then fails with EOF. *)
Record script := { inbox : list (option string); outbox : list (option string); closed : bool }.

#[export] Instance script_Conn : @Conn string script := {
  conn_Send pkt c :=
    if closed c then Some (c, Some "closed")
    else Some ({| inbox := inbox c; outbox := outbox c ++ [pkt]; closed := false |}, None);
  conn_Receive c :=
    match inbox c with
    | pkt :: l => Some ({| inbox := l; outbox := outbox c; closed := closed c |}, (pkt, None))
    | [] => Some (c, (None, Some "EOF"))
    end;
  conn_Close c := Some ({| inbox := inbox c; outbox := outbox c; closed := true |}, None) }.

Definition print (p : option string) : string := default "<nil>" p.
Definition kind_of (p : option string) : string := match p with Some p => String.substring 0 3 p | None => "<nil>" end.
Definition play := Test print kind_of (C:=script) map_to_list.

Definition handshake : @Flow string script :=
  End (Skip [Some "pub 0"; Some "pub 0"] (Receive [Some "sub a"; Some "ping"]
    (Send [Some "connack"] (Receive [Some "connect"] NewFlow)))).

Definition client (l : list (option string)) : script := {| inbox := l; outbox := []; closed := false |}.

Example flows_played :
  play handshake (client [Some "connect"; Some "ping"; Some "sub a"; Some "pub 1"; Some "pub 2"])
    = Some ({| inbox := []; outbox := [Some "connack"]; closed := false |}, None) /\
  play handshake (client [Some "connect"; Some "ping"; Some "ping"])
    = Some ({| inbox := []; outbox := [Some "connack"]; closed := false |}, Some "unexpected packet ping") /\
  play handshake (client [])
    = Some (client [], Some "expected to receive a packet but got error: EOF").
Proof. repeat split; vm_compute; reflexivity. Qed.

Lemma flow_accepts_witness :
  accepts print kind_of (client [Some "connect"; Some "ping"; Some "sub a"; Some "pub 1"; Some "pub 2"])
    (actions _ handshake) {| inbox := []; outbox := [Some "connack"]; closed := false |}.
Proof.
  apply (flow_accepts print kind_of map_to_list (fun m => reflexivity _) handshake).
  vm_compute. reflexivity.
Defined.
