(* ===== verification/UtilsMisc.v ===== *)
(** * errors and the small utilities

    errors/error.go: tracing and codes of errors; utils/flock.go and utils/flock_windows.go:
    waiting for the lock of a file; utils/port.go: free ports; utils/url.go, utils/path.go and utils/version.go: urls, files and the version. *)

From Stdlib Require Import ZArith Lia Ascii String.
From stdpp Require Import base option list strings gmap fin_maps.
From S2P Require Import Prelude GoStrconv GoStrings GoEncoding UtilsConf.

Local Open Scope string_scope.
Local Open Scope Z_scope.
Local Open Scope list_scope.

(** ** errors/error.go *)

(** Errors as the package tells them apart: of another package, with or without a
    [Format] method; of github.com/pkg/errors, from a message or around another error with
    a stack; with a code. *)
Inductive goerror :=
  | Foreign (message : string) (formatter : bool)
  | Message (message : string)
  | WithStack (e : goerror)
  | codeError (e : goerror) (c : string).

Fixpoint Error (e : goerror) : string :=
  match e with
  | Foreign m _ | Message m => m
  | WithStack e | codeError e _ => Error e
  end.

(** The type implements [fmt.Formatter]. *)
Definition is_formatter (e : goerror) : bool :=
  match e with Foreign _ f => f | _ => true end.

Definition New (message : string) : goerror := Message message.
Definition Trace (err : option goerror) : option goerror :=
  match err with
  | None => None
  | Some e => if is_formatter e then Some e else Some (WithStack e)
  end.
Definition CodeError (code message : string) : goerror := codeError (Message message) code.
(** [err.(Coder)] and its code. *)
Definition Code (e : goerror) : option string :=
  match e with codeError _ c => Some c | _ => None end.
(** [errors.Cause]: the innermost error around which stacks were put. *)
Fixpoint Cause (e : goerror) : goerror :=
  match e with WithStack e => Cause e | _ => e end.

(** Tracing changes neither the text, nor the code, nor the cause of an error, adds at most
    one stack and is done once. *)
Lemma trace_keeps e :
  exists e', Trace (Some e) = Some e' /\ Error e' = Error e /\ Code e' = Code e /\
    Cause e' = Cause e /\ Trace (Some e') = Some e'.
Proof. unfold Trace. destruct e as [m []|m|e|e c]; cbn; eauto 10. Qed.

(** log/zap.go: the field with the code of an error; no error and an error without a code
    have none. *)
Definition code_field (err : option goerror) : option (string * string) :=
  match err with
  | Some e => match Code e with Some c => Some ("errorCode", c) | None => None end
  | None => None
  end.
Lemma traced_code err : code_field (Trace err) = code_field err.
Proof.
  destruct err as [e|]; [|done]. destruct (trace_keeps e) as (e' & -> & _ & Hc & _).
  cbn. by rewrite Hc.
Qed.

(** ** utils/flock.go *)

(** Of one call of [syscall.Flock]: the lock, [EWOULDBLOCK], or another error. *)
Inductive flock_result := Locked | WouldBlock | Failed (e : error).

Definition DefaultFlockRetry : Z := 100000.
Definition ErrFlockTimeout : error := "timeout".

Section flock.
(** The n-th call, and the time from the start to the test after it. *)
Context (syscall_Flock : nat -> flock_result) (since : nat -> Z).

(** The loop from its n-th turn on. *)
Fixpoint flock_loop (fuel n : nat) (timeout : Z) : outcome unit :=
  match fuel with
  | O => NoFuel
  | S fuel =>
      match syscall_Flock n with
      | Locked => Ok tt
      | Failed e => Err e
      | WouldBlock =>
          if negb (timeout =? 0) && (timeout - DefaultFlockRetry <? since n) then Err ErrFlockTimeout
          else flock_loop fuel (S n) timeout
      end
  end.
Definition Flock (fuel : nat) (timeout : Z) : outcome unit := flock_loop fuel 0 timeout.

(** [time.Sleep(DefaultFlockRetry)] sleeps at least that long. *)
Definition sleeps : Prop := 0 <= since 0 /\ forall n, since n + DefaultFlockRetry <= since (S n).

Lemma since_grows : sleeps -> forall n, Z.of_nat n * DefaultFlockRetry <= since n.
Proof. intros [H0 Hs]. induction n as [|n IH]; [lia|]. specialize (Hs n). lia. Qed.

(** What the loop returns, by its first turn that is not told to wait. *)
Lemma flock_loop_spec timeout fuel : forall n,
  match flock_loop fuel n timeout with
  | NoFuel => forall i, (n <= i < n + fuel)%nat ->
      syscall_Flock i = WouldBlock /\ (timeout = 0 \/ since i <= timeout - DefaultFlockRetry)
  | r => exists i, (n <= i < n + fuel)%nat /\
      (forall j, (n <= j < i)%nat -> syscall_Flock j = WouldBlock /\
         (timeout = 0 \/ since j <= timeout - DefaultFlockRetry)) /\
      match syscall_Flock i with
      | Locked => r = Ok tt
      | Failed e => r = Err e
      | WouldBlock => r = Err ErrFlockTimeout /\ timeout <> 0 /\ timeout - DefaultFlockRetry < since i
      end
  end.
Proof.
  induction fuel as [|fuel IH]; intros n; cbn [flock_loop]; [lia|].
  destruct (syscall_Flock n) as [| |e] eqn:Hn.
  - exists n. rewrite Hn. split; [lia|]. split; [intros; exfalso; lia|done].
  - destruct (negb (timeout =? 0) && (timeout - DefaultFlockRetry <? since n)) eqn:Ht.
    + apply andb_true_iff in Ht as [Ht1%negb_true_iff%Z.eqb_neq Ht2%Z.ltb_lt].
      exists n. rewrite Hn. split; [lia|]. split; [intros; exfalso; lia|done].
    + assert (Hwait : syscall_Flock n = WouldBlock /\ (timeout = 0 \/ since n <= timeout - DefaultFlockRetry)).
      { split; [done|]. apply andb_false_iff in Ht as [Ht|Ht].
        - left. apply negb_false_iff, Z.eqb_eq in Ht. done.
        - right. by apply Z.ltb_ge in Ht. }
      specialize (IH (S n)).
      assert (Hext : forall i, (forall j, (S n <= j < i)%nat -> syscall_Flock j = WouldBlock /\
          (timeout = 0 \/ since j <= timeout - DefaultFlockRetry)) ->
        forall j, (n <= j < i)%nat -> syscall_Flock j = WouldBlock /\
          (timeout = 0 \/ since j <= timeout - DefaultFlockRetry)).
      { intros i Hi j Hj. destruct (decide (j = n)) as [->|]; [done|]. apply Hi. lia. }
      destruct (flock_loop fuel (S n) timeout) as [[]|e|w|].
      1-3: destruct IH as (i & Hi & Hj & Hr); exists i; split; [lia|]; split; [by apply Hext|done].
      intros i Hi. apply (Hext (S n + fuel)%nat); [|lia]. intros j Hj. by apply IH.
  - exists n. rewrite Hn. split; [lia|]. split; [intros; exfalso; lia|done].
Qed.

(** Waiting for a lock with a timeout ends, after no more turns than the timeout has retry
    intervals and one: with the lock when a turn within the time gets it, with the error
    of the system when it gives one, and with a timeout when the time is over. Without a
    timeout it returns exactly when some call does not find the file locked. *)
Theorem flock_returns timeout :
  (0 < timeout -> sleeps -> forall fuel, timeout < Z.of_nat fuel * DefaultFlockRetry -> Flock fuel timeout <> NoFuel) /\
  (forall fuel, match Flock fuel timeout with
     | NoFuel => True
     | r => exists i, (forall j, (j < i)%nat -> syscall_Flock j = WouldBlock) /\
         match syscall_Flock i with
         | Locked => r = Ok tt
         | Failed e => r = Err e
         | WouldBlock => r = Err ErrFlockTimeout /\ timeout <> 0 /\ timeout - DefaultFlockRetry < since i
         end
     end) /\
  ((exists fuel, Flock fuel 0 <> NoFuel) <-> exists n, syscall_Flock n <> WouldBlock).
Proof.
  unfold Flock. split; [|split].
  - intros Ht Hs fuel Hf Hn. pose proof (flock_loop_spec timeout fuel 0) as H. rewrite Hn in H.
    destruct fuel as [|fuel]; [lia|].
    destruct (H fuel ltac:(lia)) as [_ [->|Hle]]; [lia|].
    pose proof (since_grows Hs fuel). unfold DefaultFlockRetry in *. lia.
  - intros fuel. pose proof (flock_loop_spec timeout fuel 0) as H.
    destruct (flock_loop fuel 0 timeout) as [[]|e|w|]; [| | |done];
      destruct H as (i & _ & Hj & Hr); exists i; (split; [|done]); intros j Hlt; apply Hj; lia.
  - split.
    + intros (fuel & Hn). pose proof (flock_loop_spec 0 fuel 0) as H.
      destruct (flock_loop fuel 0 0) as [[]|e|w|]; [| | |done]; destruct H as (i & _ & _ & Hr);
        exists i; intros Hw; rewrite Hw in Hr; by destruct Hr as (_ & Hz & _).
    + intros (n & Hn). exists (S n). intros E. pose proof (flock_loop_spec 0 (S n) 0) as H.
      rewrite E in H. by destruct (H n ltac:(lia)).
Qed.
End flock.

(** [Funlock(file)]: of a file, or of none. *)
Definition Funlock (unlock : Z -> option error) (file : option Z) : option error :=
  match file with Some fd => unlock fd | None => Some "file does not exist" end.

(** ** utils/flock_windows.go *)

Section windows.
(** The result and the last error of the n-th call of LockFileEx, the text of an error, and
    the time since the start. *)
Context (LockFileEx : nat -> Z * Z) (Errno_Error : Z -> error) (since : nat -> Z).

Definition errLockViolation : Z := 33.

(** [lockFileEx(...)] and [unlockFileEx(...)]: zero is failure. *)
Definition lockFileEx (n : nat) : option Z :=
  let '(r, err) := LockFileEx n in if r =? 0 then Some err else None.

Fixpoint windows_loop (fuel n : nat) (timeout : Z) : outcome unit :=
  match fuel with
  | O => NoFuel
  | S fuel =>
      match lockFileEx n with
      | None => Ok tt
      | Some err =>
          if negb (err =? errLockViolation) then Err (Errno_Error err)
          else if negb (timeout =? 0) && (timeout - DefaultFlockRetry <? since n) then Err ErrFlockTimeout
          else windows_loop fuel (S n) timeout
      end
  end.

(** A call of LockFileEx, as a call of flock. *)
Definition as_flock (n : nat) : flock_result :=
  match lockFileEx n with
  | None => Locked
  | Some err => if err =? errLockViolation then WouldBlock else Failed (Errno_Error err)
  end.

(** The two systems' locks wait in the same way. *)
Lemma windows_as_unix timeout fuel : forall n,
  windows_loop fuel n timeout = flock_loop as_flock since fuel n timeout.
Proof.
  induction fuel as [|fuel IH]; intros n; [done|]. cbn. unfold as_flock at 1.
  destruct (lockFileEx n) as [err|]; [|done]. destruct (err =? errLockViolation); [|done]. cbn. by rewrite IH.
Qed.
End windows.

(** ** utils/port.go *)

Section port.
(** The network: the resolution of an address, a listener on an address with the port it
    got, and its closing, which undoes it. *)
Context {Net : Type} (ResolveTCPAddr : string -> option error) (Listen : string -> Net -> outcome (Net * Z))
  (Close : string -> Net -> Net).
Context (close_undoes : forall a n n' port, Listen a n = Ok (n', port) -> Close a n' = n).

Definition GetAvailablePort (host : string) (n : Net) : outcome Z * Net :=
  let address := host +:+ ":0" in
  match ResolveTCPAddr address with
  | Some err => (Err err, n)
  | None =>
      match Listen address n with
      | Ok (n', port) => (Ok port, Close address n')
      | Err e => (Err e, n)
      | Panic w => (Panic w, n)
      | NoFuel => (NoFuel, n)
      end
  end.

Definition CheckPortAvailable (ip : string) (port : Z) (n : Net) : bool * Net :=
  let address := ip +:+ ":" +:+ FormatInt port in
  match Listen address n with Ok (n', _) => (true, Close address n') | _ => (false, n) end.

(** Looking for a port leaves the network as it was, so the port found is free for
    everybody; a port is available exactly when it can be listened on. *)
Lemma ports_not_kept host ip port n :
  snd (GetAvailablePort host n) = n /\ snd (CheckPortAvailable ip port n) = n /\
  (fst (CheckPortAvailable ip port n) = true <-> exists r, Listen (ip +:+ ":" +:+ FormatInt port) n = Ok r).
Proof.
  unfold GetAvailablePort, CheckPortAvailable. split; [|split].
  - destruct (ResolveTCPAddr _); [done|]. destruct (Listen _ n) as [[n' p]| | |] eqn:E; try done.
    cbn. by eapply close_undoes.
  - destruct (Listen _ n) as [[n' p]| | |] eqn:E; try done. cbn. by eapply close_undoes.
  - destruct (Listen _ n) as [[n' p]| | |]; cbn; split; try done; try by intros [r [=]]. by eexists.
Qed.
End port.

(** ** utils/url.go *)

Section url.
(** [net/url]'s parser. *)
Context {URL : Type} (of_parts : string -> string -> URL) (url_Parse : string -> outcome URL).

(** [strings.SplitN(addr, "://", 2)] of an address that begins with unix:// *)
Definition ParseURL (addr : string) : outcome URL :=
  if HasPrefix addr "unix://" then
    Ok (of_parts "unix" (String.substring 7 (String.length addr - 7) addr))
  else url_Parse addr.
End url.

(** ** utils/path.go: copying *)

(** The files by their paths; [can_create] says where a file can be made. *)
Definition filesystem : Type := gmap string string.

(** [hex.EncodeToString] *)
Definition hex_digit (n : Z) : ascii := if n <? 10 then z2b (48 + n) else z2b (87 + n).
Fixpoint hex_string (s : string) : string :=
  match s with
  | EmptyString => ""
  | String c s => String (hex_digit (b2z c / 16)) (String (hex_digit (b2z c mod 16)) (hex_string s))
  end.

Section files.
Context (can_create : string -> bool).

Definition ErrNotExist : error := "no such file or directory".
Definition ErrCreate : error := "cannot create".

(** [WriteFile(fn, r)]: the file is truncated before anything is read; [read] is what the
    reader then gives. *)
Definition WriteFile (fn : string) (read : filesystem -> string) (fs : filesystem)
    : filesystem * option error :=
  if can_create fn then
    let fs := <[fn := ""]> (fs : gmap string string) in
    (<[fn := read fs]> (fs : gmap string string), None)
  else (fs, Some ErrCreate).

Definition CopyFile (s t : string) (fs : filesystem) : filesystem * option error :=
  match (fs : gmap string string) !! s with
  | None => (fs, Some ErrNotExist)
  | Some _ => WriteFile t (fun fs => default "" ((fs : gmap string string) !! s)) fs
  end.

(** Copying succeeds when there is a file to copy and a place for it, and changes the
    target only; a file copied onto itself is emptied. *)
Lemma copy_file s t fs data : (fs : gmap string string) !! s = Some data -> can_create t = true ->
  CopyFile s t fs = (<[t := if String.eqb s t then "" else data]> (fs : gmap string string), None).
Proof.
  intros Hs Hc. unfold CopyFile, WriteFile. rewrite Hs, Hc. f_equal. rewrite insert_insert_eq.
  destruct (String.eqb_spec s t) as [->|Hne].
  - by rewrite lookup_insert_eq.
  - by rewrite lookup_insert_ne, Hs.
Qed.
End files.

(** ** utils/path.go: digests, base64 and links *)

(** [md5.Sum], and a file opened and read to its end. *)
Definition CalculateFileMD5 (md5 : string -> string) (fs : filesystem) (fn : string) : outcome string :=
  match (fs : gmap string string) !! fn with
  | None => Err ErrNotExist
  | Some data => Ok (hex_string (md5 data))
  end.

Definition CalculateBase64 (s : string) : string := EncodeToString "+"%char "/"%char s.

(** Two strings have the same encoding only when they are the same. *)
Lemma base64_injective s t : CalculateBase64 s = CalculateBase64 t -> s = t.
Proof.
  unfold CalculateBase64. intros H. apply (f_equal (DecodeString "+"%char "/"%char)) in H.
  rewrite !(base64_roundtrip "+"%char "/"%char std_alphabet) in H. by injection H.
Qed.

(** [CreateSymlink(target, symlink)]: what is there already is left as it is, whatever it
    points to. *)
Definition CreateSymlink (Stat : string -> FileInfo) (Symlink : string -> string -> option error)
    (target symlink : string) : option error :=
  if PathExists (Stat symlink) then None
  else
    match Symlink target symlink with
    | Some err => Some ("failed to make symlink " +:+ symlink +:+ " of " +:+ target +:+ ": " +:+ err)
    | None => None
    end.

(** ** utils/matcher.go *)

(** Selectors and how they match labels are those of Kubernetes; labels are copied first. *)
Definition IsLabelMatch {Selector} (Parse : string -> outcome Selector)
    (Matches : Selector -> gmap string string -> bool) (labelSelector : string) (labels : gmap string string)
    : outcome bool :=
  selector ← Parse labelSelector; Ok (Matches selector labels).

(** ** utils/version.go *)

Definition newline_str : string := String "010" "".
Definition Version (VERSION REVISION : string) : string :=
  " Version: " +:+ VERSION +:+ newline_str +:+ "Revision: " +:+ REVISION.

(** ** Examples *)

(** Another process frees the lock after two retries. *)
Definition freed_later (n : nat) : flock_result := if (n <? 2)%nat then WouldBlock else Locked.
Definition on_time (n : nat) : Z := Z.of_nat n * DefaultFlockRetry.

Lemma flock_returns_witness :
  Flock freed_later on_time 11 1000000 <> NoFuel /\ Flock freed_later on_time 11 1000000 = Ok tt.
Proof.
  split; [|reflexivity].
  apply (flock_returns freed_later on_time 1000000); [lia| |vm_compute; reflexivity].
  split; [vm_compute; discriminate|]. intros n. unfold on_time, DefaultFlockRetry. lia.
Defined.
