(* ===== verification/DmRun.v ===== *)
(** * dmcontext: a driver at work

    The observer of the client puts the messages of the broker into the channels of the
    devices ([observer.OnPublish], DmObserver), a goroutine per device takes them out
    ([DmCtx.processing], DmContext): the two together, from the map without channels that
    [NewContext] hands to the observer, over the channels that [DmCtx.Start] makes in it one
    by one, to the calls of the driver, in every interleaving. *)

From Stdlib Require Import Lia String.
From stdpp Require Import base option list strings gmap fin_maps relations.
From S2P Require Import Prelude MqttPacket GoValue GoEqual DmTypes DmDevice SpecMessage DmObserver DmContext.

Local Open Scope string_scope.
Local Open Scope list_scope.

Section run.
(** What the handlers take from libraries, as in DmContext; json.Unmarshal of a payload. *)
Context (ParseFloat : string -> Z -> outcome float64) (order : gmap string GoVal -> list (string * GoVal))
  (exact_blink plain_blink : LazyValue BlinkContent -> outcome BlinkContent)
  (plain_event : LazyValue BlinkContent -> outcome Event)
  (exact_shadow : LazyValue BlinkContent -> outcome (option DeviceShadow)).
Abbreviation Msg := (SpecMessage.Message BlinkContent).
Context (Unmarshal : list byte -> outcome Msg).

Abbreviation handle := (process_one ParseFloat order exact_blink plain_blink plain_event exact_shadow).
Abbreviation right := (call_ok ParseFloat order exact_blink plain_blink plain_event exact_shadow).

(** The driver's context as [NewContext] made it; its callbacks and waiters may change. *)
Context (c0 : DmCtx).

(** The channels; the packets accepted, with the device and the message each stands for;
    the messages handled, with the device of their channel, the context at that
    moment and the calls they led to. *)
Record Running := {
  msgChs : gmap string (list Msg);
  arrived : list (string * Msg * PubMessage);
  handled : list (string * Msg * DmCtx * list call)
}.

(** [NewContext] has started the client, with a map that is empty until [Start]. *)
Definition created : Running := {| msgChs := ∅; arrived := []; handled := [] |}.

(** A turn of the loop of [Start]: a channel for a device, and its goroutine. *)
Definition make_channel (dev : string) (s : Running) : Running :=
  {| msgChs := <[dev := []]> (msgChs s); arrived := arrived s; handled := handled s |}.

(** [Start] is done, and nothing has come. *)
Definition started : Running := {| msgChs := Start c0; arrived := []; handled := [] |}.

(** What [OnPublish] puts where. *)
Definition accepts (chs : gmap string (list Msg)) (pkt : PubMessage) : option (string * Msg) :=
  match ParseDeviceTopic (MqttPacket.Topic pkt), Unmarshal (MqttPacket.Payload pkt) with
  | Ok device, Ok msg =>
      match chs !! device with
      | Some ch => if (length ch <? channel_size)%nat then Some (device, msg) else None
      | None => None
      end
  | _, _ => None
  end.

Definition publish (pkt : PubMessage) (s : Running) : Running :=
  {| msgChs := OnPublish Unmarshal (msgChs s) pkt;
     arrived := arrived s ++ match accepts (msgChs s) pkt with
                             | Some (d, m) => [(d, m, pkt)] | None => [] end;
     handled := handled s |}.

(** The goroutine of a device's channel takes a message; [ready] as in [processResponse]. *)
Definition take (dev : string) (msg : Msg) (rest : list Msg) (ready : bool) (c : DmCtx) (s : Running) : Running :=
  {| msgChs := <[dev := rest]> (msgChs s); arrived := arrived s;
     handled := handled s ++ [(dev, msg, c, fst (handle ready c msg))] |}.

(** Same devices and models as at the start. *)
Definition same_driver (c : DmCtx) : Prop := devices c = devices c0 /\ deviceModels c = deviceModels c0.

Inductive step : Running -> Running -> Prop :=
  | step_start dev s : dev ∈ dom (devices c0) -> msgChs s !! dev = None -> step s (make_channel dev s)
  | step_publish pkt s : step s (publish pkt s)
  | step_take dev msg rest ready c s :
      msgChs s !! dev = Some (msg :: rest) -> same_driver c -> step s (take dev msg rest ready c s).

Definition reachable (s : Running) : Prop := rtc step created s.

(** The whole of [Start] before the first message. *)
Lemma run_started_reachable : reachable started.
Proof.
  assert (H : forall m : gmap string DeviceInfo, m ⊆ devices c0 ->
    reachable {| msgChs := (fun _ => []) <$> m; arrived := []; handled := [] |}); [|by apply H].
  intros m. induction m as [|k x m Hk Hf IH] using map_first_key_ind; intros Hm.
  { unfold reachable, created. rewrite fmap_empty. constructor. }
  eapply rtc_r.
  - apply IH. transitivity (<[k := x]> m); [by apply insert_subseteq|done].
  - rewrite fmap_insert. apply (step_start k).
    + apply elem_of_dom. exists x. eapply lookup_weaken; [|done]. by rewrite lookup_insert_eq.
    + cbn. by rewrite lookup_fmap, Hk.
Qed.

(** The messages of one channel. *)
Definition arrived_of (dev : string) (s : Running) : list Msg :=
  omap (fun '(d, m, _) => if decide (d = dev) then Some m else None) (arrived s).
Definition handled_of (dev : string) (s : Running) : list Msg :=
  omap (fun '(d, m, _, _) => if decide (d = dev) then Some m else None) (handled s).
Definition queue_of (dev : string) (s : Running) : list Msg := default [] (msgChs s !! dev).

Lemma OnPublish_accepts chs pkt :
  OnPublish Unmarshal chs pkt =
  match accepts chs pkt with
  | Some (d, m) => <[d := default [] (chs !! d) ++ [m]]> chs
  | None => chs
  end.
Proof.
  unfold OnPublish, accepts.
  destruct (ParseDeviceTopic _) as [d| | |]; [|done..]. destruct (Unmarshal _) as [m| | |]; [|done..].
  destruct (chs !! d) as [ch|] eqn:Hc; [|done]. destruct (length ch <? channel_size)%nat; [by rewrite Hc|done].
Qed.

Lemma accepts_some chs pkt d m : accepts chs pkt = Some (d, m) ->
  ParseDeviceTopic (MqttPacket.Topic pkt) = Ok d /\ Unmarshal (MqttPacket.Payload pkt) = Ok m /\
  exists ch, chs !! d = Some ch /\ length ch < channel_size.
Proof.
  unfold accepts. destruct (ParseDeviceTopic _) as [d'| | |]; [|done..].
  destruct (Unmarshal _) as [m'| | |]; [|done..]. destruct (chs !! d') as [ch|] eqn:Hc; [|done].
  destruct (length ch <? channel_size)%nat eqn:Hl; [|done]. apply Nat.ltb_lt in Hl.
  intros [= <- <-]. eauto.
Qed.

Record inv (s : Running) : Prop := {
  inv_order : forall dev, handled_of dev s ++ queue_of dev s = arrived_of dev s;
  inv_size : map_Forall (fun _ ch => length ch <= channel_size) (msgChs s);
  inv_dom : dom (msgChs s) ⊆ dom (devices c0);
  inv_arrived : Forall (fun '(d, m, pkt) => ParseDeviceTopic (MqttPacket.Topic pkt) = Ok d /\
    Unmarshal (MqttPacket.Payload pkt) = Ok m /\ d ∈ dom (devices c0)) (arrived s);
  inv_calls : mget (deviceModels c0) "" = None ->
    Forall (fun '(_, m, c, calls) => length calls <= 1 /\ same_driver c /\ Forall (right c m) calls) (handled s)
}.

Lemma inv_created : inv created.
Proof. by constructor. Qed.

Lemma inv_make_channel dev s : inv s -> dev ∈ dom (devices c0) -> msgChs s !! dev = None -> inv (make_channel dev s).
Proof.
  intros [] Hd Hn. constructor; cbn; try done.
  - intros d. specialize (inv_order0 d). unfold queue_of in *. cbn.
    destruct (decide (dev = d)) as [<-|Hne]; [by rewrite lookup_insert_eq, Hn in *|].
    by rewrite lookup_insert_ne.
  - apply map_Forall_insert_2; [cbn; lia|done].
  - rewrite dom_insert_L. set_solver.
Qed.

Lemma inv_publish pkt s : inv s -> inv (publish pkt s).
Proof.
  intros []. unfold publish. destruct (accepts (msgChs s) pkt) as [[d m]|] eqn:Ha.
  - pose proof (accepts_some _ _ _ _ Ha) as (Ht & Hu & ch & Hc & Hl).
    constructor; cbn; rewrite ?OnPublish_accepts, ?Ha, ?Hc; cbn; try done.
    + intros dev. specialize (inv_order0 dev). unfold handled_of, queue_of, arrived_of in *. cbn.
      rewrite omap_app, <- inv_order0. cbn.
      destruct (decide (d = dev)) as [->|Hne].
      * rewrite lookup_insert_eq, Hc. cbn. by rewrite app_assoc.
      * rewrite lookup_insert_ne, app_nil_r by done. done.
    + apply map_Forall_insert_2; [|done]. rewrite length_app. cbn. lia.
    + rewrite dom_insert_L. apply elem_of_dom_2 in Hc. set_solver.
    + apply Forall_app. split; [done|]. apply Forall_singleton. split; [done|]. split; [done|].
      apply inv_dom0. by apply elem_of_dom_2 in Hc.
  - rewrite OnPublish_accepts, Ha, app_nil_r. by destruct s.
Qed.

Lemma inv_take dev msg rest ready c s : inv s -> msgChs s !! dev = Some (msg :: rest) -> same_driver c ->
  inv (take dev msg rest ready c s).
Proof.
  intros [] Hq Hc. constructor; cbn; try done.
  - intros d. specialize (inv_order0 d). unfold handled_of, queue_of, arrived_of in *. cbn.
    rewrite omap_app, <- inv_order0. cbn. destruct (decide (dev = d)) as [<-|Hne].
    + rewrite lookup_insert_eq, Hq. cbn. by rewrite <- app_assoc.
    + by rewrite lookup_insert_ne, app_nil_r by done.
  - apply map_Forall_insert_2; [|done]. specialize (inv_size0 _ _ Hq). cbn in *. lia.
  - rewrite dom_insert_L. apply elem_of_dom_2 in Hq. set_solver.
  - intros Hm. apply Forall_app. split; [auto|]. apply Forall_singleton.
    destruct (process_one_right ParseFloat order exact_blink plain_blink plain_event exact_shadow
      ready c msg) as [Hl Hr]; [by destruct Hc as [_ ->]|]. split; [done|]. by split.
Qed.

Lemma running_inv s : reachable s -> inv s.
Proof.
  intros H. pose proof inv_created as Hi. revert Hi. unfold reachable in H.
  induction H as [|s s1 s2 Hstep _ IH]; [done|]. intros Hi. apply IH.
  destruct Hstep; auto using inv_make_channel, inv_publish, inv_take.
Qed.

(** C10. From the broker to the driver, in every interleaving of arrivals, of the loop of
    [Start] and of the goroutines of the devices: a channel only gets messages whose topic names its device, only
    configured devices have one, none holds more than its size; every message accepted
    is handled at most once, in the order of arrival on its channel, and what is not
    handled yet still waits there; and each leads to at most one call of the driver, one that
    is right for it. *)
Theorem driver_pipeline s : reachable s ->
  (forall dev, handled_of dev s ++ queue_of dev s = arrived_of dev s) /\
  (forall dev, length (queue_of dev s) <= channel_size) /\
  Forall (fun '(d, m, pkt) => ParseDeviceTopic (MqttPacket.Topic pkt) = Ok d /\
    Unmarshal (MqttPacket.Payload pkt) = Ok m /\ d ∈ dom (devices c0)) (arrived s) /\
  (mget (deviceModels c0) "" = None ->
   Forall (fun '(_, m, c, calls) => length calls <= 1 /\ same_driver c /\ Forall (right c m) calls)
     (handled s)).
Proof.
  intros []%running_inv. split; [done|]. split; [|done].
  intros dev. unfold queue_of. destruct (msgChs s !! dev) eqn:Hd; cbn; [by eapply inv_size0|lia].
Qed.
End run.

(** ** Examples *)

Definition to_d : PubMessage :=
  {| MqttPacket.Topic := "$baetyl/device/d/delta"; MqttPacket.Payload := []; MqttPacket.QOS := 0; MqttPacket.Retain := false |}.

Abbreviation demo_step :=
  (step (fun _ _ => Err "") map_to_list blink_t21 blink_t21 (fun _ => Err "") (fun _ => Err "")
     (fun _ => Ok delta_msg) ctx1).
Abbreviation demo_publish := (publish (fun _ => Ok delta_msg)).
Abbreviation demo_take :=
  (take (fun _ _ => Err "") map_to_list blink_t21 blink_t21 (fun _ => Err "") (fun _ => Err "")).

(** Two deltas arrive, the first is handled. *)
Definition half_way : Running :=
  demo_take "d" delta_msg [delta_msg] true ctx1 (demo_publish to_d (demo_publish to_d (started ctx1))).

Lemma half_way_reachable : rtc demo_step created half_way.
Proof.
  etransitivity; [apply run_started_reachable|].
  eapply rtc_l; [apply step_publish|]. eapply rtc_l; [apply step_publish|].
  eapply rtc_l; [|apply rtc_refl]. apply step_take; [vm_compute; reflexivity|done].
Qed.

Lemma driver_pipeline_witness :
  handled_of "d" half_way ++ queue_of "d" half_way = arrived_of "d" half_way /\
  arrived_of "d" half_way = [delta_msg; delta_msg].
Proof.
  split; [|vm_compute; reflexivity].
  apply (driver_pipeline _ _ _ _ _ _ _ _ half_way half_way_reachable).
Defined.

(** The call is for the device that the message names in its metadata, whatever the topic
    it came on: this one comes on the topic of [e] and is handled in the name of [d]. *)
Definition two_devices : DmCtx :=
  {| c_NodeName := c_NodeName ctx1; eventCb := eventCb ctx1; deltaCb := deltaCb ctx1;
     propertyGetCb := propertyGetCb ctx1; response := response ctx1;
     devices := {["d" := device "d" "m"; "e" := device "e" "m"]};
     driverConfig_ := driverConfig_ ctx1; propsConfig := propsConfig ctx1;
     accessConfig_ := accessConfig_ ctx1; deviceModels := deviceModels ctx1;
     accessTemplates := accessTemplates ctx1; lastReportProperties := lastReportProperties ctx1 |}.
Definition to_e : PubMessage :=
  {| MqttPacket.Topic := "$baetyl/device/e/delta"; MqttPacket.Payload := []; MqttPacket.QOS := 0;
     MqttPacket.Retain := false |}.

Example call_by_metadata :
  map (fun '(d, _, _, calls) => (d, calls))
    (handled (demo_take "e" delta_msg [] true two_devices (demo_publish to_e (started two_devices))))
  = [("e", [CallDelta (device "d" "m") (Some {["t" := VInt KInt16 21]})])].
Proof. vm_compute. reflexivity. Qed.
