(* ===== verification/Subscriber.v ===== *)
(** * pubsub: a processor behind a subscription

    What a program does with the package: it subscribes to a topic (PubSub) and gives the
    channel to a processor (Processor). The two run as one system that shares the channel:
    a delivery to it is a send for the processor, a message the processor takes is a
    receive for the broker. The theorems of the parts meet in the messages the handler
    gets. *)

From Stdlib Require Import ZArith Lia String.
From stdpp Require Import base option list strings gmap fin_maps relations.
From S2P Require Import Prelude Tomb.
From S2P Require PubSub Processor.

Local Open Scope string_scope.
Local Open Scope list_scope.

#[local] Arguments Processor.sent : simpl never.
#[local] Arguments Processor.handled : simpl never.
#[local] Arguments PubSub.delivered : simpl never.
#[local] Arguments PubSub.received : simpl never.

Section subscriber.
Context {V T : Type} `{!TombV2 T, !TombLaws T}.
(** The size of the channels, the timeout of the processor, and the channel they share. *)
Context (size : nat) (timeout : Z) (has_handler : bool) (ch : nat).

Abbreviation broker := (@PubSub.State V).
Abbreviation processor := (@Processor.State V T).
Abbreviation queue b := (PubSub.queues b !! ch).
Abbreviation given b := (PubSub.delivered ch (PubSub.log b)).
Abbreviation gone b := (PubSub.received ch (PubSub.log b)).

Inductive step : broker * processor -> broker * processor -> Prop :=
  (* what the broker does with other channels, its subscriptions and its publishers *)
  | step_broker b b' p : PubSub.step size b b' ->
      queue b' = queue b -> given b' = given b -> gone b' = gone b -> step (b, p) (b', p)
  (* the broker puts a message into the channel, ... *)
  | step_deliver b p pid f q :
      PubSub.flights b !! pid = Some f -> PubSub.current f = Some ch -> queue b = Some q ->
      (length q < size)%nat ->
      step (b, p)
        (PubSub.record [PubSub.Delivered pid ch (PubSub.msg_of f)]
           (PubSub.set_queue ch (q ++ [PubSub.msg_of f])
              (PubSub.set_flight pid (PubSub.visit_done f true) b)),
         Processor.send (PubSub.msg_of f) p)
  (* ... or hands it to the processor that waits for one *)
  | step_hand b p pid f :
      PubSub.flights b !! pid = Some f -> PubSub.current f = Some ch -> queue b = Some [] ->
      Processor.at_ p = Processor.Select ->
      step (b, p)
        (PubSub.record [PubSub.Delivered pid ch (PubSub.msg_of f); PubSub.Received ch (PubSub.msg_of f)]
           (PubSub.set_flight pid (PubSub.visit_done f true) b),
         Processor.take_message has_handler (PubSub.msg_of f) [] (Processor.send (PubSub.msg_of f) p))
  (* the processor takes a message out of the channel *)
  | step_take b p m q :
      queue b = Some (m :: q) -> Processor.at_ p = Processor.Select ->
      step (b, p)
        (PubSub.record [PubSub.Received ch m] (PubSub.set_queue ch q b),
         Processor.take_message has_handler m q p)
  (* the rest of the processor: its timer, its tomb, the end of a handler *)
  | step_processor b p p' : Processor.step timeout has_handler p p' ->
      Processor.channel p' = Processor.channel p ->
      Processor.sent (Processor.log p') = Processor.sent (Processor.log p) -> step (b, p) (b, p').

(** The channel has just been subscribed, and the processor made for it. *)
Definition attached (b : broker) : Prop :=
  rtc (PubSub.step size) PubSub.NewPubsub b /\ queue b = Some [] /\ given b = [].

Definition reachable (s : broker * processor) : Prop :=
  exists b t, attached b /\ rtc step (b, Processor.NewProcessor t) s.

(** Each half is a run of its own, and they agree on the channel. *)
Record inv (s : broker * processor) : Prop := {
  inv_broker : rtc (PubSub.step size) PubSub.NewPubsub (fst s);
  inv_processor : Processor.reachable timeout has_handler (snd s);
  inv_queue : queue (fst s) = Some (Processor.channel (snd s));
  inv_given : given (fst s) = Processor.sent (Processor.log (snd s))
}.

Lemma reachable_snoc (p p' : processor) : Processor.reachable timeout has_handler p ->
  Processor.step timeout has_handler p p' -> Processor.reachable timeout has_handler p'.
Proof. intros (t & H) Hs. exists t. by eapply rtc_r. Qed.

Lemma sent_snoc l (e : @Processor.event V) : Processor.sent (l ++ [e]) = Processor.sent l ++ Processor.sent [e].
Proof. apply Processor.sent_app. Qed.

(** Taking a message sends nothing. *)
Lemma sent_take v rest (p : processor) :
  Processor.sent (Processor.log (Processor.take_message has_handler v rest p)) = Processor.sent (Processor.log p).
Proof. cbn. rewrite Processor.sent_app. destruct has_handler; apply app_nil_r. Qed.

Lemma sent_send v (p : processor) :
  Processor.sent (Processor.log (Processor.send v p)) = Processor.sent (Processor.log p) ++ [v].
Proof. cbn. by rewrite Processor.sent_app. Qed.

(** What a log with more events says of the channel. *)
Lemma given_delivered l pid m : PubSub.delivered ch (l ++ [@PubSub.Delivered V pid ch m]) = PubSub.delivered ch l ++ [m].
Proof. rewrite PubSub.delivered_app. f_equal. unfold PubSub.delivered. cbn. by rewrite decide_True. Qed.
Lemma given_received l c m : PubSub.delivered ch (l ++ [@PubSub.Received V c m]) = PubSub.delivered ch l.
Proof. rewrite PubSub.delivered_app. apply app_nil_r. Qed.
Lemma given_handed l pid m :
  PubSub.delivered ch (l ++ [@PubSub.Delivered V pid ch m; PubSub.Received ch m]) = PubSub.delivered ch l ++ [m].
Proof. rewrite PubSub.delivered_app. f_equal. unfold PubSub.delivered. cbn. by rewrite decide_True. Qed.

Lemma subscriber_step s s' : step s s' -> inv s -> inv s'.
Proof.
  destruct 1 as [b b' p Hs Hq Hg Hr|b p pid f q Hf Hc Hq Hl|b p pid f Hf Hc Hq Ha|b p m q Hq Ha|b p p' Hs Hc Hse];
    intros [Hb Hp Hqueue Hgiven]; cbn [fst snd] in *.
  - constructor; cbn [fst snd]; [by eapply rtc_r|done|by rewrite Hq|by rewrite Hg].
  - assert (q = Processor.channel p) as -> by congruence. constructor; cbn [fst snd].
    + eapply rtc_r; [done|]. by eapply PubSub.step_send.
    + eapply reachable_snoc; [done|]. apply Processor.step_send.
    + cbn. by rewrite lookup_insert_eq.
    + rewrite sent_send, <- Hgiven. apply given_delivered.
  - assert (Hch : Processor.channel p = []) by congruence. constructor; cbn [fst snd].
    + eapply rtc_r; [done|]. by eapply PubSub.step_handoff.
    + eapply reachable_snoc; [eapply reachable_snoc; [done|apply Processor.step_send]|].
      apply Processor.step_message; [done|]. cbn. by rewrite Hch.
    + done.
    + rewrite sent_take, sent_send, <- Hgiven. apply given_handed.
  - assert (Hch : Processor.channel p = m :: q) by congruence. constructor; cbn [fst snd].
    + eapply rtc_r; [done|]. by eapply PubSub.step_receive.
    + eapply reachable_snoc; [done|]. by apply Processor.step_message.
    + cbn. by rewrite lookup_insert_eq.
    + rewrite sent_take, <- Hgiven. apply given_received.
  - constructor; cbn [fst snd]; [done|by eapply reachable_snoc|by rewrite Hc|by rewrite Hse].
Qed.

Lemma subscriber_inv s : reachable s -> inv s.
Proof.
  intros (b & t & (Hb & Hq & Hg) & H).
  assert (Hi : inv (b, Processor.NewProcessor t)) by (constructor; cbn; [done|exists t; constructor|done|done]).
  revert Hi. induction H; eauto using subscriber_step.
Qed.

(** A processor that has returned stays so, and its handler gets nothing. *)
Lemma returned_processor (p p' : processor) : Processor.step timeout has_handler p p' ->
  Processor.at_ p = Processor.Returned ->
  Processor.at_ p' = Processor.Returned /\
  Processor.handled (Processor.log p') = Processor.handled (Processor.log p).
Proof.
  destruct 1 as [v u|d u Hd|e u He Hle|u u' Ha Hs|v rest u Ha Hc|u Ha|u Ha Ht Htick|u Ha Hy|u
    |tb u Hw|tb err u Hl Hw]; intros Hr; try congruence; try by split.
  split; [done|]. cbn. rewrite Processor.handled_app. apply app_nil_r.
Qed.

Lemma returned_step s s' : step s s' -> Processor.at_ (snd s) = Processor.Returned ->
  Processor.at_ (snd s') = Processor.Returned /\
  Processor.handled (Processor.log (snd s')) = Processor.handled (Processor.log (snd s)).
Proof.
  destruct 1 as [b b' p Hs Hq Hg Hr|b p pid f q Hf Hc Hq Hl|b p pid f Hf Hc Hq Ha|b p m q Hq Ha|b p p' Hs Hc Hse];
    cbn [snd]; intros Hret; try congruence; [done| |by apply returned_processor].
  apply returned_processor; [apply Processor.step_send|done].
Qed.

Lemma returned_run s s' : rtc step s s' -> Processor.at_ (snd s) = Processor.Returned ->
  Processor.handled (Processor.log (snd s')) = Processor.handled (Processor.log (snd s)).
Proof.
  induction 1 as [s|s s1 s' Hs _ IH]; intros Hr; [done|].
  destruct (returned_step s s1 Hs Hr) as [Hr1 <-]. by apply IH.
Qed.

(** C14. A handler behind a subscription gets, once each and in the order of their delivery,
    messages that were published to a topic its channel was subscribed to; what it has not
    got yet is in the channel, within its size; and once the processor has
    returned its handler gets nothing more, whatever is still published. *)
Theorem handler_gets_published b p : reachable (b, p) -> has_handler = true ->
  Processor.handled (Processor.log p) ++ default [] (queue b) = given b /\
  (length (default [] (queue b)) <= size)%nat /\
  (forall m, m ∈ Processor.handled (Processor.log p) -> exists pid topic,
     PubSub.Published pid topic m ∈ PubSub.log b /\ PubSub.Subscribed topic ch ∈ PubSub.log b) /\
  (Processor.at_ p = Processor.Returned -> forall b' p', rtc step (b, p) (b', p') ->
     Processor.handled (Processor.log p') = Processor.handled (Processor.log p)).
Proof.
  intros Hr Hh. pose proof (subscriber_inv _ Hr) as [Hb Hp Hq Hg]. cbn [fst snd] in *.
  pose proof (Processor.processor_inv timeout has_handler p Hp) as Hpi.
  destruct (PubSub.pubsub_inv size b Hb) as ([Hqueue _ _] & _ & Hf).
  pose proof (Processor.inv_handled timeout has_handler p Hpi Hh) as Hhan.
  pose proof (Processor.inv_order timeout has_handler p Hpi) as Hord.
  rewrite Hq, Hhan. change (default [] (Some (Processor.channel p))) with (Processor.channel p). split; [by rewrite Hord, Hg|].
  split; [by apply (Hqueue _ _ Hq)|]. split.
  - intros m Hm. assert (Hin : m ∈ given b) by (rewrite Hg, <- Hord; set_solver).
    unfold PubSub.delivered in Hin. apply list_elem_of_omap in Hin as (e & He & Hsome).
    destruct e as [| |pid c m'| | |]; try discriminate. case_decide; simplify_eq.
    destruct (PubSub.p_delivered _ Hf _ _ _ He) as (topic & ? & ?). eauto.
  - intros Hret b' p' Hrun. rewrite <- Hhan. by apply (returned_run (b, p) (b', p')).
Qed.
End subscriber.

(** ** Example *)

#[local] Existing Instances Processor.simple_TombV2 Processor.simple_laws.

(** A channel of one place, a processor without a timeout on it, and one message that is
    published, waits in the channel and is handled. *)
Definition attached_broker : PubSub.State (V := string) := fst (PubSub.Subscribe "t" PubSub.NewPubsub).
Definition started : Processor.State (V := string) (T := Processor.simple_tomb) :=
  default (Processor.NewProcessor 0) (Processor.Start 0 (Processor.NewProcessor 0)).
Definition flight : PubSub.Flight (V := string) :=
  {| PubSub.topic_of := "t"; PubSub.msg_of := "m"; PubSub.ranges_over := 1;
     PubSub.at_start := {[0%nat]}; PubSub.visited := {[0%nat]}; PubSub.current := Some 0%nat;
     PubSub.errs := 0 |}.
Definition visiting : PubSub.State (V := string) :=
  PubSub.set_flight 2 flight (PubSub.begin_publish "t" "m" attached_broker).
Definition delivered : PubSub.State (V := string) :=
  PubSub.record [PubSub.Delivered 2 0 "m"]
    (PubSub.set_queue 0 ["m"] (PubSub.set_flight 2 (PubSub.visit_done flight true) visiting)).
Definition after : PubSub.State (V := string) * Processor.State (T := Processor.simple_tomb) :=
  (PubSub.record [PubSub.Received 0 "m"] (PubSub.set_queue 0 [] delivered),
   Processor.take_message true "m" [] (Processor.send "m" started)).

Lemma attached_ok : attached 1 0 attached_broker.
Proof. repeat split. apply rtc_once, (PubSub.step_subscribe 1 "t"). Qed.

Lemma after_reachable : reachable 1 0 true 0 after.
Proof.
  exists attached_broker, 0%Z. split; [exact attached_ok|].
  eapply rtc_l; [apply step_processor; [by apply Processor.step_start with (s' := started)|done|done]|].
  eapply rtc_l; [apply step_broker; [apply (PubSub.step_begin 1 "t" "m")|done|done|done]|].
  eapply rtc_l with (y := (visiting, started)).
  { apply step_broker; [|done|done|done].
    change visiting with (PubSub.set_flight 2 (PubSub.visit {| PubSub.topic_of := "t"; PubSub.msg_of := "m";
      PubSub.ranges_over := 1; PubSub.at_start := {[0%nat]}; PubSub.visited := ∅; PubSub.current := None;
      PubSub.errs := 0 |} 0) (PubSub.begin_publish "t" "m" attached_broker)).
    apply PubSub.step_visit; [done|done| |set_solver].
    change (0%nat ∈ ({[0%nat]} ∪ ∅ : gset nat)). set_solver. }
  eapply rtc_l; [by apply step_deliver with (pid := 2) (f := flight) (q := []); [..|cbn; lia]|].
  eapply rtc_l; [by apply step_take with (m := "m") (q := [])|]. apply rtc_refl.
Qed.

Lemma handler_gets_published_witness :
  Processor.handled (Processor.log (snd after)) = ["m"] /\
  (exists pid topic, PubSub.Published pid topic "m" ∈ PubSub.log (fst after) /\
     PubSub.Subscribed topic 0 ∈ PubSub.log (fst after)).
Proof.
  split; [reflexivity|].
  apply (handler_gets_published 1 0 true 0 (fst after) (snd after) after_reachable eq_refl).
  apply (bool_decide_unpack _). vm_compute. exact I.
Defined.
