(* ===== verification/GoDuration.v ===== *)
(** * time: durations as text

    [Duration.String] and [ParseDuration] of package time, as dmcontext uses them: a
    duration is a signed number of nanoseconds of 64 bits, fractions of a unit are read
    through float64 arithmetic. *)

From Stdlib Require Import ZArith Lia Ascii String SpecFloat.
From stdpp Require Import base option list strings.
From S2P Require Import Prelude GoStrconv GoStrings GoValue GoFloat.

Local Open Scope string_scope.
Local Open Scope Z_scope.
Local Open Scope list_scope.

Definition Nanosecond : Z := 1.
Definition Microsecond : Z := 1000 * Nanosecond.
Definition Millisecond : Z := 1000 * Microsecond.
Definition Second : Z := 1000 * Millisecond.
Definition Minute : Z := 60 * Second.
Definition Hour : Z := 60 * Minute.

(** ** String *)

(** Both print in front of what is there already. *)
Definition fmtInt (v : Z) (buf : string) : string := format_digits (S (Z.to_nat (Z.log2 v))) v buf.

(** The last [prec] digits of [v] as a fraction without its zeros at the end, and the rest
    of [v]. *)
Fixpoint fmtFrac (prec : nat) (v : Z) (print : bool) (buf : string) : string * Z :=
  match prec with
  | O => (if print then String "." buf else buf, v)
  | S prec =>
      let d := v mod 10 in
      let print := print || negb (d =? 0) in
      fmtFrac prec (v / 10) print (if print then String (digit d) buf else buf)
  end.

(** The micro sign is two bytes of UTF-8. *)
Definition micro : string := String "194" (String "181" "s").

Definition String_body (u : Z) : string :=
  if u <? Second then
    if u =? 0 then "0s"
    else
      let '(unit, prec) :=
        if u <? Microsecond then ("ns", 0%nat)
        else if u <? Millisecond then (micro, 3%nat) else ("ms", 6%nat) in
      let '(buf, u) := fmtFrac prec u false unit in
      fmtInt u buf
  else
    let '(buf, u) := fmtFrac 9 u false "s" in
    let buf := fmtInt (u mod 60) buf in
    let u := u / 60 in
    if 0 <? u then
      let buf := fmtInt (u mod 60) (String "m" buf) in
      let u := u / 60 in
      if 0 <? u then fmtInt u (String "h" buf) else buf
    else buf.

Definition Duration_String (d : Z) : string :=
  let u := uint64 d in
  if d <? 0 then String "-" (String_body (uint64 (- u))) else String_body u.

(** ** ParseDuration *)

(** The errors, without the text they quote. *)
Definition ErrInvalidDuration : error := "time: invalid duration".
Definition ErrMissingUnit : error := "time: missing unit in duration".
Definition ErrUnknownUnit : error := "time: unknown unit in duration".

Fixpoint leadingInt (x : Z) (s : string) : outcome (Z * string) :=
  match s with
  | EmptyString => Ok (x, s)
  | String c t =>
      if is_digit c then
        if 2 ^ 63 / 10 <? x then Err ErrInvalidDuration
        else
          let x := x * 10 + (b2z c - 48) in
          if 2 ^ 63 <? x then Err ErrInvalidDuration else leadingInt x t
      else Ok (x, s)
  end.

(** Digits that do not fit are read and dropped. *)
Fixpoint leadingFraction (x : Z) (scale : spec_float) (overflow : bool) (s : string)
    : Z * spec_float * string :=
  match s with
  | EmptyString => (x, scale, s)
  | String c t =>
      if is_digit c then
        if overflow then leadingFraction x scale overflow t
        else if (2 ^ 63 - 1) / 10 <? x then leadingFraction x scale true t
        else
          let y := x * 10 + (b2z c - 48) in
          if 2 ^ 63 <? y then leadingFraction x scale true t
          else leadingFraction y (f64_mul scale (f64_round 10)) overflow t
      else (x, scale, s)
  end.

Definition is_dot (c : ascii) : bool := Ascii.eqb c ".".
Fixpoint span_unit (s : string) : string * string :=
  match s with
  | EmptyString => ("", "")
  | String c t =>
      if is_dot c || is_digit c then ("", s)
      else let '(u, rest) := span_unit t in (String c u, rest)
  end.

Definition unitMap (u : string) : option Z :=
  if (u =? "ns")%string then Some Nanosecond
  else if (u =? "us")%string then Some Microsecond
  else if (u =? micro)%string then Some Microsecond
  else if (u =? String "206" (String "188" "s"))%string then Some Microsecond   (* the Greek letter mu *)
  else if (u =? "ms")%string then Some Millisecond
  else if (u =? "s")%string then Some Second
  else if (u =? "m")%string then Some Minute
  else if (u =? "h")%string then Some Hour
  else None.

(** [uint64(float64(f) * (float64(unit) / scale))]; it is below the unit, as the comment in
    the package has it. *)
Definition fraction (f unit : Z) (scale : spec_float) : Z :=
  default 0 (f64_to_uint64 (f64_mul (f64_round f) (f64_div (f64_round unit) scale))).

(** One turn of the loop: a number, its fraction and its unit. *)
Definition parse_term (s : string) : outcome (Z * string) :=
  match s with
  | EmptyString => Err ErrInvalidDuration
  | String c _ =>
      if negb (is_dot c || is_digit c) then Err ErrInvalidDuration
      else
        '(v, s1) ← leadingInt 0 s;
        let pre := negb (len s1 =? len s) in
        let '(f, scale, s2, post) :=
          match s1 with
          | String c t =>
              if is_dot c then
                let '(f, scale, t') := leadingFraction 0 (f64_round 1) false t in
                (f, scale, t', negb (len t' =? len t))
              else (0, f64_round 1, s1, false)
          | EmptyString => (0, f64_round 1, s1, false)
          end in
        if negb pre && negb post then Err ErrInvalidDuration
        else
          let '(u, s3) := span_unit s2 in
          if (u =? "")%string then Err ErrMissingUnit
          else
            match unitMap u with
            | None => Err ErrUnknownUnit
            | Some unit =>
                if 2 ^ 63 / unit <? v then Err ErrInvalidDuration
                else
                  let v := v * unit in
                  if 0 <? f then
                    let v := uint64 (v + fraction f unit scale) in
                    if 2 ^ 63 <? v then Err ErrInvalidDuration else Ok (v, s3)
                  else Ok (v, s3)
            end
  end.

Fixpoint parse_terms (fuel : nat) (d : Z) (s : string) : outcome Z :=
  match s, fuel with
  | EmptyString, _ => Ok d
  | _, O => NoFuel
  | _, S fuel =>
      '(v, rest) ← parse_term s;
      let d := uint64 (d + v) in
      if 2 ^ 63 <? d then Err ErrInvalidDuration else parse_terms fuel d rest
  end.

Definition ParseDuration (orig : string) : outcome Z :=
  let '(neg, s) :=
    match orig with
    | String c t => if Ascii.eqb c "-" then (true, t)
                    else if Ascii.eqb c "+" then (false, t) else (false, orig)
    | EmptyString => (false, orig)
    end in
  if (s =? "0")%string then Ok 0
  else if (s =? "")%string then Err ErrInvalidDuration
  else
    d ← parse_terms (String.length s) 0 s;
    if neg : bool then Ok (int64 (- int64 d))
    else if 2 ^ 63 - 1 <? d then Err ErrInvalidDuration else Ok d.

Example durations :
  Duration_String (90 * Minute + 1500 * Millisecond) = "1h30m1.5s" /\
  Duration_String (- (1200 * Microsecond)) = "-1.2ms" /\
  Duration_String 1100 = "1.1" +:+ micro /\
  Duration_String (- 2 ^ 63) = "-2562047h47m16.854775808s" /\
  ParseDuration "1.5h" = Ok (90 * Minute) /\
  ParseDuration "-.5s" = Ok (- (500 * Millisecond)) /\
  ParseDuration "1h1h" = Ok (2 * Hour) /\
  ParseDuration "3" = Err ErrMissingUnit /\
  ParseDuration "1d" = Err ErrUnknownUnit /\
  ParseDuration "9223372036854775808ns" = Err ErrInvalidDuration /\
  ParseDuration "-9223372036854775808ns" = Ok (- 2 ^ 63).
Proof. repeat split; vm_compute; reflexivity. Qed.

(** ** Reading what was printed *)

Lemma digit_is_digit d : 0 <= d < 10 -> is_digit (digit d) = true.
Proof. intros Hd. unfold is_digit, digit. rewrite b2z_z2b, Z.mod_small by lia. lia. Qed.

(** What may follow a number: nothing or another character than a digit. *)
Definition no_digit (s : string) : Prop := match s with EmptyString => True | String c _ => is_digit c = false end.

Lemma leadingInt_digit x d s : 0 <= d < 10 -> 0 <= x -> x * 10 + d <= 2 ^ 63 ->
  leadingInt x (String (digit d) s) = leadingInt (x * 10 + d) s.
Proof.
  intros Hd Hx Hm. cbn [leadingInt]. rewrite digit_is_digit, digit_value by done.
  rewrite (proj2 (Z.ltb_ge (2 ^ 63 / 10) x)) by (apply Z.div_le_lower_bound; lia).
  by rewrite (proj2 (Z.ltb_ge _ _)) by done.
Qed.

Lemma leadingInt_stop x s : no_digit s -> leadingInt x s = Ok (x, s).
Proof. destruct s as [|c s]; cbn; [done|]. by intros ->. Qed.

Lemma leadingInt_format fuel : forall n s, 0 <= n < 10 ^ Z.of_nat fuel -> n <= 2 ^ 63 ->
  leadingInt 0 (format_digits fuel n s) = leadingInt n s.
Proof.
  induction fuel as [|fuel IH]; intros n s Hn Hm.
  { cbn in *. by replace n with 0 by lia. }
  pose proof (Z.mod_pos_bound n 10 ltac:(lia)). pose proof (Z.div_mod n 10 ltac:(lia)) as Hdm.
  cbn [format_digits]. destruct (n <? 10) eqn:E; boolify.
  - rewrite Z.mod_small by lia. rewrite leadingInt_digit by lia. f_equal.
  - rewrite Nat2Z.inj_succ, Z.pow_succ_r in Hn by lia.
    assert (0 <= n / 10 < 10 ^ Z.of_nat fuel).
    { split; [apply Z.div_pos; lia|apply Z.div_lt_upper_bound; lia]. }
    rewrite IH, leadingInt_digit by lia. f_equal. lia.
Qed.

Lemma leadingInt_fmtInt v s : 0 <= v <= 2 ^ 63 -> no_digit s -> leadingInt 0 (fmtInt v s) = Ok (v, s).
Proof.
  intros Hv Hs. unfold fmtInt. rewrite leadingInt_format; [by apply leadingInt_stop| |lia].
  split; [lia|apply fuel_enough; lia].
Qed.

Lemma length_format fuel : forall n s,
  (String.length s <= String.length (format_digits fuel n s))%nat.
Proof.
  induction fuel as [|fuel IH]; intros n s; cbn; [done|].
  destruct (n <? 10); [cbn; lia|]. etransitivity; [|apply IH]. cbn. lia.
Qed.

(** A printed number starts with a digit and is longer than what follows it. *)
Lemma fmtInt_head v s : exists c t, fmtInt v s = String c t /\ is_digit c = true /\
  (String.length s < String.length (fmtInt v s))%nat.
Proof.
  unfold fmtInt. destruct (format_digits_head (Z.to_nat (Z.log2 v)) v s) as (c & t & Hc & Hd).
  exists c, t. split; [done|]. split.
  - destruct Hd as [Hd|(d & -> & Hd)]; [unfold is_digit; lia|by apply digit_is_digit].
  - cbn [format_digits]. destruct (v <? 10); [cbn; lia|].
    eapply Nat.lt_le_trans; [|apply length_format]. cbn. lia.
Qed.

(** ** Fractions *)

(** [j] digits of [f]. *)
Fixpoint pad_digits (j : nat) (f : Z) (buf : string) : string :=
  match j with O => buf | S j => pad_digits j (f / 10) (String (digit (f mod 10)) buf) end.
Definition scale_of (j : nat) : spec_float := Nat.iter j (fun s => f64_mul s (f64_round 10)) (f64_round 1).

Lemma leadingFraction_digit x scale d s : 0 <= d < 10 -> 0 <= x -> x * 10 + d < 10 ^ 18 ->
  leadingFraction x scale false (String (digit d) s)
  = leadingFraction (x * 10 + d) (f64_mul scale (f64_round 10)) false s.
Proof.
  intros Hd Hx Hm. cbn [leadingFraction]. rewrite digit_is_digit, digit_value by done.
  rewrite (proj2 (Z.ltb_ge ((2 ^ 63 - 1) / 10) x)) by (apply Z.div_le_lower_bound; lia).
  by rewrite (proj2 (Z.ltb_ge _ _)) by lia.
Qed.

Lemma leadingFraction_pad j : forall f s, 0 <= f < 10 ^ Z.of_nat j -> (j <= 18)%nat ->
  leadingFraction 0 (f64_round 1) false (pad_digits j f s) = leadingFraction f (scale_of j) false s.
Proof.
  induction j as [|j IH]; intros f s Hf Hj.
  { cbn in *. by replace f with 0 by lia. }
  rewrite Nat2Z.inj_succ, Z.pow_succ_r in Hf by lia.
  pose proof (Z.mod_pos_bound f 10 ltac:(lia)). pose proof (Z.div_mod f 10 ltac:(lia)).
  assert (0 <= f / 10 < 10 ^ Z.of_nat j).
  { split; [apply Z.div_pos; lia|apply Z.div_lt_upper_bound; lia]. }
  assert (10 ^ Z.of_nat j <= 10 ^ 17) by (apply Z.pow_le_mono_r; lia).
  cbn [pad_digits]. rewrite IH, leadingFraction_digit by lia.
  replace (f / 10 * 10 + f mod 10) with f by lia. done.
Qed.

Lemma leadingFraction_stop x scale s : no_digit s -> leadingFraction x scale false s = (x, scale, s).
Proof. destruct s as [|c s]; cbn; [done|]. by intros ->. Qed.

Lemma length_pad j : forall f s, String.length (pad_digits j f s) = (j + String.length s)%nat.
Proof. induction j as [|j IH]; intros f s; [done|]. cbn [pad_digits]. rewrite IH. cbn. lia. Qed.

(** The fraction of [v] behind its last [j] digits, if it has one. *)
Definition frac_str (j : nat) (f : Z) (buf : string) : string :=
  if f =? 0 then buf else String "." (pad_digits j f buf).

(** A digit and the digits before it. *)
Lemma mod_digit v k : 0 <= k ->
  v mod (10 * 10 ^ k) mod 10 = v mod 10 /\ v mod (10 * 10 ^ k) / 10 = v / 10 mod 10 ^ k.
Proof.
  intros Hk. pose proof (Z.pow_pos_nonneg 10 k ltac:(lia) ltac:(lia)).
  pose proof (Z.mod_pos_bound v 10 ltac:(lia)).
  rewrite Z.rem_mul_r, (Z.mul_comm 10 (_ mod _)) by lia. split.
  - rewrite Z.mod_add, Z.mod_mod by lia. done.
  - rewrite Z.div_add, (Z.div_small (v mod 10)) by lia. done.
Qed.

Lemma fmtFrac_print k : forall v buf, 0 <= v ->
  fmtFrac k v true buf = (String "." (pad_digits k (v mod 10 ^ Z.of_nat k) buf), v / 10 ^ Z.of_nat k).
Proof.
  induction k as [|k IH]; intros v buf Hv.
  { cbn. by rewrite Z.div_1_r. }
  cbn [fmtFrac orb]. rewrite IH by (apply Z.div_pos; lia).
  rewrite Nat2Z.inj_succ, Z.pow_succ_r by lia.
  pose proof (Z.pow_pos_nonneg 10 (Z.of_nat k) ltac:(lia) ltac:(lia)).
  rewrite <- Z.div_div by lia. cbn [pad_digits].
  destruct (mod_digit v (Z.of_nat k)) as [-> ->]; [lia|]. done.
Qed.

(** What [fmtFrac] prints: the fraction in lowest terms. *)
Lemma fmtFrac_spec k : forall v buf, 0 <= v -> exists j f, (j <= k)%nat /\ 0 <= f < 10 ^ Z.of_nat j /\
  f * 10 ^ Z.of_nat (k - j) = v mod 10 ^ Z.of_nat k /\
  fmtFrac k v false buf = (frac_str j f buf, v / 10 ^ Z.of_nat k).
Proof.
  induction k as [|k IH]; intros v buf Hv.
  { exists 0%nat, 0. cbn. rewrite Z.div_1_r, Z.mod_1_r. done. }
  pose proof (Z.pow_pos_nonneg 10 (Z.of_nat k) ltac:(lia) ltac:(lia)).
  pose proof (Z.mod_pos_bound v 10 ltac:(lia)).
  cbn [fmtFrac orb]. destruct (v mod 10 =? 0) eqn:E; boolify.
  - destruct (IH (v / 10) buf) as (j & f & Hj & Hf & Heq & Hp); [apply Z.div_pos; lia|].
    exists j, f. split; [lia|]. split; [done|]. cbn [negb]. rewrite Hp.
    rewrite Nat2Z.inj_succ, Z.pow_succ_r by lia. split.
    + replace (S k - j)%nat with (S (k - j)) by lia.
      rewrite Nat2Z.inj_succ, Z.pow_succ_r, Z.rem_mul_r by lia. lia.
    + by rewrite <- Z.div_div by lia.
  - exists (S k), (v mod 10 ^ Z.of_nat (S k)). cbn [negb].
    rewrite fmtFrac_print by (apply Z.div_pos; lia).
    rewrite Nat2Z.inj_succ, Z.pow_succ_r by lia.
    destruct (mod_digit v (Z.of_nat k)) as [Hm Hd]; [lia|].
    split; [done|]. split; [apply Z.mod_pos_bound; lia|]. split.
    + rewrite Nat.sub_diag. cbn. lia.
    + rewrite <- Z.div_div by lia. unfold frac_str.
      rewrite (proj2 (Z.eqb_neq _ _)) by (intros Hz; rewrite Hz, Z.mod_0_l in Hm; lia).
      cbn [pad_digits]. by rewrite Hm, Hd.
Qed.

(** Dividing a power of ten by a smaller one is exact. *)
Lemma scale_divides p j : (p <= 9)%nat -> (j <= p)%nat ->
  f64_div (f64_round (10 ^ Z.of_nat p)) (scale_of j) = f64_round (10 ^ Z.of_nat (p - j)).
Proof.
  intros Hp Hj.
  assert (H : forallb (fun p => forallb (fun j => bool_decide
      (f64_div (f64_round (10 ^ Z.of_nat p)) (scale_of j) = f64_round (10 ^ Z.of_nat (p - j))))
      (List.seq 0 (S p))) (List.seq 0 10) = true) by (vm_compute; reflexivity).
  rewrite List.forallb_forall in H. specialize (H p). rewrite List.forallb_forall in H.
  apply (bool_decide_eq_true _), H; rewrite List.in_seq; lia.
Qed.

Lemma fraction_exact f p j : (p <= 9)%nat -> (j <= p)%nat -> 0 < f < 10 ^ Z.of_nat j ->
  fraction f (10 ^ Z.of_nat p) (scale_of j) = f * 10 ^ Z.of_nat (p - j).
Proof.
  intros Hp Hj Hf. unfold fraction. rewrite scale_divides by done.
  pose proof (Z.pow_pos_nonneg 10 (Z.of_nat (p - j)) ltac:(lia) ltac:(lia)).
  assert (Hb : 10 ^ Z.of_nat j * 10 ^ Z.of_nat (p - j) <= 10 ^ 9).
  { rewrite <- Z.pow_add_r by lia. apply Z.pow_le_mono_r; lia. }
  destruct f as [|f|f]; try lia. destruct (10 ^ Z.of_nat (p - j)) as [|q|q]; try lia.
  rewrite !f64_round_exact by nia. rewrite f64_mul_exact by (rewrite Pos2Z.inj_mul; nia).
  rewrite f64_of_uint64 by (rewrite Pos2Z.inj_mul; nia). done.
Qed.

(** ** A number with its fraction and unit *)

Definition unit_char (c : ascii) : bool := negb (is_dot c || is_digit c).
(** What may follow a unit: nothing or the next number. *)
Definition next_ok (s : string) : Prop := match s with EmptyString => True | String c _ => unit_char c = false end.

Lemma span_unit_app u rest : str_forall unit_char u = true -> next_ok rest ->
  span_unit (u +:+ rest) = (u, rest).
Proof.
  intros Hu Hr. induction u as [|c u IH].
  - destruct rest as [|c rest]; [done|]. cbn in Hr. apply negb_false_iff in Hr.
    rewrite append_nil. cbn. by rewrite Hr.
  - cbn in Hu. apply andb_true_iff in Hu as [Hc Hu]. apply negb_true_iff in Hc.
    rewrite append_cons. cbn. by rewrite Hc, IH.
Qed.

Lemma fmtInt_next_ok v s : next_ok (fmtInt v s).
Proof.
  destruct (fmtInt_head v s) as (c & t & -> & Hc & _). cbn. unfold unit_char. rewrite Hc.
  by rewrite orb_true_r.
Qed.

Section term.
Context (v f unit : Z) (j p : nat) (u rest : string).
Context (Hu : str_forall unit_char u = true) (Hne : u <> "") (Hunit : unitMap u = Some unit).
Context (Hrest : next_ok rest) (Hf : 0 <= f < 10 ^ Z.of_nat j).
Context (Hfrac : f = 0 \/ unit = 10 ^ Z.of_nat p /\ (p <= 9)%nat /\ (j <= p)%nat).
Context (Hv : 0 <= v) (Hunit0 : 0 < unit) (Hmax : v * unit + f * 10 ^ Z.of_nat (p - j) <= 2 ^ 63).

Lemma unit_no_digit s : no_digit (u +:+ s).
Proof.
  destruct u as [|c u']; [done|]. rewrite append_cons. cbn in *.
  apply andb_true_iff in Hu as [Hc _]. unfold unit_char in Hc. destruct (is_digit c); [|done].
  by rewrite orb_true_r in Hc.
Qed.

(** The part of the loop behind the number. *)
Lemma frac_read :
  match frac_str j f (u +:+ rest) with
  | String c t =>
      if is_dot c then
        let '(f, scale, t') := leadingFraction 0 (f64_round 1) false t in
        (f, scale, t', negb (len t' =? len t))
      else (0, f64_round 1, frac_str j f (u +:+ rest), false)
  | EmptyString => (0, f64_round 1, frac_str j f (u +:+ rest), false)
  end = (f, (if f =? 0 then f64_round 1 else scale_of j), u +:+ rest, negb (f =? 0)).
Proof.
  unfold frac_str. destruct (f =? 0) eqn:E; boolify.
  - subst f. destruct u as [|c u']; [done|]. rewrite append_cons. cbn in Hu.
    apply andb_true_iff in Hu as [Hc _]. unfold unit_char in Hc. by destruct (is_dot c).
  - destruct Hfrac as [?|(_ & Hp & Hj)]; [lia|]. change (is_dot ".") with true. cbn iota.
    rewrite leadingFraction_pad, leadingFraction_stop by (try apply unit_no_digit; lia).
    unfold len. rewrite length_pad. rewrite (proj2 (Z.eqb_neq _ _)); [done|].
    assert (j <> 0%nat) by (intros ->; cbn in Hf; lia). lia.
Qed.

Lemma parse_term_printed :
  parse_term (fmtInt v (frac_str j f (u +:+ rest))) = Ok (v * unit + f * 10 ^ Z.of_nat (p - j), rest).
Proof.
  pose proof (Z.pow_pos_nonneg 10 (Z.of_nat (p - j)) ltac:(lia) ltac:(lia)).
  assert (Hv63 : v * unit <= 2 ^ 63) by nia.
  assert (Hnd : no_digit (frac_str j f (u +:+ rest)))
    by (unfold frac_str; destruct (f =? 0); [apply unit_no_digit|done]).
  destruct (fmtInt_head v (frac_str j f (u +:+ rest))) as (c & t & Heq & Hc & Hlen).
  unfold parse_term. rewrite Heq, Hc, orb_true_r. cbn [negb]. rewrite <- Heq.
  rewrite leadingInt_fmtInt by (done || nia). cbn [outcome_bind mbind].
  rewrite frac_read. cbn iota.
  rewrite (proj2 (Z.eqb_neq (len _) _)) by (unfold len; lia). cbn [negb andb].
  rewrite span_unit_app by done. cbn iota.
  rewrite (proj2 (String.eqb_neq _ _)) by done. rewrite Hunit.
  rewrite (proj2 (Z.ltb_ge _ _)) by (apply Z.div_le_lower_bound; lia).
  destruct (f =? 0) eqn:E; boolify.
  - rewrite (proj2 (Z.ltb_ge 0 f)) by lia. subst f. by rewrite Z.mul_0_l, Z.add_0_r.
  - rewrite (proj2 (Z.ltb_lt 0 f)) by lia. destruct Hfrac as [?|(-> & Hp & Hj)]; [lia|].
    rewrite fraction_exact by (lia || done).
    unfold uint64. rewrite uwrap_small by (unfold in_u; lia).
    by rewrite (proj2 (Z.ltb_ge _ _)) by done.
Qed.
End term.

(** ** All the numbers of a duration *)

(** From the sum [d] on the text [s] is read as [r], whatever fuel is left beyond its length. *)
Definition reads (d : Z) (s : string) (r : Z) : Prop :=
  forall fuel, (String.length s <= fuel)%nat -> parse_terms fuel d s = Ok r.

Lemma reads_end d : reads d "" d.
Proof. by intros [|fuel] _. Qed.

Lemma length_frac j f s : (String.length s <= String.length (frac_str j f s))%nat.
Proof. unfold frac_str. destruct (f =? 0); [done|]. cbn. rewrite length_pad. lia. Qed.

Lemma reads_term d v f unit j p u rest r :
  str_forall unit_char u = true -> u <> "" -> unitMap u = Some unit -> next_ok rest ->
  0 <= f < 10 ^ Z.of_nat j -> (f = 0 \/ unit = 10 ^ Z.of_nat p /\ (p <= 9)%nat /\ (j <= p)%nat) ->
  0 <= v -> 0 < unit -> 0 <= d -> d + (v * unit + f * 10 ^ Z.of_nat (p - j)) <= 2 ^ 63 ->
  reads (d + (v * unit + f * 10 ^ Z.of_nat (p - j))) rest r ->
  reads d (fmtInt v (frac_str j f (u +:+ rest))) r.
Proof.
  intros Hu Hne Hunit Hrest Hf Hfrac Hv Hpos Hd Hmax Hr fuel Hfuel.
  pose proof (Z.pow_pos_nonneg 10 (Z.of_nat (p - j)) ltac:(lia) ltac:(lia)).
  pose proof (length_frac j f (u +:+ rest)) as Hlf. rewrite length_string_app in Hlf.
  destruct (fmtInt_head v (frac_str j f (u +:+ rest))) as (c & t & Heq & _ & Hlen).
  destruct fuel as [|fuel]; [lia|]. cbn [parse_terms]. rewrite Heq, <- Heq.
  rewrite (parse_term_printed v f unit j p u rest) by (done || nia). cbn [outcome_bind mbind].
  unfold uint64. rewrite uwrap_small by (unfold in_u; nia).
  rewrite (proj2 (Z.ltb_ge _ _)) by lia. apply Hr. lia.
Qed.

(** A number without a fraction. *)
Lemma reads_whole d v unit u rest r :
  str_forall unit_char u = true -> u <> "" -> unitMap u = Some unit -> next_ok rest ->
  0 <= v -> 0 < unit -> 0 <= d -> d + v * unit <= 2 ^ 63 ->
  reads (d + v * unit) rest r -> reads d (fmtInt v (u +:+ rest)) r.
Proof.
  intros Hu Hne Hunit Hrest Hv Hpos Hd Hmax Hr.
  apply (reads_term d v 0 unit 0 0 u rest r); rewrite ?Z.mul_0_l, ?Z.add_0_r; (done || lia || by left).
Qed.

(** The last number, with a fraction of up to [p] digits. *)
Lemma reads_last d w p u : (p <= 9)%nat ->
  str_forall unit_char u = true -> u <> "" -> unitMap u = Some (10 ^ Z.of_nat p) ->
  0 <= w -> 0 <= d -> forall v, 0 <= v -> 
  d + (v * 10 ^ Z.of_nat p + w mod 10 ^ Z.of_nat p) <= 2 ^ 63 ->
  reads d (fmtInt v (fst (fmtFrac p w false u))) (d + (v * 10 ^ Z.of_nat p + w mod 10 ^ Z.of_nat p)).
Proof.
  intros Hp Hu Hne Hunit Hw Hd v Hv Hmax.
  pose proof (Z.pow_pos_nonneg 10 (Z.of_nat p) ltac:(lia) ltac:(lia)).
  destruct (fmtFrac_spec p w u Hw) as (j & f & Hj & Hf & Heq & ->). cbn [fst].
  rewrite <- Heq in Hmax |- *. rewrite <- (append_nil_r u).
  apply (reads_term d v f (10 ^ Z.of_nat p) j p u ""); (done || lia || by right || apply reads_end).
Qed.

Lemma fmtFrac_snd p w u : 0 <= w -> snd (fmtFrac p w false u) = w / 10 ^ Z.of_nat p.
Proof. intros Hw. by destruct (fmtFrac_spec p w u Hw) as (? & ? & _ & _ & _ & ->). Qed.

Lemma reads_small u unit p : 0 < u -> (p <= 9)%nat -> u < 2 ^ 63 ->
  str_forall unit_char unit = true -> unit <> "" -> unitMap unit = Some (10 ^ Z.of_nat p) ->
  reads 0 (let '(buf, u) := fmtFrac p u false unit in fmtInt u buf) u.
Proof.
  intros Hu Hp Hmax H1 H2 H3. pose proof (Z.pow_pos_nonneg 10 (Z.of_nat p) ltac:(lia) ltac:(lia)).
  rewrite (surjective_pairing (fmtFrac p u false unit)), fmtFrac_snd by lia.
  assert (Hdm : 0 + (u / 10 ^ Z.of_nat p * 10 ^ Z.of_nat p + u mod 10 ^ Z.of_nat p) = u)
    by (pose proof (Z.div_mod u (10 ^ Z.of_nat p)); lia).
  pose proof (reads_last 0 u p unit Hp H1 H2 H3 ltac:(lia) ltac:(lia) (u / 10 ^ Z.of_nat p)
    ltac:(apply Z.div_pos; lia) ltac:(lia)) as Hr. by rewrite Hdm in Hr.
Qed.

Lemma reads_body u : 0 <= u <= 2 ^ 63 -> reads 0 (String_body u) u.
Proof.
  intros Hu. unfold String_body. destruct (u <? Second) eqn:E; boolify.
  - unfold Second, Millisecond, Microsecond, Nanosecond in E.
    destruct (u =? 0) eqn:E0; boolify.
    { subst u. intros [|[|fuel]] Hf; [cbn in Hf; lia..|]. by vm_compute. }
    destruct (u <? Microsecond); [|destruct (u <? Millisecond)];
      apply (reads_small u); (done || lia).
  - change Second with 1000000000 in E. set (s := u / 10 ^ Z.of_nat 9).
    pose proof (Z.mod_pos_bound u (10 ^ Z.of_nat 9) ltac:(lia)) as Bu.
    pose proof (Z.div_mod s 60 ltac:(lia)) as Ds. pose proof (Z.mod_pos_bound s 60 ltac:(lia)) as Bs.
    pose proof (Z.div_mod (s / 60) 60 ltac:(lia)) as Dm. pose proof (Z.mod_pos_bound (s / 60) 60 ltac:(lia)) as Bm.
    assert (Hs0 : 0 <= s) by (apply Z.div_pos; lia).
    assert (Hm0 : 0 <= s / 60) by (apply Z.div_pos; lia).
    assert (Hh0 : 0 <= s / 60 / 60) by (apply Z.div_pos; lia).
    assert (Hus : u = s * 1000000000 + u mod 10 ^ Z.of_nat 9).
    { unfold s. pose proof (Z.div_mod u (10 ^ Z.of_nat 9) ltac:(lia)). change (10 ^ Z.of_nat 9) with 1000000000 in *. lia. }
    rewrite (surjective_pairing (fmtFrac 9 u false "s")), fmtFrac_snd by lia. fold s.
    assert (Hlast : forall d r, 0 <= d -> r = d + (s mod 60 * 1000000000 + u mod 10 ^ Z.of_nat 9) -> r <= 2 ^ 63 ->
      reads d (fmtInt (s mod 60) (fst (fmtFrac 9 u false "s"))) r).
    { intros d r Hd -> Hr. apply (reads_last d u 9 "s"); (done || lia). }
    destruct (0 <? s / 60) eqn:E1; boolify; [destruct (0 <? s / 60 / 60) eqn:E2; boolify|].
    + apply (reads_whole 0 (s / 60 / 60) Hour "h"); try done; try (change Hour with 3600000000000; lia).
      { apply fmtInt_next_ok. }
      apply (reads_whole _ (s / 60 mod 60) Minute "m"); try done;
        try (change Hour with 3600000000000; change Minute with 60000000000; lia).
      { apply fmtInt_next_ok. }
      apply Hlast; change Hour with 3600000000000; change Minute with 60000000000; lia.
    + apply (reads_whole 0 (s / 60 mod 60) Minute "m"); try done; try (change Minute with 60000000000; lia).
      { apply fmtInt_next_ok. }
      apply Hlast; change Minute with 60000000000; lia.
    + apply Hlast; lia.
Qed.

Lemma body_head u : exists c t, String_body u = String c t /\ is_digit c = true.
Proof.
  assert (H : forall v s, exists c t, fmtInt v s = String c t /\ is_digit c = true).
  { intros v s. destruct (fmtInt_head v s) as (c & t & ? & ? & _). eauto. }
  unfold String_body. destruct (u <? Second).
  - destruct (u =? 0); [by eexists _, _|]. destruct (if u <? Microsecond then _ else _) as [unit p].
    destruct (fmtFrac p u false unit). apply H.
  - destruct (fmtFrac 9 u false "s") as [buf w]. destruct (0 <? w / 60); [|apply H].
    destruct (0 <? w / 60 / 60); apply H.
Qed.

Lemma digit_no_sign c : is_digit c = true -> Ascii.eqb c "-" = false /\ Ascii.eqb c "+" = false.
Proof. intros H. split; apply Ascii.eqb_neq; intros ->; by vm_compute in H. Qed.

(** Printing and reading a duration is the identity. *)
Lemma ParseDuration_String d : in_s 64 d -> ParseDuration (Duration_String d) = Ok d.
Proof.
  unfold in_s. intros Hd. cbn in Hd.
  assert (Hbody : forall u, 0 <= u <= 2 ^ 63 ->
    (String_body u =? "0")%string = false /\ (String_body u =? "")%string = false /\
    parse_terms (String.length (String_body u)) 0 (String_body u) = Ok u).
  { intros u Hu. pose proof (reads_body u Hu _ (Nat.le_refl _)) as Hr.
    destruct (body_head u) as (c & t & Heq & _). rewrite Heq in Hr |- *.
    split; [|split; [done|exact Hr]]. apply String.eqb_neq. intros E0. rewrite E0 in Hr. by vm_compute in Hr. }
  unfold Duration_String, ParseDuration. destruct (d <? 0) eqn:E; boolify.
  - assert (uint64 (- uint64 d) = - d) as ->.
    { unfold uint64, uwrap. pose proof (Z.mod_pos_bound d (2 ^ 64) ltac:(lia)).
      assert (d mod 2 ^ 64 = d + 2 ^ 64) as -> by (symmetry; apply (Z.mod_unique _ _ (-1)); lia).
      symmetry. apply (Z.mod_unique _ _ (-1)); lia. }
    rewrite Ascii.eqb_refl. destruct (Hbody (- d)) as (-> & -> & ->); [lia|].
    cbn [outcome_bind mbind]. f_equal. unfold int64, swrap.
    destruct (Z.eq_dec d (- 2 ^ 63)) as [->|Hne]; [by vm_compute|].
    rewrite (Z.mod_small (- d + _)), (Z.mod_small (_ + _)) by lia. lia.
  - assert (uint64 d = d) as -> by (unfold uint64; apply uwrap_small; unfold in_u; lia).
    destruct (Hbody d) as (H0 & H1 & H2); [lia|]. destruct (body_head d) as (c & t & Heq & Hc).
    rewrite Heq in *. destruct (digit_no_sign c Hc) as [-> ->]. rewrite H0, H1, H2.
    cbn [outcome_bind mbind]. by rewrite (proj2 (Z.ltb_ge _ _)) by lia.
Qed.

(** ** Reading ends *)

Lemma leadingInt_le s : forall x v t, leadingInt x s = Ok (v, t) ->
  (String.length t <= String.length s)%nat /\ (0 <= x -> 0 <= v).
Proof.
  induction s as [|c s IH]; intros x v t; cbn [leadingInt]; [by intros [= -> <-]|].
  destruct (is_digit c) eqn:Hc; [|by intros [= -> <-]].
  destruct (2 ^ 63 / 10 <? x); [done|]. destruct (2 ^ 63 <? _); [done|].
  intros [Hl Hv]%IH. split; [cbn; lia|]. intros Hx. apply Hv. unfold is_digit in Hc. lia.
Qed.

Lemma leadingFraction_le s : forall x scale b, (String.length (snd (leadingFraction x scale b s)) <= String.length s)%nat.
Proof.
  induction s as [|c s IH]; intros x scale b; cbn [leadingFraction]; [done|].
  repeat case_match; cbn [snd String.length]; try apply Nat.le_succ_r; auto.
Qed.

Lemma span_unit_split s : forall u t, span_unit s = (u, t) -> s = u +:+ t.
Proof.
  induction s as [|c s IH]; intros u t; cbn; [by intros [= <- <-]|].
  destruct (is_dot c || is_digit c); [by intros [= <- <-]|].
  destruct (span_unit s) as [u' t'] eqn:E. intros [= <- <-].
  rewrite append_cons. f_equal. by apply IH.
Qed.

(** A turn reads something. *)
Lemma parse_term_shorter s v t : parse_term s = Ok (v, t) -> (String.length t < String.length s)%nat.
Proof.
  unfold parse_term. destruct s as [|c0 s0]; [done|]. set (s := String c0 s0).
  destruct (negb (is_dot c0 || is_digit c0)); [done|].
  destruct (leadingInt 0 s) as [[v' s1]| | |] eqn:E; try done. cbn [outcome_bind mbind].
  apply leadingInt_le in E as [Hl _].
  destruct (match s1 with String _ _ => _ | EmptyString => _ end) as [[[f scale] s2] post] eqn:E1.
  assert (Hl2 : (String.length s2 <= String.length s1)%nat).
  { destruct s1 as [|c t1]; [by injection E1 as <- <- <- <-|].
    destruct (is_dot c); [|by injection E1 as <- <- <- <-].
    pose proof (leadingFraction_le t1 0 (f64_round 1) false) as Hf.
    destruct (leadingFraction 0 (f64_round 1) false t1) as [[f' scale'] t'].
    injection E1 as <- <- <- <-. cbn in *. lia. }
  destruct (negb _ && negb post); [done|].
  destruct (span_unit s2) as [u s3] eqn:E2. apply span_unit_split in E2.
  destruct (u =? "")%string eqn:Eu; [done|].
  assert (Hl3 : (String.length s3 < String.length s2)%nat).
  { subst s2. rewrite length_string_app. destruct u; [done|]. cbn. lia. }
  repeat case_match; intros [= <- <-]; lia.
Qed.

(** Nor does it panic or run out of fuel. *)
Lemma leadingInt_plain s : forall x, plain (leadingInt x s).
Proof. induction s as [|c s IH]; intros x; cbn; [done|]. repeat case_match; done. Qed.

Lemma parse_term_plain s : plain (parse_term s).
Proof.
  unfold parse_term. destruct s as [|c0 s0]; [done|].
  destruct (negb (is_dot c0 || is_digit c0)); [done|].
  pose proof (leadingInt_plain (String c0 s0) 0) as Hp.
  destruct (leadingInt 0 (String c0 s0)) as [[v s1]| | |]; try done. cbn [outcome_bind mbind].
  destruct (match s1 with String _ _ => _ | EmptyString => _ end) as [[[f scale] s2] post].
  destruct (negb _ && negb post); [done|]. destruct (span_unit s2) as [u s3]. repeat case_match; done.
Qed.

Lemma parse_terms_ends fuel : forall d s, (String.length s <= fuel)%nat -> 0 <= d <= 2 ^ 63 ->
  plain (parse_terms fuel d s) /\ forall z, parse_terms fuel d s = Ok z -> 0 <= z <= 2 ^ 63.
Proof.
  induction fuel as [|fuel IH]; intros d s Hl Hd.
  { destruct s; [|cbn in Hl; lia]. split; [done|]. by intros z [= <-]. }
  destruct s as [|c s]; [split; [done|]; by intros z [= <-]|].
  cbn [parse_terms]. pose proof (parse_term_plain (String c s)) as Hp.
  destruct (parse_term (String c s)) as [[v t]|e|e|] eqn:E; try done. cbn [outcome_bind mbind].
  apply parse_term_shorter in E. destruct (2 ^ 63 <? uint64 (d + v)) eqn:E1; boolify; [done|].
  apply IH; [cbn in *; lia|]. pose proof (uwrap_range 64 (d + v)) as [? _]; [lia|]. unfold uint64 in *. lia.
Qed.

(** Reading any text gives a duration or an error. *)
Lemma ParseDuration_total s : plain (ParseDuration s) /\ forall d, ParseDuration s = Ok d -> in_s 64 d.
Proof.
  unfold ParseDuration. destruct (match s with String _ _ => _ | EmptyString => _ end) as [neg t].
  destruct (t =? "0")%string; [split; [done|]; by intros d [= <-]|].
  destruct (t =? "")%string; [done|].
  destruct (parse_terms_ends (String.length t) 0 t ltac:(lia) ltac:(lia)) as [Hp Hb].
  destruct (parse_terms (String.length t) 0 t) as [u|e|e|]; try done. cbn [outcome_bind mbind].
  specialize (Hb u eq_refl). destruct neg.
  - split; [done|]. intros d [= <-]. by apply swrap_range.
  - destruct (2 ^ 63 - 1 <? u) eqn:E; boolify; [done|]. split; [done|]. intros d [= <-].
    unfold in_s. cbn. lia.
Qed.
