(* ===== verification/DmDuration.v ===== *)
(** * dmcontext/device.go: durations in JSON

    [Duration] and its three methods, over [Duration.String] and [ParseDuration] of package
    time (GoDuration). encoding/json is a parameter: what it makes of a text, and that a text
    in UTF-8 it has encoded is decoded to itself. *)

From Stdlib Require Import ZArith Lia Ascii String.
From stdpp Require Import base option list strings.
From S2P Require Import Prelude GoStrconv GoStrings GoValue GoFloat GoDuration.

Local Open Scope string_scope.
Local Open Scope Z_scope.
Local Open Scope list_scope.

(** Text in UTF-8 with code points below U+0100. *)
Fixpoint latin1 (s : string) : bool :=
  match s with
  | EmptyString => true
  | String c t =>
      if is_ascii c then latin1 t
      else match t with
           | String c' t' => (194 <=? b2z c) && (b2z c <=? 195) && (128 <=? b2z c') && (b2z c' <? 192) && latin1 t'
           | EmptyString => false
           end
  end.

Definition ErrInvalidDurationValue : error := "invalid duration".

Section duration.
(** json.Marshal of a string, json.Unmarshal into an interface, yaml.Marshal of a string,
    and the int64 of a float out of its range, which is up to the implementation. *)
Context (Marshal : string -> outcome string) (Unmarshal : string -> outcome GoVal).
Context (yaml_Marshal : string -> outcome string) (odd_int64 : float64 -> Z).

Definition Duration_MarshalYAML (d : Z) : outcome string := yaml_Marshal (Duration_String d).

Definition Duration_MarshalJSON (d : Z) : outcome string := Marshal (Duration_String d).

(** The receiver afterwards, and the error. *)
Definition Duration_UnmarshalJSON (d : Z) (b : string) : outcome (Z * option error) :=
  match Unmarshal b with
  | Ok (VFloat64 value) => Ok (default (odd_int64 value) (f64_to_int64 value), None)
  | Ok (VString value) =>
      match ParseDuration value with
      | Ok d => Ok (d, None)
      | Err e => Ok (0, Some e)
      | Panic e => Panic e
      | NoFuel => NoFuel
      end
  | Ok _ => Ok (d, Some ErrInvalidDurationValue)
  | Err e => Ok (d, Some e)
  | Panic e => Panic e
  | NoFuel => NoFuel
  end.

(** ** What is printed is text *)

Lemma latin1_ascii c s : is_ascii c = true -> latin1 (String c s) = latin1 s.
Proof. cbn. by intros ->. Qed.

Lemma digit_ascii d : 0 <= d < 10 -> is_ascii (digit d) = true.
Proof. intros Hd. unfold is_ascii, digit. rewrite b2z_z2b, Z.mod_small by lia. lia. Qed.

Lemma latin1_digit v s : latin1 (String (digit (v mod 10)) s) = latin1 s.
Proof. apply latin1_ascii, digit_ascii, Z.mod_pos_bound. lia. Qed.

Lemma latin1_fmtInt v s : latin1 (fmtInt v s) = latin1 s.
Proof.
  unfold fmtInt. generalize (S (Z.to_nat (Z.log2 v))). intros fuel. revert v s.
  induction fuel as [|fuel IH]; intros v s; [done|]. cbn [format_digits].
  destruct (v <? 10); [|rewrite IH]; apply latin1_digit.
Qed.

Lemma latin1_fmtFrac k : forall v print s, latin1 (fst (fmtFrac k v print s)) = latin1 s.
Proof.
  induction k as [|k IH]; intros v print s; cbn [fmtFrac fst]; [by destruct print|].
  rewrite IH. destruct (print || _); [apply latin1_digit|done].
Qed.

Lemma latin1_frac_int k v s : latin1 s = true ->
  latin1 (let '(buf, u) := fmtFrac k v false s in fmtInt u buf) = true.
Proof.
  intros Hs. pose proof (latin1_fmtFrac k v false s) as H.
  destruct (fmtFrac k v false s) as [buf u]. rewrite latin1_fmtInt. cbn in H. congruence.
Qed.

Lemma latin1_body u : latin1 (String_body u) = true.
Proof.
  unfold String_body. destruct (u <? Second).
  - destruct (u =? 0); [done|].
    destruct (u <? Microsecond); [|destruct (u <? Millisecond)]; by apply latin1_frac_int.
  - pose proof (latin1_fmtFrac 9 u false "s") as H.
    destruct (fmtFrac 9 u false "s") as [buf w]. cbn [fst] in H.
    destruct (0 <? w / 60); [destruct (0 <? w / 60 / 60)|];
      repeat (rewrite latin1_fmtInt || rewrite latin1_ascii by done); exact H.
Qed.

Lemma latin1_String d : latin1 (Duration_String d) = true.
Proof.
  unfold Duration_String. destruct (d <? 0); [rewrite latin1_ascii by done|]; apply latin1_body.
Qed.

(** ** What JSON keeps *)

(** encoding/json decodes the text it encoded. *)
Context (json_text : forall s, latin1 s = true -> exists b, Marshal s = Ok b /\ Unmarshal b = Ok (VString s)).
Context (odd_in_range : forall f, in_s 64 (odd_int64 f)).

(** C27. Every duration survives its JSON text, whatever the receiver held; reading any JSON
    ends without a panic of its own and leaves a duration of 64 bits; and text that is no
    duration sets the receiver to zero, while a value of another kind leaves it as it was. *)
Theorem duration_json_roundtrip d d0 : in_s 64 d -> in_s 64 d0 ->
  (exists b, Duration_MarshalJSON d = Ok b /\ Duration_UnmarshalJSON d0 b = Ok (d, None)) /\
  (forall b v, Unmarshal b = Ok v -> exists d1 e, Duration_UnmarshalJSON d0 b = Ok (d1, e) /\
     in_s 64 d1 /\ (e <> None -> d1 = match v with VString _ => 0 | _ => d0 end)).
Proof.
  intros Hd Hd0. split.
  - destruct (json_text (Duration_String d) (latin1_String d)) as (b & Hm & Hu). exists b.
    split; [exact Hm|]. unfold Duration_UnmarshalJSON. by rewrite Hu, ParseDuration_String.
  - intros b v Hu. unfold Duration_UnmarshalJSON. rewrite Hu.
    destruct v as [| | | |f|s| | | | | | | | | |]; try (eexists _, _; split; [reflexivity|]; done).
    + eexists _, _. split; [reflexivity|]. split; [|done]. unfold f64_to_int64.
      destruct f as [b0|b0| |b0 m e]; cbn [default from_option id]; try apply odd_in_range; [done|].
      case_bool_decide; [done|apply odd_in_range].
    + destruct (ParseDuration_total s) as [Hp Hr]. destruct (ParseDuration s) as [z|e|e|]; try done.
      * eexists _, _. split; [reflexivity|]. split; [by apply Hr|done].
      * eexists _, _. split; [reflexivity|]. done.
Qed.
End duration.

(** ** Examples *)

(** Strings in quotes and nothing else. *)
Definition quote (s : string) : outcome string := Ok (String "034" (s +:+ String "034" "")).
Definition unquote (b : string) : outcome GoVal :=
  match b with
  | String _ t => Ok (VString (String.substring 0 (Nat.pred (String.length t)) t))
  | EmptyString => Err "unexpected end of JSON input"
  end.

Lemma substring_app s t : String.substring 0 (String.length s) (s +:+ t) = s.
Proof. induction s as [|c s IH]; [by destruct t|]. rewrite append_cons. cbn. by rewrite IH. Qed.

Lemma unquote_quote s : latin1 s = true -> exists b, quote s = Ok b /\ unquote b = Ok (VString s).
Proof.
  intros _. eexists. split; [reflexivity|]. unfold unquote. rewrite length_string_app. cbn [String.length].
  rewrite Nat.add_1_r. cbn [Nat.pred]. by rewrite substring_app.
Qed.

Lemma duration_json_roundtrip_witness :
  (exists b, Duration_MarshalJSON quote (90 * Minute) = Ok b /\
     Duration_UnmarshalJSON unquote (fun _ => 0) Second b = Ok (90 * Minute, None)).
Proof.
  refine (proj1 (duration_json_roundtrip quote unquote (fun _ => 0) unquote_quote _ (90 * Minute) Second _ _)).
  - intros _. split; vm_compute; congruence.
  - split; vm_compute; congruence.
  - split; vm_compute; congruence.
Defined.

Example duration_texts :
  Duration_MarshalJSON quote (90 * Minute) = quote "1h30m0s" /\
  Duration_UnmarshalJSON unquote (fun _ => 0) Second (String "034" "5 minutes'") = Ok (0, Some ErrUnknownUnit).
Proof. repeat split; vm_compute; reflexivity. Qed.
