(* ===== verification/Defaults.v ===== *)
(** * utils/defaults.go: default values

    [SetDefaults] over the types and values it walks by reflection. What the defaults
    library does to one struct is a parameter; the package adds the structs in the slices
    and maps of its fields. Types are those without a slice or map of themselves. *)

From Stdlib Require Import ZArith Lia String.
From stdpp Require Import base option list strings.
From S2P Require Import Prelude.

Local Open Scope string_scope.
Local Open Scope list_scope.

#[local] Set Warnings "-register-all".

Section defaults.
(** The other values, and their types: strings, numbers, pointers, interfaces. *)
Context {B T : Type}.

Inductive ty :=
  | TOther (t : T)
  | TStruct (fields : list (bool * ty))       (* exported or not *)
  | TSlice (elem : ty)
  | TMap (elem : ty).

(** A map is the list of its entries in the order of a range. *)
Inductive val :=
  | VOther (b : B)
  | VStruct (fields : list val)
  | VSlice (items : list val)
  | VMap (entries : list (string * val)).

Definition is_struct (t : ty) : bool := match t with TStruct _ => true | _ => false end.

Definition unexported : string :=
  "reflect: reflect.Value.Set using value obtained using unexported field".

(** [defaults.Set] on a struct of a type. *)
Context (Set_ : ty -> val -> outcome val).

Definition each {A} (f : A -> outcome A) : list A -> outcome (list A) :=
  fix each l := match l with [] => Ok [] | a :: l => a' ← f a; l' ← each l; Ok (a' :: l') end.

(** [SetDefaults(ptr)]; [setDefaults] is the same on a copy that is put back. *)
Fixpoint SetDefaults (t : ty) (v : val) : outcome val :=
  let set_item exported elem item :=
    if is_struct elem then if exported : bool then SetDefaults elem item else Panic unexported
    else Ok item in
  let set_field exported t v :=
    match t, v with
    | TSlice elem, VSlice items => items ← each (set_item exported elem) items; Ok (VSlice items)
    | TMap elem, VMap entries =>
        entries ← each (fun kv => x ← set_item exported elem kv.2; Ok (kv.1, x)) entries; Ok (VMap entries)
    | _, _ => Ok v
    end in
  v ← Set_ t v;
  match t, v with
  | TStruct fs, VStruct vs =>
      vs ← (fix set_fields fs vs :=
              match fs, vs with
              | (exported, tf) :: fs, vf :: vs => vf ← set_field exported tf vf; vs ← set_fields fs vs; Ok (vf :: vs)
              | _, _ => Ok []
              end) fs vs;
      Ok (VStruct vs)
  | _, _ => Ok v
  end.

(** ** The walk, one level at a time *)

Definition set_item (exported : bool) (elem : ty) (item : val) : outcome val :=
  if is_struct elem then if exported then SetDefaults elem item else Panic unexported else Ok item.
Definition set_entry (exported : bool) (elem : ty) (kv : string * val) : outcome (string * val) :=
  x ← set_item exported elem kv.2; Ok (kv.1, x).
Definition set_field (exported : bool) (t : ty) (v : val) : outcome val :=
  match t, v with
  | TSlice elem, VSlice items => items ← each (set_item exported elem) items; Ok (VSlice items)
  | TMap elem, VMap entries => entries ← each (set_entry exported elem) entries; Ok (VMap entries)
  | _, _ => Ok v
  end.
Fixpoint set_fields (fs : list (bool * ty)) (vs : list val) : outcome (list val) :=
  match fs, vs with
  | (exported, tf) :: fs, vf :: vs => vf ← set_field exported tf vf; vs ← set_fields fs vs; Ok (vf :: vs)
  | _, _ => Ok []
  end.

Lemma SetDefaults_struct fs vs : SetDefaults (TStruct fs) (VStruct vs) =
  (v ← Set_ (TStruct fs) (VStruct vs);
   match v with VStruct vs => vs ← set_fields fs vs; Ok (VStruct vs) | _ => Ok v end).
Proof. reflexivity. Qed.

Lemma each_ok {A} (f : A -> outcome A) l l' : each f l = Ok l' <-> Forall2 (fun a b => f a = Ok b) l l'.
Proof.
  revert l'. induction l as [|a l IH]; intros l'; cbn.
  - split; [intros [= <-]; constructor|]. intros H. by inversion H.
  - split.
    + intros (b & Hb & (k & Hk & [= <-])%outcome_bind_ok)%outcome_bind_ok. constructor; [done|by apply IH].
    + intros H. inversion H as [|? b ? k Hb Hk]; subst. rewrite Hb. cbn. apply IH in Hk. by rewrite Hk.
Qed.

(** Induction over types, the fields of a struct included. *)
Lemma ty_ind' (P : ty -> Prop) : (forall t, P (TOther t)) -> (forall fs, Forall (fun f => P f.2) fs -> P (TStruct fs)) ->
  (forall e, P e -> P (TSlice e)) -> (forall e, P e -> P (TMap e)) -> forall t, P t.
Proof.
  intros H1 H2 H3 H4. fix IH 1. intros [t|fs|e|e]; [apply H1| |by apply H3|by apply H4].
  apply H2. induction fs as [|[x f] fs IHfs]; constructor; [apply IH|done].
Qed.

(** ** Types and what has its defaults *)

Fixpoint has_type (t : ty) (v : val) : Prop :=
  match t, v with
  | TOther _, VOther _ => True
  | TStruct fs, VStruct vs =>
      (fix go fs vs := match fs, vs with
                       | f :: fs, v :: vs => has_type (snd f) v /\ go fs vs
                       | [], [] => True
                       | _, _ => False
                       end) fs vs
  | TSlice e, VSlice l => Forall (has_type e) l
  | TMap e, VMap m => Forall (fun kv => has_type e kv.2) m
  | _, _ => False
  end.

Lemma has_type_struct fs vs : has_type (TStruct fs) (VStruct vs) <-> Forall2 (fun f v => has_type f.2 v) fs vs.
Proof.
  cbn. revert vs. induction fs as [|f fs IH]; intros [|v vs]; (split; [|intros H; inversion H; subst]); try done.
  - intros [? ?]. constructor; [done|by apply IH].
  - split; [done|by apply IH].
Qed.

(** [D] says that a struct has its defaults, of its own fields. *)
Context (D : ty -> val -> Prop).

(** A struct has its defaults, and so have the structs in its slices and maps. *)
Fixpoint deep (t : ty) (v : val) : Prop :=
  match t, v with
  | TStruct fs, VStruct vs =>
      D t v /\
      (fix go fs vs := match fs, vs with
                       | f :: fs, v :: vs =>
                           match snd f, v with
                           | TSlice e, VSlice l => is_struct e = true -> Forall (deep e) l
                           | TMap e, VMap m => is_struct e = true -> Forall (fun kv => deep e kv.2) m
                           | _, _ => True
                           end /\ go fs vs
                       | _, _ => True
                       end) fs vs
  | _, _ => True
  end.

Definition deep_field (t : ty) (v : val) : Prop :=
  match t, v with
  | TSlice e, VSlice l => is_struct e = true -> Forall (deep e) l
  | TMap e, VMap m => is_struct e = true -> Forall (fun kv => deep e kv.2) m
  | _, _ => True
  end.

Lemma deep_struct fs vs : length fs = length vs ->
  (deep (TStruct fs) (VStruct vs) <->
   D (TStruct fs) (VStruct vs) /\ Forall2 (fun f v => deep_field f.2 v) fs vs).
Proof.
  intros Hl. cbn [deep]. apply and_iff_compat_l. revert vs Hl.
  induction fs as [|f fs IH]; intros [|v vs] Hl; try done.
  injection Hl as Hl. specialize (IH vs Hl). split.
  - intros [Hd Hr]. constructor; [exact Hd|by apply IH].
  - intros Hf. inversion Hf; subst. split; [done|by apply IH].
Qed.

Lemma deep_D t v : is_struct t = true -> has_type t v -> deep t v -> D t v.
Proof. destruct t as [|fs| |], v as [|vs| |]; try done. by intros _ _ [H _]. Qed.

(** What the walk below a field keeps of it: lengths, keys and what are not structs; the
    structs get their defaults. *)
Definition same_shape (t : ty) (v w : val) : Prop :=
  match t, v, w with
  | TSlice e, VSlice l, VSlice k =>
      if is_struct e then length l = length k /\ Forall (D e) k else l = k
  | TMap e, VMap m, VMap n =>
      if is_struct e then m.*1 = n.*1 /\ Forall (D e) n.*2 else m = n
  | _, _, _ => v = w
  end.
Definition same_shapes (fs : list (bool * ty)) (vs ws : list val) : Prop :=
  Forall3 (fun f v w => same_shape f.2 v w) fs vs ws.

(** Of a property of the structs of a type, what it says of the elements of a field. *)
Definition on_elem (Q : ty -> Prop) (t : ty) : Prop :=
  match t with TSlice e | TMap e => is_struct e = true -> Q e | _ => True end.

(** To prove it of all structs, the elements of the fields may be taken for granted. *)
Lemma struct_ind (Q : ty -> Prop) : (forall fs, Forall (fun f => on_elem Q f.2) fs -> Q (TStruct fs)) ->
  forall t, is_struct t = true -> Q t.
Proof.
  intros H t. enough (Hb : (is_struct t = true -> Q t) /\ on_elem Q t) by apply Hb.
  induction t as [t|fs IH|e IH|e IH] using ty_ind'; cbn; try (split; [done|apply IH]); [done|].
  split; [|done]. intros _. apply H. eapply Forall_impl; [exact IH|]. by intros f [_ Hf].
Qed.

(** [defaults.Set] gives a struct of the type that has its defaults, also when the structs
    in its slices and maps are replaced by others that have theirs. *)
Context (set_sets : forall fs vs v, has_type (TStruct fs) (VStruct vs) -> Set_ (TStruct fs) (VStruct vs) = Ok v ->
  exists vs', v = VStruct vs' /\ has_type (TStruct fs) (VStruct vs') /\ D (TStruct fs) (VStruct vs')).
Context (D_shape : forall fs vs ws, D (TStruct fs) (VStruct vs) -> same_shapes fs vs ws -> D (TStruct fs) (VStruct ws)).

Definition sets (t : ty) : Prop :=
  forall v v', has_type t v -> SetDefaults t v = Ok v' -> has_type t v' /\ deep t v'.

Lemma set_items exported e l l' : (is_struct e = true -> sets e) -> Forall (has_type e) l ->
  Forall2 (fun a b => set_item exported e a = Ok b) l l' ->
  length l = length l' /\ Forall (has_type e) l' /\
  if is_struct e then Forall (deep e) l' else l = l'.
Proof.
  unfold set_item. intros He Hl Hf. split; [by eapply Forall2_length|].
  destruct (is_struct e) eqn:Es.
  - induction Hf as [|a b l l' Hab _ IH]; [by repeat constructor|].
    apply Forall_cons in Hl as [Ha Hl]. destruct (IH Hl) as (H1 & H2). destruct exported; [|done].
    destruct (He eq_refl _ _ Ha Hab) as [Ht Hd]. split; by constructor.
  - assert (l = l') as <-; [|done]. clear Hl. induction Hf; by simplify_eq.
Qed.

Lemma set_entries exported e m m' : (is_struct e = true -> sets e) -> Forall (fun kv => has_type e kv.2) m ->
  Forall2 (fun a b => set_entry exported e a = Ok b) m m' ->
  m.*1 = m'.*1 /\ Forall (has_type e) m'.*2 /\
  if is_struct e then Forall (deep e) m'.*2 else m = m'.
Proof.
  intros He Hm Hf.
  assert (H : m.*1 = m'.*1 /\ Forall2 (fun a b => set_item exported e a = Ok b) m.*2 m'.*2 /\
    (m.*2 = m'.*2 -> m = m')).
  { induction Hf as [|[k a] [k' b] m m' Hab _ IH]; [by repeat constructor|].
    apply Forall_cons in Hm as [_ Hm]. destruct (IH Hm) as (H1 & H2 & H3).
    unfold set_entry in Hab. apply outcome_bind_ok in Hab as (x & Hx & [= <- <-]).
    cbn. split; [by f_equal|]. split; [by constructor|]. intros [= <- Ht]. f_equal. auto. }
  destruct H as (H1 & H2 & H3).
  assert (Hm2 : Forall (has_type e) m.*2) by (by apply Forall_fmap).
  destruct (set_items exported e _ _ He Hm2 H2) as (_ & H4 & H5). split; [done|]. split; [done|].
  destruct (is_struct e); auto.
Qed.

Lemma Forall_deep_D e l : is_struct e = true -> Forall (has_type e) l -> Forall (deep e) l -> Forall (D e) l.
Proof.
  rewrite !Forall_forall. intros Es Ht Hd x Hx. apply deep_D; [done|by apply Ht|by apply Hd].
Qed.

Lemma set_field_ok exported t v v' : on_elem sets t -> has_type t v -> set_field exported t v = Ok v' ->
  has_type t v' /\ deep_field t v' /\ same_shape t v v'.
Proof.
  intros He Ht. destruct t as [t|fs|e|e], v as [b|vs|l|m]; try done; cbn [set_field].
  - intros [= <-]. done.
  - intros [= <-]. done.
  - intros (k & Hk%each_ok & [= <-])%outcome_bind_ok.
    destruct (set_items exported e l k He Ht Hk) as (H1 & H2 & H3). cbn.
    destruct (is_struct e) eqn:Es; [|done]. split; [done|]. split; [done|]. split; [done|].
    by apply Forall_deep_D.
  - intros (k & Hk%each_ok & [= <-])%outcome_bind_ok.
    destruct (set_entries exported e m k He Ht Hk) as (H1 & H2 & H3). cbn.
    split; [exact (proj1 (Forall_fmap snd (has_type e) k) H2)|].
    destruct (is_struct e) eqn:Es; [|done]. split.
    + intros _. exact (proj1 (Forall_fmap snd (deep e) k) H3).
    + split; [done|]. by apply Forall_deep_D.
Qed.

Lemma set_fields_ok fs : forall vs vs', Forall (fun f => on_elem sets f.2) fs ->
  Forall2 (fun f v => has_type f.2 v) fs vs -> set_fields fs vs = Ok vs' ->
  Forall2 (fun f v => has_type f.2 v) fs vs' /\ Forall2 (fun f v => deep_field f.2 v) fs vs' /\
  same_shapes fs vs vs'.
Proof.
  induction fs as [|[x f] fs IH]; intros vs vs' He Ht; inversion Ht as [|? v ? vs0 Hv Hvs]; subst; cbn [set_fields].
  { intros [= <-]. repeat constructor. }
  apply Forall_cons in He as [He Hes]. intros (v' & Hv' & (ws & Hws & [= <-])%outcome_bind_ok)%outcome_bind_ok.
  destruct (set_field_ok x f v v' He Hv Hv') as (H1 & H2 & H3).
  destruct (IH vs0 ws Hes Hvs Hws) as (K1 & K2 & K3). repeat split; by constructor.
Qed.

Lemma SetDefaults_sets t : is_struct t = true -> sets t.
Proof.
  revert t. apply struct_ind. intros fs He v v' Ht. destruct v as [b|vs|l|m]; try done.
  rewrite SetDefaults_struct. intros (w & Hw & H)%outcome_bind_ok.
  destruct (set_sets fs vs w Ht Hw) as (ws & -> & Htw & HD).
  apply outcome_bind_ok in H as (vs' & Hf & [= <-]). apply has_type_struct in Htw.
  destruct (set_fields_ok fs ws vs' He Htw Hf) as (H1 & H2 & H3).
  split; [by apply has_type_struct|]. apply deep_struct; [by eapply Forall2_length|]. eauto.
Qed.

(** ** Fields that can be set *)

(** No slice or map of structs is in a field that is not exported. *)
Fixpoint visible (t : ty) : Prop :=
  match t with
  | TStruct fs =>
      (fix go fs := match fs with
                    | f :: fs =>
                        match snd f with
                        | TSlice e | TMap e => is_struct e = true -> fst f = true /\ visible e
                        | _ => True
                        end /\ go fs
                    | [] => True
                    end) fs
  | _ => True
  end.
Definition visible_field (f : bool * ty) : Prop :=
  match f.2 with TSlice e | TMap e => is_struct e = true -> f.1 = true /\ visible e | _ => True end.

Lemma visible_struct fs : visible (TStruct fs) <-> Forall visible_field fs.
Proof.
  cbn. induction fs as [|f fs IH]; [split; [constructor|done]|].
  rewrite Forall_cons, <- IH. done.
Qed.

(** [defaults.Set] does not panic, and leaves a struct that has its defaults as it is. *)
Context (set_plain : forall fs vs, has_type (TStruct fs) (VStruct vs) -> plain (Set_ (TStruct fs) (VStruct vs))).
Context (set_stays : forall fs vs, has_type (TStruct fs) (VStruct vs) -> D (TStruct fs) (VStruct vs) ->
  Set_ (TStruct fs) (VStruct vs) = Ok (VStruct vs)).

Definition ends (t : ty) : Prop :=
  visible t -> forall v, has_type t v -> plain (SetDefaults t v) /\ (deep t v -> SetDefaults t v = Ok v).

Lemma each_ends {A} (f : A -> outcome A) (P : A -> Prop) l : Forall (fun a => plain (f a) /\ (P a -> f a = Ok a)) l ->
  plain (each f l) /\ (Forall P l -> each f l = Ok l).
Proof.
  induction 1 as [|a l [Ha Ha'] _ [IH IH']]; [done|]. cbn. split.
  - apply plain_bind; [done|]. intros b _. by apply plain_bind.
  - intros [Hp Hl]%Forall_cons. by rewrite Ha', (IH' Hl).
Qed.

Lemma item_ends x e v : (is_struct e = true -> ends e) -> (is_struct e = true -> x = true /\ visible e) ->
  has_type e v -> plain (set_item x e v) /\ ((is_struct e = true -> deep e v) -> set_item x e v = Ok v).
Proof.
  intros He Hx Hv. unfold set_item. destruct (is_struct e); [|done].
  destruct (Hx eq_refl) as [-> Hvis]. destruct (He eq_refl Hvis v Hv). auto.
Qed.

Lemma field_ends x t v : on_elem ends t -> visible_field (x, t) -> has_type t v ->
  plain (set_field x t v) /\ (deep_field t v -> set_field x t v = Ok v).
Proof.
  intros He Hx Ht. destruct t as [t|fs|e|e], v as [b|vs|l|m]; try done; cbn [set_field].
  - destruct (each_ends (set_item x e) (fun v => is_struct e = true -> deep e v) l) as [Hp Hs].
    { eapply Forall_impl; [exact Ht|]. intros v Hv. by apply item_ends. }
    split; [by apply plain_bind|]. intros Hd. rewrite Hs; [done|].
    apply Forall_forall. intros v Hv Es. exact (proj1 (Forall_forall _ _) (Hd Es) v Hv).
  - destruct (each_ends (set_entry x e) (fun kv => is_struct e = true -> deep e kv.2) m) as [Hp Hs].
    { eapply Forall_impl; [exact Ht|]. intros [k v] Hv. unfold set_entry. cbn in *.
      destruct (item_ends x e v He Hx Hv) as [Hp Hs]. split; [by apply plain_bind|].
      intros Hd. by rewrite (Hs Hd). }
    split; [by apply plain_bind|]. intros Hd. rewrite Hs; [done|].
    apply Forall_forall. intros kv Hv Es. exact (proj1 (Forall_forall _ _) (Hd Es) kv Hv).
Qed.

Lemma fields_end fs : forall vs, Forall (fun f => on_elem ends f.2) fs -> Forall visible_field fs ->
  Forall2 (fun f v => has_type f.2 v) fs vs ->
  plain (set_fields fs vs) /\ (Forall2 (fun f v => deep_field f.2 v) fs vs -> set_fields fs vs = Ok vs).
Proof.
  induction fs as [|[x f] fs IH]; intros vs He Hx Ht; inversion Ht as [|? v ? vs0 Hv Hvs]; subst; [done|].
  apply Forall_cons in He as [He Hes]. apply Forall_cons in Hx as [Hx Hxs]. cbn [set_fields].
  destruct (field_ends x f v He Hx Hv) as [Hp Hs]. destruct (IH vs0 Hes Hxs Hvs) as [Hps Hss]. split.
  - apply plain_bind; [done|]. intros w _. by apply plain_bind.
  - intros [Hd Hds]%Forall2_cons. by rewrite (Hs Hd), (Hss Hds).
Qed.

Lemma SetDefaults_ends t : is_struct t = true -> ends t.
Proof.
  revert t. apply struct_ind. intros fs He Hx v Ht. destruct v as [b|vs|l|m]; try done.
  rewrite SetDefaults_struct. apply visible_struct in Hx. split.
  - apply plain_bind; [by apply set_plain|]. intros w Hw.
    destruct (set_sets fs vs w Ht Hw) as (ws & -> & Htw & _). apply has_type_struct in Htw.
    apply plain_bind; [|done]. by apply fields_end.
  - intros Hd. pose proof Ht as Ht2. apply has_type_struct in Ht2.
    apply deep_struct in Hd as [HD Hd]; [|by eapply Forall2_length].
    rewrite set_stays by done. cbn.
    by rewrite (proj2 (fields_end fs vs He Hx Ht2) Hd).
Qed.

(** Over a struct none of whose unexported fields holds structs in slices or maps,
    SetDefaults returns a value or an error; with a value, the struct and every struct in
    the slices and maps below it have their defaults, types are kept, and another
    SetDefaults changes nothing. *)
Theorem set_defaults t v : is_struct t = true -> visible t -> has_type t v ->
  plain (SetDefaults t v) /\
  forall v', SetDefaults t v = Ok v' -> has_type t v' /\ deep t v' /\ SetDefaults t v' = Ok v'.
Proof.
  intros Hs Hx Ht. split; [by apply SetDefaults_ends|]. intros v' Hv.
  destruct (SetDefaults_sets t Hs v v' Ht Hv) as [Ht' Hd]. split; [done|]. split; [done|].
  by apply (SetDefaults_ends t Hs Hx v' Ht').
Qed.
End defaults.

(** ** Witness and examples *)

(** Strings, with the default of their tag; an empty string is replaced by it. *)
Abbreviation sty := (@ty (option string)).
Abbreviation sval := (@val string).
Definition fill (t : sty) (v : sval) : sval :=
  match t, v with TOther (Some d), VOther b => VOther (if String.eqb b "" then d else b) | _, _ => v end.
Fixpoint fill_all (fs : list (bool * sty)) (vs : list sval) : list sval :=
  match fs, vs with f :: fs, v :: vs => fill f.2 v :: fill_all fs vs | _, _ => [] end.
Definition fill_struct (t : sty) (v : sval) : outcome sval :=
  match t, v with TStruct fs, VStruct vs => Ok (VStruct (fill_all fs vs)) | _, _ => Err "not a struct pointer" end.
Definition filled (t : sty) (v : sval) : Prop := fill_struct t v = Ok v.

Lemma fill_idem t v : fill t (fill t v) = fill t v.
Proof.
  destruct t as [[d|]| | |], v as [b| | |]; cbn; try done.
  destruct (String.eqb_spec b ""); [by destruct (String.eqb d "")|].
  by rewrite (proj2 (String.eqb_neq b "")).
Qed.

Lemma fill_all_idem fs : forall vs, fill_all fs (fill_all fs vs) = fill_all fs vs.
Proof. induction fs as [|f fs IH]; intros [|v vs]; cbn; [done..|]. by rewrite fill_idem, IH. Qed.

Lemma fill_all_types fs : forall vs, Forall2 (fun f v => has_type f.2 v) fs vs ->
  Forall2 (fun f v => has_type f.2 v) fs (fill_all fs vs).
Proof.
  induction 1 as [|[x t] v fs vs Hv _ IH]; cbn; constructor; [|done]. cbn in *.
  destruct t as [[d|]| | |], v; try done; cbn; by destruct (String.eqb b "").
Qed.

Lemma fill_sets fs vs v : has_type (TStruct fs) (VStruct vs) -> fill_struct (TStruct fs) (VStruct vs) = Ok v ->
  exists vs', v = VStruct vs' /\ has_type (TStruct fs) (VStruct vs') /\ filled (TStruct fs) (VStruct vs').
Proof.
  intros Ht [= <-]. exists (fill_all fs vs). split; [done|]. split.
  - apply has_type_struct in Ht. by apply has_type_struct, fill_all_types.
  - unfold filled. cbn. by rewrite fill_all_idem.
Qed.

Lemma filled_shape fs vs ws : filled (TStruct fs) (VStruct vs) -> same_shapes filled fs vs ws ->
  filled (TStruct fs) (VStruct ws).
Proof.
  unfold filled at 1 3. cbn. intros [= Hf] Hs. do 2 f_equal. revert Hf.
  induction Hs as [|[x t] v w fs vs ws Hvw _ IH]; cbn; [done|].
  intros [= H1 H2]. f_equal; [|by apply IH].
  destruct t as [[d|]| | |], w as [b| | |]; try done. cbn in *. by subst v.
Qed.

Definition service : sty :=
  TStruct [(true, TOther (Some "80")); (true, TSlice (TStruct [(true, TOther (Some "tcp"))]));
           (false, TMap (TOther None))].
Definition unset : sval := VStruct [VOther ""; VSlice [VStruct [VOther ""]; VStruct [VOther "udp"]]; VMap []].

Lemma set_defaults_witness :
  let v' := VStruct [VOther "80"; VSlice [VStruct [VOther "tcp"]; VStruct [VOther "udp"]]; VMap []] in
  SetDefaults fill_struct service unset = Ok v' /\ SetDefaults fill_struct service v' = Ok v'.
Proof.
  split; [reflexivity|].
  refine (proj2 (proj2 (proj2 (set_defaults fill_struct filled fill_sets filled_shape _ _ service unset _ _ _) _ eq_refl))).
  - done.
  - by intros fs vs _ H.
  - done.
  - cbn. repeat split; done.
  - cbn. repeat (split || constructor).
Defined.

(** A struct in a slice that is not exported cannot be set. *)
Example unexported_slice :
  SetDefaults fill_struct (TStruct [(false, TSlice (TStruct []))]) (VStruct [VSlice [VStruct []]])
  = Panic unexported.
Proof. reflexivity. Qed.
