(* ===== verification/MockHttp.v ===== *)
(** * mock/http_server.go: a server with canned responses

    The handler answers each request with the next response. It reads and cuts the list of
    responses without a lock, so for requests that overlap its four accesses are four
    steps. *)

From Stdlib Require Import ZArith Lia String.
From stdpp Require Import base option list strings relations.
From S2P Require Import Prelude.

Local Open Scope string_scope.
Local Open Scope Z_scope.
Local Open Scope list_scope.

Record Response := { status : Z; body : string }.
Definition NewResponse (st : Z) (b : string) : Response := {| status := st; body := b |}.

(** *** What net/http makes of the calls of a handler *)

(** [w.WriteHeader(code)] panics on what is no code; [w.Write] writes nothing to a response
    without a body; a handler that calls neither answers 200. *)
Definition WriteHeader (code : Z) : outcome Z :=
  if (code <? 100) || (999 <? code) then Panic "invalid WriteHeader code" else Ok code.
Definition bodyAllowed (code : Z) : bool := negb ((code <? 200) || (code =? 204) || (code =? 304)).
Definition answer (code : Z) (b : string) : Response := NewResponse code (if bodyAllowed code then b else "").
Definition default_answer : Response := answer 200 "".

(** Where the handler of a request is; a panic is recovered by the server, which drops the
    connection. *)
Inductive handler :=
  | Begin
  | Checked
  | Headed (code : Z)
  | Written (code : Z) (b : string)
  | Replied (r : Response)
  | Dropped.

Record Server := { responses : list Response; handlers : list handler }.

(** [NewServer(tlsConfig, responses...)], listening; with a tls.Config it starts TLS. *)
Definition NewServer (rs : list Response) : Server := {| responses := rs; handlers := [] |}.

(** One access of [ms.responses] by a handler. *)
Definition turn (rs : list Response) (h : handler) : list Response * handler :=
  match h with
  | Begin => (rs, match rs with [] => Replied default_answer | _ => Checked end)
  | Checked => (rs, match rs with
                    | r :: _ => match WriteHeader (status r) with Ok code => Headed code | _ => Dropped end
                    | [] => Dropped
                    end)
  | Headed code => (rs, match rs with r :: _ => Written code (body r) | [] => Dropped end)
  | Written code b => match rs with _ :: rs => (rs, Replied (answer code b)) | [] => ([], Dropped) end
  | Replied _ | Dropped => (rs, h)
  end.

Definition set_handler (i : nat) (rs : list Response) (h : handler) (s : Server) : Server :=
  {| responses := rs; handlers := <[i := h]> (handlers s) |}.

Inductive step (s : Server) : Server -> Prop :=
  | step_request : step s {| responses := responses s; handlers := handlers s ++ [Begin] |}
  | step_turn i h : handlers s !! i = Some h ->
      step s (set_handler i (fst (turn (responses s) h)) (snd (turn (responses s) h)) s).

(** One request after the other. *)
Definition serve (rs : list Response) : list Response * handler :=
  let '(rs, h) := turn rs Begin in
  let '(rs, h) := turn rs h in
  let '(rs, h) := turn rs h in
  turn rs h.
Fixpoint serve_all (n : nat) (rs : list Response) : list handler :=
  match n with O => [] | S n => let '(rs, h) := serve rs in h :: serve_all n rs end.

Definition final (r : Response) : Prop := 200 <= status r <= 999.

(** Requests that come one after the other get the responses in order, and then 200. *)
Lemma served_in_order n : forall rs, Forall final rs ->
  serve_all n rs = take n (((fun r => Replied (answer (status r) (body r))) <$> rs) ++ replicate n (Replied default_answer)).
Proof.
  induction n as [|n IH]; intros rs Hrs; [done|]. cbn [serve_all].
  destruct rs as [|r rs].
  - cbn. by rewrite IH by constructor.
  - apply Forall_cons in Hrs as [Hr Hrs]. unfold serve. cbn. unfold WriteHeader.
    rewrite (proj2 (Z.ltb_ge (status r) 100)), (proj2 (Z.ltb_ge 999 (status r))) by (unfold final in Hr; lia).
    cbn. rewrite IH by done. f_equal.
    rewrite !take_app. f_equal. rewrite length_fmap.
    change (Replied default_answer :: replicate n (Replied default_answer)) with (replicate (S n) (Replied default_answer)).
    rewrite !take_replicate. f_equal. lia.
Qed.

(** What a handler sends was configured, code and body each, however handlers overlap. *)
Definition configured (rs0 : list Response) (h : handler) : Prop :=
  match h with
  | Headed code => exists r, r ∈ rs0 /\ code = status r
  | Written code b | Replied {| status := code; body := b |} =>
      NewResponse code b = default_answer \/
      exists r r', r ∈ rs0 /\ r' ∈ rs0 /\ code = status r /\ (b = body r' \/ b = "")
  | _ => True
  end.

Lemma turn_configured rs0 rs h : rs ⊆ rs0 -> configured rs0 h ->
  fst (turn rs h) ⊆ rs0 /\ configured rs0 (snd (turn rs h)).
Proof.
  intros Hrs Hh. destruct h as [| |code|code b|r|]; cbn; try done.
  - destruct rs; (split; [done|]); [by left|done].
  - split; [done|]. destruct rs as [|r rs]; [done|]. unfold WriteHeader.
    destruct (_ || _); [done|]. exists r. split; [|done]. apply Hrs. by left.
  - split; [done|]. destruct rs as [|r rs]; [done|]. destruct Hh as (r0 & Hr0 & ->). right.
    exists r0, r. repeat split; try done; [apply Hrs; by left|by left].
  - destruct rs as [|r rs]; [done|]. cbn. split; [intros x Hx; apply Hrs; by right|].
    destruct Hh as [Hh|(r0 & r1 & H0 & H1 & -> & Hb)]; [left|right].
    + by injection Hh as -> ->.
    + exists r0, r1. repeat split; try done. destruct (bodyAllowed _); [done|by right].
Qed.

Lemma replies_configured rs0 s : rtc step (NewServer rs0) s ->
  responses s ⊆ rs0 /\ Forall (configured rs0) (handlers s).
Proof.
  intros Hr. pattern s. revert s Hr. refine (rtc_ind_r _ _ _ _); [split; [done|constructor]|].
  intros s s' _ Hs [Hrs Hh]. destruct Hs as [|i h Hi]; cbn.
  - split; [done|]. apply Forall_app. split; [done|]. by repeat constructor.
  - assert (Hc : configured rs0 h) by (eapply Forall_lookup_1; eauto).
    destruct (turn_configured rs0 (responses s) h Hrs Hc) as [H1 H2]. split; [done|].
    by apply Forall_insert.
Qed.

(** Two requests at once: the first gets its own response, the second the code of the first
    response with the body of the second. *)
Example overlapping : exists s, rtc step (NewServer [NewResponse 200 "a"; NewResponse 404 "b"]) s /\
  handlers s = [Replied (NewResponse 200 "a"); Replied (NewResponse 200 "b")].
Proof.
  eexists. split.
  - do 2 (eapply rtc_l; [apply step_request|]).
    do 3 (eapply rtc_l; [apply (step_turn _ 0); reflexivity|]).
    do 2 (eapply rtc_l; [apply (step_turn _ 1); reflexivity|]).
    eapply rtc_l; [apply (step_turn _ 0); reflexivity|].
    do 2 (eapply rtc_l; [apply (step_turn _ 1); reflexivity|]). apply rtc_refl.
  - reflexivity.
Qed.
