(* ===== verification/ProtoRandom.v ===== *)
(** * Unknown fields and random messages of the protobuf codecs

    mqtt/mqtt.pb.go and faas/function.pb.go generate messages at random for tests
    ([NewPopulatedMessage]), and fields that no message has ([randUnrecognized]). What they
    generate is in the domain of the codecs, and the decoders skip the fields: a message
    with fields of a later version of the protocol is read as the message without them. *)

From Stdlib Require Import ZArith Lia.
From stdpp Require Import base option list gmap.
From S2P Require Import Prelude ProtoWire.
From S2P Require MqttPb FunctionPb.

Local Open Scope Z_scope.
Local Open Scope list_scope.

(** ** Unknown fields *)

(** What follows a tag, for the wire types that are no group. *)
Inductive body_of : Z -> list byte -> Prop :=
  | body_varint v : in_u 64 v -> body_of 0 (varint v)
  | body_fixed64 s : length s = 8%nat -> body_of 1 s
  | body_lengthed s : body_of 2 (lengthed s)
  | body_fixed32 s : length s = 4%nat -> body_of 5 s.

(** Fields with numbers from [lo] on. *)
Inductive unknowns (lo : Z) : list byte -> Prop :=
  | unknowns_nil : unknowns lo []
  | unknowns_app num wt body l : lo <= num < 2 ^ 28 -> body_of wt body -> unknowns lo l ->
      unknowns lo (varint (num * 8 + wt) ++ body ++ l).

Lemma body_type wt body : body_of wt body -> 0 <= wt < 8 /\ wt <> 4.
Proof. destruct 1; lia. Qed.

Lemma tag_parts num wt : 0 <= num < 2 ^ 28 -> 0 <= wt < 8 ->
  Z.land (num * 8 + wt) 7 = wt /\ int32 (Z.shiftr (num * 8 + wt) 3) = num /\ in_u 64 (num * 8 + wt).
Proof.
  intros Hn Hw. split; [|split].
  - change 7 with (Z.ones 3). rewrite Z.land_ones by lia. change (2 ^ 3) with 8.
    rewrite Z.add_comm, Z.mod_add by lia. apply Z.mod_small. lia.
  - rewrite Z.shiftr_div_pow2 by lia. change (2 ^ 3) with 8.
    rewrite Z.div_add_l, Z.div_small, Z.add_0_r by lia. apply swrap_small; [lia|]. unfold in_s. cbn. lia.
  - unfold in_u. lia.
Qed.

(** The body is skipped where it stands. *)
Lemma skip_body_read wt body (pre post : list byte) : body_of wt body -> zlen (pre ++ body ++ post) < 2 ^ 63 ->
  skip_body (pre ++ body ++ post) wt (zlen pre) 0 = Ok (zlen (pre ++ body), 0).
Proof.
  intros Hb Hl. pose proof (zlen_nonneg pre). pose proof (zlen_nonneg post). unfold skip_body.
  destruct Hb as [v Hv|s Hs|s|s Hs]; cbn [Z.eqb Pos.eqb].
  - rewrite (read_number_field uint64 64) by (done || lia || apply uint64_id). done.
  - rewrite !zlen_app in *. unfold zlen at 2 in Hl. unfold zlen at 3. rewrite Hs in *. by rewrite int64_id by lia.
  - destruct (read_lengthed int64 s pre post int64_id Hl) as [E _]. rewrite E. cbn [mbind outcome_bind].
    pose proof (zlen_nonneg s). rewrite (proj2 (Z.ltb_ge _ _)) by lia.
    unfold lengthed in *. rewrite !zlen_app in *. rewrite int64_id; [|pose proof (zlen_nonneg (varint (zlen s))); lia].
    do 2 f_equal. lia.
  - rewrite !zlen_app in *. unfold zlen at 2 in Hl. unfold zlen at 3. rewrite Hs in *. by rewrite int64_id by lia.
Qed.

(** A field is skipped at the start of a buffer, ... *)
Lemma skip_read num wt body post : 1 <= num < 2 ^ 28 -> body_of wt body ->
  zlen (varint (num * 8 + wt) ++ body ++ post) < 2 ^ 63 ->
  skip (varint (num * 8 + wt) ++ body ++ post) = Ok (zlen (varint (num * 8 + wt) ++ body)).
Proof.
  intros Hn Hb Hl. destruct (body_type _ _ Hb) as [Hwt _]. destruct (tag_parts num wt) as (Hla & _ & Hu); [lia..|].
  set (tag := varint (num * 8 + wt)) in *. unfold skip. cbn [skip_loop].
  assert (Ht : 0 < zlen tag) by (subst tag; rewrite <- sov_length by done; pose proof (sov_pos (num * 8 + wt)); lia).
  rewrite (proj2 (Z.leb_gt _ _)) by (rewrite zlen_app; pose proof (zlen_nonneg (body ++ post)); lia).
  pose proof (read_number_field uint64 64 (num * 8 + wt) [] (body ++ post) uint64_id ltac:(lia) Hu) as E.
  cbn [app] in E. change (zlen []) with 0 in E. fold tag in E. rewrite E. cbn [mbind outcome_bind].
  rewrite Hla, skip_body_read by done. cbn [mbind outcome_bind].
  by rewrite (proj2 (Z.ltb_ge _ _)) by apply zlen_nonneg.
Qed.

(** ... and where it stands. *)
Lemma skip_field_read num wt body (pre post : list byte) : 1 <= num < 2 ^ 28 -> body_of wt body ->
  zlen (pre ++ (varint (num * 8 + wt) ++ body) ++ post) < 2 ^ 63 ->
  skip_field (pre ++ (varint (num * 8 + wt) ++ body) ++ post) (zlen pre) =
  Ok (zlen (pre ++ varint (num * 8 + wt) ++ body)).
Proof.
  intros Hn Hb Hl. unfold skip_field.
  replace (Z.to_nat (zlen pre)) with (length pre) by (unfold zlen; lia). rewrite drop_app_length.
  set (s := varint (num * 8 + wt) ++ body) in *.
  assert (Hs : skip (s ++ post) = Ok (zlen s)).
  { subst s. rewrite <- app_assoc in *. apply skip_read; try done. rewrite zlen_app in Hl.
    pose proof (zlen_nonneg pre). lia. }
  rewrite Hs. cbn [mbind outcome_bind]. rewrite !zlen_app in *.
  pose proof (zlen_nonneg pre). pose proof (zlen_nonneg post). pose proof (zlen_nonneg s).
  rewrite int64_id by lia. by rewrite !(proj2 (Z.ltb_ge _ _)) by lia.
Qed.

(** A message is read as before with unknown fields behind it. *)
Lemma reads_unknown {M} (field : M -> Z -> Z -> list byte -> Z -> option (outcome (M * Z))) lo m u : 1 <= lo ->
  (forall num wt d idx, lo <= num -> field m num wt d idx = None) -> unknowns lo u -> reads field m u m.
Proof.
  intros Hlo Hf Hu. induction Hu as [|num wt body l Hn Hb _ IH]; [apply reads_nil|].
  rewrite app_assoc. eapply reads_app; [|exact IH]. intros pre post Hl. exists 1%nat.
  destruct (body_type _ _ Hb) as [Hwt H4]. destruct (tag_parts num wt) as (Hla & Hsh & Hin); [lia..|].
  assert (Ht : 0 < zlen (varint (num * 8 + wt)))
    by (rewrite <- sov_length by done; pose proof (sov_pos (num * 8 + wt)); lia).
  split; [rewrite length_app; unfold zlen in Ht; lia|]. intros fuel. cbn [Nat.add unmarshal_loop].
  rewrite (proj2 (Z.ltb_lt _ _)).
  2: { rewrite !zlen_app. pose proof (zlen_nonneg body). pose proof (zlen_nonneg post). lia. }
  pose proof (read_number_field uint64 64 _ pre (body ++ post) uint64_id ltac:(lia) Hin) as E.
  rewrite (app_assoc _ body post) in E. rewrite E. cbn [mbind outcome_bind]. cbv zeta.
  rewrite Hla, Hsh, (proj2 (Z.eqb_neq _ _)), (proj2 (Z.leb_gt _ _)), Hf by lia.
  by rewrite skip_field_read by (done || lia).
Qed.

Lemma unknowns_snoc lo u num wt body : unknowns lo u -> lo <= num < 2 ^ 28 -> body_of wt body ->
  unknowns lo (u ++ varint (num * 8 + wt) ++ body).
Proof.
  intros Hu Hn Hb. induction Hu as [|num' wt' body' l Hn' Hb' _ IH].
  - cbn. rewrite <- (app_nil_r (_ ++ body)), <- app_assoc. by apply unknowns_app; [| |constructor].
  - rewrite <- !app_assoc. by apply unknowns_app.
Qed.

(** ** Random sources *)

(** What the generated code asks of a source: [randyMqtt] and [randyFunction]. *)
Class Rand (R : Type) := {
  Uint32 : R -> Z * R;
  Int63 : R -> Z * R;
  Intn : Z -> R -> Z * R
}.
Class RandLaws (R : Type) `{Rand R} : Prop := {
  Uint32_range r : in_u 32 (fst (Uint32 r));
  Int63_range r : 0 <= fst (Int63 r) < 2 ^ 63;
  Intn_range n r : 0 < n -> 0 <= fst (Intn n r) < n
}.

Section random.
Context {R : Type} `{Rand R}.

(** A value made from the source, which moves on. *)
Definition gen (A : Type) : Type := R -> A * R.
Definition gret {A} (a : A) : gen A := fun r => (a, r).
Definition gbind {A B} (g : gen A) (k : A -> gen B) : gen B := fun r => let '(a, r) := g r in k a r.
Notation "x <- g ;; k" := (gbind g (fun x => k)) (at level 100, g at next level, right associativity).

(** A loop of [n] turns that makes a slice. *)
Fixpoint times {A} (n : nat) (g : gen A) : gen (list A) :=
  match n with
  | O => gret []
  | S n => a <- g;; l <- times n g;; gret (a :: l)
  end.

Definition rand_byte : gen byte := v <- Intn 256;; gret (z2b v).
(** [make([]byte, n)], filled. *)
Definition rand_bytes (n : Z) : gen (list byte) := times (Z.to_nat n) rand_byte.
(** [if !easy && r.Intn(10) != 0 {}] *)
Definition not_easy (easy : bool) : gen unit := if easy then gret tt else _ <- Intn 10;; gret tt.

(** A letter or digit, one byte as a string. *)
Definition randUTF8Rune : gen Z :=
  ru <- Intn 62;;
  gret (if ru <? 10 then ru + 48 else if ru <? 36 then ru + 55 else ru + 61).
Definition randString : gen (list byte) :=
  v3 <- Intn 100;;
  tmps <- times (Z.to_nat v3) randUTF8Rune;;
  gret (map z2b tmps).

(** Ten groups of seven bits are enough for 64 bits. *)
Fixpoint encode_populate (fuel : nat) (dAtA : list byte) (v : Z) : list byte :=
  match fuel with
  | O => dAtA
  | S fuel =>
      if 128 <=? v then encode_populate fuel (dAtA ++ [z2b (Z.lor (Z.land v 127) 128)]) (Z.shiftr v 7)
      else dAtA ++ [z2b v]
  end.
Definition encodeVarintPopulate : list byte -> Z -> list byte := encode_populate 10.

Definition randField (dAtA : list byte) (fieldNumber wire : Z) : gen (list byte) :=
  let key := Z.lor (uint32 (Z.shiftl (uint32 fieldNumber) 3)) (uint32 wire) in
  let dAtA := encodeVarintPopulate dAtA key in
  if wire =? 0 then
    v4 <- Int63;;
    sign <- Intn 2;;
    gret (encodeVarintPopulate dAtA (uint64 (if sign =? 0 then int64 (v4 * -1) else v4)))
  else if wire =? 1 then s <- rand_bytes 8;; gret (dAtA ++ s)
  else if wire =? 2 then
    ll <- Intn 100;;
    s <- rand_bytes ll;;
    gret (encodeVarintPopulate dAtA ll ++ s)
  else s <- rand_bytes 4;; gret (dAtA ++ s).

Fixpoint rand_fields (l : nat) (maxFieldNumber : Z) (dAtA : list byte) : gen (list byte) :=
  match l with
  | O => gret dAtA
  | S l =>
      wire <- Intn 4;;
      n <- Intn 100;;
      dAtA <- randField dAtA (int64 (maxFieldNumber + n)) (if wire =? 3 then 5 else wire);;
      rand_fields l maxFieldNumber dAtA
  end.
Definition randUnrecognized (maxFieldNumber : Z) : gen (list byte) :=
  l <- Intn 5;; rand_fields (Z.to_nat l) maxFieldNumber [].

(** *** Messages *)

Definition NewPopulatedContext (easy : bool) : gen MqttPb.Context :=
  id <- Uint32;; ts <- Uint32;; qos <- Uint32;; flags <- Uint32;; topic <- randString;;
  _ <- not_easy easy;;
  gret {| MqttPb.ID := uint64 id; MqttPb.TS := uint64 ts; MqttPb.QOS := qos; MqttPb.Flags := flags;
          MqttPb.Topic := topic |}.

Definition NewPopulatedMessage (easy : bool) : gen MqttPb.Message :=
  v1 <- NewPopulatedContext easy;;
  v2 <- Intn 100;;
  content <- rand_bytes v2;;
  _ <- not_easy easy;;
  gret {| MqttPb.Context_ := v1; MqttPb.Content := Some content |}.

(** faas/function.pb.go has the same functions under names of its own. *)
Definition randStringFunction : gen (list byte) := randString.
Definition randUnrecognizedFunction : Z -> gen (list byte) := randUnrecognized.

(** The key of an entry is made before its value. *)
Fixpoint rand_entries (n : nat) (m : gmap (list byte) (list byte)) : gen (gmap (list byte) (list byte)) :=
  match n with
  | O => gret m
  | S n => k <- randStringFunction;; v <- randStringFunction;; rand_entries n (<[k := v]> m)
  end.
Definition Function_NewPopulatedMessage (easy : bool) : gen FunctionPb.Message :=
  id <- Uint32;;
  some <- Intn 5;;
  metadata <- (if some =? 0 then gret None
               else v1 <- Intn 10;; m <- rand_entries (Z.to_nat v1) ∅;; gret (Some m));;
  v2 <- Intn 100;;
  payload <- rand_bytes v2;;
  _ <- not_easy easy;;
  gret {| FunctionPb.ID := uint64 id; FunctionPb.Metadata := metadata; FunctionPb.Payload := Some payload |}.

(** *** What is made *)

Context `{!RandLaws R}.

Definition makes {A} (P : A -> Prop) (g : gen A) : Prop := forall r, P (fst (g r)).

Lemma makes_ret {A} (P : A -> Prop) a : P a -> makes P (gret a).
Proof. by intros ? r. Qed.
Lemma makes_bind {A B} (P : A -> Prop) (Q : B -> Prop) (g : gen A) (k : A -> gen B) :
  makes P g -> (forall a, P a -> makes Q (k a)) -> makes Q (gbind g k).
Proof. intros Hg Hk r. unfold gbind. specialize (Hg r). destruct (g r) as [a r']. by apply Hk. Qed.
Lemma makes_times {A} (P : A -> Prop) n g : makes P g -> makes (fun l => length l = n /\ Forall P l) (times n g).
Proof.
  intros Hg. induction n as [|n IH]; [by apply makes_ret|]. eapply makes_bind; [exact Hg|]. intros a Ha.
  eapply makes_bind; [exact IH|]. intros l [Hl Hf]. apply makes_ret. split; [cbn; congruence|by constructor].
Qed.

Lemma makes_Intn n : 0 < n -> makes (fun v => 0 <= v < n) (Intn n).
Proof. intros Hn r. by apply Intn_range. Qed.
Lemma makes_Uint32 : makes (in_u 32) Uint32.
Proof. intros r. apply Uint32_range. Qed.
Lemma makes_bytes n : 0 <= n -> makes (fun s => zlen s = n) (rand_bytes n).
Proof.
  intros Hn r. pose proof (makes_times (fun _ : byte => True) (Z.to_nat n) rand_byte ltac:(done) r) as [Hl _].
  unfold zlen, rand_bytes. rewrite Hl. lia.
Qed.
Lemma makes_string : makes (fun s => zlen s < 100) randString.
Proof.
  eapply makes_bind; [by apply makes_Intn|]. intros n Hn.
  eapply makes_bind; [by apply (makes_times (fun _ => True))|]. intros l [Hl _].
  apply makes_ret. unfold zlen. rewrite length_map. cbn in Hn. lia.
Qed.
Lemma makes_easy {A} (P : A -> Prop) easy k : makes P k -> makes P (_ <- not_easy easy;; k).
Proof. intros Hk. by apply (makes_bind (fun _ => True)). Qed.

Lemma encode_populate_varint fuel : forall d v, encode_populate fuel d v = d ++ varint_fuel fuel v.
Proof.
  induction fuel as [|fuel IH]; intros d v; cbn; [by rewrite app_nil_r|].
  destruct (128 <=? v); [|done]. by rewrite IH, <- app_assoc.
Qed.
Lemma populate_varint d v : encodeVarintPopulate d v = d ++ varint v.
Proof. apply encode_populate_varint. Qed.
Lemma varint_short v : zlen (varint v) <= 10.
Proof.
  assert (Hf : forall fuel v, (length (varint_fuel fuel v) <= fuel)%nat).
  { induction fuel as [|fuel IH]; intros x; cbn; [lia|]. destruct (128 <=? x); cbn; [|lia]. specialize (IH (Z.shiftr x 7)). lia. }
  unfold zlen, varint. specialize (Hf 10%nat v). lia.
Qed.

Lemma key_of num wt : 0 <= num < 2 ^ 28 -> 0 <= wt < 8 ->
  Z.lor (uint32 (Z.shiftl (uint32 num) 3)) (uint32 wt) = num * 8 + wt.
Proof.
  intros Hn Hw. assert (Hu : forall x, 0 <= x < 2 ^ 32 -> uint32 x = x) by (intros; by apply uwrap_small).
  assert (Hs : Z.shiftl num 3 = num * 8) by by rewrite Z.shiftl_mul_pow2 by lia.
  rewrite (Hu num), Hs, !Hu, <- Hs by lia. rewrite Z.lor_comm, lor_shift, Hs by lia. lia.
Qed.

(** One field behind what is there, which grows by 120 bytes at most. *)
Definition one_more (num wt : Z) (d d' : list byte) : Prop :=
  exists body, body_of wt body /\ zlen body <= 110 /\ d' = d ++ varint (num * 8 + wt) ++ body.

Lemma makes_field d num wt : 0 <= num < 2 ^ 28 -> wt = 0 \/ wt = 1 \/ wt = 2 \/ wt = 5 ->
  makes (one_more num wt d) (randField d num wt).
Proof.
  intros Hn Hwt. unfold randField, one_more. rewrite key_of, populate_varint by (done || lia).
  destruct Hwt as [->|[->|[->| ->]]]; cbn [Z.eqb Pos.eqb].
  - eapply (makes_bind (fun _ => True)); [done|]. intros v _.
    eapply (makes_bind (fun _ => True)); [done|]. intros sign _. apply makes_ret.
    rewrite populate_varint, <- app_assoc. eexists. split; [|split; [|done]].
    + apply body_varint. by apply uwrap_range.
    + etransitivity; [apply varint_short|lia].
  - eapply makes_bind; [by apply makes_bytes|]. intros s Hs. apply makes_ret. rewrite <- app_assoc.
    exists s. cbn in Hs. split; [constructor; unfold zlen in Hs; lia|]. split; [lia|done].
  - eapply makes_bind; [by apply makes_Intn|]. intros ll Hll. cbn in Hll.
    eapply makes_bind; [apply makes_bytes; lia|]. intros s Hs. apply makes_ret. cbn in Hs.
    rewrite populate_varint, <- Hs, <- !app_assoc. exists (lengthed s). split; [constructor|]. split; [|done].
    unfold lengthed. rewrite zlen_app. pose proof (varint_short (zlen s)). lia.
  - eapply makes_bind; [by apply makes_bytes|]. intros s Hs. apply makes_ret. rewrite <- app_assoc.
    exists s. cbn in Hs. split; [constructor; unfold zlen in Hs; lia|]. split; [lia|done].
Qed.

Lemma makes_fields lo l : 0 <= lo < 2 ^ 27 -> forall d, unknowns lo d ->
  makes (fun d' => unknowns lo d' /\ zlen d' <= zlen d + 120 * Z.of_nat l) (rand_fields l lo d).
Proof.
  intros Hlo. induction l as [|l IH]; intros d Hd; [apply makes_ret; split; [done|lia]|]. cbn [rand_fields].
  eapply makes_bind; [by apply makes_Intn|]. intros wire Hw. cbn in Hw.
  eapply makes_bind; [by apply makes_Intn|]. intros n Hn. cbn in Hn. rewrite int64_id by lia.
  eapply makes_bind; [apply makes_field; [lia|destruct (wire =? 3) eqn:E; boolify; lia]|].
  intros d' (body & Hb & Hl & ->) r.
  set (wt := if wire =? 3 then 5 else wire) in *. set (num := lo + n) in *.
  destruct (IH (d ++ varint (num * 8 + wt) ++ body)) with (r := r) as [Hu Hz]; [apply unknowns_snoc; [done|lia|done]|].
  split; [done|]. rewrite !zlen_app in Hz. pose proof (varint_short (num * 8 + wt)). lia.
Qed.

Lemma makes_unrecognized lo : 0 <= lo < 2 ^ 27 ->
  makes (fun u => unknowns lo u /\ zlen u <= 480) (randUnrecognized lo).
Proof.
  intros Hlo. eapply makes_bind; [by apply makes_Intn|]. intros l Hl r. cbn in Hl.
  destruct (makes_fields lo (Z.to_nat l) Hlo [] (unknowns_nil lo) r) as [Hu Hz]. split; [done|].
  change (zlen []) with 0 in Hz. lia.
Qed.

Lemma u32_64 v : in_u 32 v -> uint64 v = v /\ in_u 64 v.
Proof. unfold in_u. intros Hv. split; [apply uint64_id; lia|lia]. Qed.

Lemma number_short tag v : zlen (if negb (v =? 0) then z2b tag :: varint v else []) <= 11.
Proof. destruct (negb _); [|done]. rewrite zlen_cons. pose proof (varint_short v). lia. Qed.
Lemma bytes_short tag s n : zlen s < n -> zlen (if 0 <? zlen s then z2b tag :: lengthed s else []) <= 11 + n.
Proof.
  intros Hn. pose proof (zlen_nonneg s). destruct (0 <? _); [|change (zlen []) with 0; lia].
  rewrite zlen_cons. unfold lengthed. rewrite zlen_app. pose proof (varint_short (zlen s)). lia.
Qed.

(** A random message is in the domain of its codec, and short. *)
Lemma makes_context easy : makes (fun c => MqttPb.wf_context c /\ zlen (MqttPb.context_bytes c) <= 160)
  (NewPopulatedContext easy).
Proof.
  eapply makes_bind; [apply makes_Uint32|]. intros id Hid.
  eapply makes_bind; [apply makes_Uint32|]. intros ts Hts.
  eapply makes_bind; [apply makes_Uint32|]. intros qos Hq.
  eapply makes_bind; [apply makes_Uint32|]. intros flags Hf.
  eapply makes_bind; [apply makes_string|]. intros topic Ht. apply makes_easy, makes_ret. cbn in Ht.
  destruct (u32_64 id Hid) as [-> Hid']. destruct (u32_64 ts Hts) as [-> Hts']. split.
  - unfold MqttPb.wf_context. cbn. split_and!; try done. lia.
  - unfold MqttPb.context_bytes. cbn. rewrite !zlen_app.
    pose proof (number_short 8 id). pose proof (number_short 16 ts). pose proof (number_short 24 qos).
    pose proof (number_short 32 flags). pose proof (bytes_short 42 topic 100 Ht). lia.
Qed.

Lemma makes_message easy : makes (fun m => MqttPb.wf_message m /\ zlen (MqttPb.message_bytes m) <= 300)
  (NewPopulatedMessage easy).
Proof.
  eapply makes_bind; [apply makes_context|]. intros c [Hc Hl].
  eapply makes_bind; [by apply makes_Intn|]. intros n Hn. cbn in Hn.
  eapply makes_bind; [apply makes_bytes; lia|]. intros s Hs. apply makes_easy, makes_ret. cbn in Hs.
  split; [split; [done|cbn; lia]|]. unfold MqttPb.message_bytes. cbn. rewrite zlen_cons, zlen_app.
  pose proof (bytes_short 18 s 100 ltac:(lia)). unfold lengthed at 1. rewrite zlen_app.
  pose proof (varint_short (zlen (MqttPb.context_bytes c))). lia.
Qed.

Definition short_entry (k v : list byte) : Prop := zlen k < 100 /\ zlen v < 100.

Lemma makes_entries n : forall m, map_Forall short_entry m ->
  makes (fun m' => map_Forall short_entry m' /\ (size m' <= n + size m)%nat) (rand_entries n m).
Proof.
  induction n as [|n IH]; intros m Hm; [by apply makes_ret|]. cbn [rand_entries].
  eapply makes_bind; [apply makes_string|]. intros k Hk. eapply makes_bind; [apply makes_string|].
  intros v Hv r. destruct (IH (<[k := v]> m)) with (r := r) as [Hf Hs]; [by apply map_Forall_insert_2|].
  split; [done|]. etransitivity; [exact Hs|]. rewrite map_size_insert. destruct (m !! k); cbn; lia.
Qed.

Lemma metadata_short l : Forall (fun e => short_entry e.1 e.2) l ->
  zlen (FunctionPb.metadata_bytes l) <= 300 * Z.of_nat (length l).
Proof.
  induction 1 as [|[k v] l [Hk Hv] _ IH]; [done|]. cbn [FunctionPb.metadata_bytes length fst snd] in *.
  rewrite zlen_app, zlen_cons. unfold lengthed at 1. rewrite zlen_app. unfold FunctionPb.entry_bytes at 2. cbn [fst snd].
  rewrite zlen_app, !zlen_cons. unfold lengthed at 1 2. rewrite !zlen_app.
  pose proof (varint_short (zlen k)). pose proof (varint_short (zlen v)).
  pose proof (varint_short (zlen (FunctionPb.entry_bytes (k, v)))). lia.
Qed.

Lemma makes_function easy :
  makes (fun m => in_u 64 (FunctionPb.ID m) /\
    forall l, FunctionPb.order_of m l -> zlen (FunctionPb.message_bytes l m) <= 3000)
    (Function_NewPopulatedMessage easy).
Proof.
  eapply makes_bind; [apply makes_Uint32|]. intros id Hid.
  eapply makes_bind; [by apply makes_Intn|]. intros some _.
  eapply (makes_bind (fun md => map_Forall short_entry (FunctionPb.map_entries md) /\
    (size (FunctionPb.map_entries md) <= 9)%nat)).
  { destruct (some =? 0); [apply makes_ret; split; [apply map_Forall_empty|]; exact (Nat.le_0_l 9)|]. eapply makes_bind; [by apply makes_Intn|]. intros n Hn. cbn in Hn.
    eapply makes_bind; [apply (makes_entries (Z.to_nat n) ∅), map_Forall_empty|]. intros m [Hf Hs]. apply makes_ret.
    split; [done|]. cbn. rewrite map_size_empty in Hs. lia. }
  intros md [Hmd Hsize]. eapply makes_bind; [by apply makes_Intn|]. intros n Hn. cbn in Hn.
  eapply makes_bind; [apply makes_bytes; lia|]. intros s Hs. apply makes_easy, makes_ret. cbn in Hs |- *.
  destruct (u32_64 id Hid) as [-> Hid']. split; [done|]. intros l Hl. unfold FunctionPb.order_of in Hl. cbn in Hl.
  unfold FunctionPb.message_bytes. cbn. rewrite !zlen_app.
  pose proof (number_short 8 id). pose proof (bytes_short 26 s 100 ltac:(lia)).
  assert (Hf : Forall (fun e => short_entry e.1 e.2) l).
  { rewrite Hl. apply map_Forall_to_list in Hmd. eapply Forall_impl; [exact Hmd|]. by intros [k v]. }
  pose proof (metadata_short l Hf) as Hm.
  apply Permutation_length in Hl. rewrite length_map_to_list in Hl.
  change (default ∅ md) with (FunctionPb.map_entries md) in Hl. lia.
Qed.
End random.

(** ** Properties *)

Lemma mqtt_skips m u1 u2 : MqttPb.wf_message m -> unknowns 3 u1 -> unknowns 3 u2 ->
  zlen (u1 ++ MqttPb.message_bytes m ++ u2) < 2 ^ 63 ->
  MqttPb.Message_Unmarshal MqttPb.zero_Message (u1 ++ MqttPb.message_bytes m ++ u2) = Ok (MqttPb.normal_message m).
Proof.
  intros Hm H1 H2 Hl. assert (Hu : forall x u, unknowns 3 u -> reads MqttPb.message_field x u x).
  { intros x u. apply reads_unknown; [lia|]. intros num wt d idx Hn. unfold MqttPb.message_field.
    by rewrite !(proj2 (Z.eqb_neq _ _)) by lia. }
  apply reads_unmarshal; [|done]. eapply reads_app; [by apply Hu|]. eapply reads_app; [|by apply Hu].
  apply MqttPb.message_reads; [done|]. rewrite !zlen_app in Hl. pose proof (zlen_nonneg u1). pose proof (zlen_nonneg u2). lia.
Qed.

Lemma function_skips m l u1 u2 : in_u 64 (FunctionPb.ID m) -> unknowns 4 u1 -> unknowns 4 u2 ->
  zlen (u1 ++ FunctionPb.message_bytes l m ++ u2) < 2 ^ 63 ->
  FunctionPb.Unmarshal FunctionPb.zero_Message (u1 ++ FunctionPb.message_bytes l m ++ u2) =
    Ok (FunctionPb.normal_message l m).
Proof.
  intros Hm H1 H2 Hl. assert (Hu : forall x u, unknowns 4 u -> reads FunctionPb.message_field x u x).
  { intros x u. apply reads_unknown; [lia|]. intros num wt d idx Hn. unfold FunctionPb.message_field.
    by rewrite !(proj2 (Z.eqb_neq _ _)) by lia. }
  apply reads_unmarshal; [|done]. eapply reads_app; [by apply Hu|]. eapply reads_app; [|by apply Hu].
  by apply FunctionPb.function_reads.
Qed.

(** C40. Both decoders skip fields that their messages do not have, of any wire type but groups,
    before and behind the message, as a later version of the protocol would add them;
    and whatever the source of randomness, what [NewPopulatedMessage] and
    [randUnrecognized] make is such a message and such fields, and is read back. *)
Theorem unknown_fields_skipped :
  (forall m u1 u2, MqttPb.wf_message m -> unknowns 3 u1 -> unknowns 3 u2 ->
     zlen (u1 ++ MqttPb.message_bytes m ++ u2) < 2 ^ 63 ->
     MqttPb.Message_Unmarshal MqttPb.zero_Message (u1 ++ MqttPb.message_bytes m ++ u2) =
     Ok (MqttPb.normal_message m)) /\
  (forall m l u1 u2, in_u 64 (FunctionPb.ID m) -> unknowns 4 u1 -> unknowns 4 u2 ->
     zlen (u1 ++ FunctionPb.message_bytes l m ++ u2) < 2 ^ 63 ->
     FunctionPb.Unmarshal FunctionPb.zero_Message (u1 ++ FunctionPb.message_bytes l m ++ u2) =
     Ok (FunctionPb.normal_message l m)) /\
  (forall R `(RandLaws R) (r : R) easy,
     let '(m, r1) := NewPopulatedMessage easy r in
     let '(u, r2) := randUnrecognized 3 r1 in
     let '(f, r3) := Function_NewPopulatedMessage easy r2 in
     let '(v, _) := randUnrecognizedFunction 4 r3 in
     MqttPb.Message_Unmarshal MqttPb.zero_Message (MqttPb.message_bytes m ++ u) = Ok (MqttPb.normal_message m) /\
     forall l, FunctionPb.order_of f l ->
       FunctionPb.Unmarshal FunctionPb.zero_Message (FunctionPb.message_bytes l f ++ v) =
       Ok (FunctionPb.normal_message l f)).
Proof.
  split; [exact mqtt_skips|]. split; [exact function_skips|]. intros R HR HL r easy.
  pose proof (makes_message easy r) as Hm. destruct (NewPopulatedMessage easy r) as [m r1].
  pose proof (makes_unrecognized 3 ltac:(lia) r1) as Hu. destruct (randUnrecognized 3 r1) as [u r2].
  pose proof (makes_function easy r2) as Hf. destruct (Function_NewPopulatedMessage easy r2) as [f r3].
  pose proof (makes_unrecognized 4 ltac:(lia) r3) as Hv.
  change (randUnrecognized 4 r3) with (randUnrecognizedFunction 4 r3) in Hv. destruct (randUnrecognizedFunction 4 r3) as [v r4].
  cbn in Hm, Hu, Hf, Hv. destruct Hm as [Hm Hml], Hu as [Hu Hul], Hf as [Hf Hfl], Hv as [Hv Hvl]. split.
  - apply (mqtt_skips m []); [done|constructor|done|]. cbn [app]. rewrite zlen_app. lia.
  - intros l Hl. specialize (Hfl l Hl). apply (function_skips f l []); [done|constructor|done|].
    cbn [app]. rewrite zlen_app. lia.
Qed.

(** ** Witness *)

(** A source that gives the middle of every range. *)
#[export] Instance middle : Rand unit := {
  Uint32 _ := (2 ^ 31, tt); Int63 _ := (2 ^ 62, tt); Intn n _ := (n / 2, tt)
}.
#[export] Instance middle_laws : RandLaws unit.
Proof.
  split; cbn; intros; unfold in_u; try lia. pose proof (Z.div_pos n 2). pose proof (Z.div_lt n 2). lia.
Qed.

Lemma unknown_fields_skipped_witness : exists m r1 u r2,
  NewPopulatedMessage false tt = (m, r1) /\ randUnrecognized 3 r1 = (u, r2) /\ zlen u = 106 /\
  MqttPb.Message_Unmarshal MqttPb.zero_Message (MqttPb.message_bytes m ++ u) = Ok (MqttPb.normal_message m).
Proof.
  pose proof (proj2 (proj2 unknown_fields_skipped) unit middle middle_laws tt false) as Hr.
  destruct (NewPopulatedMessage false tt) as [m r1] eqn:E1. destruct (randUnrecognized 3 r1) as [u r2] eqn:E2.
  destruct (Function_NewPopulatedMessage false r2) as [f r3]. destruct (randUnrecognizedFunction 4 r3) as [v r4].
  exists m, r1, u, r2. split; [reflexivity|]. split; [exact E2|]. split; [|exact (proj1 Hr)].
  destruct r1. vm_compute in E2. injection E2 as <- _. vm_compute. reflexivity.
Defined.
