(* ===== verification/DmNet.v ===== *)
(** * dmcontext and mqtt: a driver on the network

    The client of a driver (MqttSession) calls the observer of the driver
    (dmcontext/observer.go) from the receiver of each of its connections; the observer puts
    messages into the channels of the devices (DmRun). The two as one system: what the
    broker is told of the messages that the devices get, and of those that are lost. *)

From Stdlib Require Import Lia String.
From stdpp Require Import base option list strings gmap relations.
From S2P Require Import Prelude MqttPacket MqttClient MqttStream MqttSession GoValue DmTypes SpecMessage.
From S2P Require Import DmObserver DmContext.
From S2P Require DmRun.

Local Open Scope string_scope.
Local Open Scope Z_scope.
Local Open Scope list_scope.

Section net.
(** The client, as in MqttSession. *)
Context {C : Type} (ops : ClientOptions C) (settle : future -> future -> future).
Context (settle_law : forall f new, settle f new = new \/ settle f new = f).
(** The driver, as in DmRun. *)
Context (ParseFloat : string -> Z -> outcome float64) (order : gmap string GoVal -> list (string * GoVal))
  (exact_blink plain_blink : LazyValue BlinkContent -> outcome BlinkContent)
  (plain_event : LazyValue BlinkContent -> outcome Event)
  (exact_shadow : LazyValue BlinkContent -> outcome (option DeviceShadow)).
Abbreviation Msg := (SpecMessage.Message BlinkContent).
Context (Unmarshal : list byte -> outcome Msg) (c0 : DmCtx).

Abbreviation sstep := (MqttSession.step ops settle).
Abbreviation rstep := (DmRun.step ParseFloat order exact_blink plain_blink plain_event exact_shadow Unmarshal c0).
Abbreviation take := (DmRun.take ParseFloat order exact_blink plain_blink plain_event exact_shadow).

(** ** The system *)

(** A message the observer was called with: the connection, the packet's identifier, and
    the channels at that moment. *)
Record Offer := { o_stream : nat; o_id : Z; o_msg : PubMessage; o_chs : gmap string (list Msg) }.

Record Net := { session : System; running : DmRun.Running; offered : list Offer }.

(** After [NewContext]: the client runs, and there are no channels until [DmCtx.Start]. *)
Definition init : Net :=
  {| session := MqttSession.init; running := DmRun.created; offered := [] |}.

(** The receiver of connection [i] handles the packet it has: after the Connack the observer
    is called with a Publish. The observer returns no error, whatever it did. *)
Definition handle_packet (i : nat) (st : Stream) (p : Packet) (d : Net) : Net :=
  let session := set_stream i (handle ops settle None p st) (session d) in
  match p, connacked st with
  | Publish id _ m, true =>
      {| session := session; running := DmRun.publish Unmarshal m (running d);
         offered := offered d ++ [{| o_stream := i; o_id := id; o_msg := m;
                                     o_chs := DmRun.msgChs (running d) |}] |}
  | _, _ => {| session := session; running := running d; offered := offered d |}
  end.

(** Receivers that have a packet keep it. *)
Definition quiet (s s' : System) : Prop :=
  forall i st p, streams s !! i = Some st -> reader st = Handling p ->
  exists st', streams s' !! i = Some st' /\ reader st' = Handling p.

Inductive step (d : Net) : Net -> Prop :=
  | n_packet i st p : streams (session d) !! i = Some st -> reader st = Handling p ->
      step d (handle_packet i st p d)
  | n_session s' : sstep (session d) s' -> quiet (session d) s' ->
      step d {| session := s'; running := running d; offered := offered d |}
  | n_start dev : dev ∈ dom (devices c0) -> DmRun.msgChs (running d) !! dev = None ->
      step d {| session := session d; running := DmRun.make_channel dev (running d); offered := offered d |}
  | n_take dev msg rest ready c : DmRun.msgChs (running d) !! dev = Some (msg :: rest) ->
      DmRun.same_driver c0 c ->
      step d {| session := session d; running := take dev msg rest ready c (running d);
                offered := offered d |}.

(** ** What is said of it *)

Definition publishes (l : list Packet) : list (Z * PubMessage) :=
  omap (fun p => match p with Publish id _ m => Some (id, m) | _ => None end) l.
(** What the observer was called with on one connection. *)
Definition offered_on (i : nat) (l : list Offer) : list (Z * PubMessage) :=
  omap (fun o => if decide (o_stream o = i) then Some (o_id o, o_msg o) else None) l.
(** The acknowledgements of messages of quality one. *)
Definition acks (l : list (Z * PubMessage)) : list Packet :=
  omap (fun e => if negb (DisableAutoAck ops) && (QOS e.2 =? 1) then Some (Puback e.1) else None) l.
(** What an offer puts into a channel. *)
Definition enters (o : Offer) : option (string * Msg * PubMessage) :=
  '(dev, m) ← DmRun.accepts Unmarshal (o_chs o) (o_msg o); Some (dev, m, o_msg o).

(** The first packet of a connection is taken for its Connack. *)
Definition in_hand (st : Stream) : list (Z * PubMessage) :=
  match reader st with Handling p => if connacked st then publishes [p] else [] | _ => [] end.

Lemma publishes_app l k : publishes (l ++ k) = publishes l ++ publishes k.
Proof. apply omap_app. Qed.
Lemma acks_app l k : acks (l ++ k) = acks l ++ acks k.
Proof. apply omap_app. Qed.
Lemma acks_one id d m : acks (publishes [Publish id d m]) =
  if negb (DisableAutoAck ops) && (QOS m =? 1) then [Puback id] else [].
Proof. unfold acks. cbn. by destruct (_ && _). Qed.
Lemma offered_on_snoc i l o : offered_on i (l ++ [o]) =
  offered_on i l ++ if decide (o_stream o = i) then [(o_id o, o_msg o)] else [].
Proof. unfold offered_on. rewrite omap_app. cbn. by case_decide. Qed.
#[local] Arguments publishes : simpl never.
#[local] Arguments acks : simpl never.
#[local] Arguments offered_on : simpl never.
#[local] Arguments from : simpl never.

(** ** One connection *)

(** What was received, what was offered, what was acknowledged. *)
Record link (st : Stream) (off : list (Z * PubMessage)) : Prop := {
  k_received : publishes (tail (received st)) = off ++ in_hand st;
  k_first : connacked st = true -> received st <> [];
  k_acks : match reader st with
           | Acking id => acks off = from FromReader (wire st) ++ [Puback id]
           | RDie _ | REnded => from FromReader (wire st) `prefix_of` acks off
           | _ => acks off = from FromReader (wire st)
           end
}.

(** A step of another goroutine than the receiver. *)
Record apart (st st' : Stream) : Prop := {
  a_received : received st' = received st;
  a_connacked : connacked st' = connacked st;
  a_acks : from FromReader (wire st') = from FromReader (wire st);
  a_reader : reader st' = reader st \/ reader st = RNone /\ reader st' = Receiving
}.

Lemma apart_refl st : apart st st.
Proof. constructor; auto. Qed.

Lemma link_apart st st' off : apart st st' -> link st off -> link st' off.
Proof.
  intros [Hr Hc Ha Hrd] [L1 L2 L3]. unfold in_hand in *.
  constructor; unfold in_hand; rewrite ?Hr, ?Hc, ?Ha; try done.
  - destruct Hrd as [-> |[Hn ->]]; [done|]. by rewrite Hn in L1.
  - destruct Hrd as [-> |[Hn ->]]; [done|]. by rewrite Hn in L3.
Qed.

Lemma apart_put o p st : o <> FromReader -> apart st (put o p st).
Proof. intros Ho. constructor; cbn; auto. by rewrite from_snoc, decide_False, app_nil_r. Qed.

Lemma die_apart st f st' f' : die_step settle st f st' f' -> apart st st'.
Proof. destruct 1; first [by apply apart_put|constructor; cbn; auto]. Qed.

(** A goroutine of the connection moves, and if it is the receiver, not over a packet. *)
Lemma link_step st st' off : reader_ok st -> stream_step ops settle st st' ->
  (forall p, reader st = Handling p -> reader st' = Handling p) -> link st off -> link st' off.
Proof.
  intros Hok Hs Hq Hl.
  destruct Hs as [p Hp|e Hp|p uerr Hp|id Hp Ho|id e Hp|f st' f' Hp Hd|Hp|Hp|Hp Ho|e Hp|Hp|Hp Hdy|f st' f' Hp Hd|Hp].
  - destruct Hl as [L1 L2 L3]. unfold in_hand in *. rewrite Hp, app_nil_r in *.
    destruct Hok as [_ _ Hsil _ _]. rewrite Hp in Hsil.
    constructor; unfold in_hand; cbn; [|by destruct (received st)|done].
    destruct (connacked st) eqn:Hk.
    + destruct (received st) as [|x l]; [by destruct (L2 eq_refl)|]. cbn in *. by rewrite publishes_app, L1.
    + rewrite Hsil in L1 |- * by done. by rewrite app_nil_r.
  - destruct Hl as [L1 L2 L3]. unfold in_hand in *. rewrite Hp in *.
    constructor; unfold in_hand; cbn; try done. by rewrite L3.
  - exfalso. specialize (Hq p Hp). revert Hq. unfold handle. repeat case_match; done.
  - destruct Hl as [L1 L2 L3]. unfold in_hand in *. rewrite Hp in *.
    constructor; unfold in_hand; cbn; try done. by rewrite from_snoc, decide_True.
  - destruct Hl as [L1 L2 L3]. unfold in_hand in *. rewrite Hp in *.
    constructor; unfold in_hand; cbn; try done. rewrite L3. by apply prefix_app_r.
  - apply die_apart in Hd. apply (link_apart _ _ _ Hd) in Hl as [L1 L2 L3].
    destruct Hd as [_ _ _ Hd]. unfold in_hand in *.
    assert (Hr : reader st' = RDie f) by (destruct Hd as [-> |[? _]]; congruence). rewrite Hr in *.
    by constructor.
  - destruct Hl as [L1 L2 L3]. unfold in_hand in *. rewrite Hp in *. by constructor.
  - eapply link_apart; [|done]. constructor; cbn; auto.
  - eapply link_apart; [|done]. constructor; cbn; auto. by rewrite from_snoc, decide_False, app_nil_r.
  - eapply link_apart; [|done]. constructor; cbn; auto.
  - eapply link_apart; [|done]. constructor; cbn; auto.
  - eapply link_apart; [|done]. constructor; cbn; auto.
  - apply die_apart in Hd. apply (link_apart _ _ _ Hd) in Hl. eapply link_apart; [|done]. constructor; cbn; auto.
  - eapply link_apart; [|done]. constructor; cbn; auto.
Qed.

(** The receiver handles its packet. *)
Lemma link_handle st p off : reader_ok st -> reader st = Handling p -> link st off ->
  link (handle ops settle None p st) (off ++ in_hand st).
Proof.
  intros [_ _ Hsil Hin _] Hp [L1 L2 L3]. unfold in_hand in *. rewrite Hp in *. specialize (Hin p eq_refl).
  unfold handle. destruct (connacked st) eqn:Hk; cbn [negb].
  - assert (Hne : received st <> []) by auto.
    destruct p as [c|code|id d m|id|id subs|id codes|id topics|id| | |];
      repeat case_match; constructor; unfold in_hand; cbn; rewrite ?app_nil_r in *; try done.
    all: try by rewrite L3.
    all: rewrite acks_app, L3, acks_one.
    all: match goal with H : (negb _ && _)%bool = _ |- _ => rewrite H end; by rewrite ?app_nil_r.
  - rewrite (Hsil eq_refl), app_nil_r in *.
    destruct (onConnack p); constructor; unfold in_hand; cbn; rewrite ?(Hsil eq_refl), ?app_nil_r; try done.
    by rewrite L3.
Qed.

(** ** All connections *)

Lemma on_apart i f s : (forall st, streams s !! i = Some st -> apart st (f st)) ->
  forall j st', alter f i (streams s) !! j = Some st' -> exists st, streams s !! j = Some st /\ apart st st'.
Proof.
  intros Hf j st'. rewrite list_lookup_alter. case_decide as Hj; [subst j|].
  - destruct (streams s !! i) as [st|] eqn:Hst; [|done]. intros [= <-]. eauto.
  - intros Hst. exists st'. split; [done|apply apart_refl].
Qed.

(** The goroutine of the client leaves the receivers alone, but for the one it starts. *)
Lemma loop_apart s s' : inv ops s -> loop ops settle s s' -> forall j st', streams s' !! j = Some st' ->
  (exists st, streams s !! j = Some st /\ apart st st') \/ (j = length (streams s) /\ st' = new_stream).
Proof.
  intros Hi Hl j st'.
  assert (Hsame : streams s !! j = Some st' -> (exists st, streams s !! j = Some st /\ apart st st') \/
    (j = length (streams s) /\ st' = new_stream)) by (intros ?; left; exists st'; split; [done|apply apart_refl]).
  destruct Hl as [Ha Hd|Ha|Ha|Ha|i Ha|i Ha|i Ha|i st Ha|i st Ha|i Ha|i st Ha|i e Ha|i Ha|i p l Ha Hc|i p st Ha Hst Ho
    |i p e Ha|i Ha Hd|i st Ha Hst Hd|i Ha|i Ha|i st Ha|i f q st st2 f' Hd Hst Hs]; cbn; try exact Hsame.
  - intros [Hst|[Hj [Hz <-]%list_lookup_singleton_Some]]%lookup_app_Some; [by apply Hsame|].
    right. split; [lia|done].
  - intros Hst. left. revert Hst. apply on_apart. intros st Hst.
    destruct (v_at _ _ Hi i) as (_ & st0 & Hst0 & Hok); [by rewrite Ha|]. rewrite Ha in Hok.
    cbn in Hok. simplify_eq. constructor; cbn; auto.
  - intros Hst. left. revert Hst. apply on_apart. intros st _. constructor; cbn; auto.
  - intros Hst. left. revert Hst. apply on_apart. intros st _. constructor; cbn; auto.
  - case_bool_decide; exact Hsame.
  - intros Hst. left. revert Hst. apply on_apart. intros st2 _. by apply apart_put.
  - intros Hst. left. revert Hst. apply on_apart. intros st _. constructor; cbn; auto.
  - intros Hst2. left. revert Hst2. apply on_apart. intros st2 _. by apply apart_put.
  - intros Hst2. left. revert Hst2. apply on_apart. intros st3 Hst3. simplify_eq. by eapply die_apart.
Qed.

(** ** The invariant *)

Lemma session_links s s' (off : nat -> list (Z * PubMessage)) : inv ops s -> sstep s s' -> quiet s s' ->
  (forall i st, streams s !! i = Some st -> link st (off i)) ->
  (forall i, (length (streams s) <= i)%nat -> off i = []) ->
  forall i st', streams s' !! i = Some st' -> link st' (off i).
Proof.
  intros Hi Hs Hq Hl Ho i st' Hst'. destruct Hs as [p c Hs|p H1 H2 H3| |s0 Hlo|j st st2 Hst Hs]; auto.
  - destruct (loop_apart s s0 Hi Hlo i st' Hst') as [(st & Hst & Ha)|[-> ->]]; [by eapply link_apart; eauto|].
    rewrite Ho by done. by constructor.
  - cbn in Hst'. rewrite list_lookup_alter in Hst'. case_decide as Hj; [subst j|by auto].
    rewrite Hst in Hst'. injection Hst' as <-. eapply (link_step st); [|done| |by apply Hl].
    + by destruct (v_streams _ _ Hi i st Hst).
    + intros p Hp. destruct (Hq i st p Hst Hp) as (st3 & Hst3 & Hp3). cbn in Hst3.
      rewrite list_lookup_alter_eq, Hst in Hst3. by injection Hst3 as <-.
Qed.

Lemma streams_grow s s' : sstep s s' -> (length (streams s) <= length (streams s'))%nat.
Proof.
  destruct 1 as [p c Hs|p H1 H2 H3| |s0 Hl|i st st' Hst Hs]; try done.
  - destruct Hl; cbn; rewrite ?length_alter, ?length_app; try case_bool_decide; cbn; lia.
  - cbn. by rewrite length_alter.
Qed.

(** What a channel had when a message was offered to it. *)
Definition channels_ok (chs : gmap string (list Msg)) : Prop :=
  map_Forall (fun _ ch => (length ch <= channel_size)%nat) chs.
(** The channels there were at an offer are there at the later ones. *)
Definition channels_stay (l : list Offer) (r : DmRun.Running) : Prop :=
  Forall (fun o => dom (o_chs o) ⊆ dom (DmRun.msgChs r)) l /\
  forall i j o o', l !! i = Some o -> l !! j = Some o' -> (i <= j)%nat -> dom (o_chs o) ⊆ dom (o_chs o').

Record net_inv (d : Net) : Prop := {
  n_sess : rtc sstep MqttSession.init (session d);
  n_run : rtc rstep DmRun.created (running d);
  n_link i st : streams (session d) !! i = Some st -> link st (offered_on i (offered d));
  n_index : Forall (fun o => o_stream o < length (streams (session d)))%nat (offered d);
  n_arrived : DmRun.arrived (running d) = omap enters (offered d);
  n_chs : Forall (fun o => channels_ok (o_chs o)) (offered d);
  n_stay : channels_stay (offered d) (running d)
}.

Lemma running_channels r : rtc rstep DmRun.created r -> channels_ok (DmRun.msgChs r).
Proof. intros Hr. destruct (DmRun.running_inv _ _ _ _ _ _ _ _ _ Hr) as [_ Hs _ _ _]. exact Hs. Qed.

Lemma channels_kept r r' : rstep r r' -> dom (DmRun.msgChs r) ⊆ dom (DmRun.msgChs r').
Proof.
  assert (Hin : forall dev q (m : gmap string (list Msg)), dom m ⊆ dom (<[dev := q]> m))
    by (intros; rewrite dom_insert_L; apply union_subseteq_r).
  destruct 1 as [dev r Hd Hn|pkt r|dev msg rest ready c r Hch Hc]; cbn [DmRun.msgChs DmRun.make_channel DmRun.publish DmRun.take];
    [apply Hin| |apply Hin].
  rewrite DmRun.OnPublish_accepts. destruct (DmRun.accepts _ _ _) as [[dev m]|]; [apply Hin|done].
Qed.

Lemma stay_step l r r' : rstep r r' -> channels_stay l r -> channels_stay l r'.
Proof.
  intros Hr [Hl Ho]. split; [|done]. apply channels_kept in Hr.
  apply (Forall_impl _ _ _ Hl). intros o Hle. by transitivity (dom (DmRun.msgChs r)).
Qed.

Lemma stay_offer l r o : o_chs o = DmRun.msgChs r -> channels_stay l r -> channels_stay (l ++ [o]) r.
Proof.
  intros Heq [Hl Ho]. split.
  - apply Forall_app. split; [done|]. apply Forall_singleton. by rewrite Heq.
  - intros i j x y Hx Hy Hij. apply lookup_app_Some in Hy as [Hy|[Hle Hy]].
    + rewrite lookup_app_l in Hx by (apply lookup_lt_Some in Hy; lia). by eapply Ho.
    + apply list_lookup_singleton_Some in Hy as [_ <-]. rewrite Heq.
      apply lookup_app_Some in Hx as [Hx|[_ Hx]]; [by apply (Forall_lookup_1 _ _ _ _ Hl Hx)|].
      apply list_lookup_singleton_Some in Hx as [_ <-]. by rewrite Heq.
Qed.

Lemma none_offered i l n : Forall (fun o => o_stream o < n)%nat l -> (n <= i)%nat -> offered_on i l = [].
Proof.
  intros Hl Hn. induction Hl as [|o l Ho _ IH]; [done|]. unfold offered_on in *. cbn.
  rewrite decide_False by lia. done.
Qed.

Lemma net_inv_session d s' : net_inv d -> sstep (session d) s' -> quiet (session d) s' ->
  net_inv {| session := s'; running := running d; offered := offered d |}.
Proof.
  intros [Hs Hr Hl Hi Ha Hc Hk] Hst Hq. constructor; cbn; try done.
  - by eapply rtc_r.
  - eapply session_links; [by eapply session_inv|done..|]. intros i Hle. by eapply none_offered.
  - apply streams_grow in Hst. apply (Forall_impl _ _ _ Hi). cbn. intros o Ho. lia.
Qed.

Lemma handled_session d i st p : streams (session d) !! i = Some st -> reader st = Handling p ->
  rtc sstep MqttSession.init (session d) ->
  rtc sstep MqttSession.init (set_stream i (handle ops settle None p st) (session d)).
Proof. intros Hst Hp Hr. eapply rtc_r; [done|]. eapply s_stream; [done|]. by apply rd_handle. Qed.

Lemma net_inv_packet d i st p : net_inv d -> streams (session d) !! i = Some st -> reader st = Handling p ->
  net_inv (handle_packet i st p d).
Proof.
  intros [Hs Hr Hl Hi Ha Hc Hstay] Hst Hp.
  assert (Hok : reader_ok st) by by destruct (v_streams _ _ (session_inv ops settle settle_law _ Hs) i st Hst).
  assert (Hin : forall id dup m, p = Publish id dup m -> connacked st = true -> in_hand st = [(id, m)])
    by (intros id dup m -> Hk; unfold in_hand; by rewrite Hp, Hk).
  assert (Hno : (forall id dup m, p <> Publish id dup m) \/ connacked st = false -> in_hand st = []).
  { intros Hn. unfold in_hand. rewrite Hp. destruct (connacked st); [|done].
    destruct Hn as [Hn|]; [|done]. destruct p; try done. by destruct (Hn ID Dup Message). }
  pose proof (link_handle st p _ Hok Hp (Hl i st Hst)) as Hlink.
  pose proof (handled_session d i st p Hst Hp Hs) as Hs'.
  assert (Hquiet : in_hand st = [] -> net_inv {| session := set_stream i (handle ops settle None p st) (session d);
    running := running d; offered := offered d |}).
  { intros Hn. constructor; cbn; try done.
    - intros j x. rewrite list_lookup_alter. case_decide as Hj; [subst j|by apply Hl].
      rewrite Hst. intros [= <-]. by rewrite Hn, app_nil_r in Hlink.
    - by rewrite length_alter. }
  unfold handle_packet. destruct p as [c|code|id dup m|id|id subs|id codes|id topics|id| | |]; try (apply Hquiet, Hno; by left).
  destruct (connacked st) eqn:Hk; [|apply Hquiet, Hno; by right].
  rewrite (Hin id dup m) in Hlink by done. constructor; cbn; try done.
  - eapply rtc_r; [done|]. apply DmRun.step_publish.
  - intros j x. rewrite offered_on_snoc. cbn. destruct (decide (i = j)) as [<-|Hj].
    + rewrite list_lookup_alter_eq, Hst. by intros [= <-].
    + rewrite list_lookup_alter_ne, app_nil_r by done. apply Hl.
  - rewrite length_alter. apply Forall_app. split; [done|]. apply Forall_singleton. cbn.
    by apply lookup_lt_Some in Hst.
  - rewrite omap_app, Ha. cbn. unfold enters at 3. cbn.
    by destruct (DmRun.accepts _ _ _) as [[dev m']|].
  - apply Forall_app. split; [done|]. apply Forall_singleton. cbn. by apply running_channels.
  - eapply stay_step; [apply DmRun.step_publish|]. by apply stay_offer.
Qed.

Lemma net_inv_step d d' : step d d' -> net_inv d -> net_inv d'.
Proof.
  destruct 1 as [i st p Hst Hp|s' Hs Hq|dev Hd Hch|dev msg rest ready c Hch Hc]; intros Hn.
  - by apply net_inv_packet.
  - by apply net_inv_session.
  - assert (Hr : rstep (running d) (DmRun.make_channel dev (running d))) by by apply DmRun.step_start.
    destruct Hn. constructor; cbn; try done; [by eapply rtc_r|by eapply stay_step].
  - assert (Hr : rstep (running d) (take dev msg rest ready c (running d))) by by apply DmRun.step_take.
    destruct Hn. constructor; cbn; try done; [by eapply rtc_r|by eapply stay_step].
Qed.

Lemma net_inv_reachable d : rtc step init d -> net_inv d.
Proof.
  intros Hr. refine (rtc_preserves step net_inv _ _ _ Hr _).
  - intros x y ? ?. by eapply net_inv_step.
  - by constructor; cbn.
Qed.

(** Why a message can be lost: it cannot be read; its device is not configured; [Start] has
    not come to the device yet; its channel is full. *)
Definition lost (o : Offer) : Prop :=
  is_ok (ParseDeviceTopic (MqttPacket.Topic (o_msg o))) = false \/
  is_ok (Unmarshal (MqttPacket.Payload (o_msg o))) = false \/
  exists dev, ParseDeviceTopic (MqttPacket.Topic (o_msg o)) = Ok dev /\
    (devices c0 !! dev = None \/
     is_Some (devices c0 !! dev) /\ o_chs o !! dev = None \/
     exists ch, o_chs o !! dev = Some ch /\ length ch = channel_size).

Lemma not_entered o : channels_ok (o_chs o) -> enters o = None -> lost o.
Proof.
  intros Hs. unfold enters, DmRun.accepts, lost.
  destruct (ParseDeviceTopic _) as [dev| | |]; [|by left..].
  destruct (Unmarshal _) as [m| | |]; [|by right; left..]. intros Hn. right. right. exists dev. split; [done|].
  destruct (o_chs o !! dev) as [ch|] eqn:Hch.
  - right. right. exists ch. split; [done|]. specialize (Hs _ _ Hch). cbn in Hs.
    destruct (length ch <? channel_size)%nat eqn:Hl; [done|]. apply Nat.ltb_ge in Hl. lia.
  - destruct (devices c0 !! dev) as [x|]; [right; left; split; [by exists x|done]|by left].
Qed.

(** A message that comes before its channel is made is acknowledged like any other, and lost. *)
Lemma early_acknowledged d i st id dup m dev :
  streams (session d) !! i = Some st -> reader st = Handling (Publish id dup m) -> connacked st = true ->
  DisableAutoAck ops = false -> QOS m = 1 -> ParseDeviceTopic (MqttPacket.Topic m) = Ok dev ->
  DmRun.msgChs (running d) !! dev = None ->
  exists d' st', step d d' /\ running d' = running d /\ streams (session d') !! i = Some st' /\
    reader st' = Acking id.
Proof.
  intros Hst Hr Hk Ha Hq Ht Hch.
  assert (Hn : DmRun.accepts Unmarshal (DmRun.msgChs (running d)) m = None).
  { unfold DmRun.accepts. rewrite Ht, Hch. by destruct (Unmarshal _). }
  exists (handle_packet i st (Publish id dup m) d), (set_reader (Acking id) st).
  split; [by apply n_packet|]. unfold handle_packet. rewrite Hk. cbn [running session streams set_stream on].
  split; [|split].
  - unfold DmRun.publish. rewrite DmRun.OnPublish_accepts, Hn, app_nil_r. by destruct (running d).
  - rewrite list_lookup_alter_eq, Hst. cbn. unfold handle. by rewrite Hk, Ha, Hq.
  - done.
Qed.

(** A message whose channel is full is acknowledged like any other, and lost. *)
Lemma full_channel_acknowledged d i st id dup m dev msg ch :
  streams (session d) !! i = Some st -> reader st = Handling (Publish id dup m) -> connacked st = true ->
  DisableAutoAck ops = false -> QOS m = 1 -> ParseDeviceTopic (MqttPacket.Topic m) = Ok dev ->
  Unmarshal (MqttPacket.Payload m) = Ok msg -> DmRun.msgChs (running d) !! dev = Some ch ->
  (channel_size <= length ch)%nat ->
  exists d' st', step d d' /\ running d' = running d /\ streams (session d') !! i = Some st' /\
    reader st' = Acking id.
Proof.
  intros Hst Hr Hk Ha Hq Ht Hu Hch Hl.
  exists (handle_packet i st (Publish id dup m) d), (set_reader (Acking id) st).
  split; [by apply n_packet|]. unfold handle_packet. rewrite Hk. cbn [running session streams set_stream on].
  split; [|split].
  - unfold DmRun.publish, DmRun.accepts. rewrite Ht, Hu, Hch, (proj2 (Nat.ltb_ge _ _)), app_nil_r by done.
    rewrite DmRun.OnPublish_accepts. unfold DmRun.accepts. rewrite Ht, Hu, Hch, (proj2 (Nat.ltb_ge _ _)) by done.
    by destruct (running d).
  - rewrite list_lookup_alter_eq, Hst. cbn. unfold handle. by rewrite Hk, Ha, Hq.
  - done.
Qed.

(** ** Properties *)

(** C9. In every interleaving of the client, its connections, the loop of [DmCtx.Start] and the
    goroutines of the devices: the driver with its client is the two of them, runs of the
    one and of the other; the observer is called, for each connection in the order of
    their arrival, with exactly the messages received on it after the Connack, but for one
    in hand; the acknowledgements on it answer, in that order, messages of quality one that
    it was called with; what arrives in the channels is what it was called with, in order,
    except messages with a topic or payload that cannot be read, for devices that are not
    configured, for devices whose channel [Start] had not made yet, or whose channel was
    full; a channel that was there for one message is there for all that follow. *)
Theorem broker_to_driver d : rtc step init d ->
  rtc sstep MqttSession.init (session d) /\ rtc rstep DmRun.created (running d) /\
  (forall i st, streams (session d) !! i = Some st ->
     publishes (tail (received st)) = offered_on i (offered d) ++ in_hand st /\
     from FromReader (wire st) `prefix_of` acks (offered_on i (offered d))) /\
  DmRun.arrived (running d) = omap enters (offered d) /\
  Forall (fun o => enters o = None -> lost o) (offered d) /\
  (forall i j o o', offered d !! i = Some o -> offered d !! j = Some o' -> (i <= j)%nat ->
     dom (o_chs o) ⊆ dom (o_chs o')).
Proof.
  intros [Hs Hr Hl _ Ha Hc [_ Hk]]%net_inv_reachable. split; [done|]. split; [done|].
  split; [|split; [done|split; [|done]]].
  - intros i st Hst. destruct (Hl i st Hst) as [L1 _ L3]. split; [done|].
    destruct (reader st); rewrite ?L3; try done. by apply prefix_app_r.
  - apply (Forall_impl _ _ _ Hc). intros o Ho. by apply not_entered.
Qed.
End net.

(** ** Examples *)

Abbreviation nstep :=
  (step quiet_ops keep_first (fun _ _ => Err "") map_to_list blink_t21 blink_t21 (fun _ => Err "") (fun _ => Err "")
     (fun _ => Ok delta_msg) ctx1).
Definition to_device (id : Z) (topic : string) : Packet :=
  Publish id false {| MqttPacket.Topic := topic; MqttPacket.Payload := []; MqttPacket.QOS := 1; MqttPacket.Retain := false |}.
Definition to_early : Packet := to_device 6 "$baetyl/device/d/delta".
Definition to_known : Packet := to_device 7 "$baetyl/device/d/delta".
Definition to_unknown : Packet := to_device 8 "$baetyl/device/x/delta".

Ltac quietly :=
  let i := fresh in let Hst := fresh in let Hr := fresh in
  intros i ? ? Hst Hr; destruct i as [|i]; vm_compute in Hst; try discriminate Hst;
  injection Hst as <-; vm_compute in Hr; discriminate Hr.
Tactic Notation "n_loops" uconstr(c) :=
  eapply rtc_l; [apply n_session; [apply s_loop; eapply c; premise|quietly]|]; normal.
Tactic Notation "n_runs" uconstr(c) :=
  eapply rtc_l; [apply n_session; [eapply (s_stream _ _ _ 0%nat); [vm_compute; reflexivity|eapply c; premise]|quietly]|];
  normal.
Tactic Notation "n_handles" :=
  eapply rtc_l; [eapply (n_packet _ _ _ _ _ _ _ _ _ _ _ 0%nat); vm_compute; reflexivity|]; normal.

(** A message for a configured device before [Start] has made its channel, one after that,
    and one for another device: all are acknowledged, one arrives. *)
Definition all_acknowledged (d : Net) : Prop :=
  from FromReader ∘ wire <$> streams (session d) = [[Puback 6; Puback 7; Puback 8]] /\
  o_id <$> offered d = [6; 7; 8] /\ (fun e => e.1.1) <$> DmRun.arrived (running d) = ["d"].

Lemma all_acknowledged_reachable : exists d, rtc nstep init d /\ all_acknowledged d.
Proof.
  eexists. split.
  - n_loops lo_timer. n_loops lo_dialed. n_loops lo_hello. n_loops lo_start.
    n_runs (rd_receive _ _ _ yes). n_handles.
    n_runs (rd_receive _ _ _ to_early). n_handles. n_runs rd_ack.
    eapply rtc_l; [eapply (n_start _ _ _ _ _ _ _ _ _ _ _ "d"); [by vm_compute; eexists|vm_compute; reflexivity]|]; normal.
    n_runs (rd_receive _ _ _ to_known). n_handles. n_runs rd_ack.
    n_runs (rd_receive _ _ _ to_unknown). n_handles. n_runs rd_ack.
    apply rtc_refl.
  - split; [|split]; vm_compute; reflexivity.
Qed.

Lemma broker_to_driver_witness : exists d, all_acknowledged d /\
  DmRun.arrived (running d) = omap (enters (fun _ => Ok delta_msg)) (offered d) /\
  Forall (fun o => enters (fun _ => Ok delta_msg) o = None -> lost (fun _ => Ok delta_msg) ctx1 o) (offered d).
Proof.
  destruct all_acknowledged_reachable as (d & Hr & Hd). exists d. split; [exact Hd|].
  destruct (broker_to_driver quiet_ops keep_first keep_first_law _ _ _ _ _ _ _ _ d Hr) as (_ & _ & _ & Ha & Hl & _).
  split; [exact Ha|exact Hl].
Defined.
